(* ===== verification/_CoqProject ===== *)
-Q . S2P
Prelude.v
Endian.v
ByteArray.v
ByteArrayProps.v
ByteArrayRefine.v
Util.v
Lock.v
LockProps.v
Thread.v
ThreadProps.v
Timer.v
TimerProps.v
FdManager.v
Coroutine.v
CoroutineProps.v
Scheduler.v
SchedulerLock.v
SchedulerProps.v
SchedulerWait.v
SchedulerLive.v
IOManager.v
IOManagerProps.v
IOManagerIdle.v
Hook.v
HookProps.v
Address.v
AddressProps.v
Socket.v
SocketProps.v
Stream.v
StreamProps.v
SocketTransport.v
TcpServer.v
Http.v
Ragel.v
Explore.v
Regex.v
RagelProps.v
Grammar.v
Embed.v
RequestTable.v
ResponseTable.v
RequestParser.v
RequestParserProps.v
ResponseParser.v
ResponseParserProps.v
RequestGrammar.v
ResponseGrammar.v
RequestEmbed.v
ResponseEmbed.v
HttpProps.v
HttpGetters.v
UtilSys.v
Config.v
ConfigProps.v
Log.v
LogProps.v
Servlet.v
HttpSession.v
HttpSessionProps.v
RequestRoundtrip.v
HttpServerProps.v
Uri.v
UriParser.v
UriParserProps.v
HttpConnection.v
HttpChunkedProps.v
HttpConnectionProps.v
HttpUrlProps.v
