(* ===== verification/Prelude.v ===== *)
(** * tigerkin: a verification library

    tigerkin is a C++ network framework: stackful coroutines, an N:M scheduler
    over operating-system threads, an epoll loop with timers, system calls
    hooked so that blocking code suspends its coroutine, and on top of these
    sockets, a TCP server, and HTTP on both sides.  This library models the
    framework as executable definitions, component by component, and proves
    what makes each component correct, and where it is not, what happens.

    ** The parts and how they interact

    From the bottom up (every source file is under src/src/):

    - Endian.v (endian.h): byte swapping and the byte order of the host, which
      is a parameter of everything that stores integers;
    - ByteArray.v, ByteArrayProps.v, ByteArrayRefine.v (bytearray.h,
      bytearray.cpp): the serialization buffer, a chain of fixed-size nodes
      with a cursor, and the tape that it implements;
    - Util.v, UtilSys.v (util.h, util.cpp): URL encoding and trims; and what
      util.cpp takes from the system (clock, back trace, formatting, locales);
    - Lock.v, LockProps.v (mutex.h, mutex.cpp): the locks over an interface of
      what pthread locks do, the scoped locks, the semaphore; that a critical
      section inside a scoped lock is atomic;
    - Thread.v, ThreadProps.v (thread.h, thread.cpp): threads, from the
      handshake of their constructor to their end, and condition variables;
    - Timer.v, TimerProps.v (timer.h, timer.cpp): timers and their manager;
    - FdManager.v (fdmanager.h, fdmanager.cpp): what the hooks remember about
      each descriptor;
    - Coroutine.v, CoroutineProps.v (coroutine.h, coroutine.cpp): the
      coroutines of one thread and its stacks of coroutines;
    - Scheduler.v, SchedulerProps.v, SchedulerLive.v, SchedulerLock.v,
      SchedulerWait.v (scheduler.h, scheduler.cpp): the pool of tasks shared by
      the threads, alone, under its lock, and with its condition variable; it
      asks for the state of coroutines;
    - IOManager.v, IOManagerProps.v, IOManagerIdle.v (iomanager.h,
      iomanager.cpp; the last one on a whole turn of [idle]): a scheduler
      and a timer manager whose idle threads wait in epoll; it wakes the
      coroutines that wait for a descriptor by scheduling them;
    - Hook.v, HookProps.v (hook.h, hook.cpp): the system calls that suspend
      their coroutine through timers and events, using FdManager.v;
    - Address.v, AddressProps.v (address.h, address.cpp): socket addresses;
    - Socket.v, SocketProps.v (socket.h, socket.cpp): sockets over the hooks;
    - Stream.v, StreamProps.v (stream.h, stream.cpp, stream/socket_stream.h,
      stream/socket_stream.cpp): the interface of streams, as a class of
      operations and a class of laws, and its implementation over a socket;
      SocketTransport.v: that the sockets of Socket.v, with the hooks of Hook.v
      under them, are such an implementation;
    - TcpServer.v (tcp_server.h, tcp_server.cpp);
    - Http.v, HttpProps.v, HttpGetters.v (http/http.h, http/http.cpp):
      messages, and their getters by type;
    - Config.v, ConfigProps.v (config.h, config.cpp): typed variables that a
      YAML file sets, and their registry;
    - Log.v, LogProps.v (log.h, log.cpp): levels, patterns, events, appenders,
      loggers, and the manager that reads definitions from Config.v;
    - Ragel.v, RagelProps.v: how a program that ragel generates runs (states,
      actions, the pointer into the data), and what holds of all of them;
    - RequestTable.v, RequestParser.v, RequestParserProps.v
      (http/http_request_parser.cpp, .rl, .h): the automaton of requests, its
      transitions from the generated code, its actions, and its safety;
    - ResponseTable.v, ResponseParser.v, ResponseParserProps.v
      (http/http_response_parser.cpp, .rl, .h): the same for responses;
    - Explore.v: the exploration of an automaton together with an expression;
      Regex.v, Grammar.v: regular expressions with derivatives, and the
      operators of ragel on them; RequestGrammar.v, ResponseGrammar.v: the
      productions of the two .rl files; Embed.v: grammars with the actions of
      ragel and what it is to read data against one; RequestEmbed.v,
      ResponseEmbed.v: the productions of the two files with their actions;
    - Servlet.v (http/http_servlet.h, http/http_servlet.cpp): dispatch;
    - HttpSession.v, HttpSessionProps.v, RequestRoundtrip.v, HttpServerProps.v
      (http/http_parser, http/http_session and http/http_server): the server
      side, over any stream; the last one on whole connections;
    - Uri.v (uri.h and the plain functions of uri.rl); UriParser.v,
      UriParserProps.v (the grammar of uri.rl and Uri::Create);
    - HttpConnection.v, HttpChunkedProps.v, HttpConnectionProps.v
      (http/http_connection and the response part of http/http_parser): the
      client side and its pool; HttpUrlProps.v: from a URL to the request that
      a server reads.

    A comment [[src/src/<file>:<first>-<last>] <symbol>] in front of a
    definition names the lines it translates.  Names are those of the source
    where they are free; a local part of a long function that became a
    definition of its own has a name with a suffix ([_loop], [_at], ...).

    ** How state and operations correspond

    - A C++ class is a [Record] with the members of the class; a method is a
      function of it and returns the changed record.  Objects that are shared
      (timers, coroutines, descriptor entities, epoll contexts, pooled
      connections) live in a heap ([gmap Z _]) and are named by their address,
      so aliasing and deletion are visible.  Addresses given out by [new] are
      arguments or a counter.
    - A function that can fail has the type [res] below: a normal return, a
      C++ exception, a failed assertion, undefined behaviour, or fuel that
      ran out.  No theorem takes "it returns" from a fuelled function without
      a companion that says when it does, or says itself that it does not.
    - Integers are in [Z]; [u8] to [u64] and [s32], [s64] below wrap them where
      the C++ type can.  Bytes are [Byte.byte], text is a list of [ascii].
    - What is not in src/ is an argument: the clock, [getaddrinfo],
      [getifaddrs], [fnmatch], [boost::lexical_cast], the YAML library,
      [strftime], fresh memory ([junk]) and the byte order of the host.  The
      kernel, the timers and the other coroutines are, for Hook.v, Socket.v
      and TcpServer.v, one function [env] from the history of the requests to
      an answer and an [errno]: a theorem for every [env] holds for every
      behaviour of the outside, interleavings included.
    - Locks: a critical section is one function; [critical_sections_atomic] is
      why that is enough.  Where the source releases a lock in the middle
      ([IOManager::addEvent], [Scheduler::run]) there are two functions, and
      theorems on their interleaving.  The calls of the connection pool are one
      step each, although the source deletes, counts and connects outside its
      lock.

    ** What the theorems show

    - Buffer: every sequence of typed values is read back as written, whatever
      the node size and the byte orders; the format on the wire does not
      depend on the host; [write] and [read] against the flat contents; file
      round trip; the cursor errors of [setOffset] and [clear]; and that any
      sequence of commands gives the replies of an abstract tape.
    - Locks and threads: while an exclusive scoped lock is held no other is,
      however they are used; every interleaving of critical sections is one
      of running them one after the other, and no run gets stuck; the
      constructor of a thread returns only when the thread runs on the object,
      with its id and name; the batches of [scheduleIterator] stay together.
    - Coroutines: an invariant of every reachable thread state under a stated
      discipline, from which no operation is undefined, exactly the running
      coroutine is EXECING, and control returns to the resumer; what is left
      when a switch fails.
    - Timers: in every reachable state exactly the due timers are delivered, in
      order; a cancelled timer never fires; the waiting time is exact.
    - Scheduler: the pool is a queue for each thread, and a thread ends only
      with an empty pool; what happens to a coroutine on another thread; and
      that in every interleaving a task is taken before its thread has made
      more turns than there are tasks in front of it; and the wake-up that a
      thread on its way to the condition variable misses, for good if nothing
      is scheduled and no wake-up is spurious.
    - I/O manager: the pending count is the number of registered events and
      agrees with the kernel's interest list, with the two halves of [addEvent]
      and the other calls in any order in which the vector of contexts does not
      shrink (and what its shrinking does); a waiter is woken exactly once;
      a turn of an idle thread hands over exactly the due timers and the
      waiters of the ready descriptors, whatever the other threads do meanwhile.
    - Hooks: all outcomes of a hooked call for every environment, and that it
      returns; that no timer is left; what the descriptor table records.
    - Addresses: the orders are strict total orders; prefixes; host strings.
      Sockets: the life cycle; timeouts.  Streams: the fixed-length loops
      against the interface, with what they do at end of file; and over a
      hooked socket, for every kernel and every interleaving of coroutines.
    - Configuration and logging: every variable holds a value of its type, in
      every run of the program; what loading a file assigns; the text of a
      value gives it back; which variables a second [Lookup] cuts off; patterns
      parse to the items they were written from; an event reaches exactly the
      appenders it should; the null formatter of configured loggers.
    - HTTP parsers: on every input, in any pieces, the generated request parser
      runs without a failed assertion and within the data, and calls back with
      ranges inside the data; both automata accept exactly the language of
      the productions of their .rl files (proved by derivatives, over all
      characters and lengths), and run the actions of these files at the same
      positions in the same order; a request that was printed is read back field
      by field; a header that arrives in two pieces aborts the server.
    - URIs: the characters that [Uri::Create] accepts; the fields of absolute
      URIs of any length; a URI is read back from its text; an empty port is a null
      pointer; and what a client asks for with a URL is what the server reads.
    - HTTP: the header map up to case; parameters; dispatch; the body of a
      request; chunked bodies; the accounts of the connection pool; a
      connection with keep-alive from its first request to its close, and a
      peer that closes a kept connection, for which the server spins.
    - Where the code departs from its intention the theorem states what the
      code does and its comment says so.

    ** Fuel

    The loops over nodes of the buffer get the length of what they process
    plus one as fuel, and the functional theorems prove the result is [Ret],
    so it is enough.  The loops that wait for the outside ([io_loop],
    the fixed-length loops, [header_loop], the accept loop) take fuel as an
    argument: [doSocketIo_returns] gives the bound for the first,
    [readFixLength_exact] for the second; the theorems on the others are
    about the calls that return.  The loops of the servlet dispatcher take
    fuel because they do not terminate, which is a theorem.

    ** What is not modelled

    The singleton, the assertion macros (a failed [TIGERKIN_ASSERT] is the
    [Panic] of the models; [TIGERKIN_ASSERT2] only logs, so the models go on),
    and text output for diagnostics.  The code that ragel generates
    from uri.rl is not in the repository: [Create] reads the text against the
    grammar in the way that Embed.v shows of the other two parsers.  Memory
    exhaustion is modelled only where the size comes from the network
    ([can_alloc]). *)

From stdpp Require Export base list strings gmap.
From Stdlib Require Export ZArith Lia.

Declare Scope tk_scope.
Delimit Scope tk_scope with tk.
#[global] Open Scope Z_scope.

(** ** Results of C++ code

    [Ret] is a normal return, [Throw] a C++ exception, [Panic] a failed
    [TIGERKIN_ASSERT] or [assert] (the process aborts; [TIGERKIN_ASSERT2]
    does not abort, it only logs), [Undef] undefined
    behaviour (null dereference, out-of-bounds access, use after free) and
    [OutOfFuel] says that the fuel of a loop was not enough. *)
Inductive res (A : Type) : Type :=
| Ret (a : A)
| Throw (what : string)
| Panic (what : string)
| Undef (what : string)
| OutOfFuel.
Arguments Ret {A} a.
Arguments Throw {A} what.
Arguments Panic {A} what.
Arguments Undef {A} what.
Arguments OutOfFuel {A}.

#[export] Instance res_ret : MRet res := fun A a => Ret a.
#[export] Instance res_bind : MBind res := fun A B f m =>
  match m with
  | Ret a => f a
  | Throw w => Throw w
  | Panic w => Panic w
  | Undef w => Undef w
  | OutOfFuel => OutOfFuel
  end.
#[export] Instance res_fmap : FMap res := fun A B f m => m ≫= (fun a => Ret (f a)).

#[export] Instance res_eq_dec {A} `{EqDecision A} : EqDecision (res A).
Proof. solve_decision. Defined.

(** [src/src/macro.h:33-39] TIGERKIN_ASSERT *)
Definition check (b : bool) (what : string) : res unit :=
  if b then Ret tt else Panic what.

(** A pointer that must not be null. *)
Definition deref {A} (o : option A) (what : string) : res A :=
  match o with Some a => Ret a | None => Undef what end.

Lemma bind_Ret {A B} (m : res A) (f : A → res B) b :
  m ≫= f = Ret b ↔ ∃ a, m = Ret a ∧ f a = Ret b.
Proof.
  split.
  - destruct m; simpl; try discriminate; eauto.
  - intros (a & -> & Hf); done.
Qed.

Lemma ret_bind {A B} (a : A) (f : A → res B) : Ret a ≫= f = f a.
Proof. done. Qed.

Lemma bind_assoc {A B C} (m : res A) (f : A → res B) (g : B → res C) :
  (m ≫= f) ≫= g = m ≫= (fun a => f a ≫= g).
Proof. by destruct m. Qed.

(** Two computations that agree pointwise on what [m] returns agree after it. *)
Lemma bind_ext {A B} (m : res A) (f g : A → res B) :
  (∀ a, m = Ret a → f a = g a) → m ≫= f = m ≫= g.
Proof. destruct m; simpl; auto. Qed.

#[export] Instance bind_proper {A B} :
  Proper (pointwise_relation A eq ==> eq ==> eq) (@mbind res _ A B).
Proof. intros f g Hfg m ? <-. apply bind_ext. intros a _. apply Hfg. Qed.

(** ** Machine integers: values of [Z], wrapped where the code can wrap *)

Definition u8 (z : Z) : Z := z mod 2 ^ 8.
Definition u16 (z : Z) : Z := z mod 2 ^ 16.
Definition u32 (z : Z) : Z := z mod 2 ^ 32.
Definition u64 (z : Z) : Z := z mod 2 ^ 64.
Definition swrap (w z : Z) : Z := (z + 2 ^ (w - 1)) mod 2 ^ w - 2 ^ (w - 1).
Definition s32 (z : Z) : Z := swrap 32 z.
Definition s64 (z : Z) : Z := swrap 64 z.

Lemma u8_small z : 0 <= z < 2 ^ 8 → u8 z = z.
Proof. apply Z.mod_small. Qed.
Lemma u16_small z : 0 <= z < 2 ^ 16 → u16 z = z.
Proof. apply Z.mod_small. Qed.
Lemma u32_small z : 0 <= z < 2 ^ 32 → u32 z = z.
Proof. apply Z.mod_small. Qed.
Lemma u64_small z : 0 <= z < 2 ^ 64 → u64 z = z.
Proof. apply Z.mod_small. Qed.
Lemma u32_bound z : 0 <= u32 z < 2 ^ 32.
Proof. apply Z.mod_pos_bound. lia. Qed.
Lemma u64_bound z : 0 <= u64 z < 2 ^ 64.
Proof. apply Z.mod_pos_bound. lia. Qed.
Lemma swrap_small w z :
  0 < w → - 2 ^ (w - 1) <= z < 2 ^ (w - 1) → swrap w z = z.
Proof.
  intros Hw Hz. unfold swrap.
  assert (2 ^ w = 2 * 2 ^ (w - 1)) as Hp.
  { rewrite <- Z.pow_succ_r by lia. f_equal. lia. }
  rewrite Z.mod_small; lia.
Qed.
Lemma s32_small z : - 2 ^ 31 <= z < 2 ^ 31 → s32 z = z.
Proof. intros. apply swrap_small; simpl Z.sub; lia. Qed.
Lemma s64_small z : - 2 ^ 63 <= z < 2 ^ 63 → s64 z = z.
Proof. intros. apply swrap_small; simpl Z.sub; lia. Qed.

(** Wrapping the two's complement value again gives the value itself. *)
Lemma swrap_mod w z :
  0 < w → swrap w (z mod 2 ^ w) = swrap w z.
Proof.
  intros Hw. unfold swrap. f_equal. by rewrite Zplus_mod_idemp_l.
Qed.

(** ** Lists indexed by [Z] *)

Definition zlen {A} (l : list A) : Z := Z.of_nat (length l).
Definition ztake {A} (n : Z) (l : list A) : list A := take (Z.to_nat n) l.
Definition zdrop {A} (n : Z) (l : list A) : list A := drop (Z.to_nat n) l.

(** [l] with the segment that starts at [n] overwritten by [d]. *)
Definition splice {A} (n : Z) (d l : list A) : list A :=
  ztake n l ++ d ++ zdrop (n + zlen d) l.

(** [k] elements of [l] from position [n]. *)
Definition slice {A} (n k : Z) (l : list A) : list A := ztake k (zdrop n l).

Section zlists.
Context {A : Type}.
Implicit Types (l d : list A).

Lemma zlen_nonneg l : 0 <= zlen l.
Proof. unfold zlen. lia. Qed.
Lemma zlen_nil : zlen (@nil A) = 0.
Proof. done. Qed.
Lemma zlen_cons (x : A) l : zlen (x :: l) = 1 + zlen l.
Proof. unfold zlen. simpl. lia. Qed.
Lemma zlen_app l d : zlen (l ++ d) = zlen l + zlen d.
Proof. unfold zlen. rewrite length_app. lia. Qed.
Lemma zlen_ztake n l : 0 <= n <= zlen l → zlen (ztake n l) = n.
Proof. unfold zlen, ztake. intros. rewrite length_take. lia. Qed.
Lemma zlen_zdrop n l : 0 <= n <= zlen l → zlen (zdrop n l) = zlen l - n.
Proof. unfold zlen, zdrop. intros. rewrite length_drop. lia. Qed.
Lemma zlen_0 l : zlen l = 0 → l = [].
Proof. unfold zlen. destruct l; simpl; [done | lia]. Qed.
Lemma ztake_zdrop n l : ztake n l ++ zdrop n l = l.
Proof. apply take_drop. Qed.
Lemma ztake_all l : ztake (zlen l) l = l.
Proof. unfold ztake, zlen. rewrite Nat2Z.id. by apply firstn_all. Qed.
Lemma ztake_ge n l : zlen l <= n → ztake n l = l.
Proof. unfold ztake, zlen. intros. apply take_ge. lia. Qed.
Lemma zdrop_ge n l : zlen l <= n → zdrop n l = [].
Proof. unfold zdrop, zlen. intros. apply drop_ge. lia. Qed.
Lemma ztake_0 l : ztake 0 l = [].
Proof. done. Qed.
Lemma zdrop_0 l : zdrop 0 l = l.
Proof. done. Qed.
Lemma zdrop_zdrop n m l : 0 <= n → 0 <= m → zdrop n (zdrop m l) = zdrop (m + n) l.
Proof. unfold zdrop. intros. rewrite drop_drop. f_equal. lia. Qed.
Lemma ztake_app_l n l d : n <= zlen l → ztake n (l ++ d) = ztake n l.
Proof. unfold ztake, zlen. intros. apply take_app_le. lia. Qed.
Lemma zdrop_app_r n l d : zlen l <= n → zdrop n (l ++ d) = zdrop (n - zlen l) d.
Proof.
  unfold zdrop, zlen. intros. rewrite drop_app_ge by lia. f_equal. lia.
Qed.
Lemma zdrop_app_l n l d : n <= zlen l → zdrop n (l ++ d) = zdrop n l ++ d.
Proof. unfold zdrop, zlen. intros. apply drop_app_le. lia. Qed.
Lemma ztake_app_r n l d : zlen l <= n → ztake n (l ++ d) = l ++ ztake (n - zlen l) d.
Proof.
  unfold ztake, zlen. intros. rewrite take_app_ge by lia. do 2 f_equal. lia.
Qed.
Lemma ztake_ztake n m l : 0 <= n → n <= m → ztake n (ztake m l) = ztake n l.
Proof. unfold ztake. intros. rewrite take_take. f_equal. lia. Qed.
Lemma zdrop_ztake n k l :
  0 <= n → 0 <= k → zdrop n (ztake (n + k) l) = ztake k (zdrop n l).
Proof.
  unfold zdrop, ztake. intros. rewrite skipn_firstn_comm. f_equal. lia.
Qed.

Lemma slice_ztake n k m l :
  0 <= n → 0 <= k → n + k <= m → slice n k (ztake m l) = slice n k l.
Proof.
  intros. unfold slice. replace m with (n + (m - n)) by lia.
  rewrite zdrop_ztake by lia. apply ztake_ztake; lia.
Qed.
Lemma zlen_splice n d l :
  0 <= n → n + zlen d <= zlen l → zlen (splice n d l) = zlen l.
Proof.
  intros. pose proof (zlen_nonneg d). unfold splice.
  rewrite !zlen_app, zlen_ztake, zlen_zdrop; lia.
Qed.
Lemma splice_nil n l : 0 <= n → splice n [] l = l.
Proof. intros. unfold splice. rewrite zlen_nil, Z.add_0_r. apply ztake_zdrop. Qed.

Lemma zlen_slice n k l : 0 <= n → 0 <= k → n + k <= zlen l → zlen (slice n k l) = k.
Proof. intros. unfold slice. rewrite zlen_ztake; rewrite ?zlen_zdrop; lia. Qed.
Lemma slice_app n k1 k2 l :
  0 <= n → 0 <= k1 → 0 <= k2 → n + k1 <= zlen l →
  slice n (k1 + k2) l = slice n k1 l ++ slice (n + k1) k2 l.
Proof.
  intros. unfold slice.
  rewrite <- (ztake_zdrop k1 (zdrop n l)) at 1.
  rewrite ztake_app_r; rewrite ?zlen_ztake; rewrite ?zlen_zdrop; try lia.
  rewrite zdrop_zdrop by lia. do 2 f_equal. lia.
Qed.

(** Reading back exactly what was spliced in. *)
Lemma slice_splice_eq n d l :
  0 <= n → n + zlen d <= zlen l → slice n (zlen d) (splice n d l) = d.
Proof.
  intros. pose proof (zlen_nonneg d). unfold slice, splice.
  rewrite zdrop_app_r; rewrite zlen_ztake; try lia.
  rewrite Z.sub_diag, zdrop_0. rewrite ztake_app_l by lia. apply ztake_all.
Qed.
(** Bytes before the splice are kept. *)
Lemma ztake_splice m n d l :
  0 <= m <= n → n <= zlen l → ztake m (splice n d l) = ztake m l.
Proof.
  intros. unfold splice. rewrite ztake_app_l by (rewrite zlen_ztake; lia).
  apply ztake_ztake; lia.
Qed.
Lemma ztake_splice_end n d l :
  0 <= n → n + zlen d <= zlen l → ztake (n + zlen d) (splice n d l) = ztake n l ++ d.
Proof.
  intros. pose proof (zlen_nonneg d). unfold splice.
  rewrite app_assoc, ztake_app_l by (rewrite zlen_app, zlen_ztake; lia).
  rewrite ztake_ge; [done|]. rewrite zlen_app, zlen_ztake; lia.
Qed.
(** Splicing in two adjacent pieces is splicing in their concatenation. *)
Lemma splice_splice n d1 d2 l :
  0 <= n → n + zlen d1 + zlen d2 <= zlen l →
  splice (n + zlen d1) d2 (splice n d1 l) = splice n (d1 ++ d2) l.
Proof.
  intros. pose proof (zlen_nonneg d1). pose proof (zlen_nonneg d2).
  assert (0 <= zlen l) by apply zlen_nonneg.
  unfold splice at 1. rewrite ztake_splice_end by lia.
  rewrite <- app_assoc. unfold splice. rewrite <- app_assoc. do 3 f_equal.
  rewrite app_assoc, zdrop_app_r by (rewrite zlen_app, zlen_ztake; lia).
  rewrite zlen_app, zlen_ztake, zdrop_zdrop, zlen_app by lia. f_equal. lia.
Qed.
(** A splice and a slice inside the middle part of a concatenation. *)
Lemma splice_middle off (d a b c : list A) :
  0 <= off → off + zlen d <= zlen b →
  splice (zlen a + off) d (a ++ b ++ c) = a ++ splice off d b ++ c.
Proof.
  intros. pose proof (zlen_nonneg a). pose proof (zlen_nonneg d). unfold splice.
  rewrite ztake_app_r, zdrop_app_r by lia.
  replace (zlen a + off - zlen a) with off by lia.
  replace (zlen a + off + zlen d - zlen a) with (off + zlen d) by lia.
  rewrite ztake_app_l, zdrop_app_l by lia. by rewrite <- !app_assoc.
Qed.
Lemma slice_middle off k (a b c : list A) :
  0 <= off → 0 <= k → off + k <= zlen b →
  @slice A (zlen a + off) k (a ++ b ++ c) = slice off k b.
Proof.
  intros. pose proof (zlen_nonneg a). unfold slice.
  rewrite zdrop_app_r by lia. replace (zlen a + off - zlen a) with off by lia.
  rewrite zdrop_app_l, ztake_app_l; rewrite ?zlen_zdrop; lia || done.
Qed.
End zlists.

Create Rewrite HintDb zlist.
#[export] Hint Rewrite @zlen_app @zlen_cons @zlen_nil @ztake_0 @zdrop_0 : zlist.
Create HintDb tk.
#[export] Hint Resolve zlen_nonneg : tk.

(** ** Tactics *)

(** Invert every [_ ≫= _ = Ret _] of the context. *)
Ltac inv_bind :=
  repeat match goal with
  | H : _ ≫= _ = Ret _ |- _ => apply bind_Ret in H as (? & ? & ?)
  | H : Ret _ = Ret _ |- _ => injection H as H; try subst
  | H : (if ?b then _ else _) = Ret _ |- _ =>
      let E := fresh "E" in destruct b eqn:E; try discriminate H
  end.

(** Boolean tests of the code to propositions, then [lia]. *)
Ltac bool_lia :=
  repeat match goal with
  | H : (_ <? _) = true |- _ => apply Z.ltb_lt in H
  | H : (_ <? _) = false |- _ => apply Z.ltb_ge in H
  | H : (_ <=? _) = true |- _ => apply Z.leb_le in H
  | H : (_ <=? _) = false |- _ => apply Z.leb_gt in H
  | H : (_ =? _) = true |- _ => apply Z.eqb_eq in H
  | H : (_ =? _) = false |- _ => apply Z.eqb_neq in H
  | H : _ && _ = true |- _ => apply andb_true_iff in H as [? ?]
  end; try lia.

(** Case split on the first boolean [if] of the goal. *)
Ltac case_if :=
  match goal with
  | |- context [if ?b then _ else _] =>
      let E := fresh "E" in destruct b eqn:E
  end.
