(* ===== verification/Endian.v ===== *)
(** * Byte order: src/src/endian.h

    Memory holds integers in the byte order of the host ([host_order]); the
    macros [TIGERKIN_*_ENDIAN] and the [byteswap] templates of endian.h are
    modelled on top of it.  [le_split]/[le_combine] (coqutil) are the
    little-endian representation of an integer. *)

From S2P Require Import Prelude.
From coqutil Require Import Byte Word.LittleEndianList.

(** The byte order of the machine. *)
Inductive host_order : Set := HostLittle | HostBig.

(** [src/src/endian.h:11-12] TIGERKIN_LITTLE_ENDIAN, TIGERKIN_BIG_ENDIAN *)
Definition TIGERKIN_LITTLE_ENDIAN : Z := 1.
Definition TIGERKIN_BIG_ENDIAN : Z := 2.

(** [src/src/endian.h:39-43] TIGERKIN_BYTE_ORDER *)
Definition TIGERKIN_BYTE_ORDER (h : host_order) : Z :=
  match h with
  | HostBig => TIGERKIN_BIG_ENDIAN
  | HostLittle => TIGERKIN_LITTLE_ENDIAN
  end.

(** The bytes of an [n]-byte integer in memory, lowest address first. *)
Definition mem_of_int (h : host_order) (n : nat) (v : Z) : list byte :=
  match h with
  | HostLittle => le_split n v
  | HostBig => rev (le_split n v)
  end.

(** The unsigned integer that the bytes at an address hold. *)
Definition int_of_mem (h : host_order) (bs : list byte) : Z :=
  match h with
  | HostLittle => le_combine bs
  | HostBig => le_combine (rev bs)
  end.

(** [src/src/endian.h:21-37] byteswap: [bswap_16/32/64] of byteswap.h, selected by the size of the type *)
Definition byteswap (n : nat) (v : Z) : Z := le_combine (rev (le_split n v)).

(** [src/src/endian.h:61-69] byteswapOnLittleEndian *)
Definition byteswapOnLittleEndian (h : host_order) (n : nat) (v : Z) : Z :=
  if TIGERKIN_BYTE_ORDER h =? TIGERKIN_LITTLE_ENDIAN then byteswap n v else v.

(** [src/src/endian.h:47-57] byteswapOnBigEndian *)
Definition byteswapOnBigEndian (h : host_order) (n : nat) (v : Z) : Z :=
  if TIGERKIN_BYTE_ORDER h =? TIGERKIN_BIG_ENDIAN then byteswap n v else v.

Lemma zlen_le_split n v : zlen (le_split n v) = Z.of_nat n.
Proof. unfold zlen. by rewrite length_le_split. Qed.

Lemma zlen_mem_of_int h n v : zlen (mem_of_int h n v) = Z.of_nat n.
Proof.
  destruct h; simpl; [apply zlen_le_split|].
  unfold zlen. by rewrite length_rev, length_le_split.
Qed.

(** Storing an integer and loading it again. *)
Lemma int_of_mem_of_int h n v :
  int_of_mem h (mem_of_int h n v) = v mod 2 ^ (8 * Z.of_nat n).
Proof.
  destruct h; simpl; rewrite ?rev_involutive, le_combine_split; by rewrite Z.mul_comm.
Qed.

Lemma byteswap_mod n v : byteswap n (v mod 2 ^ (8 * Z.of_nat n)) = byteswap n v.
Proof.
  unfold byteswap. rewrite (le_split_mod v n). by rewrite Z.mul_comm.
Qed.

(** The bytes of a swapped integer are the bytes in reverse order. *)
Lemma mem_of_byteswap h n v :
  mem_of_int h n (byteswap n v) = rev (mem_of_int h n v).
Proof.
  assert (le_split n (byteswap n v) = rev (le_split n v)) as Hs.
  { unfold byteswap. apply split_le_combine'. by rewrite length_rev, length_le_split. }
  destruct h; simpl; by rewrite Hs.
Qed.

(** [byteswap] is an involution on [n]-byte integers. *)
Lemma byteswap_involutive n v : byteswap n (byteswap n v) = v mod 2 ^ (8 * Z.of_nat n).
Proof.
  pose proof (int_of_mem_of_int HostLittle n (byteswap n (byteswap n v))) as H.
  rewrite !mem_of_byteswap, rev_involutive in H. simpl int_of_mem in H. simpl mem_of_int in H.
  rewrite le_combine_split in H.
  rewrite (Z.mod_small (byteswap n (byteswap n v))) in H.
  - rewrite <- H. by rewrite Z.mul_comm.
  - unfold byteswap at 1. pose proof (le_combine_bound (rev (le_split n (byteswap n v)))) as Hb.
    rewrite length_rev, length_le_split in Hb. exact Hb.
Qed.

(** A port or an address in a [sockaddr] is in network (big-endian) byte
    order on either host. *)
Lemma network_order h n v :
  mem_of_int h n (byteswapOnLittleEndian h n v) = rev (le_split n v).
Proof.
  unfold byteswapOnLittleEndian.
  destruct h; simpl; [|done].
  apply (mem_of_byteswap HostLittle).
Qed.
