(* ===== verification/ByteArray.v ===== *)
(** * The serialization buffer: src/src/bytearray.h, src/src/bytearray.cpp

    A [ByteArray] is a singly linked chain of nodes of [m_baseSize] bytes, a
    size, a capacity, an offset and a cursor ([m_curNode]).  The chain is the
    list [m_nodes] ([m_rootNode] is its head, [m_endNode] its last element) and
    a [Node*] is an index of that list; [None] is the null pointer.  A memory
    access that leaves a node or dereferences null is [Undef]. *)

From S2P Require Import Prelude Endian.
From coqutil Require Import Byte Word.LittleEndianList.

(** [src/src/bytearray.h:98-107] ByteArray *)
Record ByteArray := mkByteArray {
  m_endian : Z;
  m_baseSize : Z;
  m_size : Z;
  m_capacity : Z;
  m_offset : Z;
  m_nodes : list (list byte);
  m_curNode : option nat
}.

(** [src/src/bytearray.cpp:37-39] ByteArray::ByteArray *)
Definition ByteArray_new (baseSize : Z) : ByteArray :=
  mkByteArray TIGERKIN_LITTLE_ENDIAN baseSize 0 0 0 [] None.

(** [src/src/bytearray.h:29-29] ByteArray::setEndian *)
Definition setEndian (endian : Z) (ba : ByteArray) : ByteArray :=
  mkByteArray endian (m_baseSize ba) (m_size ba) (m_capacity ba) (m_offset ba)
    (m_nodes ba) (m_curNode ba).

(** [src/src/bytearray.h:28-28] ByteArray::isLittleEndian *)
Definition isLittleEndian (ba : ByteArray) : bool :=
  m_endian ba =? TIGERKIN_LITTLE_ENDIAN.

Definition set_nodes (ns : list (list byte)) (ba : ByteArray) : ByteArray :=
  mkByteArray (m_endian ba) (m_baseSize ba) (m_size ba) (m_capacity ba) (m_offset ba)
    ns (m_curNode ba).
Definition set_cur (c : option nat) (ba : ByteArray) : ByteArray :=
  mkByteArray (m_endian ba) (m_baseSize ba) (m_size ba) (m_capacity ba) (m_offset ba)
    (m_nodes ba) c.
(** The members [m_size] and [m_offset]. *)
Definition set_pos (size offset : Z) (ba : ByteArray) : ByteArray :=
  mkByteArray (m_endian ba) (m_baseSize ba) size (m_capacity ba) offset
    (m_nodes ba) (m_curNode ba).

(** [src/src/bytearray.h:82-90] ByteArray::Node: the pointer [nxt] of node [i] *)
Definition node_nxt (ba : ByteArray) (i : nat) : option nat :=
  if decide (S i < length (m_nodes ba))%nat then Some (S i) else None.

(** [node->size]. *)
Definition node_size (ba : ByteArray) (cur : option nat) : res Z :=
  i ← deref cur "node->size of a null node";
  nd ← deref (m_nodes ba !! i) "dangling node";
  Ret (zlen nd).

(** [memcpy(node->ptr + off, data, size)]. *)
Definition memcpy_to (ba : ByteArray) (cur : option nat) (off : Z) (data : list byte)
    : res ByteArray :=
  i ← deref cur "node->ptr of a null node";
  nd ← deref (m_nodes ba !! i) "dangling node";
  if (0 <=? off) && (off + zlen data <=? zlen nd)
  then Ret (set_nodes (<[i := splice off data nd]> (m_nodes ba)) ba)
  else Undef "write past the node".

(** [memcpy(buf, node->ptr + off, k)]. *)
Definition memcpy_from (ba : ByteArray) (cur : option nat) (off k : Z) : res (list byte) :=
  i ← deref cur "node->ptr of a null node";
  nd ← deref (m_nodes ba !! i) "dangling node";
  if (0 <=? off) && (off + k <=? zlen nd)
  then Ret (slice off k nd)
  else Undef "read past the node".

(** [a % b] on [size_t]. *)
Definition size_mod (a b : Z) : res Z :=
  if b =? 0 then Undef "modulo by zero" else Ret (a mod b).
Definition size_div (a b : Z) : res Z :=
  if b =? 0 then Undef "division by zero" else Ret (a / b).

(** [src/src/bytearray.cpp:45-57] ByteArray::clear, the loop: [freed] are the nodes given to [delete] so far *)
Fixpoint clear_loop (fuel : nat) (ba : ByteArray) (root : option nat) (freed : list nat)
    : res (list nat) :=
  match fuel with
  | O => OutOfFuel
  | S fuel =>
      match root with
      | None => Ret freed
      | Some i =>
          if decide (i ∈ freed) then Undef "m_rootNode->nxt after delete"
          else
            let root := node_nxt ba i in
            (* delete m_rootNode: a null pointer is left alone *)
            clear_loop fuel ba root (match root with Some j => j :: freed | None => freed end)
      end
  end.

Definition m_rootNode (ba : ByteArray) : option nat :=
  match m_nodes ba with [] => None | _ => Some O end.

(** [src/src/bytearray.cpp:45-57] ByteArray::clear *)
Definition clear (ba : ByteArray) : res ByteArray :=
  _ ← clear_loop (S (length (m_nodes ba))) ba (m_rootNode ba) [];
  Ret (mkByteArray (m_endian ba) (m_baseSize ba) 0 0 0 [] None).

(** [src/src/bytearray.cpp:59-61] ByteArray::getEnableReadSize *)
Definition getEnableReadSize (ba : ByteArray) : Z := u64 (m_size ba - m_offset ba).

(** [n] times [cur = cur->nxt]. *)
Fixpoint walk (ba : ByteArray) (n : nat) (cur : option nat) : res (option nat) :=
  match n with
  | O => Ret cur
  | S n => i ← deref cur "nxt of a null node"; walk ba n (node_nxt ba i)
  end.

(** [src/src/bytearray.cpp:63-80] ByteArray::setOffset *)
Definition setOffset (ba : ByteArray) (offset : Z) : res ByteArray :=
  if m_capacity ba <? offset then Throw "SET OFFSET OUT OF RANGE"
  else
    let size := if m_size ba <? offset then offset else m_size ba in
    nodeCnt ← size_div offset (m_baseSize ba);
    cur ← walk ba (Z.to_nat (nodeCnt - 1)) (m_rootNode ba);
    Ret (set_pos size offset (set_cur cur ba)).

(** The step to the next node that [write], [read], ... make first. *)
Definition advance (ba : ByteArray) (cur : option nat) (offset nodeOffset : Z)
    : res (option nat) :=
  if (nodeOffset =? 0) && (0 <? offset) then
    i ← deref cur "nxt of a null node";
    Ret (match node_nxt ba i with Some j => Some j | None => cur end)
  else Ret cur.

Section memory.
(** What [new char[s]] leaves in fresh memory, and the host's byte order. *)
Context (junk : nat → byte) (h : host_order).

(** [src/src/bytearray.cpp:25-27] ByteArray::Node::Node(size_t) *)
Definition Node_new (s : Z) : list byte := junk <$> seq 0 (Z.to_nat s).

(** [src/src/bytearray.cpp:98-102] ByteArray::addCapacityTo, the loop *)
Fixpoint grow_loop (fuel : nat) (ba : ByteArray) (capacity : Z) : res ByteArray :=
  match fuel with
  | O => OutOfFuel
  | S fuel =>
      if m_capacity ba <? capacity then
        grow_loop fuel
          (mkByteArray (m_endian ba) (m_baseSize ba) (m_size ba)
             (m_capacity ba + m_baseSize ba) (m_offset ba)
             (m_nodes ba ++ [Node_new (m_baseSize ba)]) (m_curNode ba)) capacity
      else Ret ba
  end.

(** [src/src/bytearray.cpp:86-103] ByteArray::addCapacityTo *)
Definition addCapacityTo (ba : ByteArray) (capacity : Z) : res ByteArray :=
  let ba :=
    match m_nodes ba with
    | [] => mkByteArray (m_endian ba) (m_baseSize ba) 0 (m_baseSize ba) 0
              [Node_new (m_baseSize ba)] (Some O)
    | _ => ba
    end in
  if capacity <=? m_capacity ba then Ret ba
  else grow_loop (S (Z.to_nat (capacity - m_capacity ba))) ba capacity.

(** [src/src/bytearray.cpp:82-84] ByteArray::addCapacity *)
Definition addCapacity (ba : ByteArray) (capacity : Z) : res ByteArray :=
  addCapacityTo ba (u64 (capacity + m_capacity ba)).

(** [src/src/bytearray.cpp:116-135] ByteArray::write, the loop *)
Fixpoint write_loop (fuel : nat) (ba : ByteArray) (nodeOffset nodeRemain : Z)
    (buf : list byte) : res ByteArray :=
  match fuel with
  | O => OutOfFuel
  | S fuel =>
      if zlen buf =? 0 then Ret ba
      else if nodeRemain <? zlen buf then
        ba ← memcpy_to ba (m_curNode ba) nodeOffset (ztake nodeRemain buf);
        let ba := set_pos (m_size ba + nodeRemain) (m_offset ba + nodeRemain) ba in
        i ← deref (m_curNode ba) "nxt of a null node";
        let ba := set_cur (node_nxt ba i) ba in
        nodeRemain' ← node_size ba (m_curNode ba);
        write_loop fuel ba 0 nodeRemain' (zdrop nodeRemain buf)
      else
        ba ← memcpy_to ba (m_curNode ba) nodeOffset buf;
        Ret (set_pos (m_size ba + zlen buf) (m_offset ba + zlen buf) ba)
  end.

(** [src/src/bytearray.cpp:105-139] ByteArray::write *)
Definition write (ba : ByteArray) (buf : list byte) : res ByteArray :=
  if zlen buf =? 0 then Ret ba
  else
    ba ← addCapacityTo ba (u64 (m_size ba + zlen buf));
    nodeOffset ← size_mod (m_offset ba) (m_baseSize ba);
    cur ← advance ba (m_curNode ba) (m_offset ba) nodeOffset;
    let ba := set_cur cur ba in
    size ← node_size ba cur;
    ba ← write_loop (S (length buf)) ba nodeOffset (size - nodeOffset) buf;
    Ret (if m_size ba <? m_offset ba then set_pos (m_offset ba) (m_offset ba) ba else ba).

(** [src/src/bytearray.cpp:156-173] ByteArray::read, the loop: the bytes read and the node reached *)
Fixpoint read_loop (fuel : nat) (ba : ByteArray) (cur : option nat)
    (nodeOffset nodeRemain size : Z) : res (list byte * option nat) :=
  match fuel with
  | O => OutOfFuel
  | S fuel =>
      if size <=? 0 then Ret ([], cur)
      else if nodeRemain <? size then
        d ← memcpy_from ba cur nodeOffset nodeRemain;
        i ← deref cur "nxt of a null node";
        let cur := node_nxt ba i in
        nodeRemain' ← node_size ba cur;
        '(d', cur) ← read_loop fuel ba cur 0 nodeRemain' (size - nodeRemain);
        Ret (d ++ d', cur)
      else
        d ← memcpy_from ba cur nodeOffset size;
        Ret (d, cur)
  end.

(** [src/src/bytearray.cpp:141-174] ByteArray::read(void *, size_t) *)
Definition read (ba : ByteArray) (size : Z) : res (list byte * ByteArray) :=
  if getEnableReadSize ba <? size then Throw "READ OUT OF RANGE"
  else
    nodeOffset ← size_mod (m_offset ba) (m_baseSize ba);
    cur ← advance ba (m_curNode ba) (m_offset ba) nodeOffset;
    sz ← node_size ba cur;
    '(d, cur) ← read_loop (S (Z.to_nat size)) ba cur nodeOffset (sz - nodeOffset) size;
    Ret (d, set_pos (m_size ba) (m_offset ba + size) (set_cur cur ba)).

(** [src/src/bytearray.cpp:176-208] ByteArray::read(void *, size_t, size_t) const *)
Definition read_at (ba : ByteArray) (size offset : Z) : res (list byte) :=
  if getEnableReadSize ba <? size then Throw "READ OUT OF RANGE"
  else
    nodeOffset ← size_mod offset (m_baseSize ba);
    tmp ← advance ba (m_curNode ba) offset nodeOffset;
    sz ← node_size ba tmp;
    '(d, _) ← read_loop (S (Z.to_nat size)) ba tmp nodeOffset (sz - nodeOffset) size;
    Ret d.

(** [src/src/bytearray.cpp:408-416] ByteArray::toString *)
Definition toString (ba : ByteArray) : res (list byte) :=
  let n := getEnableReadSize ba in
  if n =? 0 then Ret [] else read_at ba n (m_offset ba).

(** [src/src/bytearray.cpp:448-461] ByteArray::writeToFile, the loop: the bytes given to the file *)
Fixpoint file_loop (fuel : nat) (ba : ByteArray) (tmp : option nat)
    (nodeOffset nodeRemain len : Z) : res (list byte) :=
  match fuel with
  | O => OutOfFuel
  | S fuel =>
      if len <=? 0 then Ret []
      else if nodeRemain <? len then
        d ← memcpy_from ba tmp nodeOffset nodeRemain;
        i ← deref tmp "nxt of a null node";
        let tmp := node_nxt ba i in
        nodeRemain' ← node_size ba tmp;
        d' ← file_loop fuel ba tmp 0 nodeRemain' (len - nodeRemain);
        Ret (d ++ d')
      else
        d ← memcpy_from ba tmp nodeOffset len;
        Ret d
  end.

(** A byte as two lower-case hexadecimal digits and a space. *)
Definition hex_digit (n : Z) : byte := byte.of_Z (if n <? 10 then 48 + n else 87 + n).

(** [src/src/bytearray.cpp:418-429] ByteArray::toHexString, the loop from position [i] *)
Fixpoint hex_loop (i : Z) (str : list byte) : list byte :=
  match str with
  | [] => []
  | b :: str =>
      (if (0 <? i) && (i mod 32 =? 0) then [byte.of_Z 10] else []) ++
      [hex_digit (byte.unsigned b / 16); hex_digit (byte.unsigned b mod 16); byte.of_Z 32] ++
      hex_loop (i + 1) str
  end.

(** [src/src/bytearray.cpp:418-429] ByteArray::toHexString *)
Definition toHexString (ba : ByteArray) : res (list byte) := hex_loop 0 <$> toString ba.

(** [src/src/bytearray.cpp:431-464] ByteArray::writeToFile. [opened] says whether the file opens; the result is the return value and what the file holds *)
Definition writeToFile (ba : ByteArray) (opened : bool) : res (bool * list byte) :=
  if negb opened then Ret (false, [])
  else
    let len := getEnableReadSize ba in
    nodeOffset ← size_mod (m_offset ba) (m_baseSize ba);
    tmp ← advance ba (m_curNode ba) (m_offset ba) nodeOffset;
    d ← file_loop (S (Z.to_nat len)) ba tmp nodeOffset (m_baseSize ba - nodeOffset) len;
    Ret (true, d).

(** [src/src/bytearray.cpp:477-480] ByteArray::readFromFile, the loop: [rest] is what the stream has not delivered yet; a read that delivers fewer bytes than asked sets [eof] *)
Fixpoint readFromFile_loop (fuel : nat) (ba : ByteArray) (rest : list byte) : res ByteArray :=
  match fuel with
  | O => OutOfFuel
  | S fuel =>
      let got := ztake (m_baseSize ba) rest in
      ba' ← write ba got;
      if zlen got <? m_baseSize ba then Ret ba'
      else readFromFile_loop fuel ba' (zdrop (m_baseSize ba) rest)
  end.

(** [src/src/bytearray.cpp:466-483] ByteArray::readFromFile *)
Definition readFromFile (ba : ByteArray) (file : option (list byte))
    : res (bool * ByteArray) :=
  match file with
  | None => Ret (false, ba)
  | Some content =>
      ba ← readFromFile_loop (S (length content)) ba content;
      Ret (true, ba)
  end.

(** An [iovec]: a node, the position in it and a length. *)
Definition iovec : Type := option nat * Z * Z.

(** [src/src/bytearray.cpp:502-519] ByteArray::getReadBuffers, the loop (the same loop fills the buffers of [getWriteBuffers]): [rst] is an [int] *)
Fixpoint iov_loop (fuel : nat) (ba : ByteArray) (tmpCur : option nat)
    (nodePos nodeRemain len rst : Z) : res (list iovec * Z) :=
  match fuel with
  | O => OutOfFuel
  | S fuel =>
      if len <=? 0 then Ret ([], rst)
      else if nodeRemain <? len then
        i ← deref tmpCur "node->ptr of a null node";
        let nxt := node_nxt ba i in
        nodeRemain' ← node_size ba nxt;
        '(iovs, r) ← iov_loop fuel ba nxt 0 nodeRemain' (len - nodeRemain)
                       (s32 (rst + nodeRemain));
        Ret ((tmpCur, nodePos, nodeRemain) :: iovs, r)
      else
        _ ← deref tmpCur "node->ptr of a null node";
        (* iov_len = len; len -= len; rst += len *)
        Ret ([(tmpCur, nodePos, len)], s32 (rst + 0))
  end.

(** [src/src/bytearray.cpp:489-520] ByteArray::getReadBuffers(buffers, len, offset). The fuel bounds the number of nodes visited *)
Definition getReadBuffers_at (ba : ByteArray) (len offset : Z) : res (list iovec * Z) :=
  if (m_size ba <? u64 (offset + len)) || (len =? 0) then Ret ([], 0)
  else
    nodeCnt ← size_div offset (m_baseSize ba);
    tmpCur ← walk ba (Z.to_nat (nodeCnt - 1)) (m_rootNode ba);
    nodePos ← size_mod offset (m_baseSize ba);
    size ← node_size ba tmpCur;
    '(iovs, rst) ← iov_loop (S (length (m_nodes ba))) ba tmpCur nodePos (size - nodePos) len 0;
  Ret (iovs, u64 rst).

(** [src/src/bytearray.cpp:485-487] ByteArray::getReadBuffers(buffers, len) *)
Definition getReadBuffers (ba : ByteArray) (len : Z) : res (list iovec * Z) :=
  getReadBuffers_at ba len (m_offset ba).

(** [src/src/bytearray.cpp:522-550] ByteArray::getWriteBuffers *)
Definition getWriteBuffers (ba : ByteArray) (len : Z)
    : res (list iovec * Z * ByteArray) :=
  if len =? 0 then Ret ([], 0, ba)
  else
    ba ← addCapacityTo ba (u64 (m_offset ba + len));
    nodePos ← size_mod (m_offset ba) (m_baseSize ba);
    size ← node_size ba (m_curNode ba);
    '(iovs, r) ← iov_loop (S (length (m_nodes ba))) ba (m_curNode ba) nodePos
                   (size - nodePos) len 0;
    Ret (iovs, r, ba).

(** *** Typed writes and reads *)

(** The common shape of [writeUint16] ... [writeInt64]: [n] bytes, swapped when the buffer's order is not the host's. *)
Definition write_swapped (n : nat) (ba : ByteArray) (value : Z) : res ByteArray :=
  let value := if m_endian ba =? TIGERKIN_BYTE_ORDER h then value else byteswap n value in
  write ba (mem_of_int h n value).

(** [src/src/bytearray.cpp:210-212] ByteArray::writeUint8 *)
Definition writeUint8 (ba : ByteArray) (v : Z) : res ByteArray := write ba (mem_of_int h 1 v).
(** [src/src/bytearray.cpp:214-219] ByteArray::writeUint16 *)
Definition writeUint16 : ByteArray → Z → res ByteArray := write_swapped 2.
(** [src/src/bytearray.cpp:221-226] ByteArray::writeUint32 *)
Definition writeUint32 : ByteArray → Z → res ByteArray := write_swapped 4.
(** [src/src/bytearray.cpp:228-233] ByteArray::writeUint64 *)
Definition writeUint64 : ByteArray → Z → res ByteArray := write_swapped 8.
(** [src/src/bytearray.cpp:235-237] ByteArray::writeInt8 *)
Definition writeInt8 (ba : ByteArray) (v : Z) : res ByteArray := write ba (mem_of_int h 1 v).
(** [src/src/bytearray.cpp:239-244] ByteArray::writeInt16 *)
Definition writeInt16 : ByteArray → Z → res ByteArray := write_swapped 2.
(** [src/src/bytearray.cpp:246-251] ByteArray::writeInt32 *)
Definition writeInt32 : ByteArray → Z → res ByteArray := write_swapped 4.
(** [src/src/bytearray.cpp:253-258] ByteArray::writeInt64 *)
Definition writeInt64 : ByteArray → Z → res ByteArray := write_swapped 8.
(** [src/src/bytearray.cpp:260-264] ByteArray::writeFloat. A float is its 32-bit pattern *)
Definition writeFloat (ba : ByteArray) (bits : Z) : res ByteArray := writeUint32 ba bits.
(** [src/src/bytearray.cpp:266-270] ByteArray::writeDouble. A double is its 64-bit pattern *)
Definition writeDouble (ba : ByteArray) (bits : Z) : res ByteArray := writeUint64 ba bits.

(** [src/src/bytearray.cpp:272-275] ByteArray::writeString16 *)
Definition writeString16 (ba : ByteArray) (str : list byte) : res ByteArray :=
  ba ← writeUint16 ba (u16 (zlen str)); write ba str.
(** [src/src/bytearray.cpp:277-280] ByteArray::writeString32 *)
Definition writeString32 (ba : ByteArray) (str : list byte) : res ByteArray :=
  ba ← writeUint32 ba (u32 (zlen str)); write ba str.
(** [src/src/bytearray.cpp:282-285] ByteArray::writeString64 *)
Definition writeString64 (ba : ByteArray) (str : list byte) : res ByteArray :=
  ba ← writeUint64 ba (u64 (zlen str)); write ba str.
(** [src/src/bytearray.cpp:287-290] ByteArray::writeStringVint *)
Definition writeStringVint (ba : ByteArray) (str : list byte) : res ByteArray :=
  ba ← writeUint64 ba (u64 (zlen str)); write ba str.
(** [src/src/bytearray.cpp:292-294] ByteArray::writeString *)
Definition writeString (ba : ByteArray) (str : list byte) : res ByteArray := write ba str.

(** The common shape of [readUint16] ... [readInt64]: the [n]-byte pattern. *)
Definition read_swapped (n : nat) (ba : ByteArray) : res (Z * ByteArray) :=
  '(d, ba) ← read ba (Z.of_nat n);
  let v := int_of_mem h d in
  Ret (if m_endian ba =? TIGERKIN_BYTE_ORDER h then v else byteswap n v, ba).
(** The same, as a signed value of [n] bytes. *)
Definition read_signed (n : nat) (ba : ByteArray) : res (Z * ByteArray) :=
  '(v, ba) ← read_swapped n ba; Ret (swrap (8 * Z.of_nat n) v, ba).

(** [src/src/bytearray.cpp:296-300] ByteArray::readUint8 *)
Definition readUint8 (ba : ByteArray) : res (Z * ByteArray) :=
  '(d, ba) ← read ba 1; Ret (int_of_mem h d, ba).
(** [src/src/bytearray.cpp:302-309] ByteArray::readUint16 *)
Definition readUint16 : ByteArray → res (Z * ByteArray) := read_swapped 2.
(** [src/src/bytearray.cpp:311-318] ByteArray::readUint32 *)
Definition readUint32 : ByteArray → res (Z * ByteArray) := read_swapped 4.
(** [src/src/bytearray.cpp:320-327] ByteArray::readUint64 *)
Definition readUint64 : ByteArray → res (Z * ByteArray) := read_swapped 8.
(** [src/src/bytearray.cpp:329-333] ByteArray::readInt8 *)
Definition readInt8 (ba : ByteArray) : res (Z * ByteArray) :=
  '(v, ba) ← readUint8 ba; Ret (swrap 8 v, ba).
(** [src/src/bytearray.cpp:335-342] ByteArray::readInt16 *)
Definition readInt16 : ByteArray → res (Z * ByteArray) := read_signed 2.
(** [src/src/bytearray.cpp:344-351] ByteArray::readInt32 *)
Definition readInt32 : ByteArray → res (Z * ByteArray) := read_signed 4.
(** [src/src/bytearray.cpp:353-360] ByteArray::readInt64 *)
Definition readInt64 : ByteArray → res (Z * ByteArray) := read_signed 8.
(** [src/src/bytearray.cpp:362-367] ByteArray::readFloat *)
Definition readFloat (ba : ByteArray) : res (Z * ByteArray) := readUint32 ba.
(** [src/src/bytearray.cpp:369-374] ByteArray::readDouble *)
Definition readDouble (ba : ByteArray) : res (Z * ByteArray) := readUint64 ba.

(** [src/src/bytearray.cpp:376-382] ByteArray::readString16 *)
Definition readString16 (ba : ByteArray) : res (list byte * ByteArray) :=
  '(len, ba) ← readUint16 ba; read ba len.
(** [src/src/bytearray.cpp:384-390] ByteArray::readString32 *)
Definition readString32 (ba : ByteArray) : res (list byte * ByteArray) :=
  '(len, ba) ← readUint32 ba; read ba len.
(** [src/src/bytearray.cpp:392-398] ByteArray::readString64 *)
Definition readString64 (ba : ByteArray) : res (list byte * ByteArray) :=
  '(len, ba) ← readUint64 ba; read ba len.
(** [src/src/bytearray.cpp:400-406] ByteArray::readStringVint *)
Definition readStringVint (ba : ByteArray) : res (list byte * ByteArray) :=
  '(len, ba) ← readUint64 ba; read ba len.
End memory.

(** ** Well-formed buffers *)

(** The bytes of the chain, in order. *)
Definition flat (ba : ByteArray) : list byte := concat (m_nodes ba).

(** The bytes between the start and the size: what the buffer holds. *)
Definition content (ba : ByteArray) : list byte := ztake (m_size ba) (flat ba).

(** The node the cursor stands on when the offset is [off]. *)
Definition cursor (base off : Z) : Z := if off =? 0 then 0 else (off - 1) / base.

Definition uniform (base : Z) (ns : list (list byte)) : Prop :=
  Forall (fun nd => zlen nd = base) ns.

Record wf (ba : ByteArray) : Prop := {
  wf_base : 0 < m_baseSize ba;
  wf_nodes : uniform (m_baseSize ba) (m_nodes ba);
  wf_capacity : m_capacity ba = m_baseSize ba * zlen (m_nodes ba);
  wf_offset : 0 <= m_offset ba <= m_size ba;
  wf_size : m_size ba <= m_capacity ba;
  wf_size_t : m_size ba < 2 ^ 64;
  wf_cur : match m_curNode ba with
           | None => m_nodes ba = []
           | Some i => (i < length (m_nodes ba))%nat ∧
                       Z.of_nat i = cursor (m_baseSize ba) (m_offset ba)
           end
}.

Section chain.
Context (base : Z) (Hbase : 0 < base).
Implicit Types (ns : list (list byte)).

Lemma zlen_concat ns : uniform base ns → zlen (concat ns) = base * zlen ns.
Proof.
  induction 1 as [|nd ns Hnd _ IH]; simpl; autorewrite with zlist; [lia|].
  rewrite IH. lia.
Qed.

Lemma uniform_split ns i nd :
  uniform base ns → ns !! i = Some nd →
  zlen nd = base ∧ ∃ l r, ns = l ++ nd :: r ∧ i = length l ∧
    zlen (concat l) = Z.of_nat i * base.
Proof.
  intros Hu Hi. split; [by eapply Forall_lookup_1 in Hu|].
  exists (take i ns), (drop (S i) ns).
  assert (i < length ns)%nat as Hlt by by eapply lookup_lt_Some.
  split; [by rewrite take_drop_middle|]. split; [rewrite length_take; lia|].
  rewrite zlen_concat by by apply Forall_take.
  unfold zlen. rewrite length_take. nia.
Qed.

Lemma lookup_node ns i : (i < length ns)%nat → ∃ nd, ns !! i = Some nd.
Proof. intros. by apply lookup_lt_is_Some. Qed.

Lemma memcpy_to_spec ba i off d :
  uniform base (m_nodes ba) → (i < length (m_nodes ba))%nat →
  0 <= off → off + zlen d <= base →
  ∃ ns', memcpy_to ba (Some i) off d = Ret (set_nodes ns' ba) ∧
    uniform base ns' ∧ length ns' = length (m_nodes ba) ∧
    concat ns' = splice (Z.of_nat i * base + off) d (flat ba).
Proof.
  intros Hu Hi Hoff Hd. destruct (lookup_node _ _ Hi) as [nd Hnd].
  destruct (uniform_split _ _ _ Hu Hnd) as (Hlen & l & r & Hns & Hil & Hl).
  exists (<[i := splice off d nd]> (m_nodes ba)).
  unfold memcpy_to, flat. simpl. rewrite Hnd. simpl.
  rewrite (proj2 (Z.leb_le 0 off)), (proj2 (Z.leb_le _ (zlen nd))) by lia. simpl.
  split; [done|]. split.
  { apply Forall_insert; [done|]. rewrite zlen_splice; lia. }
  split; [apply length_insert|].
  rewrite Hns, Hil, insert_app_r_alt, Nat.sub_diag by done. simpl.
  rewrite !concat_app. simpl. rewrite <- Hil, <- Hl. symmetry.
  apply splice_middle; lia.
Qed.

Lemma memcpy_from_spec ba i off k :
  uniform base (m_nodes ba) → (i < length (m_nodes ba))%nat →
  0 <= off → 0 <= k → off + k <= base →
  memcpy_from ba (Some i) off k = Ret (slice (Z.of_nat i * base + off) k (flat ba)).
Proof.
  intros Hu Hi Hoff Hk Hd. destruct (lookup_node _ _ Hi) as [nd Hnd].
  destruct (uniform_split _ _ _ Hu Hnd) as (Hlen & l & r & Hns & Hil & Hl).
  unfold memcpy_from, flat. simpl. rewrite Hnd. simpl.
  rewrite (proj2 (Z.leb_le 0 off)), (proj2 (Z.leb_le _ (zlen nd))) by lia. simpl.
  f_equal. rewrite Hns, concat_app. simpl. rewrite <- Hl. symmetry.
  apply slice_middle; lia.
Qed.

Lemma node_size_spec ba i :
  uniform base (m_nodes ba) → (i < length (m_nodes ba))%nat →
  node_size ba (Some i) = Ret base.
Proof.
  intros Hu Hi. destruct (lookup_node _ _ Hi) as [nd Hnd].
  unfold node_size. simpl. rewrite Hnd. simpl. f_equal.
  by eapply Forall_lookup_1 in Hu.
Qed.

(** Positions and the node they fall in. *)
Lemma last_node i off k :
  0 <= off → 0 < k → off + k <= base →
  (Z.of_nat i * base + off + k - 1) / base = Z.of_nat i.
Proof. intros. symmetry. apply Z.div_unique with (off + k - 1); lia. Qed.

Lemma nodes_remain ns i off k :
  uniform base ns → base - off < k → (Z.of_nat i * base + off) + k <= zlen (concat ns) →
  (S i < length ns)%nat.
Proof. intros Hu ? H. rewrite zlen_concat in H by done. unfold zlen in H. nia. Qed.

Lemma node_nxt_Some ba i : (S i < length (m_nodes ba))%nat → node_nxt ba i = Some (S i).
Proof. intros. unfold node_nxt. by rewrite decide_True. Qed.

Lemma write_loop_spec fuel ba i nodeOffset buf :
  uniform base (m_nodes ba) → m_curNode ba = Some i →
  (i < length (m_nodes ba))%nat → 0 <= nodeOffset < base →
  0 < zlen buf → Z.of_nat i * base + nodeOffset + zlen buf <= zlen (flat ba) →
  (length buf < fuel)%nat →
  ∃ ns' j,
    write_loop fuel ba nodeOffset (base - nodeOffset) buf =
      Ret (set_pos (m_size ba + zlen buf) (m_offset ba + zlen buf)
             (set_cur (Some j) (set_nodes ns' ba))) ∧
    uniform base ns' ∧ length ns' = length (m_nodes ba) ∧ (j < length ns')%nat ∧
    concat ns' = splice (Z.of_nat i * base + nodeOffset) buf (flat ba) ∧
    Z.of_nat j = (Z.of_nat i * base + nodeOffset + zlen buf - 1) / base.
Proof.
  revert ba i nodeOffset buf. induction fuel as [|fuel IH]; [lia|].
  intros ba i off buf Hu Hcur Hi Hoff Hb Hfit Hfuel. simpl.
  rewrite (proj2 (Z.eqb_neq (zlen buf) 0)) by lia. rewrite Hcur.
  case_if; bool_lia.
  - assert (S i < length (m_nodes ba))%nat as HSi
      by (eapply nodes_remain; [done| |exact Hfit]; lia).
    destruct (memcpy_to_spec ba i off (ztake (base - off) buf)) as (ns1 & -> & Hu1 & Hl1 & Hc1);
      [done|done|lia|rewrite zlen_ztake; lia|].
    simpl. rewrite Hcur. simpl.
    rewrite node_nxt_Some by (simpl; lia). rewrite node_size_spec by (done || simpl; lia).
    simpl.
    destruct (IH (set_cur (Some (S i)) (set_pos (m_size ba + (base - off))
                (m_offset ba + (base - off)) (set_nodes ns1 ba))) (S i) 0
                (zdrop (base - off) buf)) as (ns' & j & Hw & Hu' & Hl' & Hj & Hc' & Hjv);
      try done; simpl; try lia.
    + rewrite zlen_zdrop; lia.
    + unfold flat in *. simpl. rewrite Hc1, zlen_splice; rewrite ?zlen_ztake; try lia.
      rewrite zlen_zdrop; lia.
    + unfold zdrop. rewrite length_drop. unfold zlen in *. lia.
    + simpl in Hl'. exists ns', j. rewrite Z.sub_0_r in Hw. rewrite Hw. simpl.
      unfold set_pos, set_cur, set_nodes; simpl. rewrite zlen_zdrop by lia.
      split; [do 2 f_equal; lia|]. split_and!; try done; try lia.
      * rewrite Hc'. unfold flat. simpl. rewrite Hc1.
        rewrite <- (ztake_zdrop (base - off) buf) at 3.
        replace (Z.of_nat (S i) * base + 0)
          with (Z.of_nat i * base + off + zlen (ztake (base - off) buf))
          by (rewrite zlen_ztake; lia).
        apply splice_splice; [lia|].
        rewrite zlen_ztake, zlen_zdrop by lia. unfold flat in Hfit. lia.
      * rewrite Hjv. f_equal. rewrite zlen_zdrop; lia.
  - destruct (memcpy_to_spec ba i off buf) as (ns1 & -> & Hu1 & Hl1 & Hc1); [done..|lia|lia|].
    exists ns1, i. simpl. split; [by rewrite <- Hcur|].
    split_and!; try done; try lia.
    symmetry. apply last_node; lia.
Qed.

Lemma read_loop_spec fuel ba i off k :
  uniform base (m_nodes ba) → (i < length (m_nodes ba))%nat →
  0 <= off < base → 0 < k → Z.of_nat i * base + off + k <= zlen (flat ba) →
  (Z.to_nat k < fuel)%nat →
  ∃ j, read_loop fuel ba (Some i) off (base - off) k =
         Ret (slice (Z.of_nat i * base + off) k (flat ba), Some j) ∧
    (j < length (m_nodes ba))%nat ∧
    Z.of_nat j = (Z.of_nat i * base + off + k - 1) / base.
Proof.
  intros Hu. revert i off k. induction fuel as [|fuel IH]; [lia|].
  intros i off k Hi Hoff Hk Hfit Hfuel. simpl.
  rewrite (proj2 (Z.leb_gt k 0)) by lia.
  case_if; bool_lia.
  - assert (S i < length (m_nodes ba))%nat as HSi
      by (eapply nodes_remain; [done| |exact Hfit]; lia).
    rewrite memcpy_from_spec by (done || lia). simpl.
    rewrite node_nxt_Some, node_size_spec by done. simpl.
    destruct (IH (S i) 0 (k - (base - off))) as (j & Hr & Hj & Hjv); try lia.
    rewrite Z.sub_0_r in Hr. rewrite Hr. simpl. exists j.
    split_and!; [|done|rewrite Hjv; f_equal; lia].
    replace (Z.of_nat (S i) * base + 0) with (Z.of_nat i * base + off + (base - off)) by lia.
    rewrite <- slice_app by lia. do 3 f_equal. lia.
  - rewrite memcpy_from_spec by (done || lia). simpl.
    exists i. split_and!; [done..|]. symmetry. apply last_node; lia.
Qed.

(** The loop of [writeToFile] copies what the loop of [read] copies. *)
Lemma file_loop_read fuel ba cur off remain k :
  file_loop fuel ba cur off remain k = fst <$> read_loop fuel ba cur off remain k.
Proof.
  revert cur off remain k. induction fuel as [|fuel IH]; [done|].
  intros cur off remain k. simpl. do 2 (case_if; [done || idtac|]).
  - destruct (memcpy_from _ _ _ _); simpl; try done.
    destruct cur; simpl; try done. destruct (node_size _ _); simpl; try done.
    rewrite IH. by destruct (read_loop _ _ _ _ _ _) as [[??]| | | |].
  - by destruct (memcpy_from _ _ _ _).
Qed.

Lemma zlen_Node_new junk : zlen (Node_new junk base) = base.
Proof. unfold zlen, Node_new. rewrite length_fmap, length_seq. lia. Qed.

(** Adding capacity appends fresh nodes and changes nothing else. *)
Lemma grow_loop_spec junk fuel ba capacity :
  uniform base (m_nodes ba) → m_baseSize ba = base →
  m_capacity ba = base * zlen (m_nodes ba) →
  (Z.to_nat (capacity - m_capacity ba) < fuel)%nat →
  ∃ extra, uniform base extra ∧
    let cap := base * zlen (m_nodes ba ++ extra) in
    capacity <= cap ∧
    grow_loop junk fuel ba capacity =
      Ret (mkByteArray (m_endian ba) base (m_size ba) cap (m_offset ba)
             (m_nodes ba ++ extra) (m_curNode ba)).
Proof.
  revert ba. induction fuel as [|fuel IH]; [lia|].
  intros ba Hu Hb Hcap Hfuel. simpl. case_if; bool_lia.
  - edestruct (IH (mkByteArray (m_endian ba) (m_baseSize ba) (m_size ba)
       (m_capacity ba + m_baseSize ba) (m_offset ba)
       (m_nodes ba ++ [Node_new junk (m_baseSize ba)]) (m_curNode ba)))
      as (extra & Hue & Hc & Hg); simpl; try done.
    + apply Forall_app; split; [done|]. repeat constructor. rewrite Hb. apply zlen_Node_new.
    + rewrite Hb, Hcap, zlen_app, zlen_cons, zlen_nil. lia.
    + lia.
    + exists (Node_new junk base :: extra).
      split; [constructor; [apply zlen_Node_new|done]|].
      simpl in *. rewrite Hb in *. rewrite Hg, <- app_assoc in *. done.
  - exists []. rewrite app_nil_r. simpl. split; [constructor|].
    split; [lia|]. destruct ba; simpl in *. by subst.
Qed.
End chain.

#[local] Arguments write_loop : simpl never.
#[local] Arguments read_loop : simpl never.
#[local] Arguments file_loop : simpl never.

Lemma size_mod_pos a b : 0 < b → size_mod a b = Ret (a mod b).
Proof. intros. unfold size_mod. by rewrite (proj2 (Z.eqb_neq b 0)) by lia. Qed.
Lemma size_div_pos a b : 0 < b → size_div a b = Ret (a / b).
Proof. intros. unfold size_div. by rewrite (proj2 (Z.eqb_neq b 0)) by lia. Qed.

Section operations.
Context (junk : nat → byte).
Implicit Types (ba : ByteArray).

Lemma wf_empty ba : wf ba → m_nodes ba = [] → m_size ba = 0 ∧ m_offset ba = 0.
Proof.
  intros [] Hn. rewrite Hn, zlen_nil in *. lia.
Qed.

Lemma zlen_flat ba : wf ba → zlen (flat ba) = m_capacity ba.
Proof. intros Hw. unfold flat. rewrite (zlen_concat (m_baseSize ba)); by destruct Hw. Qed.

Lemma addCapacityTo_spec ba capacity :
  wf ba → 
  ∃ ba' extra i, addCapacityTo junk ba capacity = Ret ba' ∧ wf ba' ∧
    m_curNode ba' = Some i ∧ capacity <= m_capacity ba' ∧
    m_endian ba' = m_endian ba ∧ m_baseSize ba' = m_baseSize ba ∧
    m_size ba' = m_size ba ∧ m_offset ba' = m_offset ba ∧
    flat ba' = flat ba ++ extra.
Proof.
  intros Hw. pose proof (wf_base _ Hw) as Hb.
  set (ba1 := match m_nodes ba with
    | [] => mkByteArray (m_endian ba) (m_baseSize ba) 0 (m_baseSize ba) 0
              [Node_new junk (m_baseSize ba)] (Some O)
    | _ => ba end).
  assert (∃ i extra, wf ba1 ∧ m_curNode ba1 = Some i ∧ m_endian ba1 = m_endian ba ∧
    m_baseSize ba1 = m_baseSize ba ∧ m_size ba1 = m_size ba ∧ m_offset ba1 = m_offset ba ∧
    flat ba1 = flat ba ++ extra) as (i & ex1 & Hw1 & Hc1 & He1 & Hb1 & Hs1 & Ho1 & Hf1).
  { unfold ba1. destruct (m_nodes ba) as [|nd ns] eqn:Hns.
    - destruct (wf_empty _ Hw Hns) as [-> ->]. exists O, (Node_new junk (m_baseSize ba)).
      split_and!; try done.
      + split; simpl; try lia; try done.
        * repeat constructor. apply zlen_Node_new. lia.
        * rewrite zlen_cons, zlen_nil. lia.
        * split; [lia|done].
      + unfold flat. rewrite Hns. simpl. by rewrite app_nil_r.
    - pose proof (wf_cur _ Hw) as Hcur. rewrite Hns in Hcur.
      destruct (m_curNode ba) as [i|]; [|done].
      exists i, []. by rewrite app_nil_r. }
  unfold addCapacityTo. fold ba1. case_if; bool_lia.
  - exists ba1, ex1, i. split_and!; done || lia.
  - destruct (grow_loop_spec (m_baseSize ba) Hb junk (S (Z.to_nat (capacity - m_capacity ba1)))
      ba1 capacity) as (extra & Hue & Hcap & ->); try (rewrite <- Hb1; apply Hw1); try done; try lia.
    eexists _, (ex1 ++ concat extra), i. split; [done|].
    pose proof (zlen_nonneg extra).
    split_and!; simpl; try done.
    + destruct Hw1 as [? Hu1 Hca1 ? ? ? Hcu1]. rewrite Hb1 in *. rewrite Hc1 in *.
      split; simpl; try done; try lia.
      * by apply Forall_app.
      * rewrite length_app. destruct Hcu1. split; [lia|done].
    + rewrite app_assoc, <- Hf1. unfold flat. simpl. apply concat_app.
Qed.

(** The node that holds position [offset], where the operations step first. *)
Lemma advance_spec ba i :
  wf ba → m_curNode ba = Some i → m_offset ba < m_capacity ba →
  ∃ j, advance ba (Some i) (m_offset ba) (m_offset ba mod m_baseSize ba) = Ret (Some j) ∧
    (j < length (m_nodes ba))%nat ∧ Z.of_nat j = m_offset ba / m_baseSize ba.
Proof.
  intros Hw Hc Hroom. destruct Hw as [Hb Hu Hcap [Ho _] _ _ Hcur]. rewrite Hc in Hcur.
  destruct Hcur as [Hi Hic]. unfold cursor in Hic. unfold advance.
  set (off := m_offset ba) in *. set (base := m_baseSize ba) in *.
  destruct (off mod base =? 0) eqn:Hm; bool_lia; simpl.
  - apply Z.eqb_eq in Hm. pose proof (Z.div_mod off base ltac:(lia)) as Hdm.
    destruct (0 <? off) eqn:H0; bool_lia; simpl.
    + rewrite (proj2 (Z.eqb_neq off 0)) in Hic by lia.
      assert ((off - 1) / base = off / base - 1) as Hd.
      { symmetry. apply Z.div_unique with (base - 1); nia. }
      assert (S i < length (m_nodes ba))%nat as HSi.
      { unfold zlen in Hcap. nia. }
      rewrite node_nxt_Some by done. exists (S i). split_and!; [done|done|lia].
    + exists i. replace off with 0 in * by lia. split_and!; [done|done|].
      rewrite Z.div_0_l by lia. simpl in Hic. lia.
  - apply Z.eqb_neq in Hm. exists i. split_and!; [done|done|].
    rewrite (proj2 (Z.eqb_neq off 0)) in Hic.
    + pose proof (Z.mod_pos_bound off base). pose proof (Z.div_mod off base).
      rewrite Hic. symmetry. apply Z.div_unique with (off mod base - 1); lia.
    + intros H0. by rewrite H0, Z.mod_0_l in Hm by lia.
Qed.

Lemma write_nil ba : write junk ba [] = Ret ba.
Proof. done. Qed.

Lemma write_spec ba buf :
  wf ba → m_size ba + zlen buf < 2 ^ 64 →
  ∃ ba' extra, write junk ba buf = Ret ba' ∧ wf ba' ∧
    m_endian ba' = m_endian ba ∧ m_baseSize ba' = m_baseSize ba ∧
    m_size ba' = m_size ba + zlen buf ∧ m_offset ba' = m_offset ba + zlen buf ∧
    m_size ba + zlen buf <= zlen (flat ba ++ extra) ∧
    flat ba' = splice (m_offset ba) buf (flat ba ++ extra).
Proof.
  intros Hw Hsz. pose proof (zlen_nonneg buf) as Hnn.
  unfold write. case_if.
  { apply Z.eqb_eq, zlen_0 in E as ->. exists ba, []. autorewrite with zlist.
    rewrite app_nil_r, splice_nil by apply Hw.
    pose proof (zlen_flat _ Hw). destruct Hw. split_and!; try done; lia. }
  apply Z.eqb_neq in E.
  rewrite u64_small by (destruct Hw; lia).
  destruct (addCapacityTo_spec ba (m_size ba + zlen buf) Hw)
    as (ba1 & extra & i & -> & Hw1 & Hc1 & Hcap & He & Hb & Hs & Ho & Hf).
  simpl. pose proof (wf_base _ Hw1) as Hbp.
  rewrite size_mod_pos by done. simpl. rewrite Hc1.
  destruct (advance_spec ba1 i Hw1 Hc1) as (j & -> & Hj & Hjv); [destruct Hw1; lia|].
  simpl. rewrite (node_size_spec (m_baseSize ba1)) by (done || apply Hw1). simpl.
  set (off := m_offset ba1) in *. set (base := m_baseSize ba1) in *.
  pose proof (Z.mod_pos_bound off base Hbp) as Hmod.
  pose proof (Z.div_mod off base ltac:(lia)) as Hdm.
  assert (Z.of_nat j * base + off mod base = off) as Hpos by (rewrite Hjv; lia).
  destruct (write_loop_spec base Hbp (S (length buf)) (set_cur (Some j) ba1) j
    (off mod base) buf) as (ns' & k & Hwl & Hu' & Hl' & Hk & Hc' & Hkv);
    try done; try lia; try apply Hw1.
  { change (flat (set_cur (Some j) ba1)) with (flat ba1).
    rewrite zlen_flat by done. destruct Hw1. lia. }
  simpl in Hwl. rewrite Hwl. simpl. rewrite Hpos in *.
  change (flat (set_cur (Some j) ba1)) with (flat ba1) in Hc'.
  assert (zlen (flat ba ++ extra) = m_capacity ba1) as Hlen
    by by rewrite <- Hf, zlen_flat.
  subst off base. destruct Hw1 as [? Hu1 Hca1 Hof1 Hsi1 Hs641 ?].
  rewrite (proj2 (Z.ltb_ge _ _)) by lia.
  eexists _, extra. split; [done|].
  split_and!; simpl; try done; try lia; [|by rewrite <- Hf, <- Ho].
  split; simpl; try done; try lia.
  - unfold zlen in *. rewrite Hl'. done.
  - split; [done|]. unfold cursor.
    rewrite (proj2 (Z.eqb_neq _ 0)) by lia. done.
Qed.
Lemma zlen_content ba : wf ba → zlen (content ba) = m_size ba.
Proof.
  intros Hw. unfold content. apply zlen_ztake. rewrite zlen_flat by done.
  destruct Hw; lia.
Qed.

Lemma read_spec ba k :
  wf ba → 0 < k → m_offset ba + k <= m_size ba →
  ∃ ba', read ba k = Ret (slice (m_offset ba) k (flat ba), ba') ∧ wf ba' ∧
    m_endian ba' = m_endian ba ∧ m_baseSize ba' = m_baseSize ba ∧
    m_nodes ba' = m_nodes ba ∧ m_size ba' = m_size ba ∧ m_offset ba' = m_offset ba + k.
Proof.
  intros Hw Hk Hfit. pose proof (wf_base _ Hw) as Hb.
  destruct (m_curNode ba) as [i|] eqn:Hc; last first.
  { pose proof (wf_cur _ Hw) as Hn. rewrite Hc in Hn.
    destruct (wf_empty _ Hw Hn); destruct Hw; lia. }
  unfold read. rewrite (proj2 (Z.ltb_ge _ _)); last first.
  { unfold getEnableReadSize. rewrite u64_small; destruct Hw; lia. }
  rewrite size_mod_pos by done. simpl. rewrite Hc.
  destruct (advance_spec ba i Hw Hc) as (j & -> & Hj & Hjv); [destruct Hw; lia|].
  simpl. rewrite (node_size_spec (m_baseSize ba)) by (done || apply Hw). simpl.
  pose proof (Z.mod_pos_bound (m_offset ba) _ Hb) as Hmod.
  pose proof (Z.div_mod (m_offset ba) (m_baseSize ba) ltac:(lia)) as Hdm.
  assert (Z.of_nat j * m_baseSize ba + m_offset ba mod m_baseSize ba = m_offset ba)
    as Hpos by (rewrite Hjv; lia).
  destruct (read_loop_spec (m_baseSize ba) Hb (S (Z.to_nat k)) ba j
    (m_offset ba mod m_baseSize ba) k) as (l & -> & Hl & Hlv); try done; try lia.
  { apply Hw. }
  { rewrite zlen_flat by done. destruct Hw; lia. }
  rewrite Hpos in *. simpl. eexists. split; [done|].
  destruct Hw. split_and!; simpl; try done.
  split; simpl; try done; try lia.
  split; [done|]. unfold cursor. rewrite (proj2 (Z.eqb_neq _ 0)) by lia. done.
Qed.

Lemma read_out_of_range ba k :
  wf ba → m_size ba < m_offset ba + k → read ba k = Throw "READ OUT OF RANGE".
Proof.
  intros Hw Hk. unfold read, getEnableReadSize.
  rewrite u64_small by (destruct Hw; lia).
  by rewrite (proj2 (Z.ltb_lt _ _)) by lia.
Qed.

Lemma walk_spec ba n i :
  (i + n < length (m_nodes ba))%nat → walk ba n (Some i) = Ret (Some (i + n)%nat).
Proof.
  revert i. induction n as [|n IH]; intros i Hi; simpl; [by rewrite Nat.add_0_r|].
  rewrite node_nxt_Some by lia. rewrite IH by lia. do 2 f_equal. lia.
Qed.

(** [setOffset] to a position of the first node or to a node boundary. *)
Lemma setOffset_spec ba o :
  wf ba → 0 <= o <= m_capacity ba → o < 2 ^ 64 →
  o mod m_baseSize ba = 0 ∨ o < m_baseSize ba →
  ∃ ba', setOffset ba o = Ret ba' ∧ wf ba' ∧
    m_endian ba' = m_endian ba ∧ m_baseSize ba' = m_baseSize ba ∧
    m_nodes ba' = m_nodes ba ∧ m_size ba' = Z.max (m_size ba) o ∧ m_offset ba' = o.
Proof.
  intros Hw Ho H64 Hal. pose proof (wf_base _ Hw) as Hb. unfold setOffset.
  rewrite (proj2 (Z.ltb_ge _ _)) by lia. rewrite size_div_pos by done. simpl.
  assert ((if m_size ba <? o then o else m_size ba) = Z.max (m_size ba) o) as ->.
  { case_if; bool_lia. }
  assert (o / m_baseSize ba - 1 <= cursor (m_baseSize ba) o ∧
          Z.of_nat (Z.to_nat (o / m_baseSize ba - 1)) = cursor (m_baseSize ba) o) as [_ Hcu].
  { unfold cursor. pose proof (Z.div_mod o (m_baseSize ba) ltac:(lia)).
    pose proof (Z.mod_pos_bound o _ Hb).
    destruct (Z.eqb_spec o 0) as [->|Hne]; [rewrite Z.div_0_l by lia; lia|].
    destruct Hal as [Hal|Hal].
    - assert ((o - 1) / m_baseSize ba = o / m_baseSize ba - 1) as ->; [|split; nia].
      symmetry. apply Z.div_unique with (m_baseSize ba - 1); nia.
    - rewrite !Z.div_small by lia. lia. }
  destruct (m_nodes ba) as [|nd ns] eqn:Hn.
  - destruct Hw as [? ? Hcap ? ? ? ?]. rewrite Hn, zlen_nil in Hcap.
    assert (o = 0) as -> by lia. rewrite Z.div_0_l by lia. unfold m_rootNode. rewrite Hn. simpl.
    eexists. split; [done|]. split_and!; simpl; try done.
    split; simpl; try done; try lia. by rewrite Hn, zlen_nil.
  - assert (m_rootNode ba = Some O) as -> by (unfold m_rootNode; by rewrite Hn).
    assert (cursor (m_baseSize ba) o < zlen (m_nodes ba)) as Hlt.
    { destruct Hw as [? ? Hcap ? ? ? ?]. unfold cursor. case_if; bool_lia.
      - rewrite Hn, zlen_cons. pose proof (zlen_nonneg ns). lia.
      - apply Z.div_lt_upper_bound; [done|]. lia. }
    rewrite walk_spec by (unfold zlen in Hlt; lia). simpl.
    eexists. split; [done|]. destruct Hw. split_and!; simpl; try done.
    split; simpl; try done; try lia. split; [unfold zlen in Hlt; lia|done].
Qed.

(** ** The abstract view: what was consumed and what can still be read *)

Record view (e base : Z) (pre post : list byte) ba : Prop := {
  view_wf : wf ba;
  view_endian : m_endian ba = e;
  view_base : m_baseSize ba = base;
  view_content : content ba = pre ++ post;
  view_offset : m_offset ba = zlen pre
}.

Lemma view_size e base pre post ba : view e base pre post ba → m_size ba = zlen pre + zlen post.
Proof. intros [Hw _ _ Hc _]. by rewrite <- zlen_content, Hc, zlen_app. Qed.

Lemma view_new e base : 0 < base → view e base [] [] (setEndian e (ByteArray_new base)).
Proof. intros Hb. split; try done. split; simpl; try done; try lia; [constructor|].
  unfold zlen. simpl. lia.
Qed.

Lemma write_view e base pre buf ba :
  view e base pre [] ba → zlen pre + zlen buf < 2 ^ 64 →
  ∃ ba', write junk ba buf = Ret ba' ∧ view e base (pre ++ buf) [] ba'.
Proof.
  intros Hv H64. pose proof (view_size _ _ _ _ _ Hv) as Hs. rewrite zlen_nil in Hs.
  pose proof (view_offset _ _ _ _ _ Hv) as Ho.
  destruct Hv as [Hw He Hb Hc _]. rewrite app_nil_r in Hc.
  destruct (write_spec ba buf Hw) as (ba' & ex & Hwr & Hw' & He' & Hb' & Hs' & Ho' & Hfit & Hf);
    [lia|].
  exists ba'. split; [done|]. split; try congruence; try lia.
  - rewrite app_nil_r. unfold content. rewrite Hf, Hs'.
    replace (m_size ba) with (m_offset ba) at 1 by lia.
    rewrite ztake_splice_end by (destruct Hw; lia). f_equal.
    rewrite <- Hc. unfold content. pose proof (zlen_flat _ Hw). destruct Hw.
    rewrite ztake_app_l by lia. f_equal. lia.
  - rewrite zlen_app. lia.
Qed.

Lemma read_view e base pre d post ba :
  view e base pre (d ++ post) ba → 0 < zlen d →
  ∃ ba', read ba (zlen d) = Ret (d, ba') ∧ view e base (pre ++ d) post ba'.
Proof.
  intros Hv Hd. pose proof (view_size _ _ _ _ _ Hv) as Hs. rewrite zlen_app in Hs.
  pose proof (zlen_nonneg post) as Hnp. pose proof (zlen_nonneg pre) as Hnpre.
  destruct Hv as [Hw He Hb Hc Ho].
  destruct (read_spec ba (zlen d) Hw Hd) as (ba' & Hr & Hw' & He' & Hb' & Hn' & Hs' & Ho');
    [lia|].
  assert (slice (m_offset ba) (zlen d) (flat ba) = d) as Hsl.
  { unfold content in Hc. rewrite <- (ztake_zdrop (m_size ba) (flat ba)), Hc, <- !app_assoc.
    replace (m_offset ba) with (zlen pre + 0) by lia.
    rewrite slice_middle by lia. unfold slice. rewrite zdrop_0. apply ztake_all. }
  rewrite Hsl in Hr. exists ba'. split; [done|].
  split; try congruence; try lia.
  - unfold content, flat in *. rewrite Hn', Hs', Hc. by rewrite app_assoc.
  - rewrite zlen_app. lia.
Qed.

Lemma rewind_view e base pre post ba :
  view e base pre post ba →
  ∃ ba', setOffset ba 0 = Ret ba' ∧ view e base [] (pre ++ post) ba'.
Proof.
  intros [Hw He Hb Hc Ho].
  destruct (setOffset_spec ba 0 Hw) as (ba' & Hr & Hw' & He' & Hb' & Hn' & Hs' & Ho').
  { destruct Hw; lia. } { lia. } { left. apply Z.mod_0_l. destruct Hw; lia. }
  exists ba'. split; [done|]. split; try congruence; try done.
  unfold content, flat in *. rewrite Hn', Hs'. destruct Hw. by rewrite Z.max_l by lia.
Qed.
End operations.

(** ** Typed values *)

(** The typed [writeX]/[readX] pairs; floats are bit patterns. *)
Inductive int_kind : Set := KUint8 | KUint16 | KUint32 | KUint64
  | KInt8 | KInt16 | KInt32 | KInt64 | KFloat | KDouble.
Inductive str_kind : Set := KString16 | KString32 | KString64 | KStringVint.

Inductive kind : Set := KInt (k : int_kind) | KStr (k : str_kind).
Inductive value : Type := VInt (k : int_kind) (z : Z) | VStr (k : str_kind) (s : list byte).

Definition kind_of (v : value) : kind :=
  match v with VInt k _ => KInt k | VStr k _ => KStr k end.

Definition int_width (k : int_kind) : nat :=
  match k with
  | KUint8 | KInt8 => 1
  | KUint16 | KInt16 => 2
  | KUint32 | KInt32 | KFloat => 4
  | KUint64 | KInt64 | KDouble => 8
  end.
Definition int_signed (k : int_kind) : bool :=
  match k with KInt8 | KInt16 | KInt32 | KInt64 => true | _ => false end.
(** The width of the length prefix of a string. *)
Definition str_width (k : str_kind) : nat :=
  match k with KString16 => 2 | KString32 => 4 | KString64 | KStringVint => 8 end.

Ltac norm_widths :=
  try change (Z.of_nat 1) with 1 in *; try change (Z.of_nat 2) with 2 in *;
  try change (Z.of_nat 4) with 4 in *; try change (Z.of_nat 8) with 8 in *;
  try change (8 * 1) with 8 in *; try change (8 * 2) with 16 in *;
  try change (8 * 4) with 32 in *; try change (8 * 8) with 64 in *.

Section values.
Context (junk : nat → byte) (h : host_order).
Implicit Types (ba : ByteArray).

Definition write_int (k : int_kind) : ByteArray → Z → res ByteArray :=
  match k with
  | KUint8 => writeUint8 junk h | KUint16 => writeUint16 junk h
  | KUint32 => writeUint32 junk h | KUint64 => writeUint64 junk h
  | KInt8 => writeInt8 junk h | KInt16 => writeInt16 junk h
  | KInt32 => writeInt32 junk h | KInt64 => writeInt64 junk h
  | KFloat => writeFloat junk h | KDouble => writeDouble junk h
  end.
Definition write_str (k : str_kind) : ByteArray → list byte → res ByteArray :=
  match k with
  | KString16 => writeString16 junk h | KString32 => writeString32 junk h
  | KString64 => writeString64 junk h | KStringVint => writeStringVint junk h
  end.
Definition read_int (k : int_kind) : ByteArray → res (Z * ByteArray) :=
  match k with
  | KUint8 => readUint8 h | KUint16 => readUint16 h
  | KUint32 => readUint32 h | KUint64 => readUint64 h
  | KInt8 => readInt8 h | KInt16 => readInt16 h
  | KInt32 => readInt32 h | KInt64 => readInt64 h
  | KFloat => readFloat h | KDouble => readDouble h
  end.
Definition read_str (k : str_kind) : ByteArray → res (list byte * ByteArray) :=
  match k with
  | KString16 => readString16 h | KString32 => readString32 h
  | KString64 => readString64 h | KStringVint => readStringVint h
  end.

Definition write_value ba (v : value) : res ByteArray :=
  match v with VInt k z => write_int k ba z | VStr k s => write_str k ba s end.
Definition read_value ba (k : kind) : res (value * ByteArray) :=
  match k with
  | KInt k => '(z, ba) ← read_int k ba; Ret (VInt k z, ba)
  | KStr k => '(s, ba) ← read_str k ba; Ret (VStr k s, ba)
  end.

Fixpoint write_values ba (vs : list value) : res ByteArray :=
  match vs with
  | [] => Ret ba
  | v :: vs => ba ← write_value ba v; write_values ba vs
  end.
Fixpoint read_values ba (ks : list kind) : res (list value * ByteArray) :=
  match ks with
  | [] => Ret ([], ba)
  | k :: ks =>
      '(v, ba) ← read_value ba k; '(vs, ba) ← read_values ba ks; Ret (v :: vs, ba)
  end.

(** The bytes of an [n]-byte integer in the buffer's byte order [e]. *)
Definition ordered (e : Z) (n : nat) (z : Z) : list byte :=
  mem_of_int h n (if e =? TIGERKIN_BYTE_ORDER h then z else byteswap n z).
Definition int_bytes (e : Z) (k : int_kind) (z : Z) : list byte :=
  match k with
  | KUint8 | KInt8 => mem_of_int h 1 z
  | _ => ordered e (int_width k) z
  end.
Definition encode (e : Z) (v : value) : list byte :=
  match v with
  | VInt k z => int_bytes e k z
  | VStr k s => ordered e (str_width k) (zlen s) ++ s
  end.
Definition encode_all (e : Z) (vs : list value) : list byte := concat (encode e <$> vs).

(** The values the types can hold; a string is not empty and its length
    fits its prefix. *)
Definition value_ok (v : value) : Prop :=
  match v with
  | VInt k z =>
      let w := 8 * Z.of_nat (int_width k) in
      if int_signed k then - 2 ^ (w - 1) <= z < 2 ^ (w - 1) else 0 <= z < 2 ^ w
  | VStr k s => 0 < zlen s < 2 ^ (8 * Z.of_nat (str_width k))
  end.

Lemma zlen_ordered e n z : zlen (ordered e n z) = Z.of_nat n.
Proof. apply zlen_mem_of_int. Qed.

Lemma ordered_decode e n z :
  (let v := int_of_mem h (ordered e n z) in
   if e =? TIGERKIN_BYTE_ORDER h then v else byteswap n v) = z mod 2 ^ (8 * Z.of_nat n).
Proof.
  unfold ordered. simpl. case_if; rewrite int_of_mem_of_int; [done|].
  by rewrite byteswap_mod, byteswap_involutive.
Qed.

Lemma write_int_bytes k ba z : write_int k ba z = write junk ba (int_bytes (m_endian ba) k z).
Proof. by destruct k. Qed.

Lemma write_swapped_bytes n ba z :
  write_swapped junk h n ba z = write junk ba (ordered (m_endian ba) n z).
Proof. done. Qed.

(** Reading an integer of any kind consumes its bytes and gives it back. *)
Lemma read_int_view e base pre post k z ba :
  view e base pre (int_bytes e k z ++ post) ba → value_ok (VInt k z) →
  ∃ ba', read_int k ba = Ret (z, ba') ∧ view e base (pre ++ int_bytes e k z) post ba'.
Proof.
  intros Hv Hok.
  assert (zlen (int_bytes e k z) = Z.of_nat (int_width k)) as Hlen.
  { destruct k; simpl; by rewrite ?zlen_ordered, ?zlen_mem_of_int. }
  destruct (read_view _ _ _ _ _ _ Hv) as (ba' & Hr & Hv').
  { rewrite Hlen. destruct k; simpl; lia. }
  exists ba'. split; [|done]. rewrite Hlen in Hr.
  pose proof (view_endian _ _ _ _ _ Hv') as He'.
  destruct k; simpl in Hok; simpl int_width in Hr;
    cbn [read_int]; unfold readUint8, readInt8, readUint8, readFloat, readDouble, readInt16,
      readInt32, readInt64, readUint16, readUint32, readUint64, read_signed, read_swapped;
    norm_widths; rewrite Hr; cbn [mbind res_bind]; rewrite ?He'; unfold int_bytes;
    simpl int_width;
    first [ rewrite int_of_mem_of_int | rewrite ordered_decode ]; norm_widths;
    do 2 f_equal;
    first [ rewrite swrap_mod by lia; apply swrap_small; simpl; lia
          | apply Z.mod_small; simpl; lia ].
Qed.
Lemma read_swapped_view e base pre post n z ba :
  view e base pre (ordered e n z ++ post) ba → (0 < n)%nat → 0 <= z < 2 ^ (8 * Z.of_nat n) →
  ∃ ba', read_swapped h n ba = Ret (z, ba') ∧ view e base (pre ++ ordered e n z) post ba'.
Proof.
  intros Hv Hn Hz. destruct (read_view _ _ _ _ _ _ Hv) as (ba' & Hr & Hv').
  { rewrite zlen_ordered. lia. }
  exists ba'. split; [|done]. rewrite zlen_ordered in Hr. unfold read_swapped. rewrite Hr.
  cbn [mbind res_bind]. rewrite (view_endian _ _ _ _ _ Hv'), ordered_decode.
  by rewrite Z.mod_small.
Qed.

(** The string operations are a length and the bytes. *)
Lemma write_str_bytes k ba s :
  0 <= zlen s < 2 ^ (8 * Z.of_nat (str_width k)) →
  write_str k ba s = ba' ← write_swapped junk h (str_width k) ba (zlen s); write junk ba' s.
Proof.
  intros Hs. destruct k; simpl in *; norm_widths.
  - unfold writeString16. by rewrite u16_small.
  - unfold writeString32. by rewrite u32_small.
  - unfold writeString64. by rewrite u64_small.
  - unfold writeStringVint. by rewrite u64_small.
Qed.
Lemma read_str_bytes k ba :
  read_str k ba = '(len, ba') ← read_swapped h (str_width k) ba; read ba' len.
Proof. by destruct k. Qed.

Lemma write_value_view e base pre v ba :
  view e base pre [] ba → value_ok v → zlen pre + zlen (encode e v) < 2 ^ 64 →
  ∃ ba', write_value ba v = Ret ba' ∧ view e base (pre ++ encode e v) [] ba'.
Proof.
  intros Hv Hok H64. pose proof (view_endian _ _ _ _ _ Hv) as He.
  destruct v as [k z|k s]; cbn [value_ok encode write_value] in *.
  - rewrite write_int_bytes, He. by apply write_view.
  - rewrite zlen_app in H64. pose proof (zlen_nonneg s).
    rewrite write_str_bytes by lia. rewrite write_swapped_bytes, He.
    destruct (write_view junk e base pre (ordered e (str_width k) (zlen s)) ba Hv)
      as (ba1 & -> & Hv1); [lia|].
    rewrite ret_bind, app_assoc. apply write_view; [done|]. rewrite zlen_app. lia.
Qed.

Lemma read_value_view e base pre v post ba :
  view e base pre (encode e v ++ post) ba → value_ok v →
  ∃ ba', read_value ba (kind_of v) = Ret (v, ba') ∧ view e base (pre ++ encode e v) post ba'.
Proof.
  intros Hv Hok. destruct v as [k z|k s]; cbn [value_ok encode read_value kind_of] in *.
  - destruct (read_int_view _ _ _ _ _ _ _ Hv Hok) as (ba' & -> & Hv'). by exists ba'.
  - rewrite <- app_assoc in Hv. rewrite read_str_bytes.
    destruct (read_swapped_view _ _ _ _ _ _ _ Hv) as (ba1 & -> & Hv1); [destruct k; simpl; lia|lia|].
    rewrite ret_bind. destruct (read_view _ _ _ _ _ _ Hv1) as (ba2 & -> & Hv2); [lia|].
    exists ba2. by rewrite app_assoc.
Qed.

Lemma encode_all_cons e v vs : encode_all e (v :: vs) = encode e v ++ encode_all e vs.
Proof. done. Qed.

Lemma write_values_view e base pre vs ba :
  view e base pre [] ba → Forall value_ok vs → zlen pre + zlen (encode_all e vs) < 2 ^ 64 →
  ∃ ba', write_values ba vs = Ret ba' ∧ view e base (pre ++ encode_all e vs) [] ba'.
Proof.
  intros Hv Hok. revert pre ba Hv. induction Hok as [|v vs Hv0 _ IH]; intros pre ba Hv H64.
  - exists ba. unfold encode_all. simpl. by rewrite app_nil_r.
  - rewrite encode_all_cons in *. cbn [write_values]. rewrite zlen_app in H64.
    pose proof (zlen_nonneg (encode_all e vs)).
    destruct (write_value_view e base pre v ba Hv Hv0) as (ba1 & -> & Hv1); [lia|].
    rewrite ret_bind, app_assoc. apply IH; [done|]. rewrite zlen_app. lia.
Qed.

Lemma read_values_view e base pre vs post ba :
  view e base pre (encode_all e vs ++ post) ba → Forall value_ok vs →
  ∃ ba', read_values ba (kind_of <$> vs) = Ret (vs, ba') ∧
    view e base (pre ++ encode_all e vs) post ba'.
Proof.
  intros Hv Hok. revert pre ba Hv. induction Hok as [|v vs Hv0 _ IH]; intros pre ba Hv.
  - exists ba. unfold encode_all. simpl. by rewrite app_nil_r.
  - rewrite encode_all_cons in *. rewrite <- app_assoc in Hv.
    rewrite fmap_cons. cbn [read_values].
    destruct (read_value_view e base pre v _ ba Hv Hv0) as (ba1 & -> & Hv1).
    rewrite ret_bind. destruct (IH _ _ Hv1) as (ba2 & -> & Hv2). exists ba2.
    by rewrite app_assoc.
Qed.

(** *** Copies of the unread bytes *)

Lemma advance_total ba :
  wf ba → ∃ c, advance ba (m_curNode ba) (m_offset ba) (m_offset ba mod m_baseSize ba) = Ret c.
Proof.
  intros Hw. unfold advance. case_if; [|eauto].
  apply andb_true_iff in E as [_ E]. apply Z.ltb_lt in E.
  destruct (m_curNode ba) eqn:Hc; simpl; [eauto|].
  pose proof (wf_cur _ Hw) as Hn. rewrite Hc in Hn. destruct (wf_empty _ Hw Hn). lia.
Qed.

(** The loop of [read], [toString] and [writeToFile] from the cursor on. *)
Lemma unread_loop ba k :
  wf ba → 0 < k → m_offset ba + k <= m_size ba →
  ∃ tmp l, advance ba (m_curNode ba) (m_offset ba) (m_offset ba mod m_baseSize ba) = Ret tmp ∧
    node_size ba tmp = Ret (m_baseSize ba) ∧
    read_loop (S (Z.to_nat k)) ba tmp (m_offset ba mod m_baseSize ba)
      (m_baseSize ba - m_offset ba mod m_baseSize ba) k = Ret (slice (m_offset ba) k (flat ba), l).
Proof.
  intros Hw Hk Hfit. destruct (read_spec ba k Hw Hk Hfit) as (ba' & Hr & _).
  unfold read in Hr. pose proof (wf_base _ Hw) as Hb.
  rewrite (proj2 (Z.ltb_ge _ _)) in Hr;
    [|unfold getEnableReadSize; rewrite u64_small; destruct Hw; lia].
  rewrite size_mod_pos in Hr by done. simpl in Hr.
  destruct (m_curNode ba) as [i|] eqn:Hc; last first.
  { pose proof (wf_cur _ Hw) as Hn. rewrite Hc in Hn. destruct (wf_empty _ Hw Hn). lia. }
  destruct (advance_spec ba i Hw Hc) as (j & Ha & Hj & Hjv); [destruct Hw; lia|].
  rewrite Ha in Hr |- *. simpl in Hr.
  rewrite (node_size_spec (m_baseSize ba)) in Hr by (done || apply Hw). simpl in Hr.
  destruct (read_loop _ _ _ _ _ _) as [[d c]| | | |] eqn:Hl; try done.
  injection Hr as -> _. exists (Some j), c. split_and!; [done| |done].
  by rewrite (node_size_spec (m_baseSize ba)) by (done || apply Hw).
Qed.

Lemma view_unread e base pre post ba :
  view e base pre post ba →
  getEnableReadSize ba = zlen post ∧ slice (m_offset ba) (zlen post) (flat ba) = post.
Proof.
  intros Hv. pose proof (view_size _ _ _ _ _ Hv) as Hs. destruct Hv as [Hw _ _ Hc Ho].
  pose proof (zlen_nonneg pre). pose proof (zlen_nonneg post). split.
  - unfold getEnableReadSize. rewrite u64_small; destruct Hw; lia.
  - unfold content in Hc. rewrite <- (ztake_zdrop (m_size ba) (flat ba)), Hc, <- app_assoc.
    replace (m_offset ba) with (zlen pre + 0) by lia.
    rewrite slice_middle by lia. unfold slice. rewrite zdrop_0. apply ztake_all.
Qed.

Lemma toString_view e base pre post ba :
  view e base pre post ba → toString ba = Ret post.
Proof.
  intros Hv. destruct (view_unread _ _ _ _ _ Hv) as [Hn Hsl].
  pose proof (view_size _ _ _ _ _ Hv) as Hs. pose proof (view_offset _ _ _ _ _ Hv) as Ho.
  pose proof (zlen_nonneg post). unfold toString. rewrite Hn.
  case_if; [by apply Z.eqb_eq, zlen_0 in E as ->|]. apply Z.eqb_neq in E.
  unfold read_at. rewrite Hn, Z.ltb_irrefl.
  destruct (unread_loop ba (zlen post)) as (tmp & l & Ha & Hns & Hl);
    [apply Hv|lia|lia|]. pose proof (wf_base _ (view_wf _ _ _ _ _ Hv)).
  rewrite size_mod_pos by done. simpl. rewrite Ha. simpl. rewrite Hns. simpl.
  by rewrite Hl, Hsl.
Qed.

Lemma writeToFile_view e base pre post ba :
  view e base pre post ba → writeToFile ba true = Ret (true, post).
Proof.
  intros Hv. destruct (view_unread _ _ _ _ _ Hv) as [Hn Hsl].
  pose proof (view_size _ _ _ _ _ Hv) as Hs. pose proof (view_offset _ _ _ _ _ Hv) as Ho.
  pose proof (zlen_nonneg post). pose proof (wf_base _ (view_wf _ _ _ _ _ Hv)).
  unfold writeToFile. simpl. rewrite Hn, size_mod_pos by done. simpl.
  destruct (Z.eq_dec (zlen post) 0) as [E|E].
  - apply zlen_0 in E as ->. destruct (advance_total ba (view_wf _ _ _ _ _ Hv)) as [c ->].
    done.
  - destruct (unread_loop ba (zlen post)) as (tmp & l & Ha & Hns & Hl);
      [apply Hv|lia|lia|].
    rewrite Ha. simpl. rewrite file_loop_read, Hl. simpl. by rewrite Hsl.
Qed.

Lemma readFromFile_loop_view e base pre content fuel ba :
  view e base pre [] ba → zlen pre + zlen content < 2 ^ 64 → (length content < fuel)%nat →
  ∃ ba', readFromFile_loop junk fuel ba content = Ret ba' ∧
    view e base (pre ++ content) [] ba'.
Proof.
  revert pre content ba. induction fuel as [|fuel IH]; [lia|].
  intros pre content ba Hv H64 Hf. pose proof (wf_base _ (view_wf _ _ _ _ _ Hv)) as Hb.
  cbn [readFromFile_loop]. set (b := m_baseSize ba) in *.
  pose proof (zlen_nonneg content) as Hc0.
  destruct (Z_lt_ge_dec (zlen content) b) as [Hlt|Hge].
  - rewrite ztake_ge by lia. destruct (write_view junk e base pre content ba Hv H64) as (ba' & -> & Hv').
    cbn [mbind res_bind]. rewrite (proj2 (Z.ltb_lt _ _)) by lia. eauto.
  - destruct (write_view junk e base pre (ztake b content) ba Hv) as (ba1 & -> & Hv1).
    { rewrite zlen_ztake; lia. }
    cbn [mbind res_bind]. rewrite (proj2 (Z.ltb_ge _ _)) by (rewrite zlen_ztake; lia).
    replace (pre ++ content) with ((pre ++ ztake b content) ++ zdrop b content)
      by (by rewrite <- app_assoc, ztake_zdrop).
    apply IH; [done| |].
    + rewrite zlen_app, zlen_ztake, zlen_zdrop; lia.
    + unfold zdrop. rewrite length_drop. unfold zlen in *. lia.
Qed.
End values.
