(* ===== verification/ByteArrayProps.v ===== *)
(** * Properties of the serialization buffer

    The theorems about [ByteArray.v]: typed round trips and the wire format,
    the functional behaviour of [write] and [read], the file round trip, and
    the corners where the chain of nodes is not followed as intended. *)

From S2P Require Import Prelude Endian ByteArray.
From coqutil Require Import Byte Word.LittleEndianList.

(** ** Round trips and the wire format *)


Definition sample_values : list value :=
  [VInt KInt16 (-2); VStr KString16 (byte.of_Z <$> [104; 105]); VInt KUint64 (2 ^ 63)].
Definition no_junk (n : nat) : byte := byte.of_Z 0.

Lemma sample_values_ok : Forall value_ok sample_values.
Proof. repeat constructor; vm_compute; congruence. Qed.


(** The bytes of [v] in the order [e], with no reference to a host. *)
Definition wire_int (e : Z) (n : nat) (v : Z) : list byte :=
  if e =? TIGERKIN_LITTLE_ENDIAN then le_split n v else rev (le_split n v).
Definition wire_encode (e : Z) (v : value) : list byte :=
  match v with
  | VInt k z => wire_int e (int_width k) z
  | VStr k s => wire_int e (str_width k) (zlen s) ++ s
  end.

Lemma ordered_wire h e n z :
  e = TIGERKIN_LITTLE_ENDIAN ∨ e = TIGERKIN_BIG_ENDIAN → ordered h e n z = wire_int e n z.
Proof.
  intros He. unfold ordered, wire_int.
  destruct He as [-> | ->], h; cbn -[mem_of_int byteswap le_split]; try done;
    rewrite mem_of_byteswap; simpl; by rewrite ?rev_involutive.
Qed.

Lemma encode_wire h e v :
  e = TIGERKIN_LITTLE_ENDIAN ∨ e = TIGERKIN_BIG_ENDIAN → encode h e v = wire_encode e v.
Proof.
  intros He. destruct v as [k z|k s]; simpl; [|by rewrite ordered_wire].
  destruct k; simpl; try by apply ordered_wire.
  all: unfold wire_int; destruct h; case_if; reflexivity.
Qed.

(** The wire format is portable.  What the typed writes leave in a fresh
    buffer is the concatenation of the values' encodings in the byte order
    set on the buffer, least significant byte first or last, each string
    behind its length: no byte depends on the host. *)
Theorem wire_format junk h e base vs :
  0 < base → e = TIGERKIN_LITTLE_ENDIAN ∨ e = TIGERKIN_BIG_ENDIAN →
  Forall value_ok vs → zlen (encode_all h e vs) < 2 ^ 64 →
  ∃ ba, write_values junk h (setEndian e (ByteArray_new base)) vs = Ret ba ∧
    content ba = concat (wire_encode e <$> vs).
Proof.
  intros Hb He Hok H64.
  destruct (write_values_view junk h e base [] vs _ (view_new e base Hb) Hok H64)
    as (ba & Hw & Hv). exists ba. split; [done|].
  rewrite (view_content _ _ _ _ _ Hv), app_nil_r. unfold encode_all. simpl. f_equal.
  apply list_fmap_ext. intros _ v _. by apply encode_wire.
Qed.

Example wire_format_witness :
  ∃ ba, write_values no_junk HostBig (setEndian TIGERKIN_LITTLE_ENDIAN (ByteArray_new 3))
      sample_values = Ret ba ∧
    content ba = concat (wire_encode TIGERKIN_LITTLE_ENDIAN <$> sample_values).
Proof.
  apply (wire_format no_junk HostBig TIGERKIN_LITTLE_ENDIAN 3 sample_values);
    [lia|by left|apply sample_values_ok|vm_compute; reflexivity].
Defined.

(** Every well-formed buffer has an abstract view: the bytes before its
    offset and the ones that remain. *)
Definition unread (ba : ByteArray) : list byte := zdrop (m_offset ba) (content ba).

Lemma wf_view ba :
  wf ba → view (m_endian ba) (m_baseSize ba) (ztake (m_offset ba) (content ba)) (unread ba) ba.
Proof.
  intros Hw. split; try done; [by unfold unread; rewrite ztake_zdrop|].
  rewrite zlen_ztake; [done|]. rewrite zlen_content by done. apply Hw.
Qed.

(** Saving a buffer and loading the file into a fresh one keeps the
    unread bytes: [toString] and [writeToFile] both produce exactly them, and
    [readFromFile], into an empty buffer of any node size, succeeds and holds
    exactly them. *)
Theorem file_roundtrip junk ba base :
  wf ba → 0 < base →
  toString ba = Ret (unread ba) ∧ writeToFile ba true = Ret (true, unread ba) ∧
  ∃ ba', readFromFile junk (ByteArray_new base) (Some (unread ba)) = Ret (true, ba') ∧
    wf ba' ∧ content ba' = unread ba.
Proof.
  intros Hw Hb. pose proof (wf_view ba Hw) as Hv.
  pose proof (view_size _ _ _ _ _ Hv) as Hs.
  split; [by eapply toString_view|]. split; [by eapply writeToFile_view|].
  destruct (readFromFile_loop_view junk TIGERKIN_LITTLE_ENDIAN base [] (unread ba)
    (S (length (unread ba))) (ByteArray_new base)) as (ba' & Hr & Hv').
  - by apply view_new.
  - rewrite zlen_nil. pose proof (zlen_nonneg (ztake (m_offset ba) (content ba))).
    pose proof (wf_size_t _ Hw). lia.
  - lia.
  - exists ba'. unfold readFromFile. rewrite Hr. simpl.
    split_and!; [done|apply Hv'|]. by rewrite (view_content _ _ _ _ _ Hv'), app_nil_r.
Qed.

Example file_roundtrip_witness :
  toString (ByteArray_new 4) = Ret (unread (ByteArray_new 4)) ∧
  writeToFile (ByteArray_new 4) true = Ret (true, unread (ByteArray_new 4)) ∧
  ∃ ba', readFromFile no_junk (ByteArray_new 3) (Some (unread (ByteArray_new 4)))
           = Ret (true, ba') ∧ wf ba' ∧ content ba' = unread (ByteArray_new 4).
Proof.
  apply (file_roundtrip no_junk (ByteArray_new 4) 3); [|lia].
  apply (view_wf _ _ _ _ _ (view_new TIGERKIN_LITTLE_ENDIAN 4 ltac:(lia))).
Defined.

(** ** The functional behaviour of [write] and [read] *)

(** [write] on a well-formed buffer terminates, stays inside the chain
    (no access is undefined) and keeps the buffer well-formed; the bytes land
    at the offset and nothing else of the old content changes; offset and
    size both move by the number of bytes written, also where the write
    replaces bytes that were already counted in the size. *)
Theorem write_functional junk ba buf :
  wf ba → m_size ba + zlen buf < 2 ^ 64 →
  ∃ ba' extra, write junk ba buf = Ret ba' ∧ wf ba' ∧
    flat ba' = splice (m_offset ba) buf (flat ba ++ extra) ∧
    slice (m_offset ba) (zlen buf) (content ba') = buf ∧
    ztake (m_offset ba) (content ba') = ztake (m_offset ba) (content ba) ∧
    m_offset ba' = m_offset ba + zlen buf ∧ m_size ba' = m_size ba + zlen buf.
Proof.
  intros Hw H64. pose proof (zlen_nonneg buf).
  destruct (write_spec junk ba buf Hw H64)
    as (ba' & ex & Hr & Hw' & _ & _ & Hs & Ho & Hfit & Hf).
  exists ba', ex. pose proof (wf_offset _ Hw) as Hoff. pose proof (zlen_flat _ Hw) as Hz.
  pose proof (wf_size _ Hw). unfold content. rewrite Hs, Hf. split_and!; try done.
  - rewrite slice_ztake by lia. apply slice_splice_eq; lia.
  - rewrite !ztake_ztake by lia. rewrite ztake_splice by lia.
    rewrite ztake_app_l by lia. done.
Qed.

Example write_functional_witness :
  let ba := ByteArray_new 2 in let buf := byte.of_Z <$> [1; 2; 3] in
  ∃ ba' extra, write no_junk ba buf = Ret ba' ∧ wf ba' ∧
    flat ba' = splice (m_offset ba) buf (flat ba ++ extra) ∧
    slice (m_offset ba) (zlen buf) (content ba') = buf ∧
    ztake (m_offset ba) (content ba') = ztake (m_offset ba) (content ba) ∧
    m_offset ba' = m_offset ba + zlen buf ∧ m_size ba' = m_size ba + zlen buf.
Proof.
  apply (write_functional no_junk (ByteArray_new 2)); [|vm_compute; reflexivity].
  apply (view_wf _ _ _ _ _ (view_new TIGERKIN_LITTLE_ENDIAN 2 ltac:(lia))).
Defined.

(** [read] of [k > 0] bytes on a well-formed buffer either returns
    exactly the next [k] bytes, moving only the offset, or, when fewer than
    [k] bytes remain, throws out_of_range; no other outcome exists. *)
Theorem read_functional ba k :
  wf ba → 0 < k →
  (k <= zlen (unread ba) ∧
   ∃ ba', read ba k = Ret (ztake k (unread ba), ba') ∧ wf ba' ∧
     content ba' = content ba ∧ m_offset ba' = m_offset ba + k) ∨
  (zlen (unread ba) < k ∧ read ba k = Throw "READ OUT OF RANGE").
Proof.
  intros Hw Hk. pose proof (wf_offset _ Hw) as Ho. unfold unread.
  assert (zlen (zdrop (m_offset ba) (content ba)) = m_size ba - m_offset ba) as Hu.
  { rewrite zlen_zdrop; rewrite zlen_content by done; lia. }
  rewrite Hu. destruct (Z_le_gt_dec k (m_size ba - m_offset ba)) as [Hle|Hgt].
  - left. split; [done|].
    destruct (read_spec ba k Hw Hk) as (ba' & -> & Hw' & _ & _ & Hn & Hs & Ho'); [lia|].
    exists ba'. unfold content, flat. rewrite Hn, Hs. split_and!; try done.
    do 2 f_equal. symmetry. apply slice_ztake; lia.
  - right. split; [lia|]. apply read_out_of_range; [done|lia].
Qed.

Example read_functional_witness :
  let ba := ByteArray_new 2 in
  (1 <= zlen (unread ba) ∧
   ∃ ba', read ba 1 = Ret (ztake 1 (unread ba), ba') ∧ wf ba' ∧
     content ba' = content ba ∧ m_offset ba' = m_offset ba + 1) ∨
  (zlen (unread ba) < 1 ∧ read ba 1 = Throw "READ OUT OF RANGE").
Proof.
  apply (read_functional (ByteArray_new 2)); [|lia].
  apply (view_wf _ _ _ _ _ (view_new TIGERKIN_LITTLE_ENDIAN 2 ltac:(lia))).
Defined.

(** ** Corners of the chain of nodes *)

(** [setOffset] walks one node short when the position is inside a node
    that is not the first: the cursor stops on the node before. *)
Lemma setOffset_stops_short ba o :
  wf ba → m_baseSize ba <= o < m_capacity ba →
  ∃ ba', setOffset ba o = Ret ba' ∧ m_curNode ba' = Some (Z.to_nat (o / m_baseSize ba - 1)) ∧
    m_nodes ba' = m_nodes ba ∧ m_offset ba' = o ∧ m_size ba' = Z.max (m_size ba) o ∧
    m_baseSize ba' = m_baseSize ba.
Proof.
  intros Hw Ho. pose proof (wf_base _ Hw) as Hb. unfold setOffset.
  rewrite (proj2 (Z.ltb_ge _ _)) by lia. rewrite size_div_pos by done. simpl.
  assert (1 <= o / m_baseSize ba) as H1 by (apply Z.div_le_lower_bound; lia).
  assert (o / m_baseSize ba < zlen (m_nodes ba)) as Hq2.
  { apply Z.div_lt_upper_bound; [done|]. rewrite <- (wf_capacity _ Hw). lia. }
  unfold zlen in Hq2. unfold m_rootNode.
  destruct (m_nodes ba) as [|nd ns] eqn:Hn; [simpl in Hq2; lia|]. rewrite <- Hn in *.
  rewrite walk_spec by lia. simpl. eexists. split; [done|]. split_and!; simpl; try done.
  case_if; bool_lia.
Qed.

(** [setOffset] to a position inside a node that is not the first,
    followed by [read], returns the wrong byte: the one a whole node earlier
    (README and the tests use [setOffset(0)] only). *)
Theorem setOffset_mid_node ba o :
  wf ba → m_baseSize ba < o → o < m_size ba → o mod m_baseSize ba ≠ 0 →
  ∃ ba' ba'', setOffset ba o = Ret ba' ∧
    read ba' 1 = Ret (slice (o - m_baseSize ba) 1 (flat ba), ba'').
Proof.
  intros Hw Hlo Hhi Hmod. pose proof (wf_base _ Hw) as Hb. pose proof (wf_size _ Hw).
  destruct (setOffset_stops_short ba o Hw) as (ba' & Hs & Hc & Hn & Ho & Hsz & Hbs); [lia|].
  exists ba'. unfold read, getEnableReadSize. rewrite Hsz, Ho, Hbs, Hc.
  pose proof (wf_size_t _ Hw). pose proof (wf_offset _ Hw).
  rewrite u64_small by lia. rewrite (proj2 (Z.ltb_ge _ 1)) by lia.
  rewrite size_mod_pos by done. cbn [mbind res_bind]. unfold advance.
  rewrite (proj2 (Z.eqb_neq (o mod m_baseSize ba) 0)) by done. cbn [andb mbind res_bind].
  set (j := Z.to_nat (o / m_baseSize ba - 1)).
  assert (1 <= o / m_baseSize ba) as Hq1 by (apply Z.div_le_lower_bound; lia).
  assert (o / m_baseSize ba < zlen (m_nodes ba)) as Hq2.
  { apply Z.div_lt_upper_bound; [done|]. rewrite <- (wf_capacity _ Hw). lia. }
  assert (j < length (m_nodes ba'))%nat as Hj by (rewrite Hn; unfold zlen in Hq2; lia).
  assert (uniform (m_baseSize ba) (m_nodes ba')) as Hu by (rewrite Hn; apply Hw).
  rewrite (node_size_spec (m_baseSize ba)) by done. cbn [mbind res_bind].
  pose proof (Z.mod_pos_bound o _ Hb). pose proof (Z.div_mod o (m_baseSize ba) ltac:(lia)) as Hdm.
  destruct (read_loop_spec (m_baseSize ba) Hb (S (Z.to_nat 1)) ba' j (o mod m_baseSize ba) 1)
    as (l & Hr & _ & _); try done; try lia.
  { unfold flat. rewrite (zlen_concat (m_baseSize ba)) by done. rewrite Hn.
    unfold zlen in *. subst j. nia. }
  rewrite Hr. cbn [mbind res_bind].
  eexists. split; [done|]. unfold flat. rewrite Hn. do 3 f_equal. subst j. nia.
Qed.

Definition five_bytes : ByteArray :=
  mkByteArray TIGERKIN_LITTLE_ENDIAN 2 5 6 5
    [byte.of_Z <$> [1; 2]; byte.of_Z <$> [3; 4]; byte.of_Z <$> [5; 0]] (Some 2%nat).

Lemma five_bytes_wf : wf five_bytes.
Proof.
  split; simpl; try lia; [repeat constructor|reflexivity|split; [lia|reflexivity]].
Qed.

Example setOffset_mid_node_witness :
  ∃ ba' ba'', setOffset five_bytes 3 = Ret ba' ∧
    read ba' 1 = Ret (slice (3 - m_baseSize five_bytes) 1 (flat five_bytes), ba'').
Proof.
  apply (setOffset_mid_node five_bytes 3); [apply five_bytes_wf|simpl; lia..|].
  vm_compute. discriminate.
Defined.

(** [clear] on a chain of two nodes or more reads [nxt] of a node it has
    already deleted; with at most one node it leaves the empty buffer. *)
Theorem clear_use_after_free ba :
  ((length (m_nodes ba) <= 1)%nat →
     clear ba = Ret (mkByteArray (m_endian ba) (m_baseSize ba) 0 0 0 [] None)) ∧
  ((2 <= length (m_nodes ba))%nat → clear ba = Undef "m_rootNode->nxt after delete").
Proof.
  unfold clear, m_rootNode, clear_loop, node_nxt.
  destruct (m_nodes ba) as [|n1 [|n2 ns]]; simpl; (split; intros; try lia; try done).
Qed.

Example clear_use_after_free_witness :
  clear five_bytes = Undef "m_rootNode->nxt after delete".
Proof. apply (clear_use_after_free five_bytes). simpl. lia. Defined.

(** [getReadBuffers] collects the bytes but misreports them: when
    the range lies in the first node the single buffer is the whole range and
    the count returned is 0 instead of [len]. *)
Theorem getReadBuffers_count ba len offset :
  wf ba → 0 < len → 0 <= offset → offset + len <= m_baseSize ba →
  offset + len <= m_size ba →
  getReadBuffers_at ba len offset = Ret ([(Some O, offset, len)], 0).
Proof.
  intros Hw Hl Ho Hfit Hsz. pose proof (wf_base _ Hw). pose proof (wf_size_t _ Hw).
  pose proof (wf_size _ Hw). pose proof (wf_capacity _ Hw) as Hcap.
  unfold getReadBuffers_at. rewrite u64_small by lia.
  rewrite (proj2 (Z.ltb_ge _ _)) by lia. rewrite (proj2 (Z.eqb_neq len 0)) by lia.
  cbn [orb]. rewrite size_div_pos, size_mod_pos by done. rewrite Z.div_small, Z.mod_small by lia.
  cbn -[m_rootNode iov_loop node_size]. unfold m_rootNode.
  destruct (m_nodes ba) as [|nd ns] eqn:Hn; [rewrite zlen_nil in Hcap; lia|].
  change (Z.to_nat (0 - 1)) with 0%nat. cbn [walk mbind res_bind].
  rewrite (node_size_spec (m_baseSize ba)); [|apply Hw|rewrite Hn; simpl; lia].
  cbn [mbind res_bind iov_loop length]. rewrite (proj2 (Z.leb_gt _ _)) by lia.
  rewrite (proj2 (Z.ltb_ge (m_baseSize ba - offset) _)) by lia. done.
Qed.

Example getReadBuffers_count_witness :
  getReadBuffers_at five_bytes 2 0 = Ret ([(Some O, 0, 2)], 0).
Proof.
  apply (getReadBuffers_count five_bytes 2 0); [apply five_bytes_wf|simpl; lia..].
Defined.
