(* ===== verification/ByteArrayRefine.v ===== *)
(** * The serialization buffer as a tape

    The abstract contract of ByteArray: a tape of bytes with a position, and
    the theorem that the chain of nodes implements it, command by command,
    whatever the size of a node. *)

From coqutil Require Import Byte.
From S2P Require Import Prelude Endian ByteArray.

Inductive command :=
| Write (d : list byte)
| Read (k : Z)
| Rewind
| SetEndian (e : Z)
| ToString
| Save
| Load (file : list byte).

(** What the caller sees; a caller that catches the exception of a command goes
    on with the buffer as it was. *)
Inductive reply := Done | Bytes (d : list byte) | Failed (what : string).

(** ** The contract *)

Record tape := mkTape { t_endian : Z; t_before : list byte; t_after : list byte }.
Definition blank : tape := mkTape TIGERKIN_LITTLE_ENDIAN [] [].

(** One command.  [None]: outside the contract, which is to write only where
    nothing is left to read, to read one byte at least, and not to exceed the
    range of the size. *)
Definition tape_step (t : tape) (c : command) : option (reply * tape) :=
  let append d :=
    if bool_decide (t_after t = []) && (zlen (t_before t) + zlen d <? 2 ^ 64)
    then Some (Done, mkTape (t_endian t) (t_before t ++ d) []) else None in
  match c with
  | Write d => append d
  | Load file => append file
  | Read k =>
      if 0 <? k then
        if k <=? zlen (t_after t) then
          Some (Bytes (ztake k (t_after t)),
                mkTape (t_endian t) (t_before t ++ ztake k (t_after t)) (zdrop k (t_after t)))
        else Some (Failed "READ OUT OF RANGE", t)
      else None
  | Rewind => Some (Done, mkTape (t_endian t) [] (t_before t ++ t_after t))
  | SetEndian e => Some (Done, mkTape e (t_before t) (t_after t))
  | ToString | Save => Some (Bytes (t_after t), t)
  end.

Fixpoint tape_run (t : tape) (cs : list command) : option (list reply * tape) :=
  match cs with
  | [] => Some ([], t)
  | c :: cs =>
      '(r, t) ← tape_step t c;
      '(rs, t) ← tape_run t cs;
      Some (r :: rs, t)
  end.

(** ** The implementation *)

Section implementation.
Context (junk : nat → byte).

(** A command on a buffer, by the methods of the class. *)
Definition exec (ba : ByteArray) (c : command) : res (reply * ByteArray) :=
  match c with
  | Write d => ba ← write junk ba d; Ret (Done, ba)
  | Read k =>
      match read ba k with
      | Throw what => Ret (Failed what, ba)
      | r => '(d, ba) ← r; Ret (Bytes d, ba)
      end
  | Rewind => ba ← setOffset ba 0; Ret (Done, ba)
  | SetEndian e => Ret (Done, setEndian e ba)
  | ToString => d ← toString ba; Ret (Bytes d, ba)
  | Save => '(_, d) ← writeToFile ba true; Ret (Bytes d, ba)
  | Load file => '(_, ba) ← readFromFile junk ba (Some file); Ret (Done, ba)
  end.

Fixpoint exec_all (ba : ByteArray) (cs : list command) : res (list reply * ByteArray) :=
  match cs with
  | [] => Ret ([], ba)
  | c :: cs =>
      '(r, ba) ← exec ba c;
      '(rs, ba) ← exec_all ba cs;
      Ret (r :: rs, ba)
  end.

(** A buffer with nodes of [base] bytes shows the tape [t]. *)
Definition shows (base : Z) (t : tape) (ba : ByteArray) : Prop :=
  view (t_endian t) base (t_before t) (t_after t) ba.

Lemma shows_append base t d ba :
  shows base t ba → t_after t = [] → zlen (t_before t) + zlen d < 2 ^ 64 →
  ∃ ba', write junk ba d = Ret ba' ∧ shows base (mkTape (t_endian t) (t_before t ++ d) []) ba'.
Proof. unfold shows. intros Hv Hn Hd. rewrite Hn in Hv. by apply write_view. Qed.

Lemma shows_endian base t e ba :
  shows base t ba → shows base (mkTape e (t_before t) (t_after t)) (setEndian e ba).
Proof. intros [[] He Hb Hc Ho]. by split. Qed.

(** The simulation of one command. *)
Lemma exec_refines base t ba c r t' :
  shows base t ba → tape_step t c = Some (r, t') →
  ∃ ba', exec ba c = Ret (r, ba') ∧ shows base t' ba'.
Proof.
  intros Hv. destruct c as [d|k| |e| | |file]; cbn [tape_step exec]; cbv zeta.
  - case_bool_decide as Hn; [|done]. destruct (Z.ltb_spec (zlen (t_before t) + zlen d) (2 ^ 64)); [|done].
    intros [= <- <-]. destruct (shows_append base t d ba Hv Hn) as (ba' & -> & Hv'); [done|]. by exists ba'.
  - destruct (Z.ltb_spec 0 k); [|done]. destruct (Z.leb_spec k (zlen (t_after t))) as [Hk|Hk]; intros [= <- <-].
    + unfold shows in Hv. rewrite <- (ztake_zdrop k (t_after t)) in Hv.
      destruct (read_view _ _ _ _ _ _ Hv) as (ba' & Hr & Hv'); [rewrite zlen_ztake; lia|].
      rewrite zlen_ztake in Hr by lia. rewrite Hr. by exists ba'.
    + exists ba. rewrite read_out_of_range; [done|apply Hv|].
      pose proof (view_size _ _ _ _ _ Hv). pose proof (view_offset _ _ _ _ _ Hv). lia.
  - intros [= <- <-]. destruct (rewind_view _ _ _ _ _ Hv) as (ba' & -> & Hv'). by exists ba'.
  - intros [= <- <-]. eexists. split; [done|]. by apply shows_endian.
  - intros [= <- <-]. rewrite (toString_view _ _ _ _ _ Hv). by exists ba.
  - intros [= <- <-]. rewrite (writeToFile_view _ _ _ _ _ Hv). by exists ba.
  - case_bool_decide as Hn; [|done]. destruct (Z.ltb_spec (zlen (t_before t) + zlen file) (2 ^ 64)); [|done].
    intros [= <- <-]. unfold shows in Hv. rewrite Hn in Hv.
    destruct (readFromFile_loop_view junk _ _ _ file (S (length file)) ba Hv) as (ba' & Hl & Hv'); [done|lia|].
    unfold readFromFile. rewrite Hl. by exists ba'.
Qed.
End implementation.

(** C12: the buffer implements the tape.  For every node size and every content
    of fresh memory: a sequence of commands that keeps to the contract runs on
    a new buffer without undefined behaviour or failed assertion, gives
    exactly the replies of the tape (the exception of a read past the end
    included, after which the buffer is as before), and leaves a buffer that
    shows the tape's bytes and position. *)
Theorem buffer_refines_tape junk base cs rs t :
  0 < base → tape_run blank cs = Some (rs, t) →
  ∃ ba, exec_all junk (ByteArray_new base) cs = Ret (rs, ba) ∧ wf ba ∧
    content ba = t_before t ++ t_after t ∧ m_offset ba = zlen (t_before t) ∧ m_endian ba = t_endian t.
Proof.
  intros Hb Hrun.
  assert (∀ cs t0 ba0 rs t, shows base t0 ba0 → tape_run t0 cs = Some (rs, t) →
    ∃ ba, exec_all junk ba0 cs = Ret (rs, ba) ∧ shows base t ba) as Hsim.
  { clear. induction cs as [|c cs IH]; intros t0 ba0 rs t Hv; cbn [tape_run exec_all].
    - intros [= <- <-]. by exists ba0.
    - intros H. apply bind_Some in H as ([r t1] & Hc & H). apply bind_Some in H as ([rs1 t2] & Hcs & [= <- <-]).
      destruct (exec_refines junk base t0 ba0 c r t1 Hv Hc) as (ba1 & -> & Hv1). rewrite ret_bind.
      destruct (IH t1 ba1 rs1 t2 Hv1 Hcs) as (ba & -> & Hv2). by exists ba. }
  destruct (Hsim cs blank (ByteArray_new base) rs t) as (ba & E & [Hw He Hbs Hc Ho]); [|done|by exists ba].
  by apply (view_new TIGERKIN_LITTLE_ENDIAN base).
Qed.

Definition tape_commands : list command :=
  [Write (byte.of_Z <$> [1; 2; 3]); Rewind; Read 2; Read 9; SetEndian TIGERKIN_BIG_ENDIAN; ToString; Read 1;
   Load (byte.of_Z <$> [4; 5]); Rewind; Save].

Example buffer_refines_tape_witness :
  ∃ ba, exec_all (λ _, byte.of_Z 0) (ByteArray_new 2) tape_commands =
    Ret ([Done; Done; Bytes (byte.of_Z <$> [1; 2]); Failed "READ OUT OF RANGE"; Done; Bytes [byte.of_Z 3];
          Bytes [byte.of_Z 3]; Done; Done; Bytes (byte.of_Z <$> [1; 2; 3; 4; 5])], ba) ∧ wf ba.
Proof.
  edestruct (buffer_refines_tape (λ _, byte.of_Z 0) 2 tape_commands) as (ba & E & Hw & _); [lia|vm_compute; reflexivity|].
  exists ba. split; [exact E|exact Hw].
Defined.
