(* ===== verification/Util.v ===== *)
(** * String utilities: src/src/util.h, src/src/util.cpp

    [StringUtils]: URL encoding and decoding, and the three trims.  A
    [std::string] is a [string]; the loops run over its characters, with the
    lazily allocated result ([std::string *ss]) as an option. *)

From Stdlib Require Import Ascii.
From S2P Require Import Prelude.


(** A string as the list of its characters, and back. *)
Notation chars := String.list_ascii_of_string.
Notation str_of := String.string_of_list_ascii.

Definition code (c : ascii) : Z := Z.of_N (N_of_ascii c).
Definition char_of (z : Z) : ascii := ascii_of_N (Z.to_N z).

Definition between (lo c hi : Z) : bool := (lo <=? c) && (c <=? hi).

(** [src/src/util.cpp:92-113] uriChars: the characters that are not escaped are - . 0-9 = A-Z _ a-z ~ *)
Definition uriChars (c : ascii) : bool :=
  let z := code c in
  (z =? 45) || (z =? 46) || between 48 z 57 || (z =? 61) || between 65 z 90 || (z =? 95)
  || between 97 z 122 || (z =? 126).

(** [src/src/util.cpp:115-132] xdigitChars *)
Definition xdigitChars (c : ascii) : Z :=
  let z := code c in
  if between 48 z 57 then z - 48
  else if between 65 z 70 then z - 55
  else if between 97 z 102 then z - 87
  else 0.

(** [isdigit] and [isxdigit] of the C library. *)
Definition isdigit (c : ascii) : bool := between 48 (code c) 57.
Definition isxdigit (c : ascii) : bool :=
  isdigit c || between 65 (code c) 70 || between 97 (code c) 102.

(** [atoi]: blanks, a sign, digits. *)
Fixpoint digits (acc : Z) (s : list ascii) : Z :=
  match s with
  | c :: s => if isdigit c then digits (10 * acc + (code c - 48)) s else acc
  | [] => acc
  end.
Fixpoint atoi (s : list ascii) : Z :=
  match s with
  | [] => 0
  | c :: s' =>
      if (code c =? 32) || between 9 (code c) 13 then atoi s'
      else if code c =? 45 then - digits 0 s'
      else if code c =? 43 then digits 0 s'
      else digits 0 s
  end.

(** [src/src/util.cpp:137-137] hexdigits *)
Definition hexdigits (n : Z) : ascii := char_of (if n <? 10 then 48 + n else 55 + n).

(** [ss], allocated with a copy of the characters before [c] when it is null. *)
Definition started (seen : list ascii) (ss : option (list ascii)) : list ascii :=
  default seen ss.

(** [src/src/util.cpp:140-157] StringUtils::UrlEncode, the loop: [seen] are the characters before [c] *)
Fixpoint encode_loop (spaceAsPlus : bool) (seen : list ascii) (ss : option (list ascii))
    (s : list ascii) : option (list ascii) :=
  match s with
  | [] => ss
  | c :: s =>
      let ss' :=
        if negb (uriChars c) then
          let ss := started seen ss in
          Some (if (Ascii.eqb c " "%char) && spaceAsPlus then ss ++ ["+"%char]
                else ss ++ ["%"%char; hexdigits (Z.shiftr (code c) 4); hexdigits (Z.land (code c) 15)])
        else match ss with Some ss => Some (ss ++ [c]) | None => None end in
      encode_loop spaceAsPlus (seen ++ [c]) ss' s
  end.

(** [src/src/util.cpp:136-165] StringUtils::UrlEncode *)
Definition UrlEncode (str : string) (spaceAsPlus : bool) : string :=
  match encode_loop spaceAsPlus [] None (chars str) with
  | None => str
  | Some ss => str_of ss
  end.

(** [src/src/util.cpp:170-187] StringUtils::UrlDecode, the loop *)
Fixpoint decode_loop (spaceAsPlus : bool) (seen : list ascii) (ss : option (list ascii))
    (s : list ascii) : option (list ascii) :=
  match s with
  | [] => ss
  | c :: s1 =>
      let other := match ss with Some ss => Some (ss ++ [c]) | None => None end in
      if (Ascii.eqb c "+"%char) && spaceAsPlus then
        decode_loop spaceAsPlus (seen ++ [c]) (Some (started seen ss ++ [" "%char])) s1
      else
        match s1 with
        | h1 :: h2 :: s2 =>
            if (Ascii.eqb c "%"%char) && isxdigit h1 && isdigit h2 then
              decode_loop spaceAsPlus (seen ++ [c; h1; h2])
                (Some (started seen ss ++
                   [char_of (Z.lor (Z.shiftl (xdigitChars h1) 4) (xdigitChars h2))])) s2
            else decode_loop spaceAsPlus (seen ++ [c]) other s1
        | _ => decode_loop spaceAsPlus (seen ++ [c]) other s1
        end
  end.

(** [src/src/util.cpp:167-195] StringUtils::UrlDecode *)
Definition UrlDecode (str : string) (spaceAsPlus : bool) : string :=
  match decode_loop spaceAsPlus [] None (chars str) with
  | None => str
  | Some ss => str_of ss
  end.

(** [find_first_not_of] and [find_last_not_of]: [None] is [npos]. *)
Definition in_set (delimit : string) (c : ascii) : bool :=
  existsb (Ascii.eqb c) (chars delimit).
Fixpoint find_first_not_of (delimit : string) (s : list ascii) : option nat :=
  match s with
  | [] => None
  | c :: s => if in_set delimit c then S <$> find_first_not_of delimit s else Some O
  end.
Fixpoint find_last_not_of (delimit : string) (s : list ascii) : option nat :=
  match s with
  | [] => None
  | c :: s =>
      match find_last_not_of delimit s with
      | Some i => Some (S i)
      | None => if in_set delimit c then None else Some O
      end
  end.

(** [src/src/util.cpp:197-204] StringUtils::Trim *)
Definition Trim (delimit : string) (str : list ascii) : list ascii :=
  match find_first_not_of delimit str with
  | None => []
  | Some begin =>
      match find_last_not_of delimit str with
      | Some e => take (e - begin + 1) (drop begin str)
      | None => drop begin str
      end
  end.

(** [src/src/util.cpp:206-212] StringUtils::TrimLeft *)
Definition TrimLeft (delimit : string) (str : list ascii) : list ascii :=
  match find_first_not_of delimit str with
  | None => []
  | Some begin => drop begin str
  end.

(** [src/src/util.cpp:214-220] StringUtils::TrimRight *)
Definition TrimRight (delimit : string) (str : list ascii) : list ascii :=
  match find_last_not_of delimit str with
  | None => []
  | Some e => take e str
  end.

(** ** URL encoding and decoding *)

Ltac all_chars c := destruct c as [[] [] [] [] [] [] [] []].

(** What [UrlEncode] writes for a character. *)
Definition enc (spaceAsPlus : bool) (c : ascii) : list ascii :=
  if uriChars c then [c]
  else if (Ascii.eqb c " "%char) && spaceAsPlus then ["+"%char]
  else ["%"%char; hexdigits (Z.shiftr (code c) 4); hexdigits (Z.land (code c) 15)].

Lemma encode_loop_spec plus seen ss s :
  started (seen ++ s) (encode_loop plus seen ss s) = started seen ss ++ (s ≫= enc plus).
Proof.
  revert seen ss. induction s as [|c s IH]; intros seen ss; cbn [encode_loop].
  - by rewrite !app_nil_r.
  - rewrite bind_cons. replace (seen ++ c :: s) with ((seen ++ [c]) ++ s) by (by rewrite <- app_assoc).
    rewrite IH, app_assoc. f_equal. unfold enc.
    destruct (uriChars c); simpl; [by destruct ss|]. by case_if.
Qed.

Lemma list_of_string_of s : chars (str_of s) = s.
Proof. induction s as [|c s IH]; simpl; [done|by rewrite IH]. Qed.
Lemma string_of_list_of s : str_of (chars s) = s.
Proof. induction s as [|c s IH]; simpl; [done|by rewrite IH]. Qed.

Lemma UrlEncode_spec str plus :
  chars (UrlEncode str plus) = chars str ≫= enc plus.
Proof.
  pose proof (encode_loop_spec plus [] None (chars str)) as H.
  unfold UrlEncode. destruct (encode_loop _ _ _ _); simpl in *; [|done].
  by rewrite list_of_string_of.
Qed.

(** What [UrlDecode] makes of an encoded character. *)
Definition decodable (c : ascii) : bool := uriChars c || (Z.land (code c) 15 <? 10).
Definition dec_enc (plus : bool) (c : ascii) : list ascii :=
  if decodable c then [c] else enc plus c.

Lemma decode_char plus c seen ss s :
  ∃ seen' ss', decode_loop plus seen ss (enc plus c ++ s) = decode_loop plus seen' ss' s ∧
    seen' = seen ++ enc plus c ∧ started seen' ss' = started seen ss ++ dec_enc plus c.
Proof.
  all_chars c; destruct plus, ss; vm_compute (enc _ _); vm_compute (dec_enc _ _);
    try (destruct s as [|h1 [|h2 s]]);
    (eexists _, _; split; [reflexivity|split; [by rewrite <- ?app_assoc|by rewrite <- ?app_assoc]]).
Qed.

Lemma decode_loop_spec plus seen ss s :
  started (seen ++ (s ≫= enc plus)) (decode_loop plus seen ss (s ≫= enc plus)) =
  started seen ss ++ (s ≫= dec_enc plus).
Proof.
  revert seen ss. induction s as [|c s IH]; intros seen ss; [by rewrite !app_nil_r|].
  rewrite !bind_cons. destruct (decode_char plus c seen ss (s ≫= enc plus))
    as (seen' & ss' & -> & Hseen & Hss).
  by rewrite (app_assoc seen), <- Hseen, IH, Hss, app_assoc.
Qed.

Lemma UrlDecode_spec str plus :
  chars (UrlDecode (UrlEncode str plus) plus) = chars str ≫= dec_enc plus.
Proof.
  pose proof (decode_loop_spec plus [] None (chars str)) as H.
  unfold UrlDecode. rewrite UrlEncode_spec.
  destruct (decode_loop _ _ _ _); simpl in *; [by rewrite list_of_string_of|].
  by rewrite UrlEncode_spec.
Qed.

Lemma length_dec_enc plus c :
  (1 <= length (dec_enc plus c))%nat ∧ (decodable c = false → length (dec_enc plus c) = 3%nat).
Proof.
  unfold dec_enc. destruct (decodable c) eqn:Hd; simpl; [by split; [lia|]|].
  unfold enc. unfold decodable in Hd. apply orb_false_iff in Hd as [-> Hd].
  destruct (Ascii.eqb_spec c " "%char) as [->|]; [done|]. simpl. lia.
Qed.

Lemma length_bind_dec_enc plus s :
  (length s <= length (s ≫= dec_enc plus))%nat ∧
  (existsb (fun c => negb (decodable c)) s = true →
     (length s < length (s ≫= dec_enc plus))%nat).
Proof.
  induction s as [|c s [IH1 IH2]]; [by split; [simpl; lia|]|]. rewrite bind_cons, length_app.
  destruct (length_dec_enc plus c) as [Hc Hc3]. simpl. split; [lia|].
  intros [Hb|Hb]%orb_true_iff; [|specialize (IH2 Hb); lia].
  rewrite Hc3; [lia|]. by destruct (decodable c).
Qed.

Lemma chars_inj s t : chars s = chars t → s = t.
Proof. intros H. by rewrite <- (string_of_list_of s), <- (string_of_list_of t), H. Qed.

(** Decoding an encoded string gives the string back exactly when every
    character that needs escaping has a decimal digit as its second
    hexadecimal digit: [UrlDecode] tests the second digit with [isdigit].  So
    a string with a slash ("%2F") or a plus ("%2B") does not survive. *)
Theorem url_roundtrip_iff str plus :
  UrlDecode (UrlEncode str plus) plus = str ↔ forallb decodable (chars str) = true.
Proof.
  pose proof (UrlDecode_spec str plus) as Hd. split.
  - intros Heq. rewrite Heq in Hd. destruct (forallb decodable (chars str)) eqn:Hf; [done|].
    destruct (length_bind_dec_enc plus (chars str)) as [_ Hlt].
    rewrite <- Hd in Hlt. enough (length (chars str) < length (chars str))%nat by lia.
    apply Hlt. clear -Hf. induction (chars str) as [|c s IH]; [done|]. simpl in *.
    apply andb_false_iff in Hf as [->|Hf]; [done|]. rewrite IH by done. by destruct (decodable c).
  - intros Hf. apply chars_inj. rewrite Hd. clear Hd. revert Hf.
    induction (chars str) as [|c s IH]; [done|]. cbn [forallb]. intros [Hc Hs]%andb_true_iff.
    rewrite bind_cons, IH by done. unfold dec_enc. by rewrite Hc.
Qed.

(** An encoded string consists of unreserved characters, '%', '+' and
    upper-case hexadecimal digits only, and its unreserved characters are
    those of the input, unchanged and in order. *)
Theorem UrlEncode_alphabet str plus :
  Forall (fun c => uriChars c = true ∨ c = "%"%char ∨ (plus = true ∧ c = "+"%char))
    (chars (UrlEncode str plus)) ∧
  (forallb uriChars (chars str) = true → UrlEncode str plus = str).
Proof.
  split.
  - rewrite UrlEncode_spec. induction (chars str) as [|c s IH]; [constructor|].
    rewrite bind_cons. apply Forall_app. split; [|done]. unfold enc.
    destruct (uriChars c) eqn:Hu; [by apply Forall_singleton; left|].
    destruct (Ascii.eqb c " "%char) eqn:Hs, plus; simpl;
      rewrite ?Forall_cons, ?Forall_nil; split_and?; try tauto;
      left; clear; all_chars c; reflexivity.
  - intros Hf. apply chars_inj. rewrite UrlEncode_spec. revert Hf.
    induction (chars str) as [|c s IH]; [done|]. cbn [forallb]. intros [Hc Hs]%andb_true_iff.
    rewrite bind_cons, IH by done. unfold enc. by rewrite Hc.
Qed.

(** ** Trimming *)

Definition all_in (delimit : string) (s : list ascii) : Prop :=
  Forall (fun c => in_set delimit c = true) s.

Lemma first_not_of_spec d s :
  match find_first_not_of d s with
  | None => all_in d s
  | Some i => ∃ l c r, s = l ++ c :: r ∧ all_in d l ∧ in_set d c = false ∧ length l = i
  end.
Proof.
  induction s as [|c s IH]; cbn [find_first_not_of]; [constructor|].
  destruct (in_set d c) eqn:Hc; [|by exists [], c, s; repeat constructor].
  destruct (find_first_not_of d s); simpl; [|by constructor].
  destruct IH as (l & x & r & -> & Hl & Hx & <-). exists (c :: l), x, r.
  split_and!; try done. by constructor.
Qed.

Lemma last_not_of_spec d s :
  match find_last_not_of d s with
  | None => all_in d s
  | Some i => ∃ l c r, s = l ++ c :: r ∧ all_in d r ∧ in_set d c = false ∧ length l = i
  end.
Proof.
  induction s as [|c s IH]; cbn [find_last_not_of]; [constructor|].
  destruct (find_last_not_of d s); simpl.
  - destruct IH as (l & x & r & -> & Hl & Hx & <-). by exists (c :: l), x, r.
  - destruct (in_set d c) eqn:Hc; [by constructor|]. by exists [], c, s.
Qed.

(** [Trim] removes exactly the delimiters at both ends: the string is
    the result between two runs of delimiters, and the result is empty or
    starts and ends with a character that is not a delimiter. *)
Theorem Trim_exact d s :
  ∃ l r, s = l ++ Trim d s ++ r ∧ all_in d l ∧ all_in d r ∧
    (Trim d s = [] ∨
     ∃ c t, in_set d c = false ∧ Trim d s = c :: t ∧
       ∃ c' t', in_set d c' = false ∧ Trim d s = t' ++ [c']).
Proof.
  unfold Trim. pose proof (first_not_of_spec d s) as Hf. pose proof (last_not_of_spec d s) as Hl.
  destruct (find_first_not_of d s) as [i|].
  2: { exists s, []. rewrite !app_nil_r. split_and!; try done; [constructor|by left]. }
  destruct Hf as (l & c & r & -> & Hal & Hc & <-). rewrite drop_app_length.
  destruct (find_last_not_of d (l ++ c :: r)) as [j|].
  2: { apply Forall_app in Hl as [_ Hl]. apply Forall_cons in Hl as [Hl _]. congruence. }
  destruct Hl as (l' & c' & r' & Heq & Har & Hc' & <-).
  assert (length l <= length l')%nat as Hle.
  { destruct (le_lt_dec (length l) (length l')) as [|Hlt]; [done|]. exfalso.
    assert ((l ++ c :: r) !! length l' = Some c') as Hlk.
    { rewrite Heq. by apply list_lookup_middle. }
    rewrite lookup_app_l in Hlk by done. unfold all_in in Hal. rewrite Forall_lookup in Hal.
    specialize (Hal _ _ Hlk). congruence. }
  assert (∃ t, l' = l ++ t) as [t ->].
  { exists (drop (length l) l'). rewrite <- (take_drop (length l) l') at 1. f_equal.
    apply (f_equal (take (length l))) in Heq. rewrite take_app_length in Heq.
    by rewrite take_app_le in Heq by done. }
  rewrite <- app_assoc in Heq. apply app_inv_head in Heq.
  rewrite length_app. replace (length l + length t - length l + 1)%nat with (length (t ++ [c']))
    by (rewrite length_app; simpl; lia).
  rewrite Heq. replace (t ++ c' :: r') with ((t ++ [c']) ++ r') by (by rewrite <- app_assoc).
  rewrite take_app_length. exists l, r'. split_and!; try done. right.
  destruct t as [|x t]; simpl in *; injection Heq as <- Heq.
  - exists c, []. split_and!; try done. by exists c, [].
  - exists c, (t ++ [c']). split_and!; try done. by exists c', (c :: t).
Qed.

(** [TrimRight] also removes the last character that is not a
    delimiter ([substr(0, end)] excludes position [end]). *)
Theorem TrimRight_drops_one d s :
  all_in d s ∧ TrimRight d s = [] ∨
  ∃ c r, in_set d c = false ∧ all_in d r ∧ s = TrimRight d s ++ c :: r.
Proof.
  unfold TrimRight. pose proof (last_not_of_spec d s) as Hl.
  destruct (find_last_not_of d s); [right|by left].
  destruct Hl as (l & c & r & -> & Hr & Hc & <-). exists c, r.
  by rewrite take_app_length.
Qed.
