(* ===== verification/Lock.v ===== *)
(** * Locks: src/src/mutex.h, src/src/mutex.cpp

    The wrappers of the pthread locks, the scoped locks that take them in the
    constructor and give them back in the destructor, and the semaphore.
    What pthreads does is a class of operations with a class of laws; a call
    that blocks returns [None].  Then: threads that run critical sections in
    any interleaving, statement by statement, which is what the other files
    treat as one function per section. *)

From S2P Require Import Prelude.

(** ** What pthreads promises *)

(** A mutex and a spin lock are taken exclusively, a read-write lock in both
    ways. *)
Inductive Mode : Set := Shared | Exclusive.
#[export] Instance Mode_eq_dec : EqDecision Mode.
Proof. solve_decision. Defined.

(** A lock object [L]: [acquire m t l] is the call that takes it for thread
    [t], [None] when that blocks; [holders] is for the laws only. *)
Class LockOps (L : Type) := {
  lock_init : L;
  acquire : Mode → Z → L → option L;
  release : Z → L → L;
  holders : L → gmap Z Mode
}.

(** Who may come in beside the holders. *)
Definition compatible (m : Mode) (h : gmap Z Mode) : Prop :=
  match m with Exclusive => h = ∅ | Shared => map_Forall (λ _ m', m' = Shared) h end.

(** POSIX.1: a call that returns has the lock, in a mode that goes with the
    modes of those that hold it (nothing is said of a thread that takes a lock
    twice); a free lock is given; [release] by a holder ends its holding and
    nothing else. *)
Class LockLaws (L : Type) `{LockOps L} := {
  holders_init : holders lock_init = ∅;
  acquire_spec m t l l' :
    holders l !! t = None → acquire m t l = Some l' →
    compatible m (holders l) ∧ holders l' = <[t := m]> (holders l);
  acquire_free m t l : holders l = ∅ → is_Some (acquire m t l);
  release_spec t l : is_Some (holders l !! t) → holders (release t l) = delete t (holders l)
}.

(** ** The wrappers *)

(** The operations that the template argument of [ScopedLockTmpl] has. *)
Class Lockable (T : Type) := { lock : Z → T → option T; unlock : Z → T → T }.
(** The operations that the template argument of [ReadScopedLockImpl] and
    [WriteScopedLockImpl] has. *)
Class RwLockable (T : Type) := {
  rdlock : Z → T → option T; wrlock : Z → T → option T; rwunlock : Z → T → T }.

Section wrappers.
Context {L : Type} `{LockOps L}.

(** [src/src/mutex.h:85-86] SpinLock *)
Record SpinLock := mkSpinLock { spin_lock : L }.
(** [src/src/mutex.h:69-71] SpinLock::SpinLock *)
Definition SpinLock_new : SpinLock := mkSpinLock lock_init.
(** [src/src/mutex.h:77-79] SpinLock::lock *)
Definition SpinLock_lock (t : Z) (s : SpinLock) : option SpinLock :=
  mkSpinLock <$> acquire Exclusive t (spin_lock s).
(** [src/src/mutex.h:81-83] SpinLock::unlock *)
Definition SpinLock_unlock (t : Z) (s : SpinLock) : SpinLock :=
  mkSpinLock (release t (spin_lock s)).

(** [src/src/mutex.h:109-110] MutexLock *)
Record MutexLock := mkMutexLock { m_mutex : L }.
(** [src/src/mutex.h:93-95] MutexLock::MutexLock *)
Definition MutexLock_new : MutexLock := mkMutexLock lock_init.
(** [src/src/mutex.h:101-103] MutexLock::lock *)
Definition MutexLock_lock (t : Z) (s : MutexLock) : option MutexLock :=
  mkMutexLock <$> acquire Exclusive t (m_mutex s).
(** [src/src/mutex.h:105-107] MutexLock::unlock *)
Definition MutexLock_unlock (t : Z) (s : MutexLock) : MutexLock :=
  mkMutexLock (release t (m_mutex s)).

(** [src/src/mutex.h:200-201] ReadWriteLock *)
Record ReadWriteLock := mkReadWriteLock { rw_mutex : L }.
(** [src/src/mutex.h:180-182] ReadWriteLock::ReadWriteLock *)
Definition ReadWriteLock_new : ReadWriteLock := mkReadWriteLock lock_init.
(** [src/src/mutex.h:188-190] ReadWriteLock::rdlock *)
Definition ReadWriteLock_rdlock (t : Z) (s : ReadWriteLock) : option ReadWriteLock :=
  mkReadWriteLock <$> acquire Shared t (rw_mutex s).
(** [src/src/mutex.h:192-194] ReadWriteLock::wrlock *)
Definition ReadWriteLock_wrlock (t : Z) (s : ReadWriteLock) : option ReadWriteLock :=
  mkReadWriteLock <$> acquire Exclusive t (rw_mutex s).
(** [src/src/mutex.h:196-198] ReadWriteLock::unlock *)
Definition ReadWriteLock_unlock (t : Z) (s : ReadWriteLock) : ReadWriteLock :=
  mkReadWriteLock (release t (rw_mutex s)).

#[export] Instance SpinLock_lockable : Lockable SpinLock :=
  {| lock := SpinLock_lock; unlock := SpinLock_unlock |}.
#[export] Instance MutexLock_lockable : Lockable MutexLock :=
  {| lock := MutexLock_lock; unlock := MutexLock_unlock |}.
#[export] Instance ReadWriteLock_lockable : RwLockable ReadWriteLock :=
  {| rdlock := ReadWriteLock_rdlock; wrlock := ReadWriteLock_wrlock;
     rwunlock := ReadWriteLock_unlock |}.
End wrappers.
Arguments SpinLock : clear implicits.
Arguments MutexLock : clear implicits.
Arguments ReadWriteLock : clear implicits.

(** ** Scoped locks

    A scoped lock is its flag; the mutex that it has a reference to is passed
    and returned beside it. *)

Section scoped.
Context {T : Type} `{Lockable T}.

(** [src/src/mutex.h:60-62] ScopedLockTmpl *)
Record ScopedLockTmpl := mkScopedLock { m_locked : bool }.
(** [src/src/mutex.h:46-51] ScopedLockTmpl::lock *)
Definition ScopedLock_lock (t : Z) (s : T * ScopedLockTmpl) : option (T * ScopedLockTmpl) :=
  let '(mtx, sl) := s in
  if negb (m_locked sl)
  then mtx ← lock t mtx; Some (mtx, mkScopedLock true)
  else Some (mtx, sl).
(** [src/src/mutex.h:53-58] ScopedLockTmpl::unlock *)
Definition ScopedLock_unlock (t : Z) (s : T * ScopedLockTmpl) : T * ScopedLockTmpl :=
  let '(mtx, sl) := s in
  if m_locked sl then (unlock t mtx, mkScopedLock false) else (mtx, sl).
(** [src/src/mutex.h:37-40] ScopedLockTmpl::ScopedLockTmpl *)
Definition ScopedLock_new (t : Z) (mtx : T) : option (T * ScopedLockTmpl) :=
  ScopedLock_lock t (mtx, mkScopedLock false).
(** [src/src/mutex.h:42-44] ScopedLockTmpl::~ScopedLockTmpl *)
Definition ScopedLock_delete (t : Z) (s : T * ScopedLockTmpl) : T :=
  (ScopedLock_unlock t s).1.
End scoped.

Section read_scoped.
Context {T : Type} `{RwLockable T}.

(** [src/src/mutex.h:139-141] ReadScopedLockImpl *)
Record ReadScopedLockImpl := mkReadScoped { rd_locked : bool }.
(** [src/src/mutex.h:125-130] ReadScopedLockImpl::lock *)
Definition ReadScoped_lock (t : Z) (s : T * ReadScopedLockImpl) : option (T * ReadScopedLockImpl) :=
  let '(mtx, sl) := s in
  if negb (rd_locked sl)
  then mtx ← rdlock t mtx; Some (mtx, mkReadScoped true)
  else Some (mtx, sl).
(** [src/src/mutex.h:132-137] ReadScopedLockImpl::unlock *)
Definition ReadScoped_unlock (t : Z) (s : T * ReadScopedLockImpl) : T * ReadScopedLockImpl :=
  let '(mtx, sl) := s in
  if rd_locked sl then (rwunlock t mtx, mkReadScoped false) else (mtx, sl).
(** [src/src/mutex.h:116-119] ReadScopedLockImpl::ReadScopedLockImpl *)
Definition ReadScoped_new (t : Z) (mtx : T) : option (T * ReadScopedLockImpl) :=
  ReadScoped_lock t (mtx, mkReadScoped false).
(** [src/src/mutex.h:121-123] ReadScopedLockImpl::~ReadScopedLockImpl *)
Definition ReadScoped_delete (t : Z) (s : T * ReadScopedLockImpl) : T :=
  (ReadScoped_unlock t s).1.

(** [src/src/mutex.h:170-172] WriteScopedLockImpl *)
Record WriteScopedLockImpl := mkWriteScoped { wr_locked : bool }.
(** [src/src/mutex.h:156-161] WriteScopedLockImpl::lock *)
Definition WriteScoped_lock (t : Z) (s : T * WriteScopedLockImpl) : option (T * WriteScopedLockImpl) :=
  let '(mtx, sl) := s in
  if negb (wr_locked sl)
  then mtx ← wrlock t mtx; Some (mtx, mkWriteScoped true)
  else Some (mtx, sl).
(** [src/src/mutex.h:163-168] WriteScopedLockImpl::unlock *)
Definition WriteScoped_unlock (t : Z) (s : T * WriteScopedLockImpl) : T * WriteScopedLockImpl :=
  let '(mtx, sl) := s in
  if wr_locked sl then (rwunlock t mtx, mkWriteScoped false) else (mtx, sl).
(** [src/src/mutex.h:147-150] WriteScopedLockImpl::WriteScopedLockImpl *)
Definition WriteScoped_new (t : Z) (mtx : T) : option (T * WriteScopedLockImpl) :=
  WriteScoped_lock t (mtx, mkWriteScoped false).
(** [src/src/mutex.h:152-154] WriteScopedLockImpl::~WriteScopedLockImpl *)
Definition WriteScoped_delete (t : Z) (s : T * WriteScopedLockImpl) : T :=
  (WriteScoped_unlock t s).1.
End read_scoped.

(** ** The semaphore *)

(** A POSIX semaphore: [sem_wait] is [None] when it blocks; the first
    component is the result of the call, 0 for success. *)
Class SemOps (M : Type) := {
  sem_init : Z → Z * M;
  sem_wait : M → option (Z * M);
  sem_post : M → Z * M;
  sem_value : M → Z
}.
Definition SEM_VALUE_MAX : Z := 2147483647.
(** POSIX.1: a failed call changes nothing; [sem_wait] passes only a positive
    semaphore (it fails when a signal handler interrupts it); [sem_post] fails
    only at the maximum. *)
Class SemLaws (M : Type) `{SemOps M} := {
  sem_init_spec (n : Z) : 0 <= n <= SEM_VALUE_MAX → (sem_init n).1 = 0 ∧ sem_value (sem_init n).2 = n;
  sem_init_fails (n : Z) : SEM_VALUE_MAX < n → (sem_init n).1 ≠ 0;
  sem_wait_ok m m' : sem_wait m = Some (0, m') → 0 < sem_value m ∧ sem_value m' = sem_value m - 1;
  sem_wait_fails m rt m' : sem_wait m = Some (rt, m') → rt ≠ 0 → m' = m;
  sem_wait_passes m : 0 < sem_value m → is_Some (sem_wait m);
  sem_post_ok m : sem_value m < SEM_VALUE_MAX →
    (sem_post m).1 = 0 ∧ sem_value (sem_post m).2 = sem_value m + 1;
  sem_post_fails m : SEM_VALUE_MAX <= sem_value m → (sem_post m).1 ≠ 0 ∧ (sem_post m).2 = m
}.

Section semaphore.
Context {M : Type} `{SemOps M}.

(** [src/src/mutex.h:30-31] Semaphore *)
Record Semaphore := mkSemaphore { m_semaphore : M }.
(** [src/src/mutex.cpp:14-19] Semaphore::Semaphore *)
Definition Semaphore_new (count : Z) : res Semaphore :=
  let '(rt, m) := sem_init count in
  if negb (rt =? 0) then Throw "sem_init error" else Ret (mkSemaphore m).
(** [src/src/mutex.cpp:25-30] Semaphore::wait: [None] when it blocks *)
Definition Semaphore_wait (s : Semaphore) : option (res Semaphore) :=
  '(rt, m) ← sem_wait (m_semaphore s);
  Some (if negb (rt =? 0) then Throw "sem_wait error" else Ret (mkSemaphore m)).
(** [src/src/mutex.cpp:32-37] Semaphore::semPost *)
Definition Semaphore_semPost (s : Semaphore) : res Semaphore :=
  let '(rt, m) := sem_post (m_semaphore s) in
  if negb (rt =? 0) then Throw "sem_post error" else Ret (mkSemaphore m).
End semaphore.
Arguments Semaphore : clear implicits.
