(* ===== verification/LockProps.v ===== *)
(** * Critical sections under the locks of mutex.h

    An interface of scoped locks, which the three scoped locks of mutex.h
    implement, and two theorems against it: what holds of any use of scoped
    locks by any threads, and that critical sections which threads run
    statement by statement have the effect of running each in one piece. *)

From S2P Require Import Prelude Lock.

(** ** The interface of a scoped lock

    [T] is the mutex, [S] the scoped lock on it. *)
Class Scoped (T S : Type) := {
  sc_init : T;
  sc_holders : T → gmap Z Mode;
  sc_new : Mode → Z → T → option (T * S);
  sc_lock : Z → T * S → option (T * S);
  sc_unlock : Z → T * S → T * S;
  sc_delete : Z → T * S → T;
  sc_mode : S → Mode;
  sc_locked : S → bool
}.

(** What a thread holds through its scoped lock. *)
Definition held {T S : Type} `{Scoped T S} (s : S) : option Mode :=
  if sc_locked s then Some (sc_mode s) else None.
Definition held_in {T S : Type} `{Scoped T S} (o : option S) : option Mode := o ≫= held.

Class ScopedLaws (T S : Type) `{Scoped T S} := {
  sc_init_free : sc_holders sc_init = ∅;
  sc_new_spec m t x x' s :
    sc_holders x !! t = None → sc_new m t x = Some (x', s) →
    held s = Some (sc_mode s) ∧ (sc_mode s = m ∨ sc_mode s = Exclusive) ∧
    compatible (sc_mode s) (sc_holders x) ∧
    sc_holders x' = <[t := sc_mode s]> (sc_holders x);
  sc_new_free m t x : sc_holders x = ∅ → is_Some (sc_new m t x);
  sc_lock_held t x s : sc_locked s = true → sc_lock t (x, s) = Some (x, s);
  sc_lock_spec t x s x' s' :
    sc_locked s = false → sc_holders x !! t = None → sc_lock t (x, s) = Some (x', s') →
    held s' = Some (sc_mode s) ∧ compatible (sc_mode s) (sc_holders x) ∧
    sc_holders x' = <[t := sc_mode s]> (sc_holders x);
  sc_unlock_spec t x s x' s' :
    sc_holders x !! t = held s → sc_unlock t (x, s) = (x', s') →
    held s' = None ∧ sc_holders x' = delete t (sc_holders x);
  sc_delete_spec t x s :
    sc_holders x !! t = held s → sc_holders (sc_delete t (x, s)) = delete t (sc_holders x)
}.

(** ** The scoped locks of mutex.h implement it *)

Section instances.
Context {L : Type} `{LockOps L}.

#[export] Instance SpinLock_scoped : Scoped (SpinLock L) ScopedLockTmpl := {|
  sc_init := SpinLock_new;
  sc_holders x := holders (spin_lock x);
  sc_new _ t x := ScopedLock_new t x;
  sc_lock := ScopedLock_lock;
  sc_unlock := ScopedLock_unlock;
  sc_delete := ScopedLock_delete;
  sc_mode _ := Exclusive;
  sc_locked := m_locked
|}.
#[export] Instance MutexLock_scoped : Scoped (MutexLock L) ScopedLockTmpl := {|
  sc_init := MutexLock_new;
  sc_holders x := holders (m_mutex x);
  sc_new _ t x := ScopedLock_new t x;
  sc_lock := ScopedLock_lock;
  sc_unlock := ScopedLock_unlock;
  sc_delete := ScopedLock_delete;
  sc_mode _ := Exclusive;
  sc_locked := m_locked
|}.

(** A scope on a read-write lock is a ReadLock or a WriteLock. *)
Definition RwScope : Type := ReadScopedLockImpl + WriteScopedLockImpl.
#[export] Instance ReadWriteLock_scoped : Scoped (ReadWriteLock L) RwScope := {|
  sc_init := ReadWriteLock_new;
  sc_holders x := holders (rw_mutex x);
  sc_new m t x :=
    match m with
    | Shared => '(x, s) ← ReadScoped_new t x; Some (x, inl s)
    | Exclusive => '(x, s) ← WriteScoped_new t x; Some (x, inr s)
    end;
  sc_lock t '(x, s) :=
    match s with
    | inl s => '(x, s) ← ReadScoped_lock t (x, s); Some (x, inl s)
    | inr s => '(x, s) ← WriteScoped_lock t (x, s); Some (x, inr s)
    end;
  sc_unlock t '(x, s) :=
    match s with
    | inl s => let '(x, s) := ReadScoped_unlock t (x, s) in (x, inl s)
    | inr s => let '(x, s) := WriteScoped_unlock t (x, s) in (x, inr s)
    end;
  sc_delete t '(x, s) :=
    match s with
    | inl s => ReadScoped_delete t (x, s)
    | inr s => WriteScoped_delete t (x, s)
    end;
  sc_mode s := match s with inl _ => Shared | inr _ => Exclusive end;
  sc_locked s := match s with inl s => rd_locked s | inr s => wr_locked s end
|}.

Context `{!LockLaws L}.

(** The laws hold by cases on the flag, from the laws of the lock. *)
Ltac scoped_law :=
  intros; unfold held in *; simpl in *;
  unfold ScopedLock_new, ReadScoped_new, WriteScoped_new, ScopedLock_delete,
    ReadScoped_delete, WriteScoped_delete, ScopedLock_lock, ReadScoped_lock, WriteScoped_lock,
    ScopedLock_unlock, ReadScoped_unlock, WriteScoped_unlock in *; simpl in *;
  repeat match goal with
  | x : SpinLock L |- _ => destruct x
  | x : MutexLock L |- _ => destruct x
  | x : ReadWriteLock L |- _ => destruct x
  | x : ScopedLockTmpl |- _ => destruct x
  | x : ReadScopedLockImpl |- _ => destruct x
  | x : WriteScopedLockImpl |- _ => destruct x
  | x : RwScope |- _ => destruct x
  | x : Mode |- _ => destruct x
  | b : bool |- _ => destruct b
  end; simpl in *; unfold SpinLock_lock, MutexLock_lock, ReadWriteLock_rdlock,
    ReadWriteLock_wrlock, SpinLock_unlock, MutexLock_unlock, ReadWriteLock_unlock in *;
  simplify_option_eq;
  repeat match goal with
  | H' : acquire ?m ?t ?l = Some ?l' |- _ =>
      let C := fresh in destruct (acquire_spec m t l l') as [? C]; [done..|]; rewrite ?C; clear H'
  end;
  try match goal with
  | H' : holders ?l = ∅ |- context [acquire ?m ?t ?l] =>
      destruct (acquire_free m t l H') as [? ->]; by eexists
  end;
  rewrite ?release_spec by (rewrite ?lookup_insert_eq; eauto); rewrite ?delete_id by done; auto 10.

#[export] Instance SpinLock_laws : ScopedLaws (SpinLock L) ScopedLockTmpl.
Proof. split; [apply holders_init|scoped_law..]. Qed.
#[export] Instance MutexLock_laws : ScopedLaws (MutexLock L) ScopedLockTmpl.
Proof. split; [apply holders_init|scoped_law..]. Qed.
#[export] Instance ReadWriteLock_laws : ScopedLaws (ReadWriteLock L) RwScope.
Proof. split; [apply holders_init|scoped_law..]. Qed.
End instances.

(** ** Any use of scoped locks

    Every thread has at most one scoped lock on the mutex at a time, and may
    call its operations in any order. *)

(** At most one holder when one is exclusive. *)
Definition excl (h : gmap Z Mode) : Prop :=
  ∀ t, h !! t = Some Exclusive → ∀ t', is_Some (h !! t') → t' = t.

Lemma excl_insert t m h : excl h → h !! t = None → compatible m h → excl (<[t := m]> h).
Proof.
  intros He Ht Hc t1 H1 t2 [m2 H2].
  destruct (decide (t1 = t)) as [E1|N1], (decide (t2 = t)) as [E2|N2]; simplify_map_eq; eauto.
  destruct m2; simpl in Hc; [by specialize (Hc _ _ H1)|by rewrite Hc, lookup_empty in H1].
Qed.
Lemma excl_delete t h : excl h → excl (delete t h).
Proof.
  intros He t1 H1 t2 [m2 H2]. apply lookup_delete_Some in H1 as [_ H1].
  apply lookup_delete_Some in H2 as [_ H2]. eauto.
Qed.

Section scopes.
Context {T SL : Type} `{ScopedLaws T SL}.

(** What the holders are, from what the threads have. *)
Definition agree (h : gmap Z Mode) (f : Z → option SL) : Prop := ∀ t, h !! t = held_in (f t).

Lemma agree_insert h (f g : Z → option SL) t m :
  agree h f → held_in (g t) = Some m → (∀ t', t' ≠ t → g t' = f t') → agree (<[t := m]> h) g.
Proof.
  intros Hf Hg Ho t'. destruct (decide (t' = t)) as [->|N].
  - by rewrite lookup_insert_eq.
  - by rewrite lookup_insert_ne, Ho by done.
Qed.
Lemma agree_delete h (f g : Z → option SL) t :
  agree h f → held_in (g t) = None → (∀ t', t' ≠ t → g t' = f t') → agree (delete t h) g.
Proof.
  intros Hf Hg Ho t'. destruct (decide (t' = t)) as [->|N].
  - by rewrite lookup_delete_eq.
  - by rewrite lookup_delete_ne, Ho by done.
Qed.
Lemma agree_same h (f g : Z → option SL) t :
  agree h f → held_in (g t) = held_in (f t) → (∀ t', t' ≠ t → g t' = f t') → agree h g.
Proof.
  intros Hf Hg Ho t'. destruct (decide (t' = t)) as [->|N]; [by rewrite Hg|by rewrite Ho].
Qed.
Lemma agree_empty h (f : Z → option SL) : agree h f → (∀ t, held_in (f t) = None) → h = ∅.
Proof. intros Hf Hn. apply map_empty. intros t. by rewrite Hf. Qed.

Inductive ScopeOp : Set := OpNew (m : Mode) | OpLock | OpUnlock | OpDelete.
Record Scopes := mkScopes { sc_mutex : T; sc_scopes : gmap Z SL }.

(** An operation of a thread; [None] when it blocks or there is no such scope. *)
Definition scope_step (t : Z) (op : ScopeOp) (s : Scopes) : option Scopes :=
  match op, sc_scopes s !! t with
  | OpNew m, None =>
      '(x, sl) ← sc_new m t (sc_mutex s); Some (mkScopes x (<[t := sl]> (sc_scopes s)))
  | OpLock, Some sl =>
      '(x, sl) ← sc_lock t (sc_mutex s, sl); Some (mkScopes x (<[t := sl]> (sc_scopes s)))
  | OpUnlock, Some sl =>
      let '(x, sl) := sc_unlock t (sc_mutex s, sl) in
      Some (mkScopes x (<[t := sl]> (sc_scopes s)))
  | OpDelete, Some sl =>
      Some (mkScopes (sc_delete t (sc_mutex s, sl)) (delete t (sc_scopes s)))
  | _, _ => None
  end.
Fixpoint scope_steps (es : list (Z * ScopeOp)) (s : Scopes) : option Scopes :=
  match es with
  | [] => Some s
  | (t, op) :: es => s ← scope_step t op s; scope_steps es s
  end.
Definition scopes_init : Scopes := mkScopes sc_init ∅.

Definition scopes_ok (s : Scopes) : Prop :=
  agree (sc_holders (sc_mutex s)) (λ t, sc_scopes s !! t) ∧ excl (sc_holders (sc_mutex s)).

Lemma held_Some (sl : SL) m : held sl = Some m ↔ sc_locked sl = true ∧ sc_mode sl = m.
Proof. unfold held. split; [case_match; intros; by simplify_eq|by intros [-> ->]]. Qed.

Lemma scope_step_ok t op s s' : scopes_ok s → scope_step t op s = Some s' → scopes_ok s'.
Proof.
  destruct s as [x ss]. intros [Ha He]. unfold scope_step. simpl in *.
  assert (sc_holders x !! t = held_in (ss !! t)) as Ht by apply Ha.
  destruct op, (ss !! t) as [sl|] eqn:E; try done; simpl in *.
  - destruct (sc_new m t x) as [[x' sl]|] eqn:En; simpl; [|done]. intros [= <-].
    destruct (sc_new_spec m t x x' sl Ht En) as (Hh & _ & Hc & Hx). split; simpl; rewrite Hx.
    + eapply agree_insert; [done|..]; simpl; intros; by simplify_map_eq.
    + by apply excl_insert.
  - destruct (sc_lock t (x, sl)) as [[x' sl']|] eqn:En; simpl; [|done]. intros [= <-].
    destruct (sc_locked sl) eqn:El.
    + rewrite sc_lock_held in En by done. injection En as <- <-. split; [|done].
      eapply agree_same; [done|..]; simpl; intros; by simplify_map_eq.
    + assert (sc_holders x !! t = None) as Hn by (rewrite Ht; unfold held; by rewrite El).
      destruct (sc_lock_spec t x sl x' sl' El Hn En) as (Hh & Hc & Hx). split; simpl; rewrite Hx.
      * eapply agree_insert; [done|..]; simpl; intros; by simplify_map_eq.
      * by apply excl_insert.
  - destruct (sc_unlock t (x, sl)) as [x' sl'] eqn:En. intros [= <-].
    destruct (sc_unlock_spec t x sl x' sl' Ht En) as (Hh & Hx). split; simpl; rewrite Hx.
    + eapply agree_delete; [done|..]; simpl; intros; by simplify_map_eq.
    + by apply excl_delete.
  - intros [= <-]. split; simpl; rewrite (sc_delete_spec t x sl Ht).
    + eapply agree_delete; [done|..]; simpl; intros; by simplify_map_eq.
    + by apply excl_delete.
Qed.

Lemma scopes_init_ok : scopes_ok scopes_init.
Proof.
  split; simpl; rewrite sc_init_free; intros t; simpl.
  - by rewrite !lookup_empty.
  - by rewrite lookup_empty.
Qed.
Lemma scope_steps_ok es s s' : scopes_ok s → scope_steps es s = Some s' → scopes_ok s'.
Proof.
  revert s. induction es as [|[t op] es IH]; intros s Hs; simpl; [by intros [= <-]|].
  destruct (scope_step t op s) as [s1|] eqn:E; simpl; [|done].
  apply IH. by eapply scope_step_ok.
Qed.

End scopes.

(** ** An implementation of the laws, for the witnesses *)

#[export] Instance compatible_dec m h : Decision (compatible m h).
Proof. destruct m; simpl; apply _. Defined.

Definition map_lock : LockOps (gmap Z Mode) := {|
  lock_init := ∅;
  acquire m t l := if decide (compatible m l) then Some (<[t := m]> l) else None;
  release t l := delete t l;
  holders l := l
|}.
#[local] Existing Instance map_lock.
Lemma map_lock_laws : LockLaws (gmap Z Mode).
Proof.
  split; simpl; intros; try done.
  - by simplify_option_eq.
  - subst. rewrite decide_True; [by eexists|]. destruct m; simpl; [apply map_Forall_empty|done].
Qed.
#[local] Existing Instance map_lock_laws.


(** ** Critical sections

    [S] is what the lock protects, [V] what is local to a section. *)

Section sections.
Context {T SL : Type} `{ScopedLaws T SL} {D V : Type}.

(** A critical section: how it takes the lock, its statements, and its local
    variables when it starts. *)
Record Sec := mkSec {
  sec_mode : Mode;
  sec_body : list (D * V → D * V);
  sec_local : V
}.

(** What a section does when nothing comes in between. *)
Definition statements (fs : list (D * V → D * V)) (p : D * V) : D * V :=
  foldl (λ p f, f p) p fs.
Definition sec_run (c : Sec) (d : D) : D * V := statements (sec_body c) (d, sec_local c).

(** The sections of a list one after the other, each with its thread, and
    what their local variables are at their ends. *)
Fixpoint serial (cs : list (Z * Sec)) (d : D) : D * list V :=
  match cs with
  | [] => (d, [])
  | (_, c) :: cs =>
      let '(d, v) := sec_run c d in
      let '(d, vs) := serial cs d in (d, v :: vs)
  end.

(** A section that takes a read lock writes only to its local variables. *)
Definition readonly (c : Sec) : Prop :=
  sec_mode c = Shared → Forall (λ f, ∀ d v, (f (d, v)).1 = d) (sec_body c).

(** A thread in a section: its scoped lock, what is left to do, its locals. *)
Record Inside := mkInside {
  in_sec : Sec; in_scope : SL; in_rest : list (D * V → D * V); in_local : V }.
Record Thread := mkThread { th_todo : list Sec; th_inside : option Inside }.
(** [s_log] lists the sections that have ended, with their locals then. *)
Record System := mkSystem {
  s_mutex : T; s_data : D; s_threads : gmap Z Thread; s_log : list (Z * Sec * V) }.

(** The next statement of a thread: the constructor of the scoped lock, a
    statement of the section, or the destructor; [None] when it blocks or the
    thread has ended. *)
Definition sys_step (t : Z) (s : System) : option System :=
  th ← s_threads s !! t;
  match th_inside th with
  | None =>
      match th_todo th with
      | [] => None
      | c :: todo =>
          '(x, sl) ← sc_new (sec_mode c) t (s_mutex s);
          Some (mkSystem x (s_data s)
            (<[t := mkThread todo (Some (mkInside c sl (sec_body c) (sec_local c)))]> (s_threads s))
            (s_log s))
      end
  | Some (mkInside c sl (f :: rest) v) =>
      let '(d, v) := f (s_data s, v) in
      Some (mkSystem (s_mutex s) d
        (<[t := mkThread (th_todo th) (Some (mkInside c sl rest v))]> (s_threads s)) (s_log s))
  | Some (mkInside c sl [] v) =>
      Some (mkSystem (sc_delete t (s_mutex s, sl)) (s_data s)
        (<[t := mkThread (th_todo th) None]> (s_threads s)) (s_log s ++ [(t, c, v)]))
  end.
Fixpoint sys_run (ts : list Z) (s : System) : option System :=
  match ts with
  | [] => Some s
  | t :: ts => s ← sys_step t s; sys_run ts s
  end.
Definition sys_init (prog : gmap Z (list Sec)) (d : D) : System :=
  mkSystem sc_init d ((λ cs, mkThread cs None) <$> prog) [].

(** The sections of thread [t] in a list. *)
Fixpoint secs_of (t : Z) (l : list (Z * Sec * V)) : list Sec :=
  match l with
  | [] => []
  | (t', c, _) :: l => if t' =? t then c :: secs_of t l else secs_of t l
  end.
Definition th_secs (th : Thread) : list Sec :=
  (match th_inside th with Some i => [in_sec i] | None => [] end) ++ th_todo th.

(** The invariant: who holds the lock; that the log is a serial execution
    which leads to some data; that every section has run its statements on
    that data; that these are the data of the system unless somebody is
    writing; and that every thread does what its program says. *)
Definition scope_of (s : System) (t : Z) : option SL :=
  th ← s_threads s !! t; in_scope <$> th_inside th.

Definition inside_ok (base d : D) (i : Inside) : Prop :=
  held (in_scope i) = Some (sc_mode (in_scope i)) ∧
  (sc_mode (in_scope i) = sec_mode (in_sec i) ∨ sc_mode (in_scope i) = Exclusive) ∧
  ∃ done, sec_body (in_sec i) = done ++ in_rest i ∧
    statements done (base, sec_local (in_sec i)) = (d, in_local i).

Record sys_ok (prog : gmap Z (list Sec)) (d0 : D) (s : System) : Prop := {
  ok_holders : agree (sc_holders (s_mutex s)) (scope_of s);
  ok_excl : excl (sc_holders (s_mutex s));
  ok_base : ∃ base, serial ((s_log s).*1) d0 = (base, (s_log s).*2) ∧
    (∀ t th i, s_threads s !! t = Some th → th_inside th = Some i → inside_ok base (s_data s) i) ∧
    ((∀ t, sc_holders (s_mutex s) !! t ≠ Some Exclusive) → s_data s = base);
  ok_prog : ∀ t, (λ th, secs_of t (s_log s) ++ th_secs th) <$> s_threads s !! t = prog !! t;
  ok_log : ∀ t, s_threads s !! t = None → secs_of t (s_log s) = []
}.

Lemma serial_snoc cs t c d d1 vs d2 v :
  serial cs d = (d1, vs) → sec_run c d1 = (d2, v) → serial (cs ++ [(t, c)]) d = (d2, vs ++ [v]).
Proof.
  revert d d1 vs. induction cs as [|[t' c'] cs IH]; intros d d1 vs Hs Hr; simpl in *.
  - injection Hs as <- <-. by rewrite Hr.
  - destruct (sec_run c' d) as [d' v'], (serial cs d') as [d'' vs'] eqn:E. injection Hs as <- <-.
    by rewrite (IH d' d'' vs' E Hr).
Qed.

Lemma secs_of_snoc t t' c v l :
  secs_of t (l ++ [(t', c, v)]) = secs_of t l ++ (if t' =? t then [c] else []).
Proof.
  induction l as [|[[t1 c1] v1] l IH]; simpl; [done|]. rewrite IH. by destruct (t1 =? t).
Qed.

Lemma scope_of_insert x d ths t th l t' :
  scope_of (mkSystem x d (<[t := th]> ths) l) t' =
  if decide (t' = t) then in_scope <$> th_inside th
  else (th ← ths !! t'; in_scope <$> th_inside th).
Proof.
  unfold scope_of; simpl. case_decide as E; [subst; by rewrite lookup_insert_eq|].
  by rewrite lookup_insert_ne.
Qed.

Lemma sys_init_ok prog d : sys_ok prog d (sys_init prog d).
Proof.
  split; simpl.
  - intros t. rewrite sc_init_free, lookup_empty. unfold scope_of; simpl.
    rewrite lookup_fmap. by destruct (prog !! t).
  - rewrite sc_init_free. intros t. by rewrite lookup_empty.
  - exists d. split; [done|]. split; [|done]. intros t th i Ht Hi. exfalso.
    rewrite lookup_fmap in Ht. destruct (prog !! t); naive_solver.
  - intros t. rewrite lookup_fmap. by destruct (prog !! t).
  - done.
Qed.

(** The programs of the threads only. *)
Lemma prog_insert (prog : gmap Z (list Sec)) (ths : gmap Z Thread) t th th' (f : Z → list Sec) g :
  ths !! t = Some th →
  (∀ t, (λ th, f t ++ th_secs th) <$> ths !! t = prog !! t) →
  f t ++ th_secs th = g t ++ th_secs th' → (∀ t', t' ≠ t → f t' = g t') →
  ∀ t', (λ th, g t' ++ th_secs th) <$> <[t := th']> ths !! t' = prog !! t'.
Proof.
  intros E Hp Ht Ho t'. destruct (decide (t' = t)) as [->|N].
  - rewrite lookup_insert_eq, <- Hp, E. simpl. by rewrite Ht.
  - rewrite lookup_insert_ne, <- Hp by done. by rewrite Ho.
Qed.

Lemma enter_ok prog d0 s t c todo x sl :
  sys_ok prog d0 s → s_threads s !! t = Some (mkThread (c :: todo) None) →
  sc_new (sec_mode c) t (s_mutex s) = Some (x, sl) →
  sys_ok prog d0 (mkSystem x (s_data s)
    (<[t := mkThread todo (Some (mkInside c sl (sec_body c) (sec_local c)))]> (s_threads s))
    (s_log s)).
Proof.
  intros [Ha He (base & Hs & Hin & Hd) Hp Hlog] Et En.
  assert (sc_holders (s_mutex s) !! t = None) as Hn.
  { rewrite Ha. unfold scope_of. by rewrite Et. }
  destruct (sc_new_spec _ _ _ _ _ Hn En) as (Hh & Hm & Hc & Hx).
  assert (s_data s = base) as Hb by (apply Hd; intros t' E';
    destruct (sc_mode sl) eqn:Em; simpl in Hc;
      [by specialize (Hc _ _ E')|by rewrite Hc, lookup_empty in E']).
  split; simpl.
  - rewrite Hx. eapply agree_insert; [exact Ha|..].
    + rewrite scope_of_insert, decide_True by done. by simpl.
    + intros t' N. rewrite scope_of_insert, decide_False by done. done.
  - rewrite Hx. by apply excl_insert.
  - exists base. split; [done|]. split; [|done].
    intros t' th i. destruct (decide (t' = t)) as [->|N].
    + rewrite lookup_insert_eq. intros [= <-] [= <-]. split; [done|]. split; [done|].
      exists []. by rewrite <- Hb.
    + rewrite lookup_insert_ne by done. apply Hin.
  - eapply prog_insert; [done|exact Hp|done|done].
  - intros t' [E' _]%lookup_insert_None. by apply Hlog.
Qed.

(** A thread that only reads leaves the data as they are; one that writes is
    alone. *)
Lemma inside_alone prog d0 s t th i t' th' i' :
  sys_ok prog d0 s →
  s_threads s !! t = Some th → th_inside th = Some i → sc_mode (in_scope i) = Exclusive →
  s_threads s !! t' = Some th' → th_inside th' = Some i' → t' = t.
Proof.
  intros [Ha He (base & Hs & Hin & Hd) Hp Hlog] E Ei Em E' Ei'.
  destruct (Hin _ _ _ E Ei) as (Hh & _), (Hin _ _ _ E' Ei') as (Hh' & _).
  apply (He t); rewrite Ha; unfold scope_of.
  - rewrite E; simpl. rewrite Ei; simpl. by rewrite Hh, Em.
  - rewrite E'; simpl. rewrite Ei'; simpl. rewrite Hh'. by eexists.
Qed.

Lemma prog_readonly prog d0 s t th i :
  (∀ t cs, prog !! t = Some cs → Forall readonly cs) → sys_ok prog d0 s →
  s_threads s !! t = Some th → th_inside th = Some i → readonly (in_sec i).
Proof.
  intros Hro [_ _ _ Hp] E Ei. specialize (Hp t). rewrite E in Hp. symmetry in Hp.
  apply Hro in Hp. unfold th_secs in Hp. rewrite Ei in Hp.
  apply Forall_app in Hp as [_ Hp]. by apply Forall_inv in Hp.
Qed.

Lemma shared_clean prog d0 s t th i :
  (∀ t cs, prog !! t = Some cs → Forall readonly cs) → sys_ok prog d0 s →
  s_threads s !! t = Some th → th_inside th = Some i → sc_mode (in_scope i) = Shared →
  sec_mode (in_sec i) = Shared ∧ Forall (λ f, ∀ d v, (f (d, v)).1 = d) (in_rest i) ∧
  serial ((s_log s).*1) d0 = (s_data s, (s_log s).*2).
Proof.
  intros Hro Hok E Ei Em. pose proof (prog_readonly _ _ _ _ _ _ Hro Hok E Ei) as Hr.
  destruct Hok as [Ha He (base & Hs & Hin & Hd) Hp Hlog].
  destruct (Hin _ _ _ E Ei) as (Hh & Hm & done & Hb & _).
  assert (sec_mode (in_sec i) = Shared) as Es by (destruct Hm; congruence).
  split; [done|]. split; [specialize (Hr Es); rewrite Hb in Hr; by apply Forall_app in Hr as [_ Hr]|].
  rewrite Hd; [done|]. intros t' E'.
  assert (sc_holders (s_mutex s) !! t = Some Shared) as Et.
  { rewrite Ha. unfold scope_of. rewrite E; simpl. rewrite Ei; simpl. by rewrite Hh, Em. }
  assert (t = t') as -> by (eapply He; [done|by rewrite Et]). by rewrite Et in E'.
Qed.

Lemma agree_step prog d0 s t th i d v rest l :
  sys_ok prog d0 s → s_threads s !! t = Some th → th_inside th = Some i →
  agree (sc_holders (s_mutex s)) (scope_of (mkSystem (s_mutex s) d
    (<[t := mkThread (th_todo th) (Some (mkInside (in_sec i) (in_scope i) rest v))]> (s_threads s)) l)).
Proof.
  intros [Ha _ _ _ _] E Ei. eapply agree_same; [done|..].
  - rewrite scope_of_insert, decide_True by done. unfold scope_of. rewrite E; simpl. by rewrite Ei.
  - intros t' N. by rewrite scope_of_insert, decide_False.
Qed.

Lemma statement_ok prog d0 s t th i f rest d v :
  (∀ t cs, prog !! t = Some cs → Forall readonly cs) → sys_ok prog d0 s →
  s_threads s !! t = Some th → th_inside th = Some i → in_rest i = f :: rest →
  f (s_data s, in_local i) = (d, v) →
  sys_ok prog d0 (mkSystem (s_mutex s) d
    (<[t := mkThread (th_todo th) (Some (mkInside (in_sec i) (in_scope i) rest v))]> (s_threads s))
    (s_log s)).
Proof.
  intros Hro Hok E Ei Er Hf.
  assert (sc_mode (in_scope i) = Shared → d = s_data s ∧
    serial ((s_log s).*1) d0 = (s_data s, (s_log s).*2)) as Hsh.
  { intros Em. destruct (shared_clean _ _ _ _ _ _ Hro Hok E Ei Em) as (_ & Hc & Hs).
    rewrite Er in Hc. apply Forall_inv in Hc. specialize (Hc (s_data s) (in_local i)).
    by rewrite Hf in Hc. }
  pose proof (agree_step prog d0 s t th i d v rest (s_log s) Hok E Ei) as Ha'.
  pose proof (inside_alone prog d0 s t th i) as Hal.
  pose proof Hok as [Ha He (base & Hs & Hin & Hd) Hp Hlog].
  destruct (Hin _ _ _ E Ei) as (Hh & Hm & done & Hb & Hst). split; simpl; [done|done|..].
  - exists base. split; [done|]. split.
    + intros t' th' i'. destruct (decide (t' = t)) as [->|N].
      * rewrite lookup_insert_eq. intros [= <-] [= <-]. split; [done|]. split; [done|].
        exists (done ++ [f]). simpl. rewrite <- app_assoc, Hb, Er. split; [done|].
        unfold statements in *. by rewrite foldl_app, Hst.
      * rewrite lookup_insert_ne by done. intros E' Ei'.
        destruct (sc_mode (in_scope i)) eqn:Em; [|by destruct N; eapply (Hal _ _ _ Hok E Ei eq_refl E' Ei')].
        destruct (Hsh eq_refl) as [-> _]. by eapply Hin.
    + intros Hno. destruct (sc_mode (in_scope i)) eqn:Em.
      * destruct (Hsh eq_refl) as [-> Hs']. rewrite Hs in Hs'. congruence.
      * destruct (Hno t). rewrite Ha. unfold scope_of. rewrite E; simpl. rewrite Ei; simpl. by rewrite Hh.
  - eapply prog_insert; [done|exact Hp| |done]. unfold th_secs. by rewrite Ei.
  - intros t' [E' _]%lookup_insert_None. by apply Hlog.
Qed.

Lemma leave_ok prog d0 s t th i :
  (∀ t cs, prog !! t = Some cs → Forall readonly cs) → sys_ok prog d0 s →
  s_threads s !! t = Some th → th_inside th = Some i → in_rest i = [] →
  sys_ok prog d0 (mkSystem (sc_delete t (s_mutex s, in_scope i)) (s_data s)
    (<[t := mkThread (th_todo th) None]> (s_threads s))
    (s_log s ++ [(t, in_sec i, in_local i)])).
Proof.
  intros Hro Hok E Ei Er.
  pose proof (shared_clean prog d0 s t th i Hro Hok E Ei) as Hsh.
  pose proof (inside_alone prog d0 s t th i) as Hal.
  pose proof Hok as [Ha He (base & Hs & Hin & Hd) Hp Hlog].
  destruct (Hin _ _ _ E Ei) as (Hh & Hm & done & Hb & Hst).
  rewrite Er, app_nil_r in Hb. subst done.
  assert (sc_holders (s_mutex s) !! t = held (in_scope i)) as Ht.
  { rewrite Ha. unfold scope_of. rewrite E; simpl. by rewrite Ei. }
  split; simpl.
  - rewrite sc_delete_spec by done. eapply agree_delete; [exact Ha|..].
    + by rewrite scope_of_insert, decide_True.
    + intros t' N. by rewrite scope_of_insert, decide_False.
  - rewrite sc_delete_spec by done. by apply excl_delete.
  - exists (s_data s). split; [rewrite !fmap_app; by eapply serial_snoc|]. split; [|done].
    intros t' th' i'. destruct (decide (t' = t)) as [->|N].
    + rewrite lookup_insert_eq. by intros [= <-].
    + rewrite lookup_insert_ne by done. intros E' Ei'.
      destruct (sc_mode (in_scope i)) eqn:Em; [|by destruct N; eapply (Hal _ _ _ Hok E Ei eq_refl E' Ei')].
      destruct (Hsh eq_refl) as (_ & _ & Hs'). rewrite Hs in Hs'.
      assert (base = s_data s) as -> by congruence. by eapply Hin.
  - eapply prog_insert; [done|exact Hp|..].
    + rewrite secs_of_snoc, Z.eqb_refl, <- app_assoc. unfold th_secs. by rewrite Ei.
    + intros t' N. rewrite secs_of_snoc, (proj2 (Z.eqb_neq t t')) by done. by rewrite app_nil_r.
  - intros t' [E' N]%lookup_insert_None.
    by rewrite secs_of_snoc, (proj2 (Z.eqb_neq t t')), app_nil_r by done; apply Hlog.
Qed.

Lemma sys_step_cases t s s' :
  sys_step t s = Some s' →
  ∃ th, s_threads s !! t = Some th ∧
  ((∃ c todo x sl, th = mkThread (c :: todo) None ∧ sc_new (sec_mode c) t (s_mutex s) = Some (x, sl) ∧
      s' = mkSystem x (s_data s)
        (<[t := mkThread todo (Some (mkInside c sl (sec_body c) (sec_local c)))]> (s_threads s)) (s_log s)) ∨
   (∃ i f rest d v, th_inside th = Some i ∧ in_rest i = f :: rest ∧ f (s_data s, in_local i) = (d, v) ∧
      s' = mkSystem (s_mutex s) d
        (<[t := mkThread (th_todo th) (Some (mkInside (in_sec i) (in_scope i) rest v))]> (s_threads s))
        (s_log s)) ∨
   (∃ i, th_inside th = Some i ∧ in_rest i = [] ∧
      s' = mkSystem (sc_delete t (s_mutex s, in_scope i)) (s_data s)
        (<[t := mkThread (th_todo th) None]> (s_threads s)) (s_log s ++ [(t, in_sec i, in_local i)]))).
Proof.
  unfold sys_step. destruct (s_threads s !! t) as [[todo [[c sl [|f rest] v]|]]|]; simpl; [..|done].
  - intros [= <-]. eexists. split; [done|]. right. right. by eexists.
  - destruct (f (s_data s, v)) as [d' v'] eqn:Ef. intros [= <-]. eexists. split; [done|].
    right. left. by eexists _, f, rest, d', v'.
  - destruct todo as [|c todo]; [done|].
    destruct (sc_new (sec_mode c) t (s_mutex s)) as [[x sl]|] eqn:En; simpl; [|done].
    intros [= <-]. eexists. split; [done|]. left. by eexists c, todo, x, sl.
Qed.

Section run.
Context (prog : gmap Z (list Sec)) (d0 : D)
  (Hro : ∀ t cs, prog !! t = Some cs → Forall readonly cs).

Lemma sys_step_ok t s s' : sys_ok prog d0 s → sys_step t s = Some s' → sys_ok prog d0 s'.
Proof using Hro H0.
  intros Hok Hst.
  apply sys_step_cases in Hst as (th & E & [(c & todo & x & sl & -> & En & ->)|
    [(i & f & rest & d & v & Ei & Er & Ef & ->)|(i & Ei & Er & ->)]]).
  - by eapply enter_ok.
  - by eapply statement_ok.
  - by eapply leave_ok.
Qed.
Lemma sys_run_ok ts s s' : sys_ok prog d0 s → sys_run ts s = Some s' → sys_ok prog d0 s'.
Proof using Hro H0.
  revert s. induction ts as [|t ts IH]; intros s Hok; simpl; [by intros [= <-]|].
  destruct (sys_step t s) as [s1|] eqn:E; simpl; [|done]. apply IH. by eapply sys_step_ok.
Qed.
End run.

(** ** How much is left *)

Definition sec_work (c : Sec) : nat := S (S (length (sec_body c))).
Definition th_work (th : Thread) : nat :=
  (match th_inside th with Some i => S (length (in_rest i)) | None => 0 end +
   sum_list_with sec_work (th_todo th))%nat.
Definition sys_work (ths : gmap Z Thread) : nat := map_fold (λ _ th n, (th_work th + n)%nat) 0%nat ths.

Lemma sys_work_insert t th ths :
  ths !! t = None → sys_work (<[t := th]> ths) = (th_work th + sys_work ths)%nat.
Proof. intros Hn. apply (map_fold_insert_L (λ _ th n, (th_work th + n)%nat)); [lia|done]. Qed.
Lemma sys_work_lookup t th th' ths :
  ths !! t = Some th → (sys_work (<[t := th']> ths) + th_work th = sys_work ths + th_work th')%nat.
Proof.
  intros E. rewrite <- (insert_delete_id ths t th E) at 2. rewrite <- insert_delete_eq.
  rewrite !sys_work_insert by apply lookup_delete_eq. lia.
Qed.
Lemma sys_work_pos ths : (0 < sys_work ths)%nat → ∃ t th, ths !! t = Some th ∧ (0 < th_work th)%nat.
Proof.
  induction ths as [|t th ths Hn IH] using map_ind; [unfold sys_work; rewrite map_fold_empty; lia|].
  rewrite sys_work_insert by done. intros Hw.
  destruct (decide (0 < th_work th)%nat) as [P|N]; [exists t, th; by rewrite lookup_insert_eq|].
  destruct IH as (t' & th' & E' & P'); [lia|]. exists t', th'. split; [|done].
  rewrite lookup_insert_ne; [done|]. intros ->. congruence.
Qed.

Lemma sys_step_work t s s' :
  sys_step t s = Some s' → sys_work (s_threads s) = S (sys_work (s_threads s')).
Proof.
  intros Hst. apply sys_step_cases in Hst as (th & E & Hc).
  pose proof (λ th', sys_work_lookup t th th' _ E) as Hw.
  destruct Hc as [(c & todo & x & sl & -> & En & ->)|
    [(i & f & rest & d & v & Ei & Er & Ef & ->)|(i & Ei & Er & ->)]]; simpl;
    match goal with |- context [<[t := ?th']> _] => specialize (Hw th') end;
    unfold th_work in Hw; simpl in Hw; rewrite ?Ei, ?Er in Hw; simpl in Hw;
    unfold sec_work in Hw; lia.
Qed.
Lemma sys_run_work ts s s' :
  sys_run ts s = Some s' → sys_work (s_threads s) = (length ts + sys_work (s_threads s'))%nat.
Proof.
  revert s. induction ts as [|t ts IH]; intros s; simpl; [by intros [= <-]|].
  destruct (sys_step t s) as [s1|] eqn:E; simpl; [|done]. intros Hr.
  by rewrite (sys_step_work _ _ _ E), (IH _ Hr).
Qed.

Lemma sys_progress prog d0 s :
  sys_ok prog d0 s → (0 < sys_work (s_threads s))%nat → ∃ t, is_Some (sys_step t s).
Proof.
  intros [Ha _ _ _ _] Hw.
  destruct (decide (sc_holders (s_mutex s) = ∅)) as [He|Hne].
  - apply sys_work_pos in Hw as (t & [todo ins] & E & Hp). exists t. unfold sys_step. rewrite E. simpl.
    destruct ins as [[c sl [|f rest] v]|]; [by eexists|by destruct (f _); eexists|].
    destruct todo as [|c todo]; [unfold th_work in Hp; simpl in Hp; lia|].
    destruct (sc_new_free (sec_mode c) t (s_mutex s) He) as [[x sl] ->]. by eexists.
  - apply map_choose in Hne as (t & m & Et). rewrite Ha in Et. unfold scope_of in Et.
    exists t. unfold sys_step. destruct (s_threads s !! t) as [[todo [[c sl [|f rest] v]|]]|];
      try done; simpl; by destruct (f _); eexists.
Qed.

(** What is known when nobody is inside a section. *)
Lemma sys_idle_serial prog d s :
  sys_ok prog d s → (∀ t th, s_threads s !! t = Some th → th_inside th = None) →
  serial ((s_log s).*1) d = (s_data s, (s_log s).*2) ∧
  ∀ t, (λ th, secs_of t (s_log s) ++ th_todo th) <$> s_threads s !! t = prog !! t.
Proof.
  intros [Ha _ (base & Hs & _ & Hd) Hp _] Hidle. split.
  - rewrite Hd; [done|]. intros t. rewrite Ha. unfold scope_of.
    destruct (s_threads s !! t) as [th|] eqn:E; [|done]. simpl. by rewrite (Hidle _ _ E).
  - intros t. rewrite <- Hp. destruct (s_threads s !! t) as [th|] eqn:E; [|done]. simpl.
    unfold th_secs. by rewrite (Hidle _ _ E).
Qed.

(** A run as long as the programs has executed all of them. *)
Lemma sys_run_complete prog d ts s :
  (∀ t cs, prog !! t = Some cs → Forall readonly cs) →
  sys_run ts (sys_init prog d) = Some s →
  length ts = sys_work (s_threads (sys_init prog d)) →
  serial ((s_log s).*1) d = (s_data s, (s_log s).*2) ∧
  (∀ t cs, prog !! t = Some cs →
    s_threads s !! t = Some (mkThread [] None) ∧ secs_of t (s_log s) = cs) ∧
  (∀ t, prog !! t = None → secs_of t (s_log s) = []).
Proof.
  intros Hro Hr Hl. pose proof (sys_run_work _ _ _ Hr) as Hw.
  pose proof (sys_run_ok prog d Hro ts _ _ (sys_init_ok prog d) Hr) as Hok.
  assert (∀ t th, s_threads s !! t = Some th → th = mkThread [] None) as Hdone.
  { intros t th E. pose proof (sys_work_lookup t th (mkThread [] None) _ E) as Hz.
    unfold th_work in Hz; simpl in Hz. destruct th as [[|c todo] [i|]]; simpl in *;
      unfold sec_work in Hz; simpl in Hz; [lia|done|lia|lia]. }
  destruct (sys_idle_serial prog d s Hok) as [Hs Hp]; [by intros t th ->%Hdone|].
  split; [done|]. split.
  2:{ intros t Hc. apply (ok_log _ _ _ Hok). specialize (Hp t). rewrite Hc in Hp.
      by destruct (s_threads s !! t). }
  intros t cs Hc. specialize (Hp t). rewrite Hc in Hp.
  destruct (s_threads s !! t) as [th|] eqn:E; [|done]. rewrite (Hdone _ _ E) in *.
  simpl in Hp. rewrite app_nil_r in Hp. split; [done|congruence].
Qed.

(** C15: threads run critical sections, statement by statement and in any
    interleaving, each inside a scoped lock of one mutex, sections that only
    read under a read lock.  Whenever no thread is inside a section, the
    shared data, and what every section that has ended found, are those of
    running these sections one after the other, in an order that keeps the
    order of each thread's program.  So a section is one function. *)
Theorem critical_sections_atomic prog d ts s :
  (∀ t cs, prog !! t = Some cs → Forall readonly cs) →
  sys_run ts (sys_init prog d) = Some s →
  (∀ t th, s_threads s !! t = Some th → th_inside th = None) →
  serial ((s_log s).*1) d = (s_data s, (s_log s).*2) ∧
  ∀ t, (λ th, secs_of t (s_log s) ++ th_todo th) <$> s_threads s !! t = prog !! t.
Proof. intros Hro Hr. apply sys_idle_serial. by eapply sys_run_ok, Hr; [|apply sys_init_ok]. Qed.

(** C33: nothing blocks for ever.  Every run, whoever moves, has at most as
    many steps as the programs have statements (two more for each section,
    the constructor and the destructor of the lock); while it has fewer, some
    thread can make a step; and when it has that many, every thread has ended
    and every section of every program has been executed. *)
Theorem critical_sections_finish prog d ts s :
  (∀ t cs, prog !! t = Some cs → Forall readonly cs) →
  sys_run ts (sys_init prog d) = Some s →
  let total := sys_work (s_threads (sys_init prog d)) in
  (length ts <= total)%nat ∧
  ((length ts < total)%nat → ∃ t, is_Some (sys_step t s)) ∧
  (length ts = total →
   serial ((s_log s).*1) d = (s_data s, (s_log s).*2) ∧
   ∀ t cs, prog !! t = Some cs →
     s_threads s !! t = Some (mkThread [] None) ∧ secs_of t (s_log s) = cs).
Proof.
  intros Hro Hr total. pose proof (sys_run_work _ _ _ Hr) as Hw. fold total in Hw.
  pose proof (sys_run_ok prog d Hro ts _ _ (sys_init_ok prog d) Hr) as Hok.
  split; [lia|]. split; [intros Hl; apply (sys_progress _ _ _ Hok); lia|].
  intros Hl. destruct (sys_run_complete prog d ts s Hro Hr Hl) as (? & ? & _). done.
Qed.
End sections.
Arguments Sec : clear implicits.
Arguments Thread : clear implicits.
Arguments System : clear implicits.

(** A counter that two threads increase by reading it into a local variable
    and writing it back, under a write lock, and a third that reads it under a
    read lock; the first two run in alternation. *)
Definition demo_inc : Sec Z Z := mkSec Exclusive [(λ '(d, v), (d, d)); (λ '(d, v), (v + 1, v))] 0.
Definition demo_get : Sec Z Z := mkSec Shared [(λ '(d, v), (d, d))] 0.
Definition demo_prog : gmap Z (list (Sec Z Z)) := {[1 := [demo_inc]; 2 := [demo_inc]; 3 := [demo_get]]}.
Definition demo_init := sys_init (T := ReadWriteLock (gmap Z Mode)) (SL := RwScope) demo_prog 0.
Definition demo_schedule : list Z := [1; 1; 1; 1; 3; 3; 3; 2; 2; 2; 2].

Lemma demo_readonly : ∀ t cs, demo_prog !! t = Some cs → Forall readonly cs.
Proof.
  assert (map_Forall (λ _ cs, Forall readonly cs) demo_prog) as Hm; [|exact Hm].
  unfold demo_prog. repeat (apply map_Forall_insert_2; [|try apply map_Forall_singleton]);
    repeat constructor; intros; try done; repeat constructor.
Qed.

Lemma demo_run : ∃ s, sys_run demo_schedule demo_init = Some s ∧ s_data s = 2 ∧
  (s_log s).*2 = [0; 1; 1] ∧ s_threads s = (λ _, mkThread [] None) <$> demo_prog.
Proof.
  assert (match sys_run demo_schedule demo_init with
          | Some s => s_data s = 2 ∧ (s_log s).*2 = [0; 1; 1] ∧
                      s_threads s = (λ _, mkThread [] None) <$> demo_prog
          | None => False end) as H; [vm_compute; by split|].
  destruct (sys_run demo_schedule demo_init) as [s|]; [by exists s|done].
Qed.

Lemma critical_sections_atomic_witness :
  ∃ s, sys_run demo_schedule demo_init = Some s ∧
    serial ((s_log s).*1) 0 = (s_data s, (s_log s).*2) ∧ s_data s = 2.
Proof.
  destruct demo_run as (s & Hr & Hd & _ & Hth). exists s. split; [exact Hr|]. split; [|exact Hd].
  refine (proj1 (critical_sections_atomic (T := ReadWriteLock (gmap Z Mode)) (SL := RwScope)
    demo_prog 0 demo_schedule s demo_readonly Hr _)).
  intros t th Ht. rewrite Hth, lookup_fmap in Ht.
  destruct (demo_prog !! t); [injection Ht as <-; reflexivity|discriminate Ht].
Defined.

Lemma critical_sections_finish_witness :
  ∃ s, sys_run demo_schedule demo_init = Some s ∧
    s_threads s !! 2 = Some (mkThread [] None) ∧ secs_of 2 (s_log s) = [demo_inc].
Proof.
  destruct demo_run as (s & Hr & Hd & _ & Hth). exists s. split; [exact Hr|].
  destruct (critical_sections_finish (T := ReadWriteLock (gmap Z Mode)) (SL := RwScope)
    demo_prog 0 demo_schedule s demo_readonly Hr) as (_ & _ & Hf).
  refine (proj2 (Hf _) 2 [demo_inc] _); vm_compute; reflexivity.
Defined.
