(* ===== verification/Thread.v ===== *)
(** * Threads: src/src/thread.h, src/src/thread.cpp

    The objects live in a heap, since the new thread and its creator share
    one; what is [thread_local] is kept by thread.  The constructor and [Run]
    happen in two threads, so each is cut into the parts between which the
    other can move.  pthreads is the semaphore of Lock.v and the arguments
    [rt], the results of the calls. *)

From S2P Require Import Prelude Lock.

Section thread.
Context {M : Type} `{SemOps M}.

(** [src/src/thread.h:48-52] Thread. [m_id] has no value before [Run] sets it; [m_thread] is 0 for no thread *)
Record Thread := mkThread {
  m_id : option Z;
  m_thread : Z;
  m_cb : option nat;
  m_name : string;
  m_semaphore : Semaphore M
}.

(** [src/src/thread.cpp:15-16] cur_thread, cur_thread_name *)
Record Locals := mkLocals { cur_thread : option Z; cur_thread_name : string }.
Definition initial_locals : Locals := mkLocals None "UNKNOW".

(** Where a thread is in [Run]; a statement is done when the next is reached. *)
Inductive Pc : Set :=
| PcThis | PcTlsName | PcId | PcSetname | PcSwap | PcPost (cb : option nat)
| PcCall (cb : option nat) | PcEnd.

#[global] Instance Pc_eq_dec : EqDecision Pc.
Proof. solve_decision. Defined.

(** The objects, what is thread-local, where the threads made by [Thread] are
    and the object they were given, the names that the kernel knows, and the
    closures that were called, with their threads. *)
Record World := mkWorld {
  heap : gmap Z Thread;
  locals : gmap Z Locals;
  runs : gmap Z (Z * Pc);
  kernel_names : gmap Z string;
  calls : list (Z * option nat)
}.
Definition locals_of (tid : Z) (w : World) : Locals := default initial_locals (locals w !! tid).
Definition set_heap (h : gmap Z Thread) (w : World) : World :=
  mkWorld h (locals w) (runs w) (kernel_names w) (calls w).
Definition set_locals (tid : Z) (l : Locals) (w : World) : World :=
  mkWorld (heap w) (<[tid := l]> (locals w)) (runs w) (kernel_names w) (calls w).
Definition set_run (tid a : Z) (pc : Pc) (w : World) : World :=
  mkWorld (heap w) (locals w) (<[tid := (a, pc)]> (runs w)) (kernel_names w) (calls w).

(** A member access through a pointer to a [Thread]. *)
Definition object (a : Z) (w : World) : res Thread := deref (heap w !! a) "a Thread that is not alive".
Definition store (a : Z) (th : Thread) (w : World) : World := set_heap (<[a := th]> (heap w)) w.

(** ** The static members: [tid] is the calling thread *)

(** [src/src/thread.cpp:18-20] Thread::GetThis *)
Definition GetThis (tid : Z) (w : World) : option Z := cur_thread (locals_of tid w).

(** [src/src/thread.cpp:22-24] Thread::GetName *)
Definition GetName (tid : Z) (w : World) : string := cur_thread_name (locals_of tid w).

(** [src/src/thread.cpp:26-34] Thread::SetName *)
Definition SetName (tid : Z) (name : string) (w : World) : res World :=
  if bool_decide (name = ""%string) then Ret w
  else
    w ← match cur_thread (locals_of tid w) with
        | Some a =>
            th ← object a w;
            Ret (store a (mkThread (m_id th) (m_thread th) (m_cb th) name (m_semaphore th)) w)
        | None => Ret w
        end;
    Ret (set_locals tid (mkLocals (cur_thread (locals_of tid w)) name) w).

(** ** The constructor and the destructor *)

(** [src/src/thread.cpp:51-62] Thread::Thread, up to pthread_create, which returns [rt] and in [pth] the handle of the thread [tid] *)
Definition Thread_create (a : Z) (cb : option nat) (name : string) (rt pth tid : Z) (w : World)
    : res World :=
  sem ← Semaphore_new 0;
  let name := if bool_decide (name = ""%string) then "UNKNOW"%string else name in
  if negb (rt =? 0) then Throw "pthread_create error"
  else Ret (set_run tid a PcThis (store a (mkThread None pth cb name sem) w)).

(** [src/src/thread.cpp:67-67] Thread::Thread, the wait for the new thread: [None] while it blocks *)
Definition Thread_wait (a : Z) (w : World) : option (res World) :=
  match object a w with
  | Ret th =>
      r ← Semaphore_wait (m_semaphore th);
      Some (sem ← r; Ret (store a (mkThread (m_id th) (m_thread th) (m_cb th) (m_name th) sem) w))
  | Throw e => Some (Throw e)
  | Panic e => Some (Panic e)
  | Undef e => Some (Undef e)
  | OutOfFuel => Some OutOfFuel
  end.

(** [src/src/thread.cpp:70-74] Thread::~Thread: the handle it detaches, and the heap without the object *)
Definition Thread_delete (a : Z) (w : World) : res (option Z * World) :=
  th ← object a w;
  Ret (if negb (m_thread th =? 0) then Some (m_thread th) else None, set_heap (delete a (heap w)) w).

(** [src/src/thread.cpp:76-87] Thread::join: [rt] is what pthread_join returns. The handle is cleared only when it succeeds *)
Definition join (a rt : Z) (w : World) : res World :=
  th ← object a w;
  if negb (m_thread th =? 0) && negb (rt =? 0) then Throw "PTHREAD JOIN ERROR"
  else Ret (store a (mkThread (m_id th) 0 (m_cb th) (m_name th) (m_semaphore th)) w).

(** [src/src/thread.h:38-38] Thread::getId *)
Definition getId (a : Z) (w : World) : res (option Z) := th ← object a w; Ret (m_id th).
(** [src/src/thread.h:39-39] Thread::getName *)
Definition getName (a : Z) (w : World) : res string := th ← object a w; Ret (m_name th).

(** ** The new thread *)

(** [src/src/thread.cpp:89-105] Thread::Run, the next statement. An exception of a closure is caught and the thread ends *)
Definition Run_step (tid : Z) (w : World) : res World :=
  match runs w !! tid with
  | None => Ret w
  | Some (a, pc) =>
      match pc with
      | PcThis =>
          Ret (set_run tid a PcTlsName
                 (set_locals tid (mkLocals (Some a) (cur_thread_name (locals_of tid w))) w))
      | PcTlsName =>
          th ← object a w;
          Ret (set_run tid a PcId
                 (set_locals tid (mkLocals (cur_thread (locals_of tid w)) (m_name th)) w))
      | PcId =>
          th ← object a w;
          Ret (set_run tid a PcSetname
                 (store a (mkThread (Some tid) (m_thread th) (m_cb th) (m_name th) (m_semaphore th)) w))
      | PcSetname =>
          th ← object a w;
          let w := mkWorld (heap w) (locals w) (runs w)
                     (<[tid := String.substring 0 15 (m_name th)]> (kernel_names w)) (calls w) in
          Ret (set_run tid a PcSwap w)
      | PcSwap =>
          th ← object a w;
          Ret (set_run tid a (PcPost (m_cb th))
                 (store a (mkThread (m_id th) (m_thread th) None (m_name th) (m_semaphore th)) w))
      | PcPost cb =>
          th ← object a w;
          match Semaphore_semPost (m_semaphore th) with
          | Ret sem =>
              Ret (set_run tid a (PcCall cb)
                     (store a (mkThread (m_id th) (m_thread th) (m_cb th) (m_name th) sem) w))
          | Throw _ => Ret (set_run tid a PcEnd w)
          | Panic e => Panic e
          | Undef e => Undef e
          | OutOfFuel => OutOfFuel
          end
      | PcCall cb =>
          Ret (set_run tid a PcEnd
                 (mkWorld (heap w) (locals w) (runs w) (kernel_names w) (calls w ++ [(tid, cb)])))
      | PcEnd => Ret w
      end
  end.
End thread.
Arguments Thread : clear implicits.
Arguments World : clear implicits.

(** ** Condition variables *)

(** A condition variable: [cond_block tid c] is the atomic start of the wait
    of a thread, which gives up the mutex, [cond_signal c] wakes some, and
    [cond_leave tid c] is a wake-up of [tid] that nobody asked for. *)
Class CondOps (C : Type) := {
  cond_block : Z → C → C;
  cond_signal : C → C;
  cond_leave : Z → C → C;
  cond_blocked : C → gset Z
}.
(** POSIX.1: a signal wakes at least one of those that wait, if there are
    any, and nobody else; it is not remembered.  Spurious wake-ups may occur. *)
Class CondLaws (C : Type) `{CondOps C} := {
  cond_block_spec tid c : cond_blocked (cond_block tid c) = {[tid]} ∪ cond_blocked c;
  cond_signal_some c : cond_blocked c ≠ ∅ → cond_blocked (cond_signal c) ⊂ cond_blocked c;
  cond_signal_none c : cond_blocked c = ∅ → cond_signal c = c;
  cond_leave_spec tid c : cond_blocked (cond_leave tid c) = cond_blocked c ∖ {[tid]}
}.

Section cond.
Context {C : Type} `{CondOps C}.

(** [src/src/thread.cpp:36-40] Thread::CondWait, up to the point where the thread waits; it returns when the thread is woken. Both mutex calls do nothing else *)
Definition CondWait (tid : Z) (c : C) : C := cond_block tid c.

(** [src/src/thread.cpp:44-47] Thread::CondSignal, the loop *)
Fixpoint CondSignal_loop (cnt : nat) (c : C) : C :=
  match cnt with
  | O => c
  | S cnt => CondSignal_loop cnt (cond_signal c)
  end.
(** [src/src/thread.cpp:42-49] Thread::CondSignal *)
Definition CondSignal (cnt : Z) (c : C) : C := CondSignal_loop (Z.to_nat cnt) c.
End cond.
