(* ===== verification/ThreadProps.v ===== *)
(** * Threads: the handshake of the constructor, and condition variables *)

From S2P Require Import Prelude Lock Thread.

(** ** The process as a transition system

    [made] are the objects whose constructor has returned and that are not
    destroyed; [asked] is the closure that each thread was made for. *)

Section process.
Context {M : Type} `{SemLaws M}.

Record Process := mkProcess { world : World M; made : gset Z; asked : gmap Z (option nat) }.
Definition initial : Process := mkProcess (mkWorld ∅ ∅ ∅ ∅ []) ∅ ∅.

(** What can happen next: somebody starts a constructor, with [a] the address
    of the object, [pth] and [tid] what the new thread gets; a new thread makes
    a step of [Run]; the constructor gets through its wait; a thread calls
    [SetName]; and a finished object is joined or destroyed. *)
Inductive Event : Set :=
| EvNew (a : Z) (cb : option nat) (name : string) (rt pth tid : Z)
| EvRun (tid : Z)
| EvReturn (a : Z)
| EvSetName (tid : Z) (name : string)
| EvJoin (a rt : Z)
| EvDelete (a : Z).

Definition on_world (r : res (World M)) (p : Process) : option (res Process) :=
  Some (w ← r; Ret (mkProcess w (made p) (asked p))).

(** [None]: the event is not possible now.  Addresses and thread ids are not
    used again, so that a dangling pointer is seen.  A constructor that throws
    leaves no object. *)
Definition ev_step (e : Event) (p : Process) : option (res Process) :=
  let w := world p in
  match e with
  | EvNew a cb name rt pth tid =>
      if bool_decide (map_Forall (λ _ r, r.1 ≠ a) (runs w) ∧ runs w !! tid = None ∧ pth ≠ 0) then
        match Thread_create a cb name rt pth tid w with
        | Ret w => Some (Ret (mkProcess w (made p) (<[tid := cb]> (asked p))))
        | r => on_world r p
        end
      else None
  | EvRun tid =>
      match runs w !! tid with
      | None | Some (_, PcEnd) => None
      | _ => on_world (Run_step tid w) p
      end
  | EvReturn a =>
      if bool_decide (is_Some (heap w !! a) ∧ a ∉ made p) then
        r ← Thread_wait a w;
        match r with
        | Ret w => Some (Ret (mkProcess w ({[a]} ∪ made p) (asked p)))
        | Throw _ => Some (Ret (mkProcess (set_heap (delete a (heap w)) w) (made p) (asked p)))
        | r => on_world r p
        end
      else None
  | EvSetName tid name =>
      match runs w !! tid with
      | None | Some (_, PcCall _) => on_world (SetName tid name w) p
      | _ => None
      end
  | EvJoin a rt => if bool_decide (a ∈ made p) then on_world (join a rt w) p else None
  | EvDelete a =>
      if bool_decide (a ∈ made p) then
        Some ('(_, w) ← Thread_delete a w; Ret (mkProcess w (made p ∖ {[a]}) (asked p)))
      else None
  end.

Inductive reachable : Process → Prop :=
| reach_initial : reachable initial
| reach_step e p p' : reachable p → ev_step e p = Some (Ret p') → reachable p'.

(** ** The invariant *)

Definition calls_of (tid : Z) (w : World M) : list (Z * option nat) :=
  filter (λ c, c.1 = tid) (calls w).

Definition has_id (pc : Pc) : bool :=
  match pc with PcThis | PcTlsName | PcId => false | _ => true end.
Definition has_name (pc : Pc) : bool :=
  match pc with PcThis | PcTlsName => false | _ => true end.
Definition has_swapped (pc : Pc) : bool :=
  match pc with PcPost _ | PcCall _ | PcEnd => true | _ => false end.
(** The thread has posted the semaphore and is done with the object. *)
Definition late (pc : Pc) : bool := match pc with PcCall _ | PcEnd => true | _ => false end.

(** What the object looks like when its thread is at [pc]. *)
Record object_ok (pc : Pc) (tid : Z) (c : option nat) (name : string) (constructed : Prop)
    (th : Thread M) : Prop := {
  obj_id : has_id pc = true → m_id th = Some tid;
  obj_cb : m_cb th = if has_swapped pc then None else c;
  obj_name : has_name pc = true → name = m_name th;
  obj_sem : if late pc then constructed ∨ sem_value (Lock.m_semaphore (m_semaphore th)) = 1
            else ¬ constructed ∧ sem_value (Lock.m_semaphore (m_semaphore th)) = 0
}.
Record thread_ok (p : Process) (tid a : Z) (pc : Pc) (c : option nat) : Prop := {
  thr_asked : asked p !! tid = Some c;
  thr_this : pc ≠ PcThis → cur_thread (locals_of tid (world p)) = Some a;
  thr_calls : calls_of tid (world p) = if bool_decide (pc = PcEnd) then [(tid, c)] else [];
  thr_cb : match pc with PcPost cb | PcCall cb => cb = c | _ => True end;
  thr_object : match heap (world p) !! a with
    | Some th => object_ok pc tid c (cur_thread_name (locals_of tid (world p))) (a ∈ made p) th
    | None => late pc = true ∧ a ∉ made p
    end
}.
Record process_ok (p : Process) : Prop := {
  pr_threads tid a pc : runs (world p) !! tid = Some (a, pc) → ∃ c, thread_ok p tid a pc c;
  pr_others tid : runs (world p) !! tid = None →
    calls_of tid (world p) = [] ∧ cur_thread (locals_of tid (world p)) = None;
  pr_unique tid tid' a pc pc' : runs (world p) !! tid = Some (a, pc) →
    runs (world p) !! tid' = Some (a, pc') → tid = tid';
  pr_objects a : is_Some (heap (world p) !! a) ∨ a ∈ made p →
    ∃ tid pc, runs (world p) !! tid = Some (a, pc)
}.

(** An event of thread [tid] and its object [a] leaves the others alone. *)
Record frame (tid a : Z) (p p' : Process) : Prop := {
  fr_asked t : t ≠ tid → asked p' !! t = asked p !! t;
  fr_locals t : t ≠ tid → locals_of t (world p') = locals_of t (world p);
  fr_calls t : t ≠ tid → calls_of t (world p') = calls_of t (world p);
  fr_runs t : t ≠ tid → runs (world p') !! t = runs (world p) !! t;
  fr_heap b : b ≠ a → heap (world p') !! b = heap (world p) !! b;
  fr_made b : b ≠ a → (b ∈ made p' ↔ b ∈ made p)
}.

Lemma object_ok_iff pc tid c name (P Q : Prop) th :
  (P ↔ Q) → object_ok pc tid c name P th → object_ok pc tid c name Q th.
Proof. intros Hpq [? ? ? Hs]. split; try done. destruct (late pc); tauto. Qed.

Lemma frame_ok tid a p p' pc' c :
  process_ok p → frame tid a p p' →
  (∀ t pc, runs (world p) !! t = Some (a, pc) → t = tid) →
  (∀ b pc, runs (world p) !! tid = Some (b, pc) → b = a) →
  runs (world p') !! tid = Some (a, pc') → thread_ok p' tid a pc' c → process_ok p'.
Proof.
  intros [Ht Hn Hu Ho] F Ha Hb Hr Hok. split.
  - intros t b pc E. destruct (decide (t = tid)) as [->|N].
    { rewrite Hr in E. injection E as <- <-. by exists c. }
    rewrite (fr_runs _ _ _ _ F) in E by done. destruct (Ht _ _ _ E) as [c' [h1 h2 h3 h4 h5]].
    assert (b ≠ a) as Nb by (intros ->; by apply N, (Ha _ pc)). exists c'. split.
    + by rewrite (fr_asked _ _ _ _ F).
    + by rewrite (fr_locals _ _ _ _ F).
    + by rewrite (fr_calls _ _ _ _ F).
    + done.
    + rewrite (fr_heap _ _ _ _ F), (fr_locals _ _ _ _ F) by done. pose proof (fr_made _ _ _ _ F b Nb).
      destruct (heap (world p) !! b); [by eapply object_ok_iff; [symmetry|]|by rewrite H1].
  - intros t E. destruct (decide (t = tid)) as [->|N]; [by rewrite Hr in E|].
    rewrite (fr_runs _ _ _ _ F) in E by done.
    rewrite (fr_calls _ _ _ _ F), (fr_locals _ _ _ _ F) by done. by apply Hn.
  - intros t t' b pc1 pc2 E1 E2.
    destruct (decide (t = tid)) as [->|N1], (decide (t' = tid)) as [->|N2]; try done.
    + rewrite Hr in E1. injection E1 as <- <-. rewrite (fr_runs _ _ _ _ F) in E2 by done.
      symmetry. by eapply Ha.
    + rewrite Hr in E2. injection E2 as <- <-. rewrite (fr_runs _ _ _ _ F) in E1 by done. by eapply Ha.
    + rewrite (fr_runs _ _ _ _ F) in E1, E2 by done. by eapply Hu.
  - intros b Hbx. destruct (decide (b = a)) as [->|N]; [by eexists _, _|].
    rewrite (fr_heap _ _ _ _ F), (fr_made _ _ _ _ F) in Hbx by done.
    destruct (Ho b Hbx) as (t & pc & E). exists t, pc. rewrite (fr_runs _ _ _ _ F); [done|].
    intros ->. by apply N, (Hb _ pc).
Qed.

(** ** Every event keeps it *)

Lemma locals_of_set tid l (w : World M) t :
  locals_of t (set_locals tid l w) = if decide (t = tid) then l else locals_of t w.
Proof.
  unfold locals_of; simpl. case_decide; [subst; by rewrite lookup_insert_eq|by rewrite lookup_insert_ne].
Qed.

Ltac solve_frame :=
  split; intros; simpl; rewrite ?lookup_insert_ne, ?lookup_delete_ne by congruence; try done;
  try (unfold locals_of, calls_of; simpl; rewrite ?lookup_insert_ne by congruence; done).

Lemma run_frame p tid a pc :
  process_ok p → runs (world p) !! tid = Some (a, pc) →
  (∀ t pc, runs (world p) !! t = Some (a, pc) → t = tid) ∧
  (∀ b pc, runs (world p) !! tid = Some (b, pc) → b = a).
Proof.
  intros Hok E. split; [intros t pc' E'; by eapply pr_unique|]. intros b pc' E'. by simplify_eq.
Qed.

Lemma early_object p tid a pc c :
  thread_ok p tid a pc c → late pc = false →
  ∃ th, heap (world p) !! a = Some th ∧
    object_ok pc tid c (cur_thread_name (locals_of tid (world p))) (a ∈ made p) th.
Proof.
  intros [_ _ _ _ h] Hl. destruct (heap (world p) !! a) as [th|]; [by exists th|].
  destruct h as [h _]. by rewrite Hl in h.
Qed.

Lemma semPost_ok (s : Semaphore M) :
  sem_value (Lock.m_semaphore s) = 0 →
  ∃ m, Semaphore_semPost s = Ret (mkSemaphore m) ∧ sem_value m = 1.
Proof.
  intros Hv. unfold Semaphore_semPost. destruct (sem_post_ok (Lock.m_semaphore s)) as [Hr Hp].
  { rewrite Hv. done. }
  destruct (sem_post _) as [rt m]. simpl in *. subst rt. exists m. split; [done|lia].
Qed.

(** What [Run] does next does not fail, and keeps the invariant. *)
Lemma run_ok p tid a pc :
  process_ok p → runs (world p) !! tid = Some (a, pc) → pc ≠ PcEnd →
  ∃ w, Run_step tid (world p) = Ret w ∧ process_ok (mkProcess w (made p) (asked p)).
Proof.
  intros Hok E Hne. destruct (run_frame _ _ _ _ Hok E) as [Ha Hb].
  destruct (pr_threads _ Hok _ _ _ E) as [c Ht].
  unfold Run_step. rewrite E. pose proof Ht as [h1 h2 h3 h4 h5].
  destruct (late pc) eqn:El.
  - destruct pc as [| | | | |?|cb|]; try done. eexists. split; [done|].
    eapply (frame_ok tid a p _ PcEnd c); [done| |done|done|simpl; apply lookup_insert_eq|].
    + solve_frame. unfold calls_of. simpl. rewrite filter_app, filter_cons_False, filter_nil, app_nil_r; done.
    + split; simpl; [done|intros _; by apply h2| |done|unfold locals_of in *; simpl; destruct (heap (world p) !! a) as [th|]; [destruct h5; by split|done]].
      unfold calls_of in *; simpl. rewrite filter_app, h3, filter_cons_True; simpl; [|done]. by subst cb.
  - destruct (early_object _ _ _ _ _ Ht El) as (th & Eh & [o1 o2 o3 o4]). rewrite El in o4.
    destruct o4 as [Hm Hv]. unfold object. rewrite Eh. cbn [deref]. rewrite ?ret_bind.
    destruct pc as [| | | | |cb|cb|]; try done; simpl in h4, o1, o2, o3.
    all: rewrite ?ret_bind; try (destruct (semPost_ok _ Hv) as (m & -> & Hv')).
    all: eexists; split; [done|]; eapply (frame_ok tid a p _ _ c);
      [done|solve_frame|done|done|simpl; apply lookup_insert_eq|].
    all: split; simpl; rewrite ?locals_of_set, ?decide_True by done; simpl; try done;
      unfold locals_of, calls_of in *; simpl; rewrite ?lookup_insert_eq, ?Eh; simpl;
      try (intros _; apply h2; done); try done.
    all: split; simpl; auto.
Qed.

Lemma initial_ok : process_ok initial.
Proof. split; simpl; try done. intros a [[th E]|E]; [done|set_solver]. Qed.

Lemma new_ok a cb name rt pth tid p w :
  process_ok p → map_Forall (λ _ r, r.1 ≠ a) (runs (world p)) → runs (world p) !! tid = None →
  Thread_create a cb name rt pth tid (world p) = Ret w →
  process_ok (mkProcess w (made p) (<[tid := cb]> (asked p))).
Proof.
  intros Hok Ha Hn. unfold Thread_create, Semaphore_new.
  destruct (sem_init_spec 0) as [Hr Hv]; [done|]. destruct (sem_init 0) as [rt0 m]; simpl in *. subst rt0.
  simpl. case_match; [done|]. intros [= <-].
  assert (a ∉ made p) as Hm.
  { intros Hm. destruct (pr_objects _ Hok a) as (t & pc & E); [by right|]. by apply (Ha _ _ E). }
  eapply (frame_ok tid a p _ PcThis cb); [done|solve_frame|..].
  - intros t pc E. by destruct (Ha _ _ E).
  - intros b pc E. congruence.
  - simpl. by rewrite lookup_insert_eq.
  - destruct (pr_others _ Hok tid Hn) as [Hc _]. split; simpl; rewrite ?lookup_insert_eq; try done.
Qed.

(** Only what the objects may change. *)
Lemma object_event_ok a p p' th th' :
  process_ok p → heap (world p) !! a = Some th →
  runs (world p') = runs (world p) → locals (world p') = locals (world p) →
  calls (world p') = calls (world p) → asked p' = asked p →
  (∀ b, b ≠ a → heap (world p') !! b = heap (world p) !! b ∧ (b ∈ made p' ↔ b ∈ made p)) →
  heap (world p') !! a = th' →
  (∀ tid pc c, runs (world p) !! tid = Some (a, pc) →
     object_ok pc tid c (cur_thread_name (locals_of tid (world p))) (a ∈ made p) th →
     match th' with
     | Some th' => object_ok pc tid c (cur_thread_name (locals_of tid (world p))) (a ∈ made p') th'
     | None => late pc = true ∧ a ∉ made p'
     end) →
  process_ok p'.
Proof.
  intros Hok Eh Er El Ec Ea Ho Eh' Hth.
  destruct (pr_objects _ Hok a) as (tid & pc & E); [left; by eexists|].
  destruct (run_frame _ _ _ _ Hok E) as [Hu Hb]. destruct (pr_threads _ Hok _ _ _ E) as [c [h1 h2 h3 h4 h5]].
  assert (∀ t, locals_of t (world p') = locals_of t (world p)) as El' by (intros t; unfold locals_of; by rewrite El).
  assert (∀ t, calls_of t (world p') = calls_of t (world p)) as Ec' by (intros t; unfold calls_of; by rewrite Ec).
  rewrite Eh in h5. apply (frame_ok tid a p p' pc c); try done.
  - split; intros; rewrite ?Ea, ?El', ?Ec', ?Er; try done; by apply Ho.
  - by rewrite Er.
  - split; rewrite ?Ea, ?El', ?Ec', ?Eh'; try done. by apply Hth.
Qed.

Lemma wait_ok a p th w :
  process_ok p → heap (world p) !! a = Some th → a ∉ made p →
  Thread_wait a (world p) = Some (Ret w) → process_ok (mkProcess w ({[a]} ∪ made p) (asked p)).
Proof.
  intros Hok Eh Hm. unfold Thread_wait, object, Semaphore_wait. rewrite Eh. simpl.
  destruct (sem_wait _) as [[rt m]|] eqn:Ew; simpl; [|done]. case_match; simpl; [done|]. intros [= <-].
  assert (rt = 0) as -> by lia. apply sem_wait_ok in Ew as [Hv Hv'].
  eapply (object_event_ok a p _ th _ Hok Eh);
    [reflexivity|reflexivity|reflexivity|reflexivity| |apply lookup_insert_eq|].
  - intros b N. simpl. rewrite lookup_insert_ne by done. set_solver.
  - intros tid pc c E [o1 o2 o3 o4]. split; simpl; try done. destruct (late pc).
    + left. set_solver.
    + destruct o4. lia.
Qed.

Lemma join_ok a rt p w :
  process_ok p → join a rt (world p) = Ret w → process_ok (mkProcess w (made p) (asked p)).
Proof.
  intros Hok. unfold join, object. destruct (heap (world p) !! a) as [th|] eqn:Eh; simpl; [|done].
  case_match; [done|]. intros [= <-]. eapply (object_event_ok a p _ th _ Hok Eh);
    [reflexivity|reflexivity|reflexivity|reflexivity| |apply lookup_insert_eq|].
  - intros b N. simpl. by rewrite lookup_insert_ne.
  - intros tid pc c E [o1 o2 o3 o4]. by split.
Qed.

Lemma delete_ok a p d w :
  process_ok p → a ∈ made p → Thread_delete a (world p) = Ret (d, w) →
  process_ok (mkProcess w (made p ∖ {[a]}) (asked p)).
Proof.
  intros Hok Hm. unfold Thread_delete, object.
  destruct (heap (world p) !! a) as [th|] eqn:Eh; simpl; [|done]. intros [= <- <-].
  eapply (object_event_ok a p _ th _ Hok Eh);
    [reflexivity|reflexivity|reflexivity|reflexivity| |apply lookup_delete_eq|].
  - intros b N. simpl. rewrite lookup_delete_ne by done. set_solver.
  - intros tid pc c E [o1 o2 o3 o4]. split; [|set_solver]. destruct (late pc); [done|by destruct o4].
Qed.

(** A thread that [Thread] did not make has no object. *)
Lemma others_name_ok tid name p :
  process_ok p → runs (world p) !! tid = None →
  process_ok (mkProcess (set_locals tid (mkLocals None name) (world p)) (made p) (asked p)).
Proof.
  intros [Ht Hn Hu Ho] E. split; simpl; try done.
  - intros t a pc E'. destruct (Ht _ _ _ E') as [c [h1 h2 h3 h4 h5]].
    assert (t ≠ tid) as N by congruence.
    exists c. split; simpl; rewrite ?locals_of_set, ?decide_False by done; done.
  - intros t E'. destruct (Hn _ E') as [Hc Hl]. split; [done|].
    rewrite locals_of_set. by case_decide.
Qed.

Lemma setname_ok tid name p w :
  process_ok p →
  match runs (world p) !! tid with None | Some (_, PcCall _) => True | _ => False end →
  SetName tid name (world p) = Ret w → process_ok (mkProcess w (made p) (asked p)).
Proof.
  intros Hok Hr. unfold SetName. case_bool_decide; [intros [= <-]; by destruct p|].
  destruct (runs (world p) !! tid) as [[a pc]|] eqn:E.
  - destruct pc as [| | | | |?|cb|]; try done.
    destruct (pr_threads _ Hok _ _ _ E) as [c [h1 h2 h3 h4 h5]]. rewrite h2 by done. unfold object.
    destruct (heap (world p) !! a) as [th|] eqn:Eh; simpl; [|done]. intros [= <-].
    destruct (run_frame _ _ _ _ Hok E) as [Ha Hb].
    eapply (frame_ok tid a p _ (PcCall cb) c); [done|solve_frame|done|done|done|].
    split; simpl; rewrite ?locals_of_set, ?decide_True by done; simpl; try done.
    rewrite lookup_insert_eq. destruct h5. by split.
  - destruct (pr_others _ Hok tid E) as [_ ->]. simpl. intros [= <-].
    replace (cur_thread _) with (@None Z); [by apply others_name_ok|].
    symmetry. by apply (pr_others _ Hok).
Qed.

(** ** What it gives *)

Section quiet.
(** No signal handler interrupts the wait of a constructor. *)
Context (no_signal : ∀ (m m' : M) rt, sem_wait m = Some (rt, m') → rt = 0).

Lemma ev_step_ok e p p' : process_ok p → ev_step e p = Some (Ret p') → process_ok p'.
Proof using H0 no_signal.
  intros Hok. destruct e as [a cb name rt pth tid|tid|a|tid name|a rt|a]; simpl.
  - case_bool_decide as Hc; [|done]. destruct Hc as (Ha & Hn & _).
    destruct (Thread_create _ _ _ _ _ _ _) as [w| | | |] eqn:E; try done. intros [= <-].
    by eapply new_ok.
  - destruct (runs (world p) !! tid) as [[a pc]|] eqn:E; [|done].
    destruct (decide (pc = PcEnd)) as [->|N]; [done|].
    destruct (run_ok _ _ _ _ Hok E N) as (w & Hw & Hok'). intros Hs.
    assert (on_world (Run_step tid (world p)) p = Some (Ret p')) as Hs' by (by destruct pc).
    rewrite Hw in Hs'. by injection Hs' as <-.
  - case_bool_decide as Hc; [|done]. destruct Hc as ([th Eh] & Hm).
    destruct (Thread_wait a (world p)) as [[w|what| | |]|] eqn:Ew; simpl; try done; intros [= <-].
    + by eapply wait_ok.
    + exfalso. unfold Thread_wait, object, Semaphore_wait in Ew. rewrite Eh in Ew. simpl in Ew.
      destruct (sem_wait _) as [[rt m]|] eqn:Es; [|done]. apply no_signal in Es. by subst rt.
  - destruct (runs (world p) !! tid) as [[a [| | | | |?|cb|]]|] eqn:E; try done; unfold on_world;
      destruct (SetName tid name (world p)) as [w| | | |] eqn:Es; try done; intros [= <-];
      (eapply setname_ok; [done| |exact Es]); by rewrite E.
  - case_bool_decide; [|done]. unfold on_world.
    destruct (join a rt (world p)) as [w| | | |] eqn:Es; try done. intros [= <-]. by eapply join_ok.
  - case_bool_decide; [|done].
    destruct (Thread_delete a (world p)) as [[d w]| | | |] eqn:Es; try done. intros [= <-].
    by eapply delete_ok.
Qed.
Lemma reachable_ok p : reachable p → process_ok p.
Proof using H0 no_signal. induction 1; [apply initial_ok|by eapply ev_step_ok]. Qed.

(** A constructed object, from the invariant. *)
Lemma made_object p a :
  process_ok p → a ∈ made p →
  ∃ tid pc cb th, runs (world p) !! tid = Some (a, pc) ∧ (pc = PcCall cb ∨ pc = PcEnd) ∧
    asked p !! tid = Some cb ∧ heap (world p) !! a = Some th ∧
    m_id th = Some tid ∧ m_cb th = None ∧ cur_thread (locals_of tid (world p)) = Some a ∧
    cur_thread_name (locals_of tid (world p)) = m_name th.
Proof.
  intros Hok Hm. destruct (pr_objects _ Hok a) as (tid & pc & E); [by right|].
  destruct (pr_threads _ Hok _ _ _ E) as [c [h1 h2 h3 h4 h5]].
  destruct (heap (world p) !! a) as [th|] eqn:Eh; [|by destruct h5].
  destruct h5 as [o1 o2 o3 o4].
  assert (late pc = true) as El by (destruct (late pc); [done|by destruct o4]).
  exists tid, pc, c, th. repeat split; try done.
  - destruct pc; try done; [left; by subst|by right].
  - apply o1. by destruct pc.
  - by destruct pc.
  - apply h2. by intros ->.
  - apply o3. by destruct pc.
Qed.

(** C29: the handshake between the constructor and [Run], when no signal
    handler interrupts a [sem_wait] (what happens then is
    [interrupted_constructor]), in any interleaving of any number of
    constructors, threads, renamings, joins and destructors.
    A thread never touches an object that is not alive before it calls its
    closure, although it is given a bare pointer; when a constructor has
    returned, the new thread has written its id, taken the closure out of the
    object and is calling or has called it, the object is the [GetThis] of
    that thread and has its name; and a thread that has ended has called the
    closure it was made for, once. *)
Theorem thread_constructor p :
  reachable p →
  (∀ tid a pc, runs (world p) !! tid = Some (a, pc) → pc ≠ PcEnd →
     ∃ w, Run_step tid (world p) = Ret w) ∧
  (∀ a, a ∈ made p →
     ∃ tid pc cb, runs (world p) !! tid = Some (a, pc) ∧ (pc = PcCall cb ∨ pc = PcEnd) ∧
       asked p !! tid = Some cb ∧ getId a (world p) = Ret (Some tid) ∧
       GetThis tid (world p) = Some a ∧ getName a (world p) = Ret (GetName tid (world p))) ∧
  (∀ tid a, runs (world p) !! tid = Some (a, PcEnd) →
     ∃ cb, asked p !! tid = Some cb ∧ calls_of tid (world p) = [(tid, cb)]).
Proof using H0 no_signal.
  intros Hok%reachable_ok. repeat split.
  - intros tid a pc E N. destruct (run_ok _ _ _ _ Hok E N) as (w & Hw & _). by exists w.
  - intros a Hm. destruct (made_object p a Hok Hm) as (tid & pc & cb & th & E & Hpc & Hc & Eh & Hi & _ & Ht & Hn).
    exists tid, pc, cb. unfold getId, getName, GetThis, GetName, object. rewrite Eh. simpl.
    by rewrite Hi, Hn, Ht.
  - intros tid a E. destruct (pr_threads _ Hok _ _ _ E) as [c [h1 h2 h3 h4 h5]].
    exists c. split; [done|]. by rewrite h3.
Qed.

(** A [Thread] that is destroyed while its thread still runs is detached,
    and the thread keeps a pointer to it: [SetName] in that thread then writes
    to an object that is not there. *)
Theorem detached_SetName p a tid cb name :
  reachable p → a ∈ made p → runs (world p) !! tid = Some (a, PcCall cb) → name ≠ ""%string →
  ∃ p', ev_step (EvDelete a) p = Some (Ret p') ∧
    runs (world p') !! tid = Some (a, PcCall cb) ∧
    ev_step (EvSetName tid name) p' = Some (Undef "a Thread that is not alive").
Proof using H0 no_signal.
  intros Hok%reachable_ok Hm E Hn.
  destruct (made_object p a Hok Hm) as (t & pc & c & th & Et & _ & _ & Eh & _ & _ & Ht & _).
  assert (t = tid) as -> by (by eapply (pr_unique _ Hok)).
  eexists. simpl. rewrite bool_decide_eq_true_2 by done. unfold Thread_delete, object. rewrite Eh. simpl.
  split; [done|]. simpl. split; [done|]. rewrite E. unfold on_world, SetName.
  rewrite bool_decide_eq_false_2 by done. unfold locals_of in *; simpl. rewrite Ht. unfold object; simpl.
  by rewrite lookup_delete_eq.
Qed.
End quiet.

(** A signal handler that interrupts the wait makes the constructor throw;
    the object is gone, but nobody has told the new thread. *)
Theorem interrupted_constructor p a tid pc th rt m :
  runs (world p) !! tid = Some (a, pc) → late pc = false → pc ≠ PcThis →
  heap (world p) !! a = Some th → a ∉ made p →
  sem_wait (Lock.m_semaphore (m_semaphore th)) = Some (rt, m) → rt ≠ 0 →
  ∃ p', ev_step (EvReturn a) p = Some (Ret p') ∧
    ev_step (EvRun tid) p' = Some (Undef "a Thread that is not alive").
Proof.
  intros E Hl Hp Eh Hm Es Hr. eexists. simpl. rewrite bool_decide_eq_true_2 by (split; [by eexists|done]).
  unfold Thread_wait, object, Semaphore_wait. rewrite Eh. simpl. rewrite Es. simpl.
  apply Z.eqb_neq in Hr. rewrite Hr. simpl. split; [done|]. simpl.
  rewrite E. unfold on_world, Run_step; simpl. rewrite E. unfold object; simpl.
  rewrite lookup_delete_eq. by destruct pc.
Qed.
End process.
Arguments Process : clear implicits.

(** ** Runs, for the witnesses *)

Section runs.
Context {M : Type} `{SemOps M}.
Fixpoint ev_run (es : list Event) (p : Process M) : option (Process M) :=
  match es with
  | [] => Some p
  | e :: es => match ev_step e p with Some (Ret p) => ev_run es p | _ => None end
  end.
Lemma ev_run_reachable es p p' : reachable p → ev_run es p = Some p' → reachable p'.
Proof.
  revert p. induction es as [|e es IH]; intros p Hp; simpl; [by intros [= <-]|].
  destruct (ev_step e p) as [[p1| | | |]|] eqn:E; try done. apply IH. by eapply reach_step.
Qed.
End runs.

(** A semaphore that is a number, and one whose wait is interrupted whenever
    it would block. *)
Definition counter_sem : SemOps Z := {|
  sem_init n := if decide (0 <= n <= SEM_VALUE_MAX) then (0, n) else (-1, 0);
  sem_wait m := if decide (0 < m) then Some (0, m - 1) else None;
  sem_post m := if decide (m < SEM_VALUE_MAX) then (0, m + 1) else (-1, m);
  sem_value m := m
|}.
Definition interrupted_sem : SemOps Z := {|
  sem_init n := if decide (0 <= n <= SEM_VALUE_MAX) then (0, n) else (-1, 0);
  sem_wait m := if decide (0 < m) then Some (0, m - 1) else Some (-1, m);
  sem_post m := if decide (m < SEM_VALUE_MAX) then (0, m + 1) else (-1, m);
  sem_value m := m
|}.
Lemma counter_sem_laws : @SemLaws Z counter_sem.
Proof. split; simpl; intros; repeat case_decide; simplify_eq; simpl; try split; eauto; try lia; by eexists. Qed.
Lemma interrupted_sem_laws : @SemLaws Z interrupted_sem.
Proof. split; simpl; intros; repeat case_decide; simplify_eq; simpl; try split; eauto; try lia; by eexists. Qed.

Section witness.
#[local] Existing Instance counter_sem.
#[local] Existing Instance counter_sem_laws.

Lemma counter_no_signal (m m' : Z) rt : sem_wait m = Some (rt, m') → rt = 0.
Proof. simpl. case_decide; [|done]. by intros [= <- <-]. Qed.

(** Two constructors at once; the first object's thread is running its closure
    and the second's has just taken it. *)
Definition demo_events : list Event :=
  [EvNew 100 (Some 5%nat) "worker" 0 1 11; EvRun 11; EvNew 200 (Some 6%nat) "" 0 2 12;
   EvRun 12; EvRun 11; EvRun 11; EvRun 12; EvRun 11; EvRun 11; EvRun 12; EvRun 11; EvReturn 100;
   EvRun 12; EvRun 12].
Definition demo_process : Process Z := default initial (ev_run demo_events initial).
Lemma demo_reachable : reachable demo_process.
Proof.
  unfold demo_process. destruct (ev_run demo_events initial) as [p|] eqn:E; simpl;
    [|apply reach_initial]. eapply ev_run_reachable; [apply reach_initial|exact E].
Qed.
Lemma demo_facts :
  100 ∈ made demo_process ∧ runs (world demo_process) !! 11 = Some (100, PcCall (Some 5%nat)) ∧
  runs (world demo_process) !! 12 = Some (200, PcPost (Some 6%nat)) ∧ 200 ∉ made demo_process.
Proof.
  split; [apply (bool_decide_unpack _); vm_compute; exact I|].
  split; [vm_compute; reflexivity|]. split; [vm_compute; reflexivity|].
  apply (bool_decide_unpack _). vm_compute. exact I.
Qed.

Lemma thread_constructor_witness :
  ∃ tid pc cb, runs (world demo_process) !! tid = Some (100, pc) ∧
    getId 100 (world demo_process) = Ret (Some tid) ∧ asked demo_process !! tid = Some cb.
Proof.
  destruct (thread_constructor counter_no_signal demo_process demo_reachable) as (_ & Hm & _).
  destruct (Hm 100 (proj1 demo_facts)) as (tid & pc & cb & E & _ & Ha & Hi & _).
  exists tid, pc, cb. exact (conj E (conj Hi Ha)).
Defined.

Lemma detached_SetName_witness :
  ∃ p', ev_step (EvDelete 100) demo_process = Some (Ret p') ∧
    ev_step (EvSetName 11 "renamed") p' = Some (Undef "a Thread that is not alive").
Proof.
  destruct (detached_SetName counter_no_signal demo_process 100 11 (Some 5%nat) "renamed" demo_reachable
    (proj1 demo_facts) (proj1 (proj2 demo_facts))) as (p' & Hd & _ & Hs); [discriminate|].
  exists p'. exact (conj Hd Hs).
Defined.
End witness.

Section interrupted.
#[local] Existing Instance interrupted_sem.
#[local] Existing Instance interrupted_sem_laws.

Definition demo_interrupted : Process Z :=
  default initial (ev_run [EvNew 100 (Some 5%nat) "worker" 0 1 11; EvRun 11; EvRun 11] initial).

Lemma interrupted_constructor_witness :
  ∃ p', ev_step (EvReturn 100) demo_interrupted = Some (Ret p') ∧
    ev_step (EvRun 11) p' = Some (Undef "a Thread that is not alive").
Proof.
  eapply (interrupted_constructor demo_interrupted 100 11 PcId _ (-1) 0);
    [vm_compute; reflexivity|reflexivity|discriminate|vm_compute; reflexivity| |vm_compute; reflexivity|discriminate].
  apply (bool_decide_unpack _). vm_compute. exact I.
Defined.
End interrupted.

(** ** Condition variables *)

Section conds.
Context {C : Type} `{CondLaws C}.

(** As many signals as there are waiting threads wake them all. *)
Lemma CondSignal_all cnt c :
  Z.of_nat (size (cond_blocked c)) <= cnt → cond_blocked (CondSignal cnt c) = ∅.
Proof.
  unfold CondSignal. intros Hc. assert (size (cond_blocked c) <= Z.to_nat cnt)%nat as Hn by lia. clear Hc.
  revert c Hn. induction (Z.to_nat cnt) as [|n IH]; intros c Hn; simpl.
  - by apply leibniz_equiv, size_empty_inv; lia.
  - destruct (decide (cond_blocked c = ∅)) as [E|N].
    + apply IH. rewrite cond_signal_none by done. rewrite E, size_empty. lia.
    + apply IH. pose proof (subset_size _ _ (cond_signal_some c N)). lia.
Qed.
(** A signal that nobody waits for is lost. *)
Lemma CondSignal_none cnt c : cond_blocked c = ∅ → CondSignal cnt c = c.
Proof.
  intros E. unfold CondSignal. induction (Z.to_nat cnt) as [|n IH]; simpl; [done|].
  by rewrite cond_signal_none.
Qed.
End conds.
