(* ===== verification/Timer.v ===== *)
(** * Timers: src/src/timer.h, src/src/timer.cpp

    A [Timer] lives on the heap and is named by its address; [m_timers] is a
    [std::set] of pointers ordered by [Timer::Comparator], here the list of
    addresses in iteration order, searched the way the set searches: by the
    comparator only.  The clock ([GetNowMillisecond]) and the address of a new
    object are arguments.  A call of the virtual [onTimerRefresh] is the
    boolean of an operation's result. *)

From S2P Require Import Prelude.

(** A [std::function<void()>]: a plain closure, or the one [std::bind] makes
    of [condTimerCallback], a closure and a weak reference. *)
Inductive Callback : Set := Plain (f : nat) | Cond (cb : nat) (cond : nat).

#[export] Instance Callback_eq_dec : EqDecision Callback.
Proof. solve_decision. Defined.

(** [src/src/timer.h:39-43] Timer, without the pointer to its manager *)
Record Timer := mkTimer {
  m_ms : Z;
  m_next : Z;
  m_cb : option Callback;
  m_recurring : bool
}.

(** [src/src/timer.h:62-63] TimerManager, with the heap its timers live in *)
Record TimerManager := mkTimerManager {
  m_heap : gmap Z Timer;
  m_timers : list Z
}.

(** [src/src/timer.cpp:98-99] TimerManager::TimerManager *)
Definition TimerManager_new : TimerManager := mkTimerManager ∅ [].

(** [*timer]: a shared pointer keeps its object alive. *)
Definition timer_in (h : gmap Z Timer) (id : Z) : Timer :=
  default (mkTimer 0 0 None false) (h !! id).
Definition timer_at (m : TimerManager) (id : Z) : Timer := timer_in (m_heap m) id.
Definition put (m : TimerManager) (id : Z) (t : Timer) : TimerManager :=
  mkTimerManager (<[id := t]> (m_heap m)) (m_timers m).

(** [src/src/timer.cpp:14-31] Timer::Comparator::operator() *)
Definition Comparator (h : gmap Z Timer) (lth rth : option Z) : bool :=
  match lth, rth with
  | None, None => false
  | Some _, None => true
  | None, Some _ => false
  | Some l, Some r =>
      if m_next (timer_in h l) <? m_next (timer_in h r) then true
      else if m_next (timer_in h r) <? m_next (timer_in h l) then false
      else l <? r
  end.

(** ** The operations of [std::set] the code uses *)

Definition less (h : gmap Z Timer) (l r : Z) : bool := Comparator h (Some l) (Some r).

(** [lower_bound]: the iterator as what is before it and what starts at it. *)
Fixpoint lower_bound (h : gmap Z Timer) (key : Z) (s : list Z) : list Z * list Z :=
  match s with
  | [] => ([], [])
  | x :: s' =>
      if less h x key then let '(b, e) := lower_bound h key s' in (x :: b, e) else ([], s)
  end.

(** [find], then [erase] of the iterator; [None] when [find] gives [end()]. *)
Definition find_erase (h : gmap Z Timer) (key : Z) (s : list Z) : option (list Z) :=
  match lower_bound h key s with
  | (b, x :: e) => if less h key x then None else Some (b ++ e)
  | (_, []) => None
  end.

(** [insert]: the new set, and whether the element's iterator is [begin()]. *)
Definition set_insert (h : gmap Z Timer) (key : Z) (s : list Z) : list Z * bool :=
  let '(b, e) := lower_bound h key s in
  let at_begin := match b with [] => true | _ => false end in
  match e with
  | x :: _ => if less h key x then (b ++ key :: e, at_begin) else (s, at_begin)
  | [] => (b ++ [key], at_begin)
  end.

(** ** Timer *)

(** [src/src/timer.cpp:33-36] Timer::Timer(uint64_t, std::function, TimerManager *, bool) *)
Definition Timer_new (now ms : Z) (cb : option Callback) (recurring : bool) : Timer :=
  mkTimer ms (u64 (now + ms)) cb recurring.

(** [src/src/timer.cpp:38-40] Timer::Timer(uint64_t next) *)
Definition Timer_at_time (next : Z) : Timer := mkTimer 0 next None false.

Definition set_cb (cb : option Callback) (t : Timer) : Timer :=
  mkTimer (m_ms t) (m_next t) cb (m_recurring t).
Definition set_next (next : Z) (t : Timer) : Timer :=
  mkTimer (m_ms t) next (m_cb t) (m_recurring t).
Definition set_ms (ms : Z) (t : Timer) : Timer :=
  mkTimer ms (m_next t) (m_cb t) (m_recurring t).

(** [src/src/timer.cpp:42-54] Timer::cancel *)
Definition cancel (m : TimerManager) (id : Z) : bool * TimerManager :=
  match m_cb (timer_at m id) with
  | Some _ =>
      let m := put m id (set_cb None (timer_at m id)) in
      match find_erase (m_heap m) id (m_timers m) with
      | Some s => (true, mkTimerManager (m_heap m) s)
      | None => (false, m)
      end
  | None => (false, m)
  end.

(** The common end of [refresh] and [reset]: the timer, out of the set, is
    changed and inserted again; [true] when it is then the first. *)
Definition reinsert (m : TimerManager) (s : list Z) (id : Z) (t : Timer) : TimerManager * bool :=
  let h := <[id := t]> (m_heap m) in
  let '(s, first) := set_insert h id s in
  (mkTimerManager h s, first).

(** [src/src/timer.cpp:56-73] Timer::refresh: the result, the call of onTimerRefresh, the manager *)
Definition refresh (now : Z) (m : TimerManager) (id : Z) : bool * bool * TimerManager :=
  match m_cb (timer_at m id) with
  | None => (false, false, m)
  | Some _ =>
      match find_erase (m_heap m) id (m_timers m) with
      | None => (false, false, put m id (set_cb None (timer_at m id)))
      | Some s =>
          let t := timer_at m id in
          let '(m, first) := reinsert m s id (set_next (u64 (now + m_ms t)) t) in
          (true, first, m)
      end
  end.

(** [src/src/timer.cpp:75-96] Timer::reset *)
Definition reset (now ms : Z) (m : TimerManager) (id : Z) : bool * bool * TimerManager :=
  if ms =? m_ms (timer_at m id) then (true, false, m)
  else
    match m_cb (timer_at m id) with
    | None => (false, false, m)
    | Some _ =>
        match find_erase (m_heap m) id (m_timers m) with
        | None => (false, false, m)
        | Some s =>
            let t := set_ms ms (timer_at m id) in
            let '(m, first) := reinsert m s id (set_next (u64 (ms + now)) t) in
            (true, first, m)
        end
    end.

(** ** TimerManager *)

(** [src/src/timer.cpp:104-114] TimerManager::addTimer: [a] is the address of the new timer *)
Definition addTimer (now a ms : Z) (cb : option Callback) (recurring : bool)
    (m : TimerManager) : Z * bool * TimerManager :=
  let '(m, first) := reinsert m (m_timers m) a (Timer_new now ms cb recurring) in
  (a, first, m).

(** [src/src/timer.cpp:116-121] condTimerCallback, and the call of a plain closure: the closures that run, where [alive] tells whether a weak reference can still be locked *)
Definition condTimerCallback (alive : nat → bool) (cb : Callback) : list nat :=
  match cb with
  | Plain f => [f]
  | Cond f cond => if alive cond then [f] else []
  end.

(** [src/src/timer.cpp:123-125] TimerManager::addCondTimer: [recurring] is not passed on and takes its default, false *)
Definition addCondTimer (now a ms : Z) (cb cond : nat) (recurring : bool)
    (m : TimerManager) : Z * bool * TimerManager :=
  addTimer now a ms (Some (Cond cb cond)) false m.

(** [src/src/timer.cpp:129-132] TimerManager::cancelAllTimers, the loop *)
Fixpoint cancelAll_loop (h : gmap Z Timer) (s : list Z) : gmap Z Timer :=
  match s with
  | [] => h
  | id :: s => cancelAll_loop (<[id := set_cb None (timer_in h id)]> h) s
  end.
(** [src/src/timer.cpp:127-133] TimerManager::cancelAllTimers *)
Definition cancelAllTimers (m : TimerManager) : TimerManager :=
  mkTimerManager (cancelAll_loop (m_heap m) (m_timers m)) [].

(** [src/src/timer.cpp:146-148] TimerManager::listExpiredCbs, the loop over the timers due at this millisecond *)
Fixpoint skip_equal (h : gmap Z Timer) (now : Z) (s : list Z) : list Z * list Z :=
  match s with
  | [] => ([], [])
  | x :: s' =>
      if m_next (timer_in h x) =? now
      then let '(b, e) := skip_equal h now s' in (x :: b, e)
      else ([], s)
  end.

(** [src/src/timer.cpp:153-161] TimerManager::listExpiredCbs, the loop over the expired timers *)
Fixpoint expire_loop (now : Z) (expired : list Z) (m : TimerManager)
    : list (option Callback) * TimerManager :=
  match expired with
  | [] => ([], m)
  | id :: expired =>
      let t := timer_at m id in
      let m :=
        if m_recurring t
        then fst (reinsert m (m_timers m) id (set_next (u64 (now + m_ms t)) t))
        else put m id (set_cb None t) in
      let '(cbs, m) := expire_loop now expired m in
      (m_cb t :: cbs, m)
  end.

(** [src/src/timer.cpp:135-162] TimerManager::listExpiredCbs: [a] is the address of the temporary [nowTimer] *)
Definition listExpiredCbs (now a : Z) (m : TimerManager)
    : list (option Callback) * TimerManager :=
  match m_timers m with
  | [] => ([], m)
  | _ =>
      let h := <[a := Timer_at_time now]> (m_heap m) in
      let '(before, it) := lower_bound h a (m_timers m) in
      let '(equal, rest) := skip_equal h now it in
      expire_loop now (before ++ equal) (mkTimerManager (m_heap m) rest)
  end.

(** [src/src/timer.cpp:164-176] TimerManager::getNextTime *)
Definition getNextTime (now : Z) (m : TimerManager) : Z :=
  match m_timers m with
  | [] => 2 ^ 64 - 1
  | next :: _ =>
      if m_next (timer_at m next) <=? now then 0 else m_next (timer_at m next) - now
  end.
