(* ===== verification/TimerProps.v ===== *)
(** * Properties of the timers

    The set stays ordered by expiry and every armed timer is in it; what
    [listExpiredCbs] fires and what it keeps; a cancelled timer never fires;
    [getNextTime] predicts the next firing. *)

From stdpp Require Import sorting.
From S2P Require Import Prelude Timer.

Definition next_of (h : gmap Z Timer) (id : Z) : Z := m_next (timer_in h id).
Definition ord (h : gmap Z Timer) (l r : Z) : Prop := less h l r = true.
Definition sorted (h : gmap Z Timer) : list Z → Prop := StronglySorted (ord h).

Lemma ord_spec h l r :
  ord h l r ↔ next_of h l < next_of h r ∨ (next_of h l = next_of h r ∧ l < r).
Proof.
  unfold ord, less, Comparator. fold (next_of h l) (next_of h r).
  repeat case_if; bool_lia; split; intros; try done; try lia.
Qed.

#[export] Instance ord_trans h : Transitive (ord h).
Proof. intros x y z. rewrite !ord_spec. lia. Qed.

Lemma ord_irrefl h x : ¬ ord h x x.
Proof. rewrite ord_spec. lia. Qed.

Lemma ord_total h x y : x ≠ y → ord h x y ∨ ord h y x.
Proof. rewrite !ord_spec. lia. Qed.

Lemma less_false h l r : less h l r = false ↔ ¬ ord h l r.
Proof. unfold ord. destruct (less h l r); naive_solver. Qed.

Lemma timer_in_insert_ne h a t x : x ≠ a → timer_in (<[a := t]> h) x = timer_in h x.
Proof. intros. unfold timer_in. by rewrite lookup_insert_ne. Qed.
Lemma timer_in_insert h a t : timer_in (<[a := t]> h) a = t.
Proof. unfold timer_in. by rewrite lookup_insert_eq. Qed.

(** The order of a set only depends on the expiry of its members. *)
Lemma sorted_ext h h' s :
  (∀ x, x ∈ s → next_of h' x = next_of h x) → sorted h s → sorted h' s.
Proof.
  intros Hx Hs. unfold sorted in *. induction Hs as [|x s Hs IH Hf]; constructor.
  - apply IH. intros y Hy. apply Hx. by right.
  - rewrite Forall_forall in *. intros y Hy. specialize (Hf y Hy).
    rewrite ord_spec in *. rewrite (Hx x), (Hx y) by (by (left + right)). done.
Qed.

Lemma sorted_NoDup h s : sorted h s → NoDup s.
Proof.
  intros Hs. induction Hs as [|x s Hs IH Hf]; constructor; [|done].
  intros Hin. rewrite Forall_forall in Hf. destruct (ord_irrefl h x). by apply Hf.
Qed.

Lemma lower_bound_spec h key s :
  sorted h s → let '(b, e) := lower_bound h key s in
  s = b ++ e ∧ (∀ x, x ∈ b → ord h x key) ∧ (∀ x, x ∈ e → ¬ ord h x key).
Proof.
  intros Hs. induction Hs as [|x s Hs IH Hf]; simpl; [set_solver|].
  destruct (less h x key) eqn:Hl.
  - destruct (lower_bound h key s) as [b e]. destruct IH as (-> & Hb & He).
    split_and!; [done| |done]. set_solver.
  - split_and!; [done|set_solver|]. rewrite Forall_forall in Hf.
    apply less_false in Hl. intros y [->|Hy]%elem_of_cons; [done|].
    intros Hy'. apply Hl. trans y; [by apply Hf|done].
Qed.

Lemma find_erase_in h key s :
  sorted h s → key ∈ s → ∃ b e, s = b ++ key :: e ∧ find_erase h key s = Some (b ++ e).
Proof.
  intros Hs Hin. pose proof (lower_bound_spec h key s Hs) as Hl. unfold find_erase.
  destruct (lower_bound h key s) as [b e]. destruct Hl as (-> & Hb & He).
  apply elem_of_app in Hin as [Hin|Hin]; [by destruct (ord_irrefl h key (Hb _ Hin))|].
  destruct e as [|x e]; [by apply not_elem_of_nil in Hin|].
  assert (x = key) as ->.
  { apply elem_of_cons in Hin as [->|Hin]; [done|].
    unfold sorted in Hs. rewrite StronglySorted_app, StronglySorted_cons, Forall_forall in Hs.
    destruct Hs as (_ & _ & Hx & _). destruct (He x); [by left|]. by apply Hx. }
  exists b, e. split; [done|].
  by rewrite (proj2 (less_false _ _ _) (ord_irrefl h key)).
Qed.

Lemma find_erase_out h key s : sorted h s → key ∉ s → find_erase h key s = None.
Proof.
  intros Hs Hin. pose proof (lower_bound_spec h key s Hs) as Hl. unfold find_erase.
  destruct (lower_bound h key s) as [b e]. destruct Hl as (-> & Hb & He).
  destruct e as [|x e]; [done|].
  destruct (ord_total h key x) as [Ho|Ho]; [set_solver|by rewrite Ho|].
  destruct (He x); [by left|done].
Qed.

Lemma set_insert_spec h key s :
  sorted h s → key ∉ s →
  sorted h (fst (set_insert h key s)) ∧ fst (set_insert h key s) ≡ₚ key :: s ∧
  (snd (set_insert h key s) = true ↔ ∀ x, x ∈ s → ord h key x).
Proof.
  intros Hs Hin. pose proof (lower_bound_spec h key s Hs) as Hl. unfold set_insert.
  destruct (lower_bound h key s) as [b e]. destruct Hl as (-> & Hb & He).
  assert (∀ x, x ∈ e → ord h key x) as He'.
  { intros x Hx. destruct (ord_total h key x) as [|Ho]; [set_solver|done|].
    by destruct (He x Hx). }
  assert (sorted h (b ++ key :: e)) as Hs'.
  { unfold sorted in *. rewrite StronglySorted_app in *. destruct Hs as (Hbe & Hsb & Hse).
    rewrite StronglySorted_cons, Forall_forall. split_and!; try done.
    intros x1 x2 H1 [->|H2]%elem_of_cons; auto. }
  assert ((match b with [] => true | _ => false end) = true ↔
    ∀ x, x ∈ b ++ e → ord h key x) as Hfst.
  { destruct b as [|y b]; [by rewrite app_nil_l|]. split; [done|]. intros Hall.
    destruct (ord_irrefl h key). trans y; [apply Hall; by left|apply Hb; by left]. }
  destruct e as [|x e].
  - rewrite app_nil_r in *. simpl. split_and!; [done| |done].
    by rewrite Permutation_app_comm.
  - assert (ord h key x) as Ho by (apply He'; by left).
    rewrite Ho. simpl. split_and!; [done| |done].
    by rewrite <- Permutation_middle.
Qed.

(** ** The invariant of a manager *)

Record wf (m : TimerManager) : Prop := {
  wf_sorted : sorted (m_heap m) (m_timers m);
  wf_alloc : ∀ id, id ∈ m_timers m → is_Some (m_heap m !! id);
  wf_armed : ∀ id, m_cb (timer_at m id) ≠ None → id ∈ m_timers m
}.

Lemma timer_at_put m id t x : x ≠ id → timer_at (put m id t) x = timer_at m x.
Proof. apply timer_in_insert_ne. Qed.

Lemma timer_at_put_eq m id t : timer_at (put m id t) id = t.
Proof. apply timer_in_insert. Qed.

Lemma alloc_insert (h : gmap Z Timer) id t x : is_Some (h !! x) → is_Some (<[id := t]> h !! x).
Proof. intros. destruct (decide (x = id)) as [->|]; [rewrite lookup_insert_eq|rewrite lookup_insert_ne]; done. Qed.

(** Changing a timer that is not in the set, or its callback only. *)
Lemma wf_put_out m id t :
  wf m → id ∉ m_timers m → m_cb t = None → wf (put m id t).
Proof.
  intros [Hs Ha Hb] Hin Ht. split; simpl.
  - apply sorted_ext with (m_heap m); [|done]. intros x Hx. unfold next_of.
    rewrite timer_in_insert_ne; [done|]. by intros ->.
  - intros x Hx. apply alloc_insert. by apply Ha.
  - intros x Hx. destruct (decide (x = id)) as [->|].
    + by rewrite timer_at_put_eq in Hx.
    + rewrite timer_at_put in Hx by done. by apply Hb.
Qed.

(** Inserting a timer that is not in the set. *)
Lemma reinsert_spec m s id t :
  sorted (m_heap m) s → (∀ x, x ∈ s → is_Some (m_heap m !! x)) → id ∉ s →
  (∀ x, x ≠ id → m_cb (timer_at m x) ≠ None → x ∈ s) →
  let '(m', first) := reinsert m s id t in
  wf m' ∧ m_timers m' ≡ₚ id :: s ∧ m_heap m' = <[id := t]> (m_heap m) ∧
  (first = true ↔ ∀ x, x ∈ s → ord (m_heap m') id x).
Proof.
  intros Hs Ha Hin Hb. unfold reinsert.
  assert (sorted (<[id:=t]> (m_heap m)) s) as Hs'.
  { apply sorted_ext with (m_heap m); [|done]. intros x Hx. unfold next_of.
    rewrite timer_in_insert_ne; [done|]. by intros ->. }
  destruct (set_insert_spec _ _ _ Hs' Hin) as (H1 & H2 & H3).
  destruct (set_insert _ _ _) as [s' first]. simpl in *. split_and!; try done.
  split; simpl; [done| |].
  - intros x. rewrite H2. intros [->|Hx]%elem_of_cons.
    + by rewrite lookup_insert_eq.
    + apply alloc_insert. by apply Ha.
  - intros x Hx. rewrite H2. destruct (decide (x = id)) as [->|]; [by left|right].
    apply Hb; [done|]. unfold timer_at in Hx. simpl in Hx. by rewrite timer_in_insert_ne in Hx.
Qed.

(** What is left of the set after an erased member. *)
Lemma erase_facts h id b e :
  sorted h (b ++ id :: e) →
  sorted h (b ++ e) ∧ id ∉ b ++ e ∧ ∀ x, x ∈ b ++ e ↔ x ∈ b ++ id :: e ∧ x ≠ id.
Proof.
  intros Hs. pose proof (sorted_NoDup _ _ Hs) as Hn.
  rewrite <- Permutation_middle in Hn. apply NoDup_cons in Hn as [Hn _].
  split_and!; [|done|].
  - unfold sorted in *. rewrite StronglySorted_app, StronglySorted_cons in *.
    destruct Hs as (H1 & H2 & _ & H3). split_and!; try done.
    intros x y Hx Hy. apply H1; [done|by right].
  - intros x. rewrite elem_of_app, elem_of_app, elem_of_cons in *.
    split; [|naive_solver]. intros Hx. split; [naive_solver|]. intros ->. naive_solver.
Qed.

Lemma wf_new : wf TimerManager_new.
Proof.
  split; simpl; [constructor|set_solver|]. intros id Hid. unfold timer_at, timer_in in Hid.
  simpl in Hid. by rewrite lookup_empty in Hid.
Qed.

(** Cancelling: true exactly for an armed timer, which leaves the set. *)
Lemma cancel_spec m id :
  wf m →
  let '(r, m') := cancel m id in
  wf m' ∧ (r = true ↔ m_cb (timer_at m id) ≠ None) ∧
  (m_cb (timer_at m id) ≠ None → id ∉ m_timers m' ∧ m_cb (timer_at m' id) = None) ∧
  (∀ x, x ≠ id → timer_at m' x = timer_at m x ∧ (x ∈ m_timers m' ↔ x ∈ m_timers m)) ∧
  (m_cb (timer_at m id) = None → m' = m).
Proof.
  intros Hw. unfold cancel. destruct (m_cb (timer_at m id)) as [c|] eqn:Hc; [|naive_solver].
  assert (id ∈ m_timers m) as Hin by (apply (wf_armed _ Hw); congruence).
  set (t := set_cb None (timer_at m id)).
  assert (sorted (<[id := t]> (m_heap m)) (m_timers m)) as Hs.
  { apply sorted_ext with (m_heap m); [|apply Hw]. intros x _. unfold next_of.
    destruct (decide (x = id)) as [->|]; [by rewrite timer_in_insert|].
    by rewrite timer_in_insert_ne. }
  destruct (find_erase_in _ id _ Hs Hin) as (b & e & Hbe & Hfe). simpl. rewrite Hfe.
  rewrite Hbe in Hs. destruct (erase_facts _ _ _ _ Hs) as (Hs' & Hout & Hmem).
  assert (∀ x, x ≠ id → timer_at (mkTimerManager (<[id:=t]> (m_heap m)) (b ++ e)) x = timer_at m x)
    as Hoth by (intros; by apply timer_in_insert_ne).
  assert (timer_at (mkTimerManager (<[id:=t]> (m_heap m)) (b ++ e)) id = t) as Hid
    by apply timer_in_insert.
  split_and!; try done.
  - split; simpl; [done| |].
    + intros x Hx. apply alloc_insert, (wf_alloc _ Hw). rewrite Hbe. naive_solver.
    + intros x Hx. destruct (decide (x = id)) as [->|]; [by rewrite Hid in Hx|].
      rewrite Hoth in Hx by done. apply Hmem. split; [|done]. rewrite <- Hbe. by apply Hw.
  - intros _. split; [done|]. by rewrite Hid.
  - intros x Hx. split; [by apply Hoth|]. simpl. rewrite Hmem, <- Hbe. naive_solver.
Qed.

(** A timer taken out of the set, changed and put back. *)
Lemma rearm_spec m id t :
  wf m → id ∈ m_timers m →
  ∃ s, find_erase (m_heap m) id (m_timers m) = Some s ∧
    let '(m', first) := reinsert m s id t in
    wf m' ∧ m_timers m' ≡ₚ m_timers m ∧ m_heap m' = <[id := t]> (m_heap m) ∧
    (first = true ↔ ∀ x, x ∈ m_timers m → x ≠ id → ord (m_heap m') id x).
Proof.
  intros Hw Hin. destruct (find_erase_in _ id _ (wf_sorted _ Hw) Hin) as (b & e & Hbe & Hfe).
  pose proof (wf_sorted _ Hw) as Hs. rewrite Hbe in Hs.
  destruct (erase_facts _ _ _ _ Hs) as (Hs' & Hout & Hmem).
  exists (b ++ e). split; [done|].
  pose proof (reinsert_spec m (b ++ e) id t Hs') as Hr.
  destruct (reinsert m (b ++ e) id t) as [m' first]. destruct Hr as (H1 & H2 & H3 & H4).
  - intros x Hx. apply (wf_alloc _ Hw). rewrite Hbe. naive_solver.
  - done.
  - intros x Hx Hcb. apply Hmem. split; [|done]. rewrite <- Hbe. by apply Hw.
  - split_and!; try done.
    + rewrite H2, Hbe. by apply Permutation_middle.
    + rewrite H4. rewrite Hbe. split; intros Hall x Hx; [intros Hne|]; apply Hall;
        try (apply Hmem; split); try done; by apply Hmem.
Qed.

Lemma refresh_spec now m id :
  wf m →
  let '(r, first, m') := refresh now m id in
  wf m' ∧ (r = true ↔ m_cb (timer_at m id) ≠ None) ∧ m_timers m' ≡ₚ m_timers m ∧
  (∀ x, x ≠ id → timer_at m' x = timer_at m x) ∧
  (r = true → timer_at m' id = set_next (u64 (now + m_ms (timer_at m id))) (timer_at m id)) ∧
  (r = false → m' = m).
Proof.
  intros Hw. unfold refresh. destruct (m_cb (timer_at m id)) as [c|] eqn:Hc; [|naive_solver].
  assert (id ∈ m_timers m) as Hin by (apply (wf_armed _ Hw); congruence).
  destruct (rearm_spec m id (set_next (u64 (now + m_ms (timer_at m id))) (timer_at m id)) Hw Hin)
    as (s & -> & Hr).
  destruct (reinsert m s id _) as [m' first]. destruct Hr as (H1 & H2 & H3 & _).
  split_and!; try done.
  - intros x Hx. unfold timer_at. rewrite H3. by apply timer_in_insert_ne.
  - intros _. unfold timer_at at 1. rewrite H3. apply timer_in_insert.
Qed.

Lemma reset_spec now ms m id :
  wf m →
  let '(r, first, m') := reset now ms m id in
  wf m' ∧ (r = true ↔ ms = m_ms (timer_at m id) ∨ m_cb (timer_at m id) ≠ None) ∧
  m_timers m' ≡ₚ m_timers m ∧ (∀ x, x ≠ id → timer_at m' x = timer_at m x) ∧
  (m_cb (timer_at m id) = None → m' = m) ∧
  (ms ≠ m_ms (timer_at m id) → r = true →
     timer_at m' id = mkTimer ms (u64 (ms + now)) (m_cb (timer_at m id))
                        (m_recurring (timer_at m id))).
Proof.
  intros Hw. unfold reset. destruct (Z.eqb_spec ms (m_ms (timer_at m id))) as [->|Hms];
    [naive_solver|].
  destruct (m_cb (timer_at m id)) as [c|] eqn:Hc; [|naive_solver].
  assert (id ∈ m_timers m) as Hin by (apply (wf_armed _ Hw); congruence).
  destruct (rearm_spec m id (set_next (u64 (ms + now)) (set_ms ms (timer_at m id))) Hw Hin)
    as (s & -> & Hr).
  destruct (reinsert m s id _) as [m' first]. destruct Hr as (H1 & H2 & H3 & _).
  split_and!; try done.
  - split; [by right|done].
  - intros x Hx. unfold timer_at. rewrite H3. by apply timer_in_insert_ne.
  - intros _ _. unfold timer_at at 1. rewrite H3, timer_in_insert. unfold set_next. simpl.
    by rewrite Hc.
Qed.

Lemma addTimer_spec now a ms cb rec m :
  wf m → m_heap m !! a = None →
  let '(a', first, m') := addTimer now a ms cb rec m in
  a' = a ∧ wf m' ∧ m_timers m' ≡ₚ a :: m_timers m ∧
  timer_at m' a = mkTimer ms (u64 (now + ms)) cb rec ∧
  (∀ x, x ≠ a → timer_at m' x = timer_at m x) ∧
  (first = true ↔ ∀ x, x ∈ m_timers m → ord (m_heap m') a x).
Proof.
  intros Hw Ha. unfold addTimer.
  assert (a ∉ m_timers m) as Hin.
  { intros Hin. destruct (wf_alloc _ Hw _ Hin). congruence. }
  pose proof (reinsert_spec m (m_timers m) a (Timer_new now ms cb rec) (wf_sorted _ Hw)
    (wf_alloc _ Hw) Hin) as Hr.
  destruct (reinsert m _ _ _) as [m' first]. destruct Hr as (H1 & H2 & H3 & H4).
  { intros x _. apply Hw. }
  split_and!; try done.
  - unfold timer_at. rewrite H3. apply timer_in_insert.
  - intros x Hx. unfold timer_at. rewrite H3. by apply timer_in_insert_ne.
Qed.

(** *** Expiry *)

Lemma skip_equal_spec h now s :
  sorted h s → (∀ x, x ∈ s → now <= next_of h x) →
  let '(b, e) := skip_equal h now s in
  s = b ++ e ∧ (∀ x, x ∈ b → next_of h x = now) ∧ (∀ x, x ∈ e → now < next_of h x).
Proof.
  intros Hs. induction Hs as [|x s Hs IH Hf]; intros Hge; simpl; [set_solver|].
  fold (next_of h x). destruct (Z.eqb_spec (next_of h x) now) as [Hx|Hx].
  - destruct (skip_equal h now s) as [b e].
    destruct IH as (-> & Hb & He); [intros; apply Hge; by right|].
    split_and!; [done| |done]. intros y [->|Hy]%elem_of_cons; auto.
  - split_and!; [done|set_solver|]. assert (now <= next_of h x) by (apply Hge; by left).
    rewrite Forall_forall in Hf.
    intros y [->|Hy]%elem_of_cons; [lia|]. specialize (Hf y Hy). rewrite ord_spec in Hf. lia.
Qed.

(** The two searches split the set at the current time, wherever the
    temporary [nowTimer] is allocated. *)
Lemma expired_split h now a s :
  sorted h s → a ∉ s →
  let h' := <[a := Timer_at_time now]> h in
  let '(b, it) := lower_bound h' a s in let '(eq, rest) := skip_equal h' now it in
  s = (b ++ eq) ++ rest ∧ (∀ x, x ∈ b ++ eq → next_of h x <= now) ∧
  (∀ x, x ∈ rest → now < next_of h x).
Proof.
  intros Hs Ha. cbn zeta. set (h' := <[a := Timer_at_time now]> h).
  assert (∀ x, x ∈ s → next_of h' x = next_of h x) as Hn.
  { intros x Hx. unfold next_of, h'. rewrite timer_in_insert_ne; [done|]. by intros ->. }
  assert (next_of h' a = now) as Hna by (unfold next_of, h'; by rewrite timer_in_insert).
  assert (sorted h' s) as Hs' by by apply sorted_ext with h.
  pose proof (lower_bound_spec h' a s Hs') as Hl.
  destruct (lower_bound h' a s) as [b it]. destruct Hl as (-> & Hb & He).
  unfold sorted in Hs'. rewrite StronglySorted_app in Hs'. destruct Hs' as (_ & _ & Hs').
  pose proof (skip_equal_spec h' now it Hs') as Hk.
  destruct (skip_equal h' now it) as [eq rest]. destruct Hk as (-> & Heq & Hr).
  { intros x Hx. specialize (He x Hx). rewrite ord_spec, Hna in He.
    destruct (Z_lt_ge_dec (next_of h' x) now); [tauto|lia]. }
  split_and!; [by rewrite app_assoc| |].
  - intros x [Hx|Hx]%elem_of_app.
    + specialize (Hb x Hx). rewrite ord_spec, Hna, Hn in Hb by set_solver. lia.
    + specialize (Heq x Hx). rewrite Hn in Heq by set_solver. lia.
  - intros x Hx. specialize (Hr x Hx). rewrite Hn in Hr by set_solver. done.
Qed.

(** What expiry does to a timer. *)
Definition expire (now : Z) (t : Timer) : Timer :=
  if m_recurring t then set_next (u64 (now + m_ms t)) t else set_cb None t.

Lemma expire_loop_spec now expired m :
  sorted (m_heap m) (m_timers m) → NoDup expired →
  (∀ x, x ∈ m_timers m ∨ x ∈ expired → is_Some (m_heap m !! x)) →
  (∀ x, x ∈ expired → x ∉ m_timers m) →
  (∀ x, m_cb (timer_at m x) ≠ None → x ∈ m_timers m ∨ x ∈ expired) →
  let '(cbs, m') := expire_loop now expired m in
  cbs = (fun x => m_cb (timer_at m x)) <$> expired ∧ wf m' ∧
  (∀ x, x ∈ m_timers m' ↔ x ∈ m_timers m ∨ (x ∈ expired ∧ m_recurring (timer_at m x) = true)) ∧
  (∀ x, x ∉ expired → timer_at m' x = timer_at m x) ∧
  (∀ x, x ∈ expired → timer_at m' x = expire now (timer_at m x)).
Proof.
  revert m. induction expired as [|id expired IH]; intros m Hs Hnd Ha Hdis Harm; cbn [expire_loop].
  { split_and!; try done; [|set_solver|set_solver].
    split; [done| |]; intros x Hx; [apply Ha; by left|].
    destruct (Harm x Hx) as [|[]%not_elem_of_nil]; done. }
  apply NoDup_cons in Hnd as [Hid Hnd].
  assert (id ∉ m_timers m) as Hout by (apply Hdis; by left).
  set (t := timer_at m id).
  set (m1 := if m_recurring t then _ else _).
  assert (m_heap m1 = <[id := expire now t]> (m_heap m) ∧ sorted (m_heap m1) (m_timers m1) ∧
    ∀ x, x ∈ m_timers m1 ↔ x ∈ m_timers m ∨ (x = id ∧ m_recurring t = true)) as (Hh & Hs1 & Hm1).
  { unfold m1, expire, reinsert. destruct (m_recurring t); simpl.
    - assert (sorted (<[id:=set_next (u64 (now + m_ms t)) t]> (m_heap m)) (m_timers m)) as Hs'.
      { apply sorted_ext with (m_heap m); [|done]. intros x Hx. unfold next_of.
        rewrite timer_in_insert_ne; [done|]. by intros ->. }
      destruct (set_insert_spec _ _ _ Hs' Hout) as (H1 & H2 & _).
      destruct (set_insert _ _ _) as [s' f]. simpl in *. split_and!; try done.
      intros x. rewrite H2, elem_of_cons. naive_solver.
    - split_and!; [done| |naive_solver].
      apply sorted_ext with (m_heap m); [|done]. intros x Hx. unfold next_of.
      rewrite timer_in_insert_ne; [done|]. by intros ->. }
  clearbody m1.
  assert (∀ x, x ≠ id → timer_at m1 x = timer_at m x) as Hne.
  { intros x Hx. unfold timer_at. rewrite Hh. by apply timer_in_insert_ne. }
  assert (timer_at m1 id = expire now t) as Heq.
  { unfold timer_at. rewrite Hh. apply timer_in_insert. }
  specialize (IH m1 Hs1 Hnd).
  destruct (expire_loop now expired m1) as [cbs m'].
  destruct IH as (-> & Hw & Hmem & Hk1 & Hk2).
  - intros x Hx. rewrite Hh. rewrite Hm1 in Hx. destruct (decide (x = id)) as [->|];
      [by rewrite lookup_insert_eq|]. apply alloc_insert, Ha. set_solver.
  - intros x Hx. rewrite Hm1. intros [Hx'|[-> _]]; [|done]. apply (Hdis x); [by right|done].
  - intros x Hx. rewrite Hm1. destruct (decide (x = id)) as [->|].
    + rewrite Heq in Hx. unfold expire in Hx. destruct (m_recurring t); [naive_solver|done].
    + rewrite Hne in Hx by done. destruct (Harm x Hx); set_solver.
  - assert (∀ x, x ∈ expired → x ≠ id) as Hxe by (intros x Hx ->; done).
    split_and!; try done.
    + rewrite fmap_cons. f_equal. apply list_fmap_ext. intros i x Hx.
      rewrite Hne; [done|]. apply Hxe. by eapply list_elem_of_lookup_2.
    + intros x. rewrite Hmem, Hm1. split.
      * intros [[?|[-> ?]]|[Hx Hr]]; [by left|right; split; [by left|done]|].
        rewrite Hne in Hr by auto. right. split; [by right|done].
      * intros [?|[[->|Hx]%elem_of_cons Hr]]; [by left; left|by left; right|].
        right. split; [done|]. rewrite Hne by auto. done.
    + intros x Hx. rewrite Hk1 by set_solver. apply Hne. set_solver.
    + intros x [->|Hx]%elem_of_cons; [by rewrite Hk1|]. rewrite Hk2 by done.
      f_equal. apply Hne. auto.
Qed.

Definition due (now : Z) (m : TimerManager) (x : Z) : Prop :=
  x ∈ m_timers m ∧ next_of (m_heap m) x <= now.

Lemma listExpired_spec now a m :
  wf m → m_heap m !! a = None →
  let '(cbs, m') := listExpiredCbs now a m in
  ∃ expired, m_timers m = expired ++ drop (length expired) (m_timers m) ∧
    (∀ x, x ∈ expired ↔ due now m x) ∧ sorted (m_heap m) expired ∧
    cbs = (fun x => m_cb (timer_at m x)) <$> expired ∧ wf m' ∧
    (∀ x, x ∈ m_timers m' ↔ x ∈ m_timers m ∧ (¬ due now m x ∨ m_recurring (timer_at m x) = true)) ∧
    (∀ x, ¬ due now m x → timer_at m' x = timer_at m x) ∧
    (∀ x, due now m x → timer_at m' x = expire now (timer_at m x)).
Proof.
  intros Hw Ha. unfold listExpiredCbs.
  assert (a ∉ m_timers m) as Hin.
  { intros Hin. destruct (wf_alloc _ Hw _ Hin). congruence. }
  pose proof (expired_split (m_heap m) now a (m_timers m) (wf_sorted _ Hw) Hin) as Hsp.
  cbn zeta in Hsp. destruct (m_timers m) as [|y s] eqn:Hl.
  { exists []. unfold due. rewrite Hl. split_and!; try done; try set_solver. constructor. }
  destruct (lower_bound _ a _) as [b it]. destruct (skip_equal _ now it) as [eq rest].
  destruct Hsp as (Hsp & Hle & Hgt). set (expired := b ++ eq) in *.
  assert (∀ x, x ∈ expired ↔ due now m x) as Hdue.
  { intros x. unfold due. rewrite Hl, Hsp, elem_of_app. split; [auto|].
    intros [[Hx|Hx] Hx']; [done|]. specialize (Hgt x Hx). lia. }
  pose proof (wf_sorted _ Hw) as Hs. rewrite Hl, Hsp in Hs. pose proof (sorted_NoDup _ _ Hs) as Hnd.
  apply NoDup_app in Hnd as (Hnd & Hdis & _).
  unfold sorted in Hs. rewrite StronglySorted_app in Hs. destruct Hs as (_ & Hs1 & Hs2).
  pose proof (expire_loop_spec now expired (mkTimerManager (m_heap m) rest) Hs2 Hnd) as He.
  destruct (expire_loop _ _ _) as [cbs m']. destruct He as (H1 & H2 & H3 & H4 & H5); simpl.
  - intros x Hx. apply (wf_alloc _ Hw). rewrite Hl, Hsp. set_solver.
  - intros x Hx Hx'. by apply (Hdis x).
  - intros x Hx. apply (wf_armed _ Hw) in Hx. rewrite Hl, Hsp in Hx. set_solver.
  - exists expired. split_and!; try done.
    + rewrite Hsp. by rewrite drop_app_length.
    + intros x. rewrite H3, Hsp, elem_of_app. simpl. rewrite <- Hdue.
      unfold timer_at. simpl. specialize (Hdis x). naive_solver.
    + intros x Hx. rewrite H4; [done|]. by rewrite Hdue.
    + intros x Hx. rewrite H5; [done|]. by rewrite Hdue.
Qed.

Lemma cancelAll_loop_spec h s x :
  timer_in (cancelAll_loop h s) x =
    if decide (x ∈ s) then set_cb None (timer_in h x) else timer_in h x.
Proof.
  revert h. induction s as [|y s IH]; intros h; cbn [cancelAll_loop]; [done|].
  rewrite IH. destruct (decide (x = y)) as [->|Hne].
  - rewrite timer_in_insert. rewrite (decide_True (P := y ∈ y :: s)) by by left.
    by case_decide.
  - rewrite timer_in_insert_ne by done. repeat case_decide; set_solver.
Qed.

(** ** Executions *)

(** One call on the manager or on one of its timers.  The addresses of new
    objects are fresh: an address is not reused. *)
Inductive step : TimerManager → TimerManager → Prop :=
  | step_add now a ms cb rec m : m_heap m !! a = None →
      step m (snd (addTimer now a ms cb rec m))
  | step_addCond now a ms cb cond rec m : m_heap m !! a = None →
      step m (snd (addCondTimer now a ms cb cond rec m))
  | step_cancel id m : step m (snd (cancel m id))
  | step_refresh now id m : step m (snd (refresh now m id))
  | step_reset now ms id m : step m (snd (reset now ms m id))
  | step_cancelAll m : step m (cancelAllTimers m)
  | step_expire now a m : m_heap m !! a = None → step m (snd (listExpiredCbs now a m)).

Lemma timer_step_wf m m' : wf m → step m m' → wf m'.
Proof.
  intros Hw Hst. destruct Hst as [now a ms cb rec m Ha|now a ms cb cond rec m Ha|id m|now id m
    |now ms id m|m|now a m Ha].
  - pose proof (addTimer_spec now a ms cb rec m Hw Ha) as H.
    destruct (addTimer _ _ _ _ _ _) as [[] ?]. by destruct H as (_ & ? & _).
  - pose proof (addTimer_spec now a ms (Some (Cond cb cond)) false m Hw Ha) as H.
    unfold addCondTimer. destruct (addTimer _ _ _ _ _ _) as [[] ?]. by destruct H as (_ & ? & _).
  - pose proof (cancel_spec m id Hw) as H. destruct (cancel m id). by destruct H.
  - pose proof (refresh_spec now m id Hw) as H. destruct (refresh now m id) as [[]]. by destruct H.
  - pose proof (reset_spec now ms m id Hw) as H. destruct (reset now ms m id) as [[]].
    by destruct H.
  - split; simpl; [constructor|set_solver|]. intros x Hx. exfalso. apply Hx.
    unfold timer_at. simpl. rewrite cancelAll_loop_spec. case_decide; [done|].
    destruct (m_cb (timer_in (m_heap m) x)) eqn:Hc; [|done].
    destruct H. apply (wf_armed _ Hw). unfold timer_at. congruence.
  - pose proof (listExpired_spec now a m Hw Ha) as H. destruct (listExpiredCbs now a m).
    by destruct H as (? & _ & _ & _ & _ & ? & _).
Qed.

Lemma timer_reachable_wf m : rtc step TimerManager_new m → wf m.
Proof.
  intros Hr. assert (∀ m1 m2, rtc step m1 m2 → wf m1 → wf m2) as Hgen.
  { intros m1 m2 Hr'. induction Hr'; [done|]. intros. eauto using timer_step_wf. }
  eapply Hgen; [done|apply wf_new].
Qed.

(** A timer that exists, has no callback and is out of the set. *)
Definition dead (m : TimerManager) (id : Z) : Prop :=
  is_Some (m_heap m !! id) ∧ m_cb (timer_at m id) = None ∧ id ∉ m_timers m.

Lemma heap_put_dom m s id t x :
  is_Some (m_heap m !! x) → is_Some (m_heap (fst (reinsert m s id t)) !! x).
Proof.
  intros Hx. unfold reinsert. destruct (set_insert _ _ _) as [s' f]. simpl.
  by apply alloc_insert.
Qed.

Lemma expire_loop_dom now expired m x :
  is_Some (m_heap m !! x) → is_Some (m_heap (snd (expire_loop now expired m)) !! x).
Proof.
  revert m. induction expired as [|id expired IH]; intros m Hx; cbn [expire_loop]; [done|].
  destruct (m_recurring (timer_at m id)); cbv zeta.
  - pose proof (IH _ (heap_put_dom m (m_timers m) id
      (set_next (u64 (now + m_ms (timer_at m id))) (timer_at m id)) x Hx)) as IH'.
    by destruct (expire_loop _ _ _).
  - pose proof (IH (put m id (set_cb None (timer_at m id)))) as IH'.
    destruct (expire_loop _ _ _). apply IH'. simpl. by apply alloc_insert.
Qed.

Lemma cancelAll_dom h s x : is_Some (h !! x) → is_Some (cancelAll_loop h s !! x).
Proof.
  revert h. induction s as [|y s IH]; intros h Hx; cbn [cancelAll_loop]; [done|].
  by apply IH, alloc_insert.
Qed.

Lemma step_dom m m' x : step m m' → is_Some (m_heap m !! x) → is_Some (m_heap m' !! x).
Proof.
  intros Hst Hx. destruct Hst as [now a ms cb rec m Ha|now a ms cb cond rec m Ha|id m|now id m
    |now ms id m|m|now a m Ha].
  - unfold addTimer. pose proof (heap_put_dom m (m_timers m) a (Timer_new now ms cb rec) x Hx).
    by destruct (reinsert _ _ _ _).
  - unfold addCondTimer, addTimer.
    pose proof (heap_put_dom m (m_timers m) a (Timer_new now ms (Some (Cond cb cond)) false) x Hx).
    by destruct (reinsert _ _ _ _).
  - unfold cancel. destruct (m_cb _); [|done]. destruct (find_erase _ _ _); simpl;
      by apply alloc_insert.
  - unfold refresh. destruct (m_cb _); [|done].
    destruct (find_erase _ _ _) as [s|]; simpl; [|by apply alloc_insert].
    pose proof (heap_put_dom m s id (set_next (u64 (now + m_ms (timer_at m id))) (timer_at m id)) x Hx).
    by destruct (reinsert _ _ _ _).
  - unfold reset. case_if; [done|]. destruct (m_cb _); [|done].
    destruct (find_erase _ _ _) as [s|]; [|done].
    pose proof (heap_put_dom m s id (set_next (u64 (ms + now)) (set_ms ms (timer_at m id))) x Hx).
    by destruct (reinsert _ _ _ _).
  - by apply cancelAll_dom.
  - unfold listExpiredCbs. destruct (m_timers m); [done|].
    destruct (lower_bound _ _ _). destruct (skip_equal _ _ _). by apply expire_loop_dom.
Qed.

Lemma step_dead m m' id : wf m → step m m' → dead m id → dead m' id.
Proof.
  intros Hw Hst (Hd & Hc & Hin). split; [by eapply step_dom|].
  destruct Hst as [now a ms cb rec m Ha|now a ms cb cond rec m Ha|x m|now x m
    |now ms x m|m|now a m Ha].
  - pose proof (addTimer_spec now a ms cb rec m Hw Ha) as H.
    destruct (addTimer _ _ _ _ _ _) as [[] m']. destruct H as (_ & _ & Hm & _ & Ho & _).
    simpl. assert (id ≠ a) by (intros ->; destruct Hd; congruence).
    rewrite Ho, Hm by done. set_solver.
  - pose proof (addTimer_spec now a ms (Some (Cond cb cond)) false m Hw Ha) as H.
    unfold addCondTimer. destruct (addTimer _ _ _ _ _ _) as [[] m'].
    destruct H as (_ & _ & Hm & _ & Ho & _).
    simpl. assert (id ≠ a) by (intros ->; destruct Hd; congruence).
    rewrite Ho, Hm by done. set_solver.
  - pose proof (cancel_spec m x Hw) as H. destruct (cancel m x) as [r m'].
    destruct H as (_ & _ & Hx & Ho & Heq). simpl.
    destruct (decide (id = x)) as [->|Hne]; [by rewrite Heq|].
    destruct (Ho id Hne) as [-> Hm]. by rewrite Hm.
  - pose proof (refresh_spec now m x Hw) as H. destruct (refresh now m x) as [[r f] m'].
    destruct H as (_ & Hr & Hm & Ho & _ & Heq). simpl. rewrite Hm.
    destruct (decide (id = x)) as [->|Hne]; [|by rewrite Ho].
    rewrite Heq; [done|]. destruct r; [|done]. by destruct Hr as [Hr _]; destruct (Hr eq_refl).
  - pose proof (reset_spec now ms m x Hw) as H. destruct (reset now ms m x) as [[r f] m'].
    destruct H as (_ & _ & Hm & Ho & Heq & _). simpl. rewrite Hm.
    destruct (decide (id = x)) as [->|Hne]; [by rewrite Heq|by rewrite Ho].
  - unfold timer_at. simpl. rewrite cancelAll_loop_spec. split; [|set_solver].
    by case_decide.
  - pose proof (listExpired_spec now a m Hw Ha) as H. destruct (listExpiredCbs now a m) as [c m'].
    destruct H as (_ & _ & _ & _ & _ & _ & Hm & Ho & _). simpl. unfold due in *.
    rewrite Hm, Ho by tauto. tauto.
Qed.

Lemma steps_dead m m' id : rtc step m m' → wf m → dead m id → dead m' id ∧ wf m'.
Proof. intros Hr. induction Hr; [done|]. eauto using step_dead, timer_step_wf. Qed.

(** ** Properties *)

(** C26: in every reachable state [listExpiredCbs] hands over the callbacks
    of exactly the timers whose time has come (those with [m_next <= now]),
    earliest first and by address among equals, wherever the temporary key is
    allocated; a recurring timer stays armed for [now + ms], a one-shot timer
    leaves the set and loses its callback, every other timer is untouched. *)
Theorem listExpired_exact now a m :
  rtc step TimerManager_new m → m_heap m !! a = None →
  ∃ expired m',
    listExpiredCbs now a m = ((fun x => m_cb (timer_at m x)) <$> expired, m') ∧
    (∀ x, x ∈ expired ↔ x ∈ m_timers m ∧ m_next (timer_at m x) <= now) ∧
    StronglySorted (fun x y => less (m_heap m) x y = true) expired ∧
    (∀ x, x ∈ expired → m_recurring (timer_at m x) = true →
       x ∈ m_timers m' ∧
       timer_at m' x = set_next (u64 (now + m_ms (timer_at m x))) (timer_at m x)) ∧
    (∀ x, x ∈ expired → m_recurring (timer_at m x) = false →
       x ∉ m_timers m' ∧ m_cb (timer_at m' x) = None) ∧
    (∀ x, x ∉ expired → timer_at m' x = timer_at m x ∧ (x ∈ m_timers m' ↔ x ∈ m_timers m)).
Proof.
  intros Hr Ha. pose proof (listExpired_spec now a m (timer_reachable_wf m Hr) Ha) as H.
  destruct (listExpiredCbs now a m) as [cbs m'].
  destruct H as (expired & _ & Hd & Hs & -> & _ & Hm & Ho & He). exists expired, m'.
  split; [done|]. split; [done|]. split; [done|]. split_and!.
  - intros x Hx%Hd Hrec. rewrite Hm, He by done. unfold expire. rewrite Hrec.
    split; [|done]. destruct Hx. auto.
  - intros x Hx%Hd Hrec. rewrite Hm, He by done. unfold expire. rewrite Hrec.
    split; [|done]. intros [_ [?|?]]; [done|congruence].
  - intros x Hx. rewrite Hd in Hx. rewrite Ho by done. split; [done|]. rewrite Hm. tauto.
Qed.

(** A manager with a one-shot timer and a recurring one. *)
Definition two_timers : TimerManager :=
  snd (addTimer 100 8 50 (Some (Plain 1)) true (snd (addTimer 100 16 20 (Some (Plain 2)) false
    TimerManager_new))).

Lemma two_timers_reachable : rtc step TimerManager_new two_timers.
Proof.
  eapply rtc_l; [apply (step_add 100 16 20 (Some (Plain 2)) false); reflexivity|].
  eapply rtc_l; [apply (step_add 100 8 50 (Some (Plain 1)) true); reflexivity|].
  apply rtc_refl.
Qed.

Example listExpired_exact_witness :
  ∃ expired m',
    listExpiredCbs 150 24 two_timers = ((fun x => m_cb (timer_at two_timers x)) <$> expired, m') ∧
    (∀ x, x ∈ expired ↔ x ∈ m_timers two_timers ∧ m_next (timer_at two_timers x) <= 150) ∧
    StronglySorted (fun x y => less (m_heap two_timers) x y = true) expired ∧
    (∀ x, x ∈ expired → m_recurring (timer_at two_timers x) = true →
       x ∈ m_timers m' ∧ timer_at m' x =
         set_next (u64 (150 + m_ms (timer_at two_timers x))) (timer_at two_timers x)) ∧
    (∀ x, x ∈ expired → m_recurring (timer_at two_timers x) = false →
       x ∉ m_timers m' ∧ m_cb (timer_at m' x) = None) ∧
    (∀ x, x ∉ expired → timer_at m' x = timer_at two_timers x ∧
       (x ∈ m_timers m' ↔ x ∈ m_timers two_timers)).
Proof.
  apply (listExpired_exact 150 24 two_timers two_timers_reachable). reflexivity.
Defined.

(** C28: a timer that is armed in a reachable state is cancelled
    successfully, and from then on, whatever calls are made on the manager
    and its timers ([refresh] and [reset] of that timer included), it is
    never due again and every later [cancel] or [refresh] of it is refused. *)
Theorem cancelled_never_fires m id :
  rtc step TimerManager_new m → m_cb (timer_at m id) ≠ None →
  fst (cancel m id) = true ∧
  ∀ m', rtc step (snd (cancel m id)) m' →
    (∀ now, ¬ due now m' id) ∧ fst (cancel m' id) = false ∧
    (∀ now, fst (fst (refresh now m' id)) = false).
Proof.
  intros Hr Hc. pose proof (timer_reachable_wf m Hr) as Hw.
  pose proof (cancel_spec m id Hw) as Hs.
  pose proof (step_dom m _ id (step_cancel id m) (wf_alloc _ Hw _ (wf_armed _ Hw _ Hc))) as Hdom.
  destruct (cancel m id) as [r m1]. destruct Hs as (Hw1 & Hr1 & Hx & _). simpl in *.
  split; [by apply Hr1|]. intros m' Hm'. destruct (Hx Hc) as [Hout Hnone].
  destruct (steps_dead m1 m' id Hm' Hw1) as [(_ & Hc' & Hin') Hw']; [done|].
  split_and!; [by intros now [? _]| |].
  - unfold cancel. by rewrite Hc'.
  - intros now. unfold refresh. by rewrite Hc'.
Qed.

Example cancelled_never_fires_witness :
  fst (cancel two_timers 8) = true ∧
  ∀ m', rtc step (snd (cancel two_timers 8)) m' →
    (∀ now, ¬ due now m' 8) ∧ fst (cancel m' 8) = false ∧
    (∀ now, fst (fst (refresh now m' 8)) = false).
Proof.
  apply (cancelled_never_fires two_timers 8 two_timers_reachable). vm_compute. discriminate.
Defined.

(** [getNextTime] and [listExpiredCbs] agree in every reachable state
    with a timer: waiting the returned number of milliseconds makes a timer
    due and nothing is due before; with no timer it returns [~0ull]. *)
Theorem getNextTime_exact now m :
  rtc step TimerManager_new m →
  (m_timers m = [] ∧ getNextTime now m = 2 ^ 64 - 1) ∨
  (0 <= getNextTime now m ∧ (∃ x, due (now + getNextTime now m) m x) ∧
   ∀ t x, now <= t < now + getNextTime now m → ¬ due t m x).
Proof.
  intros Hr. pose proof (wf_sorted _ (timer_reachable_wf m Hr)) as Hs.
  unfold getNextTime, due. fold (next_of (m_heap m)).
  destruct (m_timers m) as [|y s]; [by left|right].
  unfold sorted in Hs. rewrite StronglySorted_cons, Forall_forall in Hs. destruct Hs as [Hf _].
  unfold timer_at. fold (next_of (m_heap m) y).
  assert (∀ x, x ∈ y :: s → next_of (m_heap m) y <= next_of (m_heap m) x) as Hmin.
  { intros x [->|Hx]%elem_of_cons; [lia|]. specialize (Hf x Hx). rewrite ord_spec in Hf. lia. }
  destruct (Z.leb_spec (next_of (m_heap m) y) now) as [Hle|Hgt].
  - split; [lia|]. split; [exists y; split; [by left|lia]|]. lia.
  - split; [lia|]. split; [exists y; split; [by left|lia]|].
    intros t x Ht [Hx Hdx]. specialize (Hmin x Hx). lia.
Qed.

Example getNextTime_exact_witness :
  (m_timers two_timers = [] ∧ getNextTime 110 two_timers = 2 ^ 64 - 1) ∨
  (0 <= getNextTime 110 two_timers ∧
   (∃ x, due (110 + getNextTime 110 two_timers) two_timers x) ∧
   ∀ t x, 110 <= t < 110 + getNextTime 110 two_timers → ¬ due t two_timers x).
Proof. apply (getNextTime_exact 110 two_timers two_timers_reachable). Defined.

(** [addCondTimer] ignores its [recurring] argument: the timer it makes
    is one-shot, so once it has expired it is out of the set and has no
    callback left even when the caller asked for a recurring timer. *)
Theorem addCondTimer_not_recurring now a ms cb cond m :
  rtc step TimerManager_new m → m_heap m !! a = None →
  let m' := snd (addCondTimer now a ms cb cond true m) in
  m_recurring (timer_at m' a) = false ∧
  ∀ t b, m_heap m' !! b = None → u64 (now + ms) <= t →
    let m'' := snd (listExpiredCbs t b m') in
    a ∉ m_timers m'' ∧ m_cb (timer_at m'' a) = None.
Proof.
  intros Hr Ha. cbn zeta. pose proof (timer_reachable_wf m Hr) as Hw.
  pose proof (timer_step_wf _ _ Hw (step_addCond now a ms cb cond true m Ha)) as Hw'.
  pose proof (addTimer_spec now a ms (Some (Cond cb cond)) false m Hw Ha) as H.
  unfold addCondTimer in *. destruct (addTimer _ _ _ _ _ _) as [[a' f] m']. simpl in *.
  destruct H as (_ & _ & Hm & Ht & _). rewrite Ht. split; [done|].
  intros t b Hb Hle. pose proof (listExpired_spec t b m' Hw' Hb) as H.
  destruct (listExpiredCbs t b m') as [c m'']. simpl.
  destruct H as (_ & _ & _ & _ & _ & _ & Hm' & _ & He).
  assert (due t m' a) as Hdue.
  { split; [rewrite Hm; by left|]. unfold next_of. unfold timer_at in Ht. by rewrite Ht. }
  rewrite Hm', He, Ht by done. split; [|done]. intros [_ [?|?]]; done.
Qed.

Example addCondTimer_not_recurring_witness :
  let m' := snd (addCondTimer 100 24 10 1 2 true two_timers) in
  m_recurring (timer_at m' 24) = false ∧
  ∀ t b, m_heap m' !! b = None → u64 (100 + 10) <= t →
    let m'' := snd (listExpiredCbs t b m') in
    24 ∉ m_timers m'' ∧ m_cb (timer_at m'' 24) = None.
Proof.
  apply (addCondTimer_not_recurring 100 24 10 1 2 two_timers two_timers_reachable). reflexivity.
Defined.
