(* ===== verification/FdManager.v ===== *)
(** * Descriptor entities: src/src/fdmanager.h, src/src/fdmanager.cpp

    [FdManager] keeps a vector of shared pointers to [FdEntity], indexed by
    descriptor.  The entities live on a heap and are named by address.  What
    the kernel says of a descriptor ([fstat], [fcntl]) is a parameter; the
    change of flags that a new entity asks for is part of its result. *)

From S2P Require Import Prelude.

(** [src/src/fdmanager.h:46-57] FdEntity. [m_timer] is the address of a timer *)
Record FdEntity := mkFdEntity {
  m_isInit : bool;
  m_isSysNonblock : bool;
  m_isUserNonblock : bool;
  m_isSocket : bool;
  m_isClosed : bool;
  m_fd : Z;
  m_recvTimeout : Z;
  m_sendTimeout : Z;
  m_connectTimeout : Z;
  m_timer : option Z
}.

Definition O_NONBLOCK : Z := 2048.

Section entity.
(** [fstat]: [None] when it returns -1, else [S_ISSOCK(st_mode)];
    [fcntl(fd, F_GETFL, 0)]; and the value of tigerkin.socket.tcpConnectTimeout. *)
Context (fstat : Z → option bool) (getfl : Z → Z) (g_tcp_connect_timeout : Z).

(** [src/src/fdmanager.cpp:36-65] FdEntity::init: the entity, the flags it sets with F_SETFL, if any, and the result *)
Definition init (e : FdEntity) : FdEntity * option Z * bool :=
  if m_isInit e then (e, None, m_isInit e)
  else
    let fd := m_fd e in
    let '(isInit, isSocket, isClosed) :=
      match fstat fd with
      | None => (false, false, true)
      | Some sock => (true, sock, m_isClosed e)
      end in
    let '(setfl, isSysNonblock, isClosed) :=
      if isSocket then
        let flags := getfl fd in
        (if Z.land flags O_NONBLOCK =? 0 then Some (Z.lor flags O_NONBLOCK) else None,
         true, false)
      else (None, false, false) in
    (mkFdEntity isInit isSysNonblock false isSocket isClosed fd (2 ^ 64 - 1) (2 ^ 64 - 1)
       (m_connectTimeout e) (m_timer e), setfl, isInit).

(** [src/src/fdmanager.cpp:21-24] FdEntity::FdEntity *)
Definition FdEntity_new (fd : Z) : FdEntity * option Z :=
  fst (init (mkFdEntity false false false false false fd 0 0 0 None)).

(** [src/src/fdmanager.cpp:29-34] FdEntity::getConnectTimeout *)
Definition getConnectTimeout (e : FdEntity) : Z :=
  if m_connectTimeout e <=? 0 then g_tcp_connect_timeout else m_connectTimeout e.

(** [src/src/fdmanager.h:40-40] FdEntity::setUserNonblock *)
Definition setUserNonblock (flag : bool) (e : FdEntity) : FdEntity :=
  mkFdEntity (m_isInit e) (m_isSysNonblock e) flag (m_isSocket e) (m_isClosed e) (m_fd e)
    (m_recvTimeout e) (m_sendTimeout e) (m_connectTimeout e) (m_timer e).
(** [src/src/fdmanager.h:41-41] FdEntity::setRecvTimeout *)
Definition setRecvTimeout (timeout : Z) (e : FdEntity) : FdEntity :=
  mkFdEntity (m_isInit e) (m_isSysNonblock e) (m_isUserNonblock e) (m_isSocket e) (m_isClosed e)
    (m_fd e) (u64 timeout) (m_sendTimeout e) (m_connectTimeout e) (m_timer e).
(** [src/src/fdmanager.h:42-42] FdEntity::setSendTimeout *)
Definition setSendTimeout (timeout : Z) (e : FdEntity) : FdEntity :=
  mkFdEntity (m_isInit e) (m_isSysNonblock e) (m_isUserNonblock e) (m_isSocket e) (m_isClosed e)
    (m_fd e) (m_recvTimeout e) (u64 timeout) (m_connectTimeout e) (m_timer e).

(** [src/src/fdmanager.h:43-43] FdEntity::setConnectTimeout *)
Definition setConnectTimeout (timeout : Z) (e : FdEntity) : FdEntity :=
  mkFdEntity (m_isInit e) (m_isSysNonblock e) (m_isUserNonblock e) (m_isSocket e) (m_isClosed e)
    (m_fd e) (m_recvTimeout e) (m_sendTimeout e) (u64 timeout) (m_timer e).

(** [src/src/fdmanager.h:72-73] FdManager, with the heap of its entities and the next free address *)
Record FdManager := mkFdManager {
  f_heap : gmap Z FdEntity;
  f_fresh : Z;
  m_data : list (option Z)
}.

(** [src/src/fdmanager.cpp:67-69] FdManager::FdManager *)
Definition FdManager_new : FdManager := mkFdManager ∅ 0 (replicate 60 None).

(** [std::vector::resize]. *)
Definition resize (n : Z) (l : list (option Z)) : list (option Z) :=
  ztake n l ++ replicate (Z.to_nat (n - zlen l)) None.

(** [m_data[fd]] *)
Definition slot (m : FdManager) (fd : Z) : res (option Z) :=
  if fd <? 0 then Undef "negative index"
  else deref (m_data m !! Z.to_nat fd) "index out of range".
Definition set_slot (m : FdManager) (fd : Z) (p : option Z) : res FdManager :=
  _ ← slot m fd;
  Ret (mkFdManager (f_heap m) (f_fresh m) (<[Z.to_nat fd := p]> (m_data m))).

(** [src/src/fdmanager.cpp:93-101] FdManager::add. [size() * 1.5] is exact on a double; converted back it loses its half *)
Definition add (fd : Z) (m : FdManager) : res (Z * option Z * FdManager) :=
  let size := zlen (m_data m) in
  let data :=
    if size <=? fd
    then resize (if 2 * fd <? 3 * size then 3 * size / 2 else fd) (m_data m)
    else m_data m in
  let '(fdEntity, setfl) := FdEntity_new fd in
  let p := f_fresh m in
  m ← set_slot (mkFdManager (<[p := fdEntity]> (f_heap m)) (p + 1) data) fd (Some p);
  Ret (p, setfl, m).

(** [src/src/fdmanager.cpp:74-91] FdManager::get: the entity, if any, the flags set, the manager *)
Definition get (fd : Z) (autoCreate : bool) (m : FdManager)
    : res (option Z * option Z * FdManager) :=
  let create :=
    '(p, setfl, m) ← add fd m; Ret (Some p, setfl, m) in
  if zlen (m_data m) <=? fd then
    if negb autoCreate then Ret (None, None, m) else create
  else
    p ← slot m fd;
    match p with
    | Some p => Ret (Some p, None, m)
    | None => if negb autoCreate then Ret (None, None, m) else create
    end.

(** [src/src/fdmanager.cpp:103-109] FdManager::del *)
Definition del (fd : Z) (m : FdManager) : res FdManager :=
  if zlen (m_data m) <=? fd then Ret m else set_slot m fd None.

(** [entity->setX(...)] through a shared pointer. *)
Definition update (p : Z) (f : FdEntity → FdEntity) (m : FdManager) : FdManager :=
  mkFdManager (alter f p (f_heap m)) (f_fresh m) (m_data m).

(** ** Properties *)

Lemma zlen_resize n l : 0 <= n → zlen l <= n → zlen (resize n l) = n.
Proof.
  intros. unfold resize. rewrite zlen_app, ztake_ge by done. unfold zlen in *.
  rewrite length_replicate. lia.
Qed.

Lemma resize_lookup n l i :
  (i < length l)%nat → zlen l <= n → resize n l !! i = l !! i.
Proof. intros. unfold resize. rewrite ztake_ge by done. by apply lookup_app_l. Qed.

Definition grown (fd size : Z) : Z :=
  if size <=? fd then if 2 * fd <? 3 * size then 3 * size / 2 else fd else size.

Lemma grown_ge fd size : 0 <= size → 0 <= fd → size <= grown fd size.
Proof.
  intros. unfold grown. repeat case_if; bool_lia.
  apply Z.div_le_lower_bound; lia.
Qed.

(** What [add] leaves: the fresh entity at [fd], every other entry as it was. *)
Lemma add_spec fd m :
  0 <= fd →
  if fd <? grown fd (zlen (m_data m))
  then ∃ m', add fd m = Ret (f_fresh m, snd (FdEntity_new fd), m') ∧
    zlen (m_data m') = grown fd (zlen (m_data m)) ∧
    m_data m' !! Z.to_nat fd = Some (Some (f_fresh m)) ∧
    f_heap m' = <[f_fresh m := fst (FdEntity_new fd)]> (f_heap m) ∧
    f_fresh m' = f_fresh m + 1 ∧
    ∀ j, j ≠ Z.to_nat fd → (j < length (m_data m))%nat → m_data m' !! j = m_data m !! j
  else add fd m = Undef "index out of range".
Proof.
  intros Hfd. pose proof (zlen_nonneg (m_data m)) as Hn.
  pose proof (grown_ge fd (zlen (m_data m)) Hn Hfd) as Hg.
  set (data := if zlen (m_data m) <=? fd
    then resize (if 2 * fd <? 3 * zlen (m_data m) then 3 * zlen (m_data m) / 2 else fd) (m_data m)
    else m_data m).
  assert (zlen data = grown fd (zlen (m_data m)) ∧
    ∀ j, (j < length (m_data m))%nat → data !! j = m_data m !! j) as [Hz Hj].
  { revert Hg. subst data. unfold grown. case_if; [|done]. intros Hg.
    split; [apply zlen_resize; lia|]. intros j Hj. by apply resize_lookup. }
  unfold add. fold data. destruct (FdEntity_new fd) as [e setfl] eqn:He. simpl.
  unfold set_slot, slot. simpl. rewrite (proj2 (Z.ltb_ge fd 0)) by lia.
  destruct (Z.ltb_spec fd (grown fd (zlen (m_data m)))) as [Hlt|Hge].
  - destruct (lookup_lt_is_Some_2 data (Z.to_nat fd)) as [x Hx]; [unfold zlen in *; lia|].
    rewrite Hx. simpl. eexists. split; [done|]. simpl. split_and!; try done.
    + unfold zlen in *. by rewrite length_insert.
    + apply list_lookup_insert_eq. unfold zlen in *. lia.
    + intros j Hne Hlt'. rewrite list_lookup_insert_ne by done. by apply Hj.
  - rewrite (proj2 (lookup_ge_None data (Z.to_nat fd))); [done|]. unfold zlen in *. lia.
Qed.

(** A descriptor that is registered is found again: after a successful
    [add] the entry of [fd] is the new entity, [get] returns it with and
    without [autoCreate], the other entries are unchanged, and after [del] the
    entry is empty while the other entries stay. *)
Theorem add_get_del fd m p setfl m' :
  0 <= fd → add fd m = Ret (p, setfl, m') →
  f_heap m' !! p = Some (fst (FdEntity_new fd)) ∧
  (∀ auto, get fd auto m' = Ret (Some p, None, m')) ∧
  (∀ j, 0 <= j < zlen (m_data m) → j ≠ fd → slot m' j = slot m j) ∧
  ∃ m'', del fd m' = Ret m'' ∧ get fd false m'' = Ret (None, None, m'') ∧
    ∀ j, j ≠ fd → slot m'' j = slot m' j.
Proof.
  intros Hfd Hadd. pose proof (add_spec fd m Hfd) as H.
  destruct (Z.ltb_spec fd (grown fd (zlen (m_data m)))) as [Hlt|Hge]; [|congruence].
  destruct H as (m1 & Heq & Hz & Hl & Hh & _ & Ho). rewrite Hadd in Heq. injection Heq as -> -> ->.
  assert (slot m1 fd = Ret (Some (f_fresh m))) as Hs.
  { unfold slot. rewrite (proj2 (Z.ltb_ge fd 0)) by lia. by rewrite Hl. }
  split; [by rewrite Hh, lookup_insert_eq|]. split; [|split].
  - intros auto. unfold get. rewrite Hz, (proj2 (Z.leb_gt _ fd)) by done. by rewrite Hs.
  - intros j Hj Hne. unfold slot. case_if; [done|]. rewrite Ho; [done|lia|].
    unfold zlen in Hj. lia.
  - set (m2 := mkFdManager (f_heap m1) (f_fresh m1) (<[Z.to_nat fd := None]> (m_data m1))).
    exists m2. assert (slot m2 fd = Ret None) as Hs2.
    { unfold slot. rewrite (proj2 (Z.ltb_ge fd 0)) by lia. simpl.
      rewrite list_lookup_insert_eq; [done|]. by eapply lookup_lt_Some. }
    split_and!.
    + unfold del, set_slot. rewrite Hz, (proj2 (Z.leb_gt _ fd)) by done. by rewrite Hs.
    + unfold get. simpl. unfold zlen in *. rewrite length_insert, Hz.
      rewrite (proj2 (Z.leb_gt _ fd)) by done. by rewrite Hs2.
    + intros j Hne. unfold slot. case_if; [done|]. simpl.
      rewrite list_lookup_insert_ne; [done|]. apply Z.ltb_ge in E. lia.
Qed.

(** C38: [add] writes outside its vector exactly when the descriptor is at
    or past both the size and one and a half times the size; in particular a
    manager of at least two entries accepts the next descriptor in sequence,
    but the initial one, of 60 entries, is overrun by descriptor 90. *)
Theorem add_bounds fd m :
  0 <= fd →
  (add fd m = Undef "index out of range" ↔
     zlen (m_data m) <= fd ∧ 3 * zlen (m_data m) / 2 <= fd).
Proof.
  intros Hfd. pose proof (add_spec fd m Hfd) as H.
  pose proof (zlen_nonneg (m_data m)) as Hn. revert H.
  destruct (Z.ltb_spec fd (grown fd (zlen (m_data m)))) as [Hlt|Hge]; intros H.
  - destruct H as (m' & -> & _). split; [done|]. intros [Hs Hd]. exfalso. revert Hlt.
    unfold grown. rewrite (proj2 (Z.leb_le _ _)) by done. case_if; lia.
  - split; [intros _|done]. revert Hge. unfold grown.
    destruct (Z.leb_spec (zlen (m_data m)) fd); [|lia].
    destruct (Z.ltb_spec (2 * fd) (3 * zlen (m_data m))); intros; (split; [lia|]); [lia|].
    apply Z.div_le_upper_bound; lia.
Qed.

(** Initialising an entity: a socket (and only a socket) is made
    non-blocking by the system, the request to the kernel is made exactly
    when the flag is missing, and the entity never reports itself closed, not
    even when [fstat] fails (the failure branch sets the flag, the code after
    it clears the flag again). *)
Theorem FdEntity_new_state fd :
  let '(e, setfl) := FdEntity_new fd in
  m_isClosed e = false ∧ (m_isInit e = true ↔ is_Some (fstat fd)) ∧
  (m_isSysNonblock e = true ↔ fstat fd = Some true) ∧
  m_isSocket e = m_isSysNonblock e ∧ m_isUserNonblock e = false ∧
  (setfl ≠ None ↔ fstat fd = Some true ∧ Z.land (getfl fd) O_NONBLOCK = 0) ∧
  (∀ flags, setfl = Some flags → Z.land flags O_NONBLOCK = O_NONBLOCK).
Proof.
  unfold FdEntity_new, init. simpl. destruct (fstat fd) as [[|]|]; simpl.
  - case_if; split_and!; try done; try naive_solver.
    + split; [|naive_solver]. intros _. split; [done|]. by apply Z.eqb_eq.
    + intros flags [= <-]. rewrite Z.land_lor_distr_l, Z.land_diag.
      apply Z.eqb_eq in E. by rewrite E.
    + apply Z.eqb_neq in E. naive_solver.
  - split_and!; try done; naive_solver.
  - split_and!; try done; try naive_solver.
Qed.

(** What a new entity says of itself in any case. *)
Lemma FdEntity_new_flags fd :
  let '(e, _) := FdEntity_new fd in m_isClosed e = false ∧ m_isUserNonblock e = false.
Proof. unfold FdEntity_new, init. simpl. by destruct (fstat fd) as [[|]|]. Qed.

Lemma del_out_of_range fd m : zlen (m_data m) <= fd → del fd m = Ret m.
Proof. intros. unfold del. by rewrite (proj2 (Z.leb_le _ _)). Qed.
End entity.

(** Every even descriptor is a blocking socket. *)
Definition even_sockets (fd : Z) : option bool := Some (Z.even fd).
Definition no_flags (_ : Z) : Z := 0.

Example add_get_del_witness :
  ∃ m', add even_sockets no_flags 4 FdManager_new = Ret (0, Some 2048, m') ∧
    0 <= 4 ∧ f_heap m' !! 0 = Some (fst (FdEntity_new even_sockets no_flags 4)) ∧
    (∀ auto, get even_sockets no_flags 4 auto m' = Ret (Some 0, None, m')) ∧
    (∀ j, 0 <= j < zlen (m_data FdManager_new) → j ≠ 4 → slot m' j = slot FdManager_new j) ∧
    ∃ m'', del 4 m' = Ret m'' ∧ get even_sockets no_flags 4 false m'' = Ret (None, None, m'') ∧
      ∀ j, j ≠ 4 → slot m'' j = slot m' j.
Proof.
  eexists. split; [reflexivity|]. split; [lia|].
  apply (add_get_del even_sockets no_flags 4 FdManager_new 0 (Some 2048)); [lia|reflexivity].
Defined.

Example add_bounds_witness :
  add even_sockets no_flags 90 FdManager_new = Undef "index out of range" ↔
    zlen (m_data FdManager_new) <= 90 ∧ 3 * zlen (m_data FdManager_new) / 2 <= 90.
Proof. apply (add_bounds even_sockets no_flags 90 FdManager_new). lia. Defined.
