(* ===== verification/Coroutine.v ===== *)
(** * Coroutines: src/src/coroutine.h, src/src/coroutine.cpp

    The coroutines of one thread.  A [Coroutine*] is an address; the heap
    [t_cos] holds the objects.  A [ucontext_t] is what was put in it:
    nothing but [getcontext] ([Got]), the entry of [MainFunc] ([Entry]), or
    the continuation of an execution stack at its [g]-th suspension
    ([Susp w g]).  [t_running] is the execution stack that is running, and
    [m_frame] says where a coroutine's own stack stands: loading a
    continuation is only defined when the stack has not run since it was
    saved.  The code relies on [t_cur_co], not on [t_running]: that the two
    agree is a theorem. *)

From S2P Require Import Prelude.

(** [src/src/coroutine.h:23-30] Coroutine::State *)
Inductive State : Set := INIT | YIELD | READY | EXECING | TERMINAL | EXCEPT.

#[export] Instance State_eq_dec : EqDecision State.
Proof. solve_decision. Defined.

(** What a [ucontext_t] holds. *)
Inductive Ctx : Set := Got | Entry | Susp (w g : Z).

(** Where an execution stack stands. *)
Inductive Frame : Set := NotStarted | Running | At (g : Z).

#[export] Instance Frame_eq_dec : EqDecision Frame.
Proof. solve_decision. Defined.

(** [src/src/coroutine.h:83-90] Coroutine. [m_ctx] and its [uc_link]; [m_stack] tells whether a stack was allocated, [m_cb] whether a closure is set *)
Record Coroutine := mkCoroutine {
  m_id : Z;
  m_stackId : Z;
  m_threadId : Z;
  m_state : State;
  m_ctx : Ctx;
  uc_link : option Z;
  m_stack : bool;
  m_cb : bool;
  m_frame : Frame
}.

(** [src/src/coroutine.cpp:20-28] the thread's variables (and the global counters), the heap, the running stack and the number of suspensions so far *)
Record Thread := mkThread {
  s_co_id : Z;
  s_co_cnt : Z;
  s_stack_id : Z;
  t_cur_co : option Z;
  t_back_co : option Z;
  t_main_co : option Z;
  t_caller_co : option Z;
  t_map_co_stack : gmap Z (list Z);
  t_cos : gmap Z Coroutine;
  t_running : option Z;
  t_saves : Z
}.

Definition Thread_new : Thread := mkThread 0 0 0 None None None None ∅ ∅ None 0.

(** ** Access *)

Definition co_at (m : Thread) (p : option Z) : res Coroutine :=
  a ← deref p "null coroutine"; deref (t_cos m !! a) "dangling coroutine".

Definition with_cos (f : gmap Z Coroutine → gmap Z Coroutine) (m : Thread) : Thread :=
  mkThread (s_co_id m) (s_co_cnt m) (s_stack_id m) (t_cur_co m) (t_back_co m) (t_main_co m)
    (t_caller_co m) (t_map_co_stack m) (f (t_cos m)) (t_running m) (t_saves m).
Definition upd (a : Z) (f : Coroutine → Coroutine) : Thread → Thread := with_cos (alter f a).
Definition with_stacks (f : gmap Z (list Z) → gmap Z (list Z)) (m : Thread) : Thread :=
  mkThread (s_co_id m) (s_co_cnt m) (s_stack_id m) (t_cur_co m) (t_back_co m) (t_main_co m)
    (t_caller_co m) (f (t_map_co_stack m)) (t_cos m) (t_running m) (t_saves m).
Definition with_running (w : option Z) (saves : Z) (m : Thread) : Thread :=
  mkThread (s_co_id m) (s_co_cnt m) (s_stack_id m) (t_cur_co m) (t_back_co m) (t_main_co m)
    (t_caller_co m) (t_map_co_stack m) (t_cos m) w saves.
Definition with_counters (id cnt stack : Z) (m : Thread) : Thread :=
  mkThread id cnt stack (t_cur_co m) (t_back_co m) (t_main_co m)
    (t_caller_co m) (t_map_co_stack m) (t_cos m) (t_running m) (t_saves m).
Definition with_back (p : option Z) (m : Thread) : Thread :=
  mkThread (s_co_id m) (s_co_cnt m) (s_stack_id m) (t_cur_co m) p (t_main_co m)
    (t_caller_co m) (t_map_co_stack m) (t_cos m) (t_running m) (t_saves m).
Definition with_main (p : option Z) (m : Thread) : Thread :=
  mkThread (s_co_id m) (s_co_cnt m) (s_stack_id m) (t_cur_co m) (t_back_co m) p
    (t_caller_co m) (t_map_co_stack m) (t_cos m) (t_running m) (t_saves m).

Definition set_state (s : State) (c : Coroutine) : Coroutine :=
  mkCoroutine (m_id c) (m_stackId c) (m_threadId c) s (m_ctx c) (uc_link c) (m_stack c) (m_cb c)
    (m_frame c).
Definition set_stackId (s : Z) (c : Coroutine) : Coroutine :=
  mkCoroutine (m_id c) s (m_threadId c) (m_state c) (m_ctx c) (uc_link c) (m_stack c) (m_cb c)
    (m_frame c).
Definition set_link (l : option Z) (tid : Z) (c : Coroutine) : Coroutine :=
  mkCoroutine (m_id c) (m_stackId c) tid (m_state c) (m_ctx c) l (m_stack c) (m_cb c) (m_frame c).
Definition set_ctx (x : Ctx) (c : Coroutine) : Coroutine :=
  mkCoroutine (m_id c) (m_stackId c) (m_threadId c) (m_state c) x (uc_link c) (m_stack c) (m_cb c)
    (m_frame c).
Definition set_frame (f : Frame) (c : Coroutine) : Coroutine :=
  mkCoroutine (m_id c) (m_stackId c) (m_threadId c) (m_state c) (m_ctx c) (uc_link c) (m_stack c)
    (m_cb c) f.
Definition set_cb (b : bool) (c : Coroutine) : Coroutine :=
  mkCoroutine (m_id c) (m_stackId c) (m_threadId c) (m_state c) (m_ctx c) (uc_link c) (m_stack c)
    b (m_frame c).

(** [src/src/coroutine.cpp:234-236] Coroutine::SetThis *)
Definition SetThis (co : option Z) (m : Thread) : Thread :=
  mkThread (s_co_id m) (s_co_cnt m) (s_stack_id m) co (t_back_co m) (t_main_co m)
    (t_caller_co m) (t_map_co_stack m) (t_cos m) (t_running m) (t_saves m).
(** [src/src/coroutine.cpp:286-288] Coroutine::SetCallerCo *)
Definition SetCallerCo (co : option Z) (m : Thread) : Thread :=
  mkThread (s_co_id m) (s_co_cnt m) (s_stack_id m) (t_cur_co m) (t_back_co m) (t_main_co m)
    co (t_map_co_stack m) (t_cos m) (t_running m) (t_saves m).
(** [src/src/coroutine.cpp:290-292] Coroutine::DelCallerCo *)
Definition DelCallerCo : Thread → Thread := SetCallerCo None.

(** ** Contexts *)

(** [setcontext(&b->m_ctx)]. *)
Definition setcontext (b : Z) (m : Thread) : res Thread :=
  c ← co_at m (Some b);
  match m_ctx c with
  | Got => Undef "context of a function that has returned"
  | Entry =>
      if decide (m_frame c = NotStarted)
      then Ret (with_running (Some b) (t_saves m) (upd b (set_frame Running) m))
      else Undef "stack entered twice"
  | Susp w g =>
      s ← co_at m (Some w);
      if decide (m_frame s = At g)
      then Ret (with_running (Some w) (t_saves m) (upd w (set_frame Running) m))
      else Undef "stale context"
  end.

(** [swapcontext(&a->m_ctx, &b->m_ctx)] when it succeeds. *)
Definition swapcontext (a b : Z) (m : Thread) : res Thread :=
  _ ← co_at m (Some a);
  w ← deref (t_running m) "no running stack";
  let g := t_saves m in
  let m := upd a (set_ctx (Susp w g)) (upd w (set_frame (At g)) m) in
  setcontext b (with_running None (g + 1) m).

(** ** Construction *)

(** [src/src/coroutine.cpp:45-52] Coroutine::Coroutine(): the thread's main coroutine, on the stack that is running *)
Definition Coroutine_main (a : Z) (m : Thread) : Thread :=
  let m := with_counters (s_co_id m) (s_co_cnt m + 1) (s_stack_id m) m in
  let m := with_cos <[a := mkCoroutine 0 0 0 EXECING Got None false false Running]> m in
  with_running (Some a) (t_saves m) (SetThis (Some a) m).

(** [src/src/coroutine.cpp:54-71] Coroutine::Coroutine(std::function, size_t): [a] is the address, [mainAddr] that of the main coroutine when it must be made *)
Definition Coroutine_new (a mainAddr : Z) (m : Thread) : Thread :=
  let id := s_co_id m + 1 in
  let m :=
    match t_main_co m with
    | None => with_main (Some mainAddr) (Coroutine_main mainAddr m)
    | Some _ => m
    end in
  let m := with_counters id (s_co_cnt m + 1) (s_stack_id m) m in
  with_cos <[a := mkCoroutine id 0 0 INIT Entry None true true NotStarted]> m.

(** [src/src/coroutine.cpp:73-87] Coroutine::~Coroutine *)
Definition Coroutine_delete (a : Z) (m : Thread) : res Thread :=
  c ← co_at m (Some a);
  let m := with_counters (s_co_id m) (s_co_cnt m - 1) (s_stack_id m) m in
  if m_stack c then
    _ ← check (bool_decide (m_state c = INIT ∨ m_state c = TERMINAL ∨ m_state c = EXCEPT))
          "state of a destroyed coroutine";
    Ret (with_cos (delete a) m)
  else
    _ ← check (negb (m_cb c)) "!m_cb";
    _ ← check (bool_decide (m_state c = EXECING)) "m_state == State::EXECING";
    let m :=
      if bool_decide (t_main_co m ≠ None ∧ t_cur_co m = Some a) then SetThis None m else m in
    Ret (with_cos (delete a) m).

(** [src/src/coroutine.cpp:89-103] Coroutine::reset *)
Definition reset (a : Z) (m : Thread) : res Thread :=
  c ← co_at m (Some a);
  _ ← check (m_stack c) "m_stack";
  _ ← check (bool_decide (m_state c = INIT ∨ m_state c = TERMINAL ∨ m_state c = EXCEPT))
        "state of a reset coroutine";
  Ret (upd a (fun c => mkCoroutine (m_id c) (m_stackId c) (m_threadId c) INIT Entry None true true
                         NotStarted) m).

(** [src/src/coroutine.cpp:238-247] Coroutine::GetThis *)
Definition GetThis (mainAddr : Z) (m : Thread) : res (Z * Thread) :=
  match t_cur_co m with
  | Some c => Ret (c, m)
  | None =>
      let m :=
        match t_main_co m with
        | None => with_main (Some mainAddr) (Coroutine_main mainAddr m)
        | Some _ => m
        end in
      c ← deref (t_cur_co m) "shared_from_this of null"; Ret (c, m)
  end.

(** [src/src/coroutine.cpp:249-254] Coroutine::GetCoId *)
Definition GetCoId (m : Thread) : res Z :=
  match t_cur_co m with
  | Some c => m_id <$> co_at m (Some c)
  | None => Ret 0
  end.
(** [src/src/coroutine.cpp:274-276] Coroutine::CoCnt *)
Definition CoCnt (m : Thread) : Z := s_co_cnt m.
(** [src/src/coroutine.cpp:278-280] Coroutine::CoStackCnt *)
Definition CoStackCnt (m : Thread) : nat := size (t_map_co_stack m).
(** [src/src/coroutine.cpp:282-284] Coroutine::CurCoIsMainCo *)
Definition CurCoIsMainCo (m : Thread) : bool := bool_decide (t_cur_co m = t_main_co m).

(** ** Switching *)

Definition top_of (m : Thread) (stackId : Z) : res Z :=
  st ← deref (t_map_co_stack m !! stackId) "map::at";
  deref (head st) "top of an empty stack".

Definition is_state (m : Thread) (p : option Z) (s : State) : res bool :=
  c ← co_at m p; Ret (bool_decide (m_state c = s)).

Section switching.
(** [GetThreadId()], and whether the [swapcontext] of the operation fails. *)
Context (tid : Z) (swapFail : bool).

(** [src/src/coroutine.cpp:141-157] Coroutine::resume, the exit when swapcontext fails *)
Definition resume_failed (this : Z) (m : Thread) : res Thread :=
  let m := upd this (set_state EXCEPT) m in
  c ← co_at m (Some this);
  st ← deref (t_map_co_stack m !! m_stackId c) "map::at";
  match tail st with
  | [] =>
      let m := with_stacks (delete (m_stackId c)) m in
      main ← deref (t_main_co m) "null main";
      setcontext main (upd main (set_state EXECING) (SetThis (Some main) m))
  | top :: _ =>
      let m := with_stacks <[m_stackId c := tail st]> m in
      setcontext top (SetThis (Some top) (upd top (set_state EXECING) m))
  end.

(** [src/src/coroutine.cpp:120-157] Coroutine::resume, once [this] is on top of its stack *)
Definition resume_top (this : Z) (m : Thread) : res Thread :=
  c ← co_at m (Some this);
  if bool_decide (m_state c = EXECING) then Ret m
  else if bool_decide (m_state c = TERMINAL ∨ m_state c = EXCEPT) then Ret m
  else
    let m := upd this (set_state EXECING) m in
    mainExecing ← is_state m (t_main_co m) EXECING;
    main ← deref (t_main_co m) "null main";
    if (mainExecing : bool) then
      let m := SetThis (Some this) (upd main (set_state YIELD) m) in
      if swapFail then resume_failed this m else swapcontext main this m
    else
      cur ← deref (t_cur_co m) "null current";
      let m := SetThis (Some this) (upd cur (set_state YIELD) m) in
      if swapFail then resume_failed this m
      else
        c ← co_at m (Some this);
        link ← deref (uc_link c) "swapcontext of a null context";
        swapcontext link this m.

(** [src/src/coroutine.cpp:113-119] Coroutine::resume, putting [this] on top of the stack [stackId] *)
Definition push_on (stackId this : Z) (m : Thread) : res Thread :=
  top ← top_of m stackId;
  if bool_decide (top = this) then Ret m
  else
    let m := upd top (set_state YIELD) m in
    let m := upd this (set_link (Some top) tid) m in
    Ret (with_stacks (alter (cons this) stackId) m).

(** [src/src/coroutine.cpp:159-176] Coroutine::resume, on a new stack *)
Definition resume_new (this : Z) (m : Thread) : res Thread :=
  main ← deref (t_main_co m) "null main";
  let stackId := s_stack_id m + 1 in
  let m := upd this (set_link (Some main) tid) m in
  let m := with_counters (s_co_id m) (s_co_cnt m) stackId m in
  let m := upd this (set_stackId stackId) m in
  let m := with_stacks <[stackId := [this]]> m in
  let m := upd main (set_state YIELD) m in
  let m := upd this (set_state EXECING) (SetThis (Some this) m) in
  if swapFail then
    let m := with_stacks (delete stackId) m in
    setcontext main (upd main (set_state EXECING) (SetThis (Some main) m))
  else swapcontext main this m.

(** [src/src/coroutine.cpp:105-178] Coroutine::resume *)
Definition resume (this : Z) (m : Thread) : res Thread :=
  c ← co_at m (Some this);
  cur_execing ← (if 0 <? m_stackId c then Ret true else is_state m (t_cur_co m) EXECING);
  if (0 <? m_stackId c) || (cur_execing && negb (bool_decide (t_cur_co m = t_main_co m))) then
    stackId ← (if 0 <? m_stackId c then Ret (m_stackId c) else m_stackId <$> co_at m (t_cur_co m));
    let m := upd this (set_stackId stackId) m in
    match t_map_co_stack m !! stackId with
    | None => Ret m
    | Some _ => m ← push_on stackId this m; resume_top this m
    end
  else resume_new this m.

(** [src/src/coroutine.cpp:180-204] Coroutine::resumeWithNewStack *)
Definition resumeWithNewStack (this : Z) (m : Thread) : res Thread :=
  c ← co_at m (Some this);
  if negb (m_stackId c =? 0) || bool_decide (t_main_co m = Some this) then Ret m
  else
    main ← deref (t_main_co m) "null main";
    let stackId := s_stack_id m + 1 in
    let m := upd this (set_link (Some main) tid) m in
    let m := with_counters (s_co_id m) (s_co_cnt m) stackId m in
    let m := upd this (set_stackId stackId) m in
    let m := with_stacks <[stackId := [this]]> m in
    back ← deref (t_cur_co m) "null current";
    let m := with_back (Some back) (upd back (set_state YIELD) m) in
    let m := upd this (set_state EXECING) (SetThis (Some this) m) in
    if swapFail then
      let m := with_stacks (delete stackId) m in
      setcontext back (upd back (set_state EXECING) (SetThis (Some back) m))
    else swapcontext back this m.

Definition caller_waits (m : Thread) : res bool :=
  match t_caller_co m with
  | None => Ret false
  | Some c => is_state m (Some c) YIELD
  end.

(** [src/src/coroutine.cpp:206-232] Coroutine::yield *)
Definition yield (this : Z) (m : Thread) : res Thread :=
  c ← co_at m (Some this);
  match t_map_co_stack m !! m_stackId c with
  | None => Ret m
  | Some _ =>
      top ← top_of m (m_stackId c);
      if negb (bool_decide (top = this)) then Ret m
      else
        waits ← caller_waits m;
        target ← deref (if (waits : bool) then t_caller_co m else t_main_co m) "null main";
        let m := SetThis (Some target) m in
        let m := upd this (fun c => if bool_decide (m_state c = EXECING)
                                    then set_state YIELD c else c) m in
        let m := upd target (set_state EXECING) m in
        if swapFail then Ret m else swapcontext this target m
  end.
End switching.

(** [src/src/coroutine.cpp:256-266] Coroutine::Resume(uint64_t) *)
Definition Resume (tid : Z) (swapFail : bool) (stackId : Z) (m : Thread) : res Thread :=
  match t_map_co_stack m !! stackId with
  | None =>
      mainExecing ← is_state m (t_main_co m) EXECING;
      if (mainExecing : bool) then Ret m
      else
        main ← deref (t_main_co m) "null main";
        setcontext main (upd main (set_state EXECING) m)
  | Some _ => top ← top_of m stackId; resume tid swapFail top m
  end.

(** [src/src/coroutine.cpp:268-272] Coroutine::Yield *)
Definition Yield (swapFail : bool) (mainAddr : Z) (m : Thread) : res Thread :=
  '(cur, m) ← GetThis mainAddr m;
  yield swapFail cur m.

(** [src/src/coroutine.cpp:311-322] Coroutine::MainFunc, leaving the stack *)
Definition leave_stack (curCo : Z) (m : Thread) : res Thread :=
  c ← co_at m (Some curCo);
  st ← deref (t_map_co_stack m !! m_stackId c) "map::at";
  match tail st with
  | [] =>
      let m := with_stacks (delete (m_stackId c)) m in
      waits ← caller_waits m;
      Ret (SetThis (if (waits : bool) then t_caller_co m else t_main_co m) m)
  | top :: _ =>
      Ret (SetThis (Some top) (with_stacks <[m_stackId c := tail st]> m))
  end.

(** [src/src/coroutine.cpp:294-327] Coroutine::MainFunc, from the return of the closure ([ok]) or the exception it threw: [curCo] is the coroutine whose stack is running *)
Definition MainFunc_end (ok : bool) (m : Thread) : res Thread :=
  curCo ← deref (t_running m) "no running stack";
  let m :=
    if ok then upd curCo (set_state TERMINAL) (upd curCo (set_cb false) m)
    else upd curCo (set_state EXCEPT) m in
  m ← leave_stack curCo m;
  cur ← deref (t_cur_co m) "null current";
  setcontext cur (upd cur (set_state EXECING) m).
