(* ===== verification/CoroutineProps.v ===== *)
(** * Properties of the coroutines

    The discipline under which a thread without a caller coroutine switches
    soundly, and that every operation that respects it is defined and keeps
    the thread consistent; what the operations do; and the uses, one of them
    the scheduler's own, that load a stale context or corrupt a stack. *)

From S2P Require Import Prelude Coroutine.

(** ** Consistent threads *)

Definition suspended (a : Z) (c : Coroutine) : Prop :=
  m_state c = YIELD ∧ ∃ g, m_ctx c = Susp a g ∧ m_frame c = At g.
Definition fresh (c : Coroutine) : Prop :=
  m_state c = INIT ∧ m_ctx c = Entry ∧ m_frame c = NotStarted ∧ m_stack c = true.
Definition finished (c : Coroutine) : Prop :=
  (m_state c = TERMINAL ∨ m_state c = EXCEPT) ∧ m_stack c = true.

(** A coroutine of a thread on which [r] runs. *)
Definition co_ok (r a : Z) (c : Coroutine) : Prop :=
  if decide (a = r) then m_state c = EXECING ∧ m_frame c = Running
  else suspended a c ∨ fresh c ∨ finished c.

Definition stack_ok (mn r : Z) (cos : gmap Z Coroutine) (limit sid : Z) (st : list Z) : Prop :=
  st ≠ [] ∧ NoDup st ∧ 0 < sid <= limit ∧
  ∀ a, a ∈ st → a ≠ mn ∧ ∃ c, cos !! a = Some c ∧ m_stackId c = sid ∧ m_stack c = true ∧
    (a = r ∨ m_state c = YIELD).

(** [mn] is the main coroutine and [r] the one that runs. *)
Record wf (mn r : Z) (m : Thread) : Prop := {
  wf_main : t_main_co m = Some mn;
  wf_cur : t_cur_co m = Some r;
  wf_run : t_running m = Some r;
  wf_caller : t_caller_co m = None;
  wf_limit : 0 <= s_stack_id m;
  wf_main_co : ∃ c, t_cos m !! mn = Some c ∧ m_stackId c = 0 ∧ (r = mn ∨ suspended mn c);
  wf_cos : ∀ a c, t_cos m !! a = Some c → co_ok r a c ∧ 0 <= m_stackId c <= s_stack_id m;
  wf_stacks : ∀ sid st, t_map_co_stack m !! sid = Some st →
    stack_ok mn r (t_cos m) (s_stack_id m) sid st;
  wf_top : r = mn ∨ ∃ sid st, t_map_co_stack m !! sid = Some (r :: st)
}.

Lemma wf_running mn r m :
  wf mn r m → ∃ c, t_cos m !! r = Some c ∧ m_state c = EXECING ∧ m_frame c = Running.
Proof.
  intros Hw. assert (∃ c, t_cos m !! r = Some c) as [c Hc].
  { destruct (wf_top _ _ _ Hw) as [->|(sid & st & Hst)].
    - destruct (wf_main_co _ _ _ Hw) as (c & ? & _). eauto.
    - destruct (wf_stacks _ _ _ Hw _ _ Hst) as (_ & _ & _ & Ha).
      destruct (Ha r) as (_ & c & ? & _); [by left|]. eauto. }
  destruct (wf_cos _ _ _ Hw _ _ Hc) as [Ho _]. unfold co_ok in Ho.
  rewrite decide_True in Ho by done. eauto.
Qed.

(** Exactly the running coroutine is EXECING, and it is [t_cur_co]. *)
Lemma wf_execing mn r m a c :
  wf mn r m → t_cos m !! a = Some c → m_state c = EXECING → a = r.
Proof.
  intros Hw Hc Hs. destruct (wf_cos _ _ _ Hw _ _ Hc) as [Ho _]. unfold co_ok in Ho.
  case_decide; [done|]. destruct Ho as [[? _]|[[? _]|[[?|?] _]]]; congruence.
Qed.

(** ** Switching between two stacks *)

Definition loadable (b : Z) (c : Coroutine) : Prop :=
  (m_ctx c = Entry ∧ m_frame c = NotStarted) ∨ ∃ g, m_ctx c = Susp b g ∧ m_frame c = At g.

Lemma setcontext_spec b c m :
  t_cos m !! b = Some c → loadable b c →
  setcontext b m = Ret (with_running (Some b) (t_saves m) (upd b (set_frame Running) m)).
Proof.
  intros Hc Hl. unfold setcontext, co_at. simpl. rewrite Hc. simpl.
  destruct Hl as [[-> Hf]|(g & -> & Hf)]; [by rewrite decide_True|].
  simpl. rewrite Hc. simpl. by rewrite decide_True.
Qed.

Lemma swapcontext_spec a b ca cb m :
  a ≠ b → t_running m = Some a → t_cos m !! a = Some ca → t_cos m !! b = Some cb →
  loadable b cb →
  swapcontext a b m =
    Ret (with_running (Some b) (t_saves m + 1)
      (upd b (set_frame Running)
        (upd a (set_ctx (Susp a (t_saves m))) (upd a (set_frame (At (t_saves m))) m)))).
Proof.
  intros Hne Hr Ha Hb Hl. unfold swapcontext, co_at. simpl. rewrite Ha. simpl. rewrite Hr. simpl.
  erewrite setcontext_spec; [reflexivity| |done].
  simpl. by rewrite !lookup_alter_ne.
Qed.

(** A switch from [r] to [b] that leaves the other coroutines alone. *)
Lemma switch_wf mn r b m m' cr cb :
  wf mn r m →
  t_main_co m' = Some mn → t_cur_co m' = Some b → t_running m' = Some b → t_caller_co m' = None →
  s_stack_id m <= s_stack_id m' →
  (∀ x, x ≠ r → x ≠ b → t_cos m' !! x = t_cos m !! x) →
  t_cos m' !! r = Some cr → (r = b ∨ suspended r cr ∨ (r ≠ mn ∧ finished cr)) →
  0 <= m_stackId cr <= s_stack_id m' → (r = mn → m_stackId cr = 0) →
  t_cos m' !! b = Some cb → m_state cb = EXECING → m_frame cb = Running →
  0 <= m_stackId cb <= s_stack_id m' → (b = mn → m_stackId cb = 0) →
  (∀ sid st, t_map_co_stack m' !! sid = Some st →
    stack_ok mn b (t_cos m') (s_stack_id m') sid st) →
  (b = mn ∨ ∃ sid st, t_map_co_stack m' !! sid = Some (b :: st)) →
  wf mn b m'.
Proof.
  intros Hw Hm Hcu Hru Hca Hlim Hoth Hr Hrs Hrid Hr0 Hb Hbs Hbf Hbid Hb0 Hst Htop.
  split; try done; [pose proof (wf_limit _ _ _ Hw); lia| |].
  - destruct (decide (b = mn)) as [->|Hbm]; [exists cb; auto|].
    destruct (decide (r = mn)) as [->|Hrm].
    { exists cr. split_and!; [done|auto|]. destruct Hrs as [?|[?|[? _]]]; [done|by right|done]. }
    destruct (wf_main_co _ _ _ Hw) as (c & Hc & Hc0 & Hcs). exists c.
    rewrite Hoth by done. split_and!; try done. destruct Hcs; [done|by right].
  - intros a c Hc. unfold co_ok. case_decide as Hab.
    { subst a. rewrite Hb in Hc. injection Hc as <-. done. }
    destruct (decide (a = r)) as [->|Har].
    { rewrite Hr in Hc. injection Hc as <-. split; [|done]. naive_solver. }
    rewrite Hoth in Hc by done. destruct (wf_cos _ _ _ Hw _ _ Hc) as [Ho ?]. split; [|lia].
    unfold co_ok in Ho. by rewrite decide_False in Ho by done.
Qed.

Ltac cos := repeat first
  [ rewrite lookup_alter_eq | rewrite lookup_alter_ne by congruence
  | rewrite lookup_insert_eq | rewrite lookup_insert_ne by congruence ].

(** The running coroutine suspends itself in favour of [b]. *)
Lemma switch_to mn r b m m1 cr cb :
  wf mn r m → r ≠ b →
  t_main_co m1 = Some mn → t_cur_co m1 = Some b → t_running m1 = Some r → t_caller_co m1 = None →
  s_stack_id m <= s_stack_id m1 →
  (∀ x, x ≠ r → x ≠ b → t_cos m1 !! x = t_cos m !! x) →
  t_cos m1 !! r = Some cr → m_state cr = YIELD →
  0 <= m_stackId cr <= s_stack_id m1 → (r = mn → m_stackId cr = 0) →
  t_cos m1 !! b = Some cb → m_state cb = EXECING → loadable b cb →
  0 <= m_stackId cb <= s_stack_id m1 → (b = mn → m_stackId cb = 0) →
  (∀ sid st, t_map_co_stack m1 !! sid = Some st →
    stack_ok mn b (t_cos m1) (s_stack_id m1) sid st) →
  (b = mn ∨ ∃ sid st, t_map_co_stack m1 !! sid = Some (b :: st)) →
  ∃ m', swapcontext r b m1 = Ret m' ∧ wf mn b m' ∧
    t_map_co_stack m' = t_map_co_stack m1 ∧ s_stack_id m' = s_stack_id m1 ∧
    (∀ x, x ≠ r → x ≠ b → t_cos m' !! x = t_cos m1 !! x) ∧
    (∃ g, t_cos m' !! r = Some (set_ctx (Susp r g) (set_frame (At g) cr))) ∧
    t_cos m' !! b = Some (set_frame Running cb).
Proof.
  intros Hw Hne Hm Hcu Hru Hca Hlim Hoth Hr Hrs Hrid Hr0 Hb Hbs Hbl Hbid Hb0 Hst Htop.
  rewrite (swapcontext_spec r b cr cb m1 Hne Hru Hr Hb Hbl). eexists. split; [done|].
  set (m' := with_running _ _ _).
  assert (t_cos m' !! r = Some (set_ctx (Susp r (t_saves m1)) (set_frame (At (t_saves m1)) cr)))
    as Hr' by (simpl; cos; by rewrite Hr).
  assert (t_cos m' !! b = Some (set_frame Running cb)) as Hb' by (simpl; cos; by rewrite Hb).
  assert (∀ x, x ≠ r → x ≠ b → t_cos m' !! x = t_cos m1 !! x) as Ho'
    by (intros; simpl; by cos).
  split_and!; try done; [|eauto].
  apply (switch_wf mn r b m m' (set_ctx (Susp r (t_saves m1)) (set_frame (At (t_saves m1)) cr))
    (set_frame Running cb) Hw); try done.
  - intros x Hxr Hxb. by rewrite Ho', Hoth.
  - right. left. split; [done|]. eexists. done.
  - intros sid st Hsid. destruct (Hst sid st Hsid) as (H1 & H2 & H3 & H4).
    do 3 (split; [done|]). intros a Ha. destruct (H4 a Ha) as (Ham & c & Hc & Hc').
    split; [done|]. destruct (decide (a = r)) as [->|Har].
    { eexists. split; [exact Hr'|]. rewrite Hr in Hc. by injection Hc as <-. }
    destruct (decide (a = b)) as [->|Hab].
    { eexists. split; [exact Hb'|]. rewrite Hb in Hc. by injection Hc as <-. }
    exists c. by rewrite Ho'.
Qed.

(** Where the running coroutine of a consistent thread stands. *)
Lemma wf_stack_top mn r m :
  wf mn r m → r ≠ mn →
  ∃ c sid st, t_cos m !! r = Some c ∧ m_state c = EXECING ∧ m_frame c = Running ∧
    m_stack c = true ∧ m_stackId c = sid ∧ 0 < sid ∧ t_map_co_stack m !! sid = Some (r :: st).
Proof.
  intros Hw Hne. destruct (wf_running _ _ _ Hw) as (c & Hc & Hs & Hf).
  destruct (wf_top _ _ _ Hw) as [?|(sid & st & Hst)]; [done|].
  destruct (wf_stacks _ _ _ Hw _ _ Hst) as (_ & _ & Hsid & Ha).
  destruct (Ha r) as (_ & c' & Hc' & Hid & Hstk & _); [by left|]. rewrite Hc in Hc'.
  injection Hc' as <-. exists c, sid, st. split_and!; try done. lia.
Qed.

Lemma top_of_cons m sid a st : t_map_co_stack m !! sid = Some (a :: st) → top_of m sid = Ret a.
Proof. intros H. unfold top_of. by rewrite H. Qed.

(** A stack stays well-formed when states and other fields of its members
    are kept, or set to YIELD. *)
Lemma stack_ok_mono mn r r' cos cos' limit limit' sid st :
  stack_ok mn r cos limit sid st → limit <= limit' →
  (∀ a c, a ∈ st → cos !! a = Some c → ∃ c', cos' !! a = Some c' ∧
     m_stackId c' = m_stackId c ∧ m_stack c' = m_stack c ∧
     (a = r' ∨ m_state c' = YIELD ∨ (a ≠ r ∧ m_state c' = m_state c))) →
  stack_ok mn r' cos' limit' sid st.
Proof.
  intros (H1 & H2 & H3 & H4) Hl Hc. do 2 (split; [done|]). split; [lia|].
  intros a Ha. destruct (H4 a Ha) as (Ham & c & Hca & Hid & Hstk & Hs). split; [done|].
  destruct (Hc a c Ha Hca) as (c' & Hc' & Hid' & Hstk' & Hs'). exists c'.
  split_and!; [done|congruence|congruence|].
  destruct Hs' as [?|[?|[? ?]]]; [by left|by right|]. right. destruct Hs; congruence.
Qed.

(** ** The operations on a consistent thread *)

(** Yielding suspends the running coroutine and goes back to main. *)
Lemma yield_spec mn r m ma :
  wf mn r m → r ≠ mn →
  ∃ m' c g, Yield false ma m = Ret m' ∧ wf mn mn m' ∧
    t_map_co_stack m' = t_map_co_stack m ∧ s_stack_id m' = s_stack_id m ∧
    t_cos m !! r = Some c ∧
    t_cos m' !! r = Some (set_ctx (Susp r g) (set_frame (At g) (set_state YIELD c))) ∧
    (∀ x, x ≠ r → x ≠ mn → t_cos m' !! x = t_cos m !! x).
Proof.
  intros Hw Hne. destruct (wf_stack_top _ _ _ Hw Hne) as (c & sid & st & Hc & Hs & Hf & Hk & Hid & Hpos & Hst).
  destruct (wf_main_co _ _ _ Hw) as (cm & Hcm & Hcm0 & [?|Hsus]); [done|].
  pose proof Hw as [Hm Hcu Hru Hca _ _ Hcos Hstk _].
  unfold Yield, GetThis. rewrite Hcu, ret_bind. cbn iota beta.
  unfold yield, co_at. cbn [deref mbind res_bind]. rewrite Hc. cbn [deref mbind res_bind].
  rewrite Hid, Hst, (top_of_cons _ _ _ _ Hst). cbn [mbind res_bind].
  rewrite bool_decide_true by done. unfold caller_waits. rewrite Hca. cbn [negb check mbind res_bind deref].
  rewrite Hm. cbn [deref mbind res_bind].
  set (m1 := upd mn _ _).
  assert (t_cos m1 !! r = Some (set_state YIELD c)) as Hr1.
  { simpl. cos. rewrite Hc. simpl. by rewrite bool_decide_true. }
  destruct Hsus as (Hys & g & Hcg & Hfg).
  destruct (switch_to mn r mn m m1 (set_state YIELD c) (set_state EXECING cm) Hw Hne)
    as (m' & Hsw & Hw' & Hmap & Hsid & Ho & (g' & Hr') & _); try done.
  - intros x ? ?. simpl. by cos.
  - apply (Hcos _ _ Hc).
  - simpl. cos. by rewrite Hcm.
  - right. by exists g.
  - apply (Hcos _ _ Hcm).
  - intros sid' st' Hst'. eapply stack_ok_mono; [by apply Hstk|simpl; lia|].
    intros a c' Ha Hc'. destruct (Hstk _ _ Hst') as (_ & _ & _ & Hmem).
    destruct (Hmem a Ha) as (Ham & _). destruct (decide (a = r)) as [->|].
    + rewrite Hc in Hc'. injection Hc' as <-. exists (set_state YIELD c). naive_solver.
    + exists c'. simpl. cos. naive_solver.
  - by left.
  - exists m', c, g'. rewrite Hsw. split_and!; try done.
    intros x ? ?. rewrite Ho by done. simpl. by cos.
Qed.

(** [Coroutine::Yield] on the main coroutine does nothing: its assertion only
    logs, and the main coroutine has no stack. *)
Lemma yield_main_ignored mn m ma fails : wf mn mn m → Yield fails ma m = Ret m.
Proof.
  intros Hw. destruct (wf_main_co _ _ _ Hw) as (c & Hc & H0 & _).
  unfold Yield, GetThis. rewrite (wf_cur _ _ _ Hw), ret_bind. cbn iota beta.
  unfold yield, co_at. cbn [deref mbind res_bind]. rewrite Hc. cbn [deref mbind res_bind].
  rewrite H0. destruct (t_map_co_stack m !! 0) as [st|] eqn:Hst; [|done].
  destruct (wf_stacks _ _ _ Hw _ _ Hst) as (_ & _ & ? & _). lia.
Qed.

(** Main resumes the suspended top of a stack. *)
Lemma resume_top_spec mn a m c sid st tid :
  wf mn mn m → t_map_co_stack m !! sid = Some (a :: st) → t_cos m !! a = Some c →
  ∃ m', resume tid false a m = Ret m' ∧ wf mn a m' ∧
    t_map_co_stack m' = t_map_co_stack m ∧ s_stack_id m' = s_stack_id m ∧
    t_cos m' !! a = Some (set_frame Running (set_state EXECING c)) ∧
    (∀ x, x ≠ a → x ≠ mn → t_cos m' !! x = t_cos m !! x).
Proof.
  intros Hw Hst Hc. pose proof Hw as [Hm Hcu Hru Hca _ _ Hcos Hstk _].
  destruct (Hstk _ _ Hst) as (_ & _ & Hpos & Hmem).
  destruct (Hmem a) as (Ham & c' & Hc' & Hid & Hk & Hy); [by left|].
  rewrite Hc in Hc'. injection Hc' as <-. destruct Hy as [?|Hy]; [done|].
  destruct (Hcos _ _ Hc) as [Hok _]. unfold co_ok in Hok. rewrite decide_False in Hok by done.
  destruct Hok as [(_ & g & Hcg & Hfg)|[[? _]|[[?|?] _]]]; [|congruence..].
  destruct (wf_running _ _ _ Hw) as (cm & Hcm & Hcs & Hcf).
  destruct (wf_main_co _ _ _ Hw) as (cm' & Hcm' & Hcm0 & _). rewrite Hcm in Hcm'. injection Hcm' as <-.
  unfold resume, co_at. cbn [deref mbind res_bind]. rewrite Hc. cbn [deref mbind res_bind].
  rewrite Hid, (proj2 (Z.ltb_lt _ _)) by lia. cbn [orb mbind res_bind].
  cbn [t_map_co_stack upd with_cos]. rewrite Hst. unfold push_on, top_of.
  cbn [t_map_co_stack upd with_cos]. rewrite Hst. cbn [deref mbind res_bind head].
  rewrite bool_decide_true by done. cbn [mbind res_bind].
  set (m0 := upd a (set_stackId sid) m).
  assert (t_cos m0 !! a = Some c) as Hc0.
  { simpl. cos. rewrite Hc. destruct c. simpl in *. by subst. }
  unfold resume_top, co_at. cbn [deref mbind res_bind]. rewrite Hc0. cbn [deref mbind res_bind].
  rewrite Hy. cbn [bool_decide decide]. rewrite !bool_decide_false by naive_solver.
  unfold is_state, co_at. cbn [t_main_co upd with_cos m0]. rewrite Hm. cbn [deref mbind res_bind].
  replace (t_cos (upd a (set_state EXECING) m0) !! mn) with (Some cm) by (simpl; by cos).
  cbn [deref mbind res_bind]. rewrite bool_decide_true by done.
  set (m1 := SetThis _ _).
  destruct (switch_to mn mn a m m1 (set_state YIELD cm) (set_state EXECING c) Hw)
    as (m' & Hsw & Hw' & Hmap & Hsid & Ho & _ & Ha'); try done.
  - intros x ? ?. simpl. by cos.
  - simpl. cos. by rewrite Hcm.
  - apply (Hcos _ _ Hcm).
  - simpl. cos. rewrite Hc. destruct c. simpl in *. by subst.
  - right. by exists g.
  - apply (Hcos _ _ Hc).
  - intros sid' st' Hst'. eapply stack_ok_mono; [by apply Hstk|simpl; lia|].
    intros x cx Hx Hcx. destruct (Hstk _ _ Hst') as (_ & _ & _ & Hmem').
    destruct (Hmem' x Hx) as (Hxm & _). destruct (decide (x = a)) as [->|].
    + rewrite Hc in Hcx. injection Hcx as <-. exists (set_state EXECING c). simpl. cos.
      rewrite Hc. simpl. split; [|naive_solver]. destruct c. simpl in *. by subst.
    + exists cx. simpl. cos. naive_solver.
  - right. eauto.
  - exists m'. rewrite Hsw. split_and!; try done.
    intros x ? ?. rewrite Ho by done. simpl. by cos.
Qed.

Lemma fresh_not_running mn r m a c :
  wf mn r m → t_cos m !! a = Some c → fresh c → a ≠ r ∧ a ≠ mn ∧
  ∀ sid st, t_map_co_stack m !! sid = Some st → a ∉ st.
Proof.
  intros Hw Hc (Hs & Hx & Hf & Hk).
  assert (a ≠ r) as Har.
  { intros ->. destruct (wf_running _ _ _ Hw) as (c' & Hc' & ? & _). congruence. }
  split_and!; [done| |].
  - intros ->. destruct (wf_main_co _ _ _ Hw) as (c' & Hc' & _ & [?|(? & _)]); congruence.
  - intros sid st Hst Ha. destruct (wf_stacks _ _ _ Hw _ _ Hst) as (_ & _ & _ & Hm).
    destruct (Hm a Ha) as (_ & c' & Hc' & _ & _ & [?|?]); congruence.
Qed.

(** Main starts a fresh coroutine with [resume]: a new stack. *)
Lemma resume_new_spec mn a m c tid :
  wf mn mn m → t_cos m !! a = Some c → fresh c → m_stackId c = 0 →
  ∃ m', resume tid false a m = Ret m' ∧ wf mn a m' ∧
    s_stack_id m' = s_stack_id m + 1 ∧
    t_map_co_stack m' = <[s_stack_id m + 1 := [a]]> (t_map_co_stack m) ∧
    (∀ x, x ≠ a → x ≠ mn → t_cos m' !! x = t_cos m !! x).
Proof.
  intros Hw Hc Hfr Hid0. destruct (fresh_not_running _ _ _ _ _ Hw Hc Hfr) as (_ & Ham & Hout).
  pose proof Hw as [Hm Hcu Hru Hca Hlim _ Hcos Hstk _]. destruct Hfr as (Hs & Hx & Hf & Hk).
  destruct (wf_running _ _ _ Hw) as (cm & Hcm & Hcs & Hcf).
  destruct (wf_main_co _ _ _ Hw) as (cm' & Hcm' & Hcm0 & _). rewrite Hcm in Hcm'. injection Hcm' as <-.
  unfold resume, co_at. cbn [deref mbind res_bind]. rewrite Hc. cbn [deref mbind res_bind].
  rewrite Hid0. change (0 <? 0) with false. cbn [orb].
  unfold is_state, co_at. rewrite Hcu, Hm. cbn [deref mbind res_bind]. rewrite Hcm.
  cbn [deref mbind res_bind]. rewrite (bool_decide_true (Some mn = Some mn)) by done.
  rewrite andb_false_r. unfold resume_new. rewrite Hm. cbn [deref mbind res_bind].
  set (sid := s_stack_id m + 1). set (m1 := upd a _ _).
  set (ca := set_state EXECING (set_stackId sid (set_link (Some mn) tid c))).
  assert (t_cos m1 !! a = Some ca) as Ha1 by (simpl; cos; by rewrite Hc).
  assert (t_cos m1 !! mn = Some (set_state YIELD cm)) as Hm1 by (simpl; cos; by rewrite Hcm).
  destruct (switch_to mn mn a m m1 (set_state YIELD cm) ca Hw)
    as (m' & Hsw & Hw' & Hmap & Hsid & Ho & _ & _); try done; [simpl; lia| | | | | | |].
  - intros x ? ?. simpl. by cos.
  - simpl. destruct (Hcos _ _ Hcm) as [_ ?]. lia.
  - by left.
  - simpl. lia.
  - intros sid' st' Hst'. simpl in Hst'. apply lookup_insert_Some in Hst' as [[<- <-]|[_ Hst']].
    + split; [done|]. split; [apply NoDup_singleton|]. simpl. split; [lia|].
      intros x ->%list_elem_of_singleton. split; [done|]. exists ca. split; [exact Ha1|]. auto.
    + eapply stack_ok_mono; [by apply Hstk|simpl; lia|].
      intros x cx Hxs Hcx. pose proof (Hout _ _ Hst') as Hxo. destruct (Hstk _ _ Hst') as (_ & _ & _ & Hmem).
      destruct (Hmem x Hxs) as (Hxm & _). assert (x ≠ a) by (intros ->; done).
      exists cx. simpl. cos. naive_solver.
  - right. exists sid, []. simpl. by cos.
  - exists m'. rewrite Hsw. split_and!; try done.
    intros x ? ?. rewrite Ho by done. simpl. by cos.
Qed.

(** A coroutine starts a fresh one with [resume]: on top of its own stack. *)
Lemma resume_push_spec mn r a m c sid st tid :
  wf mn r m → r ≠ mn → t_map_co_stack m !! sid = Some (r :: st) →
  t_cos m !! a = Some c → fresh c → m_stackId c = 0 →
  ∃ m', resume tid false a m = Ret m' ∧ wf mn a m' ∧ s_stack_id m' = s_stack_id m ∧
    t_map_co_stack m' = <[sid := a :: r :: st]> (t_map_co_stack m) ∧
    (∀ x, x ≠ a → x ≠ r → t_cos m' !! x = t_cos m !! x).
Proof.
  intros Hw Hrm Hst Hc Hfr Hid0.
  destruct (fresh_not_running _ _ _ _ _ Hw Hc Hfr) as (Har & Ham & Hout).
  pose proof Hw as [Hm Hcu Hru Hca Hlim _ Hcos Hstk _]. destruct Hfr as (Hs & Hx & Hf & Hk).
  destruct (wf_running _ _ _ Hw) as (cr & Hcr & Hcs & Hcf).
  destruct (Hstk _ _ Hst) as (_ & Hnd & Hpos & Hmem).
  destruct (Hmem r) as (_ & cr' & Hcr' & Hrid & Hrk & _); [by left|].
  rewrite Hcr in Hcr'. injection Hcr' as <-.
  destruct (wf_main_co _ _ _ Hw) as (cm & Hcm & Hcm0 & [?|(Hcms & _)]); [done|].
  unfold resume, co_at. cbn [deref mbind res_bind]. rewrite Hc. cbn [deref mbind res_bind].
  rewrite Hid0. change (0 <? 0) with false. cbn [orb].
  unfold is_state, co_at. rewrite Hcu, Hm. cbn [deref mbind res_bind]. rewrite Hcr.
  cbn [deref mbind res_bind]. rewrite Hcs, (bool_decide_true (EXECING = EXECING)) by done.
  rewrite (bool_decide_false (Some r = Some mn)) by congruence. cbn [andb negb fmap res_fmap mbind res_bind].
  rewrite Hrid. cbn [t_map_co_stack upd with_cos]. rewrite Hst. unfold push_on, top_of.
  cbn [t_map_co_stack upd with_cos]. rewrite Hst. cbn [deref mbind res_bind head].
  rewrite bool_decide_false by done. cbn [mbind res_bind].
  set (m0 := with_stacks _ _).
  set (ca0 := set_link (Some r) tid (set_stackId sid c)).
  assert (t_cos m0 !! a = Some ca0) as Ha0 by (simpl; cos; by rewrite Hc).
  unfold resume_top, co_at. cbn [deref mbind res_bind]. rewrite Ha0. cbn [deref mbind res_bind].
  cbn [ca0 m_state set_link set_stackId]. rewrite Hs. rewrite !bool_decide_false by naive_solver.
  unfold is_state, co_at. cbn [t_main_co upd with_cos with_stacks m0]. rewrite Hm. cbn [deref mbind res_bind].
  replace (t_cos (upd a (set_state EXECING) m0) !! mn) with (Some cm) by (simpl; by cos).
  cbn [deref mbind res_bind]. rewrite bool_decide_false by congruence.
  cbn [t_cur_co upd with_cos with_stacks m0]. rewrite Hcu. cbn [deref mbind res_bind].
  set (m1 := SetThis _ _).
  assert (t_cos m1 !! a = Some (set_state EXECING ca0)) as Ha1.
  { subst m1. cbn [SetThis t_cos upd with_cos]. cos. by rewrite Ha0. }
  rewrite Ha1. cbn [deref mbind res_bind uc_link set_state ca0 set_link].
  assert (t_cos m1 !! r = Some (set_state YIELD cr)) as Hr1.
  { simpl. cos. rewrite Hcr. done. }
  assert (t_map_co_stack m1 = <[sid := a :: r :: st]> (t_map_co_stack m)) as Hmap1.
  { simpl. apply map_eq. intros i. destruct (decide (i = sid)) as [->|]; cos; [|done]. by rewrite Hst. }
  destruct (switch_to mn r a m m1 (set_state YIELD cr) (set_state EXECING ca0) Hw)
    as (m' & Hsw & Hw' & Hmap & Hsid & Ho & _ & _); try done.
  - intros x ? ?. simpl. by cos.
  - apply (Hcos _ _ Hcr).
  - by left.
  - simpl. lia.
  - intros sid' st' Hst'. rewrite Hmap1 in Hst'.
    apply lookup_insert_Some in Hst' as [[<- <-]|[Hne Hst']].
    + split; [done|]. split; [constructor; [by apply (Hout _ _ Hst)|done]|]. split; [simpl; lia|].
      intros x [->|Hxs]%elem_of_cons.
      * split; [done|]. eexists. split; [exact Ha1|]. naive_solver.
      * destruct (Hmem x Hxs) as (Hxm & cx & Hcx & Hxid & Hxk & Hxst). split; [done|].
        assert (x ≠ a) by (intros ->; by apply (Hout _ _ Hst)).
        destruct (decide (x = r)) as [->|]; [exists (set_state YIELD cr); naive_solver|].
        exists cx. simpl. cos. naive_solver.
    + eapply stack_ok_mono; [by apply Hstk|simpl; lia|].
      intros x cx Hxs Hcx. pose proof (Hout _ _ Hst') as Hxo.
      assert (x ≠ a) by (intros ->; done).
      assert (x ≠ r).
      { intros ->. destruct (Hstk _ _ Hst') as (_ & _ & _ & Hmem').
        destruct (Hmem' r Hxs) as (_ & cx' & Hcx' & Hid' & _). congruence. }
      exists cx. simpl. cos. naive_solver.
  - right. exists sid, (r :: st). rewrite Hmap1. by cos.
  - exists m'. rewrite Hsw. split_and!; try done; [by rewrite Hmap, Hmap1|].
    intros x ? ?. rewrite Ho by done. simpl. by cos.
Qed.

(** [resumeWithNewStack] of a fresh coroutine, from any coroutine. *)
Lemma resumeWithNewStack_spec mn r a m c tid :
  wf mn r m → t_cos m !! a = Some c → fresh c → m_stackId c = 0 →
  ∃ m', resumeWithNewStack tid false a m = Ret m' ∧ wf mn a m' ∧
    s_stack_id m' = s_stack_id m + 1 ∧
    t_map_co_stack m' = <[s_stack_id m + 1 := [a]]> (t_map_co_stack m) ∧
    (∀ x, x ≠ a → x ≠ r → t_cos m' !! x = t_cos m !! x).
Proof.
  intros Hw Hc Hfr Hid0. destruct (fresh_not_running _ _ _ _ _ Hw Hc Hfr) as (Har & Ham & Hout).
  pose proof Hw as [Hm Hcu Hru Hca Hlim _ Hcos Hstk _]. destruct Hfr as (Hs & Hx & Hf & Hk).
  destruct (wf_running _ _ _ Hw) as (cr & Hcr & Hcs & Hcf).
  unfold resumeWithNewStack, co_at. cbn [deref mbind res_bind]. rewrite Hc. cbn [deref mbind res_bind].
  rewrite Hid0, Hm. change (0 =? 0) with true. rewrite bool_decide_false by congruence.
  cbn [negb orb deref mbind res_bind]. cbn [t_cur_co upd with_cos with_counters with_stacks].
  rewrite Hcu. cbn [deref mbind res_bind].
  set (sid := s_stack_id m + 1). set (m1 := upd a _ _).
  set (ca := set_state EXECING (set_stackId sid (set_link (Some mn) tid c))).
  assert (t_cos m1 !! a = Some ca) as Ha1 by (simpl; cos; by rewrite Hc).
  assert (t_cos m1 !! r = Some (set_state YIELD cr)) as Hr1 by (simpl; cos; by rewrite Hcr).
  destruct (Hcos _ _ Hcr) as [_ Hridb].
  assert (r = mn → m_stackId cr = 0) as Hr0.
  { intros ->. destruct (wf_main_co _ _ _ Hw) as (cm & Hcm & ? & _). congruence. }
  destruct (switch_to mn r a m m1 (set_state YIELD cr) ca Hw)
    as (m' & Hsw & Hw' & Hmap & Hsid & Ho & _ & _); try done; [simpl; lia| | | | | | |].
  - intros x ? ?. simpl. by cos.
  - simpl. lia.
  - by left.
  - simpl. lia.
  - intros sid' st' Hst'. simpl in Hst'. apply lookup_insert_Some in Hst' as [[<- <-]|[_ Hst']].
    + split; [done|]. split; [apply NoDup_singleton|]. simpl. split; [lia|].
      intros x ->%list_elem_of_singleton. split; [done|]. exists ca. split; [exact Ha1|]. auto.
    + eapply stack_ok_mono; [by apply Hstk|simpl; lia|].
      intros x cx Hxs Hcx. pose proof (Hout _ _ Hst') as Hxo.
      assert (x ≠ a) by (intros ->; done).
      destruct (decide (x = r)) as [->|].
      * rewrite Hcr in Hcx. injection Hcx as <-. exists (set_state YIELD cr). naive_solver.
      * exists cx. simpl. cos. naive_solver.
  - right. exists sid, []. simpl. by cos.
  - exists m'. rewrite Hsw. split_and!; try done.
    intros x ? ?. rewrite Ho by done. simpl. by cos.
Qed.

(** The end of a coroutine: control goes to the one below it on its stack,
    or to main when there is none, and the stack disappears with its last
    member. *)
Definition below (mn : Z) (st : list Z) : Z := default mn (head st).

Lemma finish_spec mn r m c sid st ok :
  wf mn r m → r ≠ mn → t_cos m !! r = Some c → t_map_co_stack m !! sid = Some (r :: st) →
  ∃ m', MainFunc_end ok m = Ret m' ∧ wf mn (below mn st) m' ∧ s_stack_id m' = s_stack_id m ∧
    t_map_co_stack m' = match st with
                        | [] => delete sid (t_map_co_stack m)
                        | _ => <[sid := st]> (t_map_co_stack m)
                        end ∧
    (∃ c', t_cos m' !! r = Some c' ∧ m_stackId c' = sid ∧
       m_state c' = if ok then TERMINAL else EXCEPT) ∧
    (∀ x, x ≠ r → x ≠ below mn st → t_cos m' !! x = t_cos m !! x).
Proof.
  intros Hw Hrm Hcr Hst. set (b := below mn st).
  pose proof Hw as [Hm Hcu Hru Hca Hlim _ Hcos Hstk _].
  destruct (Hstk _ _ Hst) as (_ & Hnd & Hpos & Hmem). apply NoDup_cons in Hnd as [Hrst Hnd].
  destruct (Hmem r) as (_ & c0 & Hc0 & Hrid & Hrk & _); [by left|].
  rewrite Hcr in Hc0. injection Hc0 as <-.
  assert (r ≠ b ∧ ∃ cb, t_cos m !! b = Some cb ∧ suspended b cb ∧ (b = mn → m_stackId cb = 0) ∧
    0 <= m_stackId cb <= s_stack_id m ∧ (b = mn ∨ m_stackId cb = sid ∧ m_stack cb = true))
    as (Hrb & cb & Hcb & Hsus & Hb0 & Hbid & Hbk).
  { unfold b, below. destruct st as [|y st']; simpl.
    - destruct (wf_main_co _ _ _ Hw) as (cm & Hcm & Hcm0 & [?|?]); [done|].
      split; [done|]. exists cm. split_and!; try done; [lia..|by left].
    - split; [set_solver|]. destruct (Hmem y) as (Hym & cy & Hcy & Hyid & Hyk & Hys); [set_solver|].
      assert (y ≠ r) by set_solver. destruct Hys as [?|Hys]; [done|].
      destruct (Hcos _ _ Hcy) as [Hok Hlim']. unfold co_ok in Hok. rewrite decide_False in Hok by done.
      exists cy. split_and!; try done; [|lia..|by right].
      destruct Hok as [?|[[? _]|[[?|?] _]]]; [done|congruence..]. }
  unfold MainFunc_end. rewrite Hru. cbn [deref mbind res_bind].
  set (m0 := if ok then _ else _).
  set (cr' := if ok then set_state TERMINAL (set_cb false c) else set_state EXCEPT c).
  assert (t_cos m0 !! r = Some cr' ∧ (∀ x, x ≠ r → t_cos m0 !! x = t_cos m !! x) ∧
    t_map_co_stack m0 = t_map_co_stack m ∧ t_main_co m0 = t_main_co m ∧ t_caller_co m0 = t_caller_co m
    ∧ s_stack_id m0 = s_stack_id m ∧ t_cur_co m0 = t_cur_co m)
    as (Hr0 & Ho0 & Hmap0 & Hm0 & Hca0 & Hs0 & _).
  { subst m0 cr'. destruct ok; simpl; cos; rewrite Hcr; split_and!; try done; intros; by cos. }
  clearbody m0.
  assert (m_stackId cr' = sid ∧ finished cr') as [Hrid' Hfin].
  { subst cr'. unfold finished. destruct ok; simpl; auto. }
  set (map' := match st with [] => delete sid (t_map_co_stack m) | _ => <[sid:=st]> (t_map_co_stack m) end).
  set (m2 := SetThis (Some b) (with_stacks (fun _ => map') m0)).
  assert (leave_stack r m0 = Ret m2) as ->.
  { unfold leave_stack, co_at. cbn [deref mbind res_bind]. rewrite Hr0. cbn [deref mbind res_bind].
    rewrite Hrid', Hmap0, Hst. cbn [deref mbind res_bind tail].
    subst m2 b map'. unfold below. destruct st; simpl; unfold caller_waits; simpl.
    - rewrite Hca0, Hca. simpl. rewrite Hm0, Hm. simpl.
      unfold with_stacks. simpl. by rewrite Hmap0.
    - unfold with_stacks. simpl. by rewrite Hmap0. }
  cbn [mbind res_bind]. cbn [t_cur_co SetThis m2]. cbn [deref mbind res_bind].
  assert (t_cos m2 !! b = Some cb) as Hb2 by (simpl; by rewrite Ho0).
  rewrite (setcontext_spec b (set_state EXECING cb)); [|by simpl; cos; rewrite Ho0, Hcb|].
  2: { right. destruct Hsus as (_ & g & ? & ?). by exists g. }
  eexists. split; [done|]. set (m' := with_running _ _ _).
  assert (∀ x, x ≠ r → x ≠ b → t_cos m' !! x = t_cos m !! x) as Ho'.
  { intros x ? ?. simpl. cos. by apply Ho0. }
  assert (t_cos m' !! r = Some cr') as Hr' by (simpl; by cos).
  assert (t_cos m' !! b = Some (set_frame Running (set_state EXECING cb))) as Hb'.
  { simpl. cos. by rewrite Ho0, Hcb. }
  assert (∀ sid0 st0, map' !! sid0 = Some st0 →
    stack_ok mn b (t_cos m') (s_stack_id m) sid0 st0 ∧ r ∉ st0) as Hstk'.
  { intros sid0 st0 Hst0.
    assert (r ∉ st0 ∧ st0 ≠ [] ∧ ∃ st1, t_map_co_stack m !! sid0 = Some st1 ∧
      (st0 = st1 ∨ st1 = r :: st0 )) as (Hr_out & Hne & st1 & Hst1 & Hrel).
    { assert (∀ st1, sid0 ≠ sid → t_map_co_stack m !! sid0 = Some st1 → r ∉ st1 ∧ st1 ≠ []) as Hoth.
      { intros st1 Hns Hst1. destruct (Hstk _ _ Hst1) as (? & _ & _ & Hmem'). split; [|done].
        intros Hin. destruct (Hmem' r Hin) as (_ & cx & Hcx & Hxid & _). congruence. }
      subst map'. destruct st as [|y st'].
      - apply lookup_delete_Some in Hst0 as [Hns Hst0].
        destruct (Hoth st0) as [? ?]; [congruence|done|]. naive_solver.
      - apply lookup_insert_Some in Hst0 as [[<- <-]|[Hns Hst0]]; [naive_solver|].
        destruct (Hoth st0) as [? ?]; [congruence|done|]. naive_solver. }
    split; [|done]. destruct (Hstk _ _ Hst1) as (_ & Hnd1 & Hp1 & Hmem1).
    split; [done|]. split; [destruct Hrel as [-> | ->]; [done|by apply NoDup_cons in Hnd1 as [_ ?]]|].
    split; [done|]. intros x Hxs.
    destruct (Hmem1 x) as (Hxm & cx & Hcx & Hxid & Hxk & Hxs'); [destruct Hrel as [->| ->]; set_solver|].
    split; [done|]. assert (x ≠ r) by (intros ->; done).
    destruct (decide (x = b)) as [->|].
    - rewrite Hcb in Hcx. injection Hcx as <-. eexists. split; [exact Hb'|]. naive_solver.
    - exists cx. rewrite Ho' by done. naive_solver. }
  split_and!; try done.
  - apply (switch_wf mn r b m m' cr' (set_frame Running (set_state EXECING cb)) Hw); try done.
    + simpl. by rewrite Hm0.
    + simpl. by rewrite Hca0.
    + simpl. lia.
    + auto.
    + simpl. rewrite Hs0, Hrid'. lia.
    + simpl. rewrite Hs0. lia.
    + intros sid0 st0 Hst0. simpl. rewrite Hs0. by apply Hstk'.
    + unfold b, below. destruct st as [|y st']; [by left|right]. simpl.
      exists sid, st'. subst map'. by cos.
  - exists cr'. split_and!; try done. subst cr'. by destruct ok.
Qed.

Lemma new_spec mn r m a ma :
  wf mn r m → t_cos m !! a = None →
  wf mn r (Coroutine_new a ma m) ∧
  ∃ c, t_cos (Coroutine_new a ma m) !! a = Some c ∧ fresh c ∧ m_stackId c = 0.
Proof.
  intros Hw Ha. pose proof Hw as [Hm Hcu Hru Hca Hlim Hmco Hcos Hstk Htop].
  destruct (wf_running _ _ _ Hw) as (cr & Hcr & _).
  unfold Coroutine_new. rewrite Hm. assert (r ≠ a) by congruence.
  split; [|eexists; split; [simpl; by cos|by repeat split]].
  destruct Hmco as (cm & Hcm & Hcm'). assert (mn ≠ a) by congruence.
  split; simpl; try done.
  - exists cm. by cos.
  - intros x c Hx. apply lookup_insert_Some in Hx as [[<- <-]|[? Hx]]; [|by apply Hcos].
    simpl. split; [|lia]. unfold co_ok. rewrite decide_False by done. right. left. by repeat split.
  - intros sid st Hst. eapply stack_ok_mono; [by apply Hstk|simpl; lia|].
    intros x c Hx Hc. exists c. assert (x ≠ a) by congruence. cos.
    destruct (Hstk _ _ Hst) as (_ & _ & _ & Hmem). destruct (Hmem x Hx) as (_ & c' & Hc' & _ & _ & Hs).
    rewrite Hc in Hc'. injection Hc' as <-. naive_solver.
Qed.

Lemma reset_wf mn r m a c :
  wf mn r m → t_cos m !! a = Some c → fresh c ∨ finished c →
  ∃ m', reset a m = Ret m' ∧ wf mn r m' ∧ t_map_co_stack m' = t_map_co_stack m ∧
    t_cos m' !! a = Some (mkCoroutine (m_id c) (m_stackId c) (m_threadId c) INIT Entry None
                            true true NotStarted) ∧
    (∀ x, x ≠ a → t_cos m' !! x = t_cos m !! x).
Proof.
  intros Hw Hc Hst. pose proof Hw as [Hm Hcu Hru Hca Hlim Hmco Hcos Hstk Htop].
  assert (m_stack c = true ∧ (m_state c = INIT ∨ m_state c = TERMINAL ∨ m_state c = EXCEPT))
    as [Hk Hs] by (unfold fresh, finished in Hst; naive_solver).
  destruct (wf_running _ _ _ Hw) as (cr & Hcr & Hcrs & _).
  assert (a ≠ r) by (intros ->; naive_solver congruence).
  destruct Hmco as (cm & Hcm & Hcm0 & Hcms).
  assert (a ≠ mn).
  { intros ->. rewrite Hc in Hcm. injection Hcm as <-. destruct Hcms as [?|[? _]]; [done|naive_solver congruence]. }
  unfold reset, co_at. cbn [deref mbind res_bind]. rewrite Hc. cbn [deref mbind res_bind].
  rewrite Hk, bool_decide_true by done. cbn [check mbind res_bind].
  eexists. split; [done|]. split_and!; [|done| |].
  - split; simpl; try done.
    + exists cm. by cos.
    + intros x cx Hx. destruct (decide (x = a)) as [->|].
      * rewrite lookup_alter_eq, Hc in Hx. injection Hx as <-. simpl.
        destruct (Hcos _ _ Hc) as [_ ?]. split; [|done]. unfold co_ok.
        rewrite decide_False by done. right. left. by repeat split.
      * rewrite lookup_alter_ne in Hx by congruence. by apply Hcos.
    + intros sid st Hsid. eapply stack_ok_mono; [by apply Hstk|lia|].
      intros x cx Hx Hcx. destruct (Hstk _ _ Hsid) as (_ & _ & _ & Hmem).
      destruct (Hmem x Hx) as (_ & c' & Hc' & _ & _ & Hxs). rewrite Hcx in Hc'. injection Hc' as <-.
      assert (x ≠ a).
      { intros ->. rewrite Hc in Hcx. injection Hcx as <-.
        destruct Hxs as [?|Hy]; [done|]. rewrite Hy in Hs. naive_solver. }
      exists cx. cos. naive_solver.
  - simpl. cos. by rewrite Hc.
  - intros x Hx. simpl. by cos.
Qed.

(** ** Executions *)

(** What the code of a thread does with its coroutines. *)
Inductive Op : Set :=
  | New (a : Z) | ResumeCo (a : Z) | ResumeNew (a : Z) | YieldOp | ResumeStack (sid : Z)
  | Finish (ok : bool) | Reset (a : Z).

Definition exec (tid mn : Z) (op : Op) (m : Thread) : res Thread :=
  match op with
  | New a => Ret (Coroutine_new a mn m)
  | ResumeCo a => resume tid false a m
  | ResumeNew a => resumeWithNewStack tid false a m
  | YieldOp => Yield false mn m
  | ResumeStack sid => Resume tid false sid m
  | Finish ok => MainFunc_end ok m
  | Reset a => reset a m
  end.

(** The discipline: a coroutine is resumed by address when it was never
    started; a started one is resumed by main, through its stack; only a
    coroutine that is not main ends; what is reset is not live. *)
Definition allowed (mn r : Z) (m : Thread) (op : Op) : Prop :=
  match op with
  | New a => t_cos m !! a = None
  | ResumeCo a | ResumeNew a => ∃ c, t_cos m !! a = Some c ∧ fresh c ∧ m_stackId c = 0
  | YieldOp => True
  | Finish _ => r ≠ mn
  | ResumeStack sid => r = mn ∧ is_Some (t_map_co_stack m !! sid)
  | Reset a => ∃ c, t_cos m !! a = Some c ∧ (fresh c ∨ finished c)
  end.

Lemma exec_wf tid mn r m op :
  wf mn r m → allowed mn r m op → ∃ m' r', exec tid mn op m = Ret m' ∧ wf mn r' m'.
Proof.
  intros Hw Ha. destruct op as [a|a|a| |sid|ok|a]; simpl in *.
  - destruct (new_spec mn r m a mn Hw Ha) as [? _]. eauto.
  - destruct Ha as (c & Hc & Hf & H0). destruct (decide (r = mn)) as [->|Hr].
    + destruct (resume_new_spec mn a m c tid Hw Hc Hf H0) as (m' & ? & ? & _). eauto.
    + destruct (wf_stack_top _ _ _ Hw Hr) as (cr & sid & st & _ & _ & _ & _ & _ & _ & Hst).
      destruct (resume_push_spec mn r a m c sid st tid Hw Hr Hst Hc Hf H0) as (m' & ? & ? & _). eauto.
  - destruct Ha as (c & Hc & Hf & H0).
    destruct (resumeWithNewStack_spec mn r a m c tid Hw Hc Hf H0) as (m' & ? & ? & _). eauto.
  - destruct (decide (r = mn)) as [->|Hr]; [rewrite (yield_main_ignored mn m mn false Hw); eauto|].
    destruct (yield_spec mn r m mn Hw Hr) as (m' & _ & _ & ? & ? & _). eauto.
  - destruct Ha as [-> [st Hst]]. destruct (wf_stacks _ _ _ Hw _ _ Hst) as (Hne & _ & _ & Hm).
    destruct st as [|a st]; [done|]. destruct (Hm a) as (_ & c & Hc & _); [by left|].
    unfold Resume. rewrite Hst, (top_of_cons _ _ _ _ Hst). cbn [mbind res_bind].
    destruct (resume_top_spec mn a m c sid st tid Hw Hst Hc) as (m' & ? & ? & _). eauto.
  - destruct (wf_stack_top _ _ _ Hw Ha) as (cr & sid & st & Hcr & _ & _ & _ & _ & _ & Hst).
    destruct (finish_spec mn r m cr sid st ok Hw Ha Hcr Hst) as (m' & ? & ? & _). eauto.
  - destruct Ha as (c & Hc & Hf). destruct (reset_wf mn r m a c Hw Hc Hf) as (m' & ? & ? & _). eauto.
Qed.

(** A step of a thread: an allowed operation of the coroutine that runs. *)
Inductive step (tid mn : Z) : Thread → Thread → Prop :=
  | step_op r op m m' : t_running m = Some r → allowed mn r m op → exec tid mn op m = Ret m' →
      step tid mn m m'.

(** A thread whose first coroutine has just been made. *)
Definition started (mn a : Z) : Thread := Coroutine_new a mn Thread_new.

Lemma started_wf mn a : mn ≠ a → wf mn mn (started mn a).
Proof.
  intros Hne. unfold started, Coroutine_new. simpl.
  split; simpl; try done.
  - eexists. cos. split; [done|]. split; [done|by left].
  - intros x c Hx. unfold co_ok.
    apply lookup_insert_Some in Hx as [[<- <-]|[? Hx]].
    { rewrite decide_False by done. split; [|done]. right. left. by repeat split. }
    apply lookup_insert_Some in Hx as [[<- <-]|[? Hx]]; [by rewrite decide_True|].
    by rewrite lookup_empty in Hx.
  - by left.
Qed.

Lemma steps_wf tid mn m m' r : wf mn r m → rtc (step tid mn) m m' → ∃ r', wf mn r' m'.
Proof.
  intros Hw Hr. revert r Hw. induction Hr as [m|m m1 m2 [r0 op m0 m1' Hru Ha He] _ IH]; intros r Hw;
    [eauto|]. assert (r0 = r) as -> by (pose proof (wf_run _ _ _ Hw); congruence).
  destruct (exec_wf tid mn r m0 op Hw Ha) as (m'' & r' & He' & Hw').
  apply (IH r'). congruence.
Qed.

(** C20: coroutine switching is sound under the discipline, as long as
    [swapcontext] succeeds.  After any sequence of allowed operations, the stack that runs is the one [t_cur_co]
    names, it is the only coroutine in state EXECING, and it is main or the
    top of its stack; and every further allowed operation is defined: no
    null or stale context is loaded, no assertion fails, no stack is missing. *)
Theorem switching_sound tid mn a m :
  mn ≠ a → rtc (step tid mn) (started mn a) m →
  ∃ r, t_running m = Some r ∧ t_cur_co m = Some r ∧
    (∀ x c, t_cos m !! x = Some c → m_state c = EXECING ↔ x = r) ∧
    (r = mn ∨ ∃ sid st, t_map_co_stack m !! sid = Some (r :: st)) ∧
    ∀ op, allowed mn r m op → ∃ m', exec tid mn op m = Ret m'.
Proof.
  intros Hne Hr. destruct (steps_wf _ _ _ _ _ (started_wf mn a Hne) Hr) as [r Hw].
  exists r. split_and!; [apply Hw|apply Hw| |apply Hw|].
  - intros x c Hc. split; [by apply (wf_execing mn r m x c Hw Hc)|]. intros ->.
    destruct (wf_running _ _ _ Hw) as (c' & Hc' & ? & _). congruence.
  - intros op Ha. destruct (exec_wf tid mn r m op Hw Ha) as (m' & _ & ? & _). eauto.
Qed.

(** C24: control follows the stack, as long as [swapcontext] succeeds.  When a coroutine [r] of a consistent
    thread yields and main resumes its stack by id, [r] itself runs again, on
    the same stacks, and no other coroutine but main has changed.  When [r]
    starts a fresh coroutine and that one ends, normally or with an
    exception, [r] runs again and the stacks are as before the call. *)
Theorem control_returns tid mn r m sid st a c ok :
  wf mn r m → r ≠ mn → t_map_co_stack m !! sid = Some (r :: st) →
  t_cos m !! a = Some c → fresh c → m_stackId c = 0 →
  (∃ m1 m2, exec tid mn YieldOp m = Ret m1 ∧ t_running m1 = Some mn ∧
     exec tid mn (ResumeStack sid) m1 = Ret m2 ∧ t_running m2 = Some r ∧
     t_map_co_stack m2 = t_map_co_stack m ∧
     ∀ x, x ≠ r → x ≠ mn → t_cos m2 !! x = t_cos m !! x) ∧
  (∃ m1 m2, exec tid mn (ResumeCo a) m = Ret m1 ∧ t_running m1 = Some a ∧
     exec tid mn (Finish ok) m1 = Ret m2 ∧ t_running m2 = Some r ∧
     t_map_co_stack m2 = t_map_co_stack m).
Proof.
  intros Hw Hne Hst Hc Hf H0. split.
  - destruct (yield_spec mn r m mn Hw Hne) as (m1 & cr & g & Hy & Hw1 & Hmap & _ & _ & Hcr1 & Ho).
    edestruct (resume_top_spec mn r m1) as (m2 & Hr & Hw2 & Hmap2 & _ & _ & Ho2);
      [done|by rewrite Hmap|exact Hcr1|].
    exists m1, m2. simpl. split_and!; try done; [apply Hw1| |apply Hw2|congruence|].
    + unfold Resume. rewrite Hmap, Hst, (top_of_cons m1 sid r st) by (by rewrite Hmap). done.
    + intros x ? ?. by rewrite Ho2, Ho.
  - destruct (resume_push_spec mn r a m c sid st tid Hw Hne Hst Hc Hf H0)
      as (m1 & Hr & Hw1 & _ & Hmap & _).
    destruct (fresh_not_running _ _ _ _ _ Hw Hc Hf) as (_ & Ham & _).
    destruct (wf_running _ _ _ Hw1) as (ca & Hca & _).
    destruct (finish_spec mn a m1 ca sid (r :: st) ok Hw1 Ham Hca) as (m2 & Hfi & Hw2 & _ & Hmap2 & _).
    { rewrite Hmap. by cos. }
    exists m1, m2. simpl. split_and!; try done; [apply Hw1|apply Hw2|].
    rewrite Hmap2, Hmap. rewrite insert_insert_eq. by apply insert_id.
Qed.

(** Coroutine 1 runs on stack 1 and has made coroutine 2. *)
Definition nested : Thread :=
  match resume 7 false 1 (started 0 1) with
  | Ret m => Coroutine_new 2 0 m
  | _ => started 0 1
  end.

Lemma nested_wf : wf 0 1 nested.
Proof.
  unfold nested.
  destruct (resume_new_spec 0 1 (started 0 1) (mkCoroutine 1 0 0 INIT Entry None true true NotStarted) 7)
    as (m1 & Hr & Hw1 & _); [by apply started_wf|reflexivity|by repeat split|done|].
  assert (t_cos m1 !! 2 = None) as H2.
  { vm_compute in Hr. injection Hr as <-. reflexivity. }
  rewrite Hr. by apply new_spec.
Qed.

Lemma nested_reachable : rtc (step 7 0) (started 0 1) nested.
Proof.
  destruct (resume_new_spec 0 1 (started 0 1) (mkCoroutine 1 0 0 INIT Entry None true true NotStarted) 7)
    as (m1 & Hr & Hw1 & _); [by apply started_wf|reflexivity|by repeat split|done|].
  unfold nested. rewrite Hr. eapply rtc_l; [apply (step_op 7 0 0 (ResumeCo 1) _ m1)|].
  - reflexivity.
  - eexists. split; [reflexivity|]. by repeat split.
  - exact Hr.
  - apply rtc_once, (step_op 7 0 1 (New 2)); [apply (wf_run _ _ _ Hw1)| |done].
    vm_compute in Hr. injection Hr as <-. reflexivity.
Qed.

(** Coroutine 1 was started by main and has made coroutine 2. *)
Example switching_sound_witness :
  0 ≠ 1 ∧ t_map_co_stack nested !! 1 = Some [1] ∧
  ∃ r, t_running nested = Some r ∧ t_cur_co nested = Some r ∧
    (∀ x c, t_cos nested !! x = Some c → m_state c = EXECING ↔ x = r) ∧
    (r = 0 ∨ ∃ sid st, t_map_co_stack nested !! sid = Some (r :: st)) ∧
    ∀ op, allowed 0 r nested op → ∃ m', exec 7 0 op nested = Ret m'.
Proof.
  split; [lia|]. split; [reflexivity|]. apply (switching_sound 7 0 1 nested); [lia|apply nested_reachable].
Defined.

Example control_returns_witness :
  (∃ m1 m2, exec 7 0 YieldOp nested = Ret m1 ∧ t_running m1 = Some 0 ∧
     exec 7 0 (ResumeStack 1) m1 = Ret m2 ∧ t_running m2 = Some 1 ∧
     t_map_co_stack m2 = t_map_co_stack nested ∧
     ∀ x, x ≠ 1 → x ≠ 0 → t_cos m2 !! x = t_cos nested !! x) ∧
  (∃ m1 m2, exec 7 0 (ResumeCo 2) nested = Ret m1 ∧ t_running m1 = Some 2 ∧
     exec 7 0 (Finish false) m1 = Ret m2 ∧ t_running m2 = Some 1 ∧
     t_map_co_stack m2 = t_map_co_stack nested).
Proof.
  apply (control_returns 7 0 1 nested 1 [] 2
    (mkCoroutine 2 0 0 INIT Entry None true true NotStarted) false);
    [apply nested_wf|lia|reflexivity|reflexivity|by repeat split|done].
Defined.

(** ** Uses outside the discipline *)

(** A coroutine that has ended and was the last of its stack can be
    [reset], but never runs again: [reset] keeps the old stack id, so
    [resume] looks the vanished stack up, logs an error and returns, and
    [resumeWithNewStack] refuses it as well. *)
Theorem reset_never_resumes tid mn r m a c :
  wf mn r m → t_cos m !! a = Some c → finished c → 0 < m_stackId c →
  t_map_co_stack m !! m_stackId c = None →
  ∃ m', reset a m = Ret m' ∧ wf mn r m' ∧
    (∃ c', t_cos m' !! a = Some c' ∧ fresh c') ∧
    resume tid false a m' = Ret m' ∧ resumeWithNewStack tid false a m' = Ret m'.
Proof.
  intros Hw Hc Hf Hpos Hmap.
  destruct (reset_wf mn r m a c Hw Hc (or_intror Hf)) as (m' & Hr & Hw' & Hmap' & Hc' & _).
  exists m'. split_and!; try done; [by eexists; split; [exact Hc'|repeat split]| |].
  - unfold resume, co_at. cbn [deref mbind res_bind]. rewrite Hc'. cbn [deref mbind res_bind m_stackId].
    rewrite (proj2 (Z.ltb_lt _ _)) by lia. cbn [orb mbind res_bind].
    cbn [t_map_co_stack upd with_cos]. rewrite Hmap', Hmap.
    f_equal. unfold upd, with_cos. destruct m'; simpl in *. f_equal.
    apply alter_id. intros x Hx. rewrite Hc' in Hx. by injection Hx as <-.
  - unfold resumeWithNewStack, co_at. cbn [deref mbind res_bind]. rewrite Hc'.
    cbn [deref mbind res_bind m_stackId]. rewrite (proj2 (Z.eqb_neq _ 0)) by lia. done.
Qed.

(** Coroutine 1 has run to its end. *)
Definition ended : Thread :=
  match (m ← resume 7 false 1 (started 0 1); MainFunc_end true m) with
  | Ret m => m
  | _ => started 0 1
  end.

Lemma ended_wf : wf 0 0 ended.
Proof.
  unfold ended.
  destruct (resume_new_spec 0 1 (started 0 1) (mkCoroutine 1 0 0 INIT Entry None true true NotStarted) 7)
    as (m1 & Hr & Hw1 & _ & Hmap & _); [by apply started_wf|reflexivity|by repeat split|done|].
  destruct (wf_running _ _ _ Hw1) as (c & Hc & _).
  destruct (finish_spec 0 1 m1 c 1 [] true Hw1) as (m2 & Hf & Hw2 & _);
    [lia|done|by rewrite Hmap|].
  rewrite Hr. cbn [mbind res_bind]. rewrite Hf. exact Hw2.
Qed.

Example reset_never_resumes_witness :
  ∃ c, t_cos ended !! 1 = Some c ∧ m_stackId c = 1 ∧
  ∃ m', reset 1 ended = Ret m' ∧ wf 0 0 m' ∧
    (∃ c', t_cos m' !! 1 = Some c' ∧ fresh c') ∧
    resume 7 false 1 m' = Ret m' ∧ resumeWithNewStack 7 false 1 m' = Ret m'.
Proof.
  eexists. split; [reflexivity|]. split; [reflexivity|].
  eapply (reset_never_resumes 7 0 0 ended 1);
    [apply ended_wf|reflexivity|split; [by left|reflexivity]|reflexivity|reflexivity].
Defined.

(** A scheduler that uses its caller's thread: coroutine 1 is the caller
    coroutine and runs [Scheduler::run], coroutine 2 is a task. *)
Definition caller_thread : res Thread :=
  m ← resume 7 false 1 (SetCallerCo (Some 1) (started 0 1));
  Ret (Coroutine_new 2 0 m).

(** In a caller coroutine the second resumption of a task loads a stale
    context.  The task is started with [resumeWithNewStack] and yields back;
    [resume] then saves the caller coroutine's continuation through the
    task's [uc_link], that is into the context of the main coroutine, so
    that when the task yields or ends the context of the caller coroutine
    that is loaded belongs to a frame that has returned. *)
Theorem caller_second_resume_stale ok :
  ∃ m0 m1 m2 m3, caller_thread = Ret m0 ∧
    resumeWithNewStack 7 false 2 m0 = Ret m1 ∧ Yield false 0 m1 = Ret m2 ∧
    t_running m2 = Some 1 ∧ resume 7 false 2 m2 = Ret m3 ∧ t_running m3 = Some 2 ∧
    (∃ c g, t_cos m3 !! 0 = Some c ∧ m_ctx c = Susp 1 g) ∧
    Yield false 0 m3 = Undef "stale context" ∧ MainFunc_end ok m3 = Undef "stale context".
Proof.
  do 4 eexists. split; [vm_compute; reflexivity|]. split; [vm_compute; reflexivity|]. split; [vm_compute; reflexivity|].
  split; [vm_compute; reflexivity|]. split; [vm_compute; reflexivity|]. split; [vm_compute; reflexivity|].
  split; [do 2 eexists; split; vm_compute; reflexivity|]. split; [vm_compute; reflexivity|]. destruct ok; vm_compute; reflexivity.
Qed.

(** When the [swapcontext] of a yield fails, the assertion only logs and the
    call returns to the coroutine that yielded: it runs on, in the state
    YIELD, while [t_cur_co] is already the main coroutine, which is EXECING
    and not running. *)
Theorem yield_swap_failure mn r m ma :
  wf mn r m → r ≠ mn →
  ∃ m', Yield true ma m = Ret m' ∧ t_running m' = Some r ∧ t_cur_co m' = Some mn ∧
    (∃ c, t_cos m' !! r = Some c ∧ m_state c = YIELD ∧ m_frame c = Running) ∧
    (∃ c, t_cos m' !! mn = Some c ∧ m_state c = EXECING ∧ m_frame c ≠ Running) ∧
    ∀ mn' r', ¬ wf mn' r' m'.
Proof.
  intros Hw Hne. destruct (wf_stack_top _ _ _ Hw Hne) as (c & sid & st & Hc & Hs & Hf & _ & Hid & _ & Hst).
  destruct (wf_main_co _ _ _ Hw) as (cm & Hcm & _ & [?|(_ & g & _ & Hg)]); [done|].
  unfold Yield, GetThis. rewrite (wf_cur _ _ _ Hw), ret_bind. cbn iota beta.
  unfold yield, co_at. cbn [deref mbind res_bind]. rewrite Hc. cbn [deref mbind res_bind].
  rewrite Hid, Hst, (top_of_cons _ _ _ _ Hst). cbn [mbind res_bind].
  rewrite bool_decide_true by done. unfold caller_waits. rewrite (wf_caller _ _ _ Hw).
  cbn [negb mbind res_bind]. rewrite (wf_main _ _ _ Hw). cbn [deref mbind res_bind].
  eexists. split; [reflexivity|]. split; [apply (wf_run _ _ _ Hw)|]. split; [done|].
  split_and!.
  - eexists. split; [simpl; cos; by rewrite Hc|]. simpl. by rewrite bool_decide_true.
  - eexists. split; [simpl; cos; by rewrite Hcm|]. simpl. by rewrite Hg.
  - intros mn' r' Hw'. pose proof (wf_run _ _ _ Hw') as H1. pose proof (wf_cur _ _ _ Hw') as H2.
    simpl in H1, H2. rewrite (wf_run _ _ _ Hw) in H1. congruence.
Qed.

Example yield_swap_failure_witness :
  ∃ m', Yield true 0 nested = Ret m' ∧ t_running m' = Some 1 ∧ t_cur_co m' = Some 0 ∧
    (∃ c, t_cos m' !! 1 = Some c ∧ m_state c = YIELD ∧ m_frame c = Running) ∧
    (∃ c, t_cos m' !! 0 = Some c ∧ m_state c = EXECING ∧ m_frame c ≠ Running) ∧
    ∀ mn' r', ¬ wf mn' r' m'.
Proof. apply (yield_swap_failure 0 1 nested 0); [apply nested_wf|lia]. Defined.

(** Resuming a coroutine that is on a stack, but not on top of it, does
    not leave the stack alone as documented: it is pushed a second time, and
    when that second occurrence yields the stack still holds it twice. *)
Theorem resume_non_top_duplicates :
  ∃ m1 m2 m3, resume 7 false 2 nested = Ret m1 ∧ t_map_co_stack m1 !! 1 = Some [2; 1] ∧
    resume 7 false 1 m1 = Ret m2 ∧ t_map_co_stack m2 !! 1 = Some [1; 2; 1] ∧
    Yield false 0 m2 = Ret m3 ∧ t_map_co_stack m3 !! 1 = Some [1; 2; 1] ∧
    ∀ mn r, ¬ wf mn r m3.
Proof.
  do 3 eexists. split; [vm_compute; reflexivity|]. split; [vm_compute; reflexivity|]. split; [vm_compute; reflexivity|].
  split; [vm_compute; reflexivity|]. split; [vm_compute; reflexivity|]. split; [vm_compute; reflexivity|].
  intros mn r Hw. destruct (wf_stacks _ _ _ Hw 1 [1; 2; 1] eq_refl) as (_ & Hnd & _).
  apply NoDup_cons in Hnd as [Hin _]. apply Hin. set_solver.
Qed.
