(* ===== verification/Scheduler.v ===== *)
(** * The scheduler: src/src/scheduler.h, src/src/scheduler.cpp

    A pool of tasks, coroutines or closures, that the threads of the
    scheduler take under a mutex.  A critical section is one function here.
    The code of a coroutine is not part of a section: [run_once] is one turn
    of [run], up to the switch it makes, and returns the action.  A
    coroutine is known by its address; what the scheduler asks of it (state,
    stack, thread) is an argument. *)

From S2P Require Import Prelude.
From S2P Require Coroutine.

#[local] Existing Instance Coroutine.State_eq_dec.

(** [src/src/scheduler.h:71-103] Scheduler::Task *)
Record Task := mkTask {
  t_co : option Z;
  t_cb : option nat;
  t_threadId : Z
}.

#[export] Instance Task_eq_dec : EqDecision Task.
Proof. solve_decision. Defined.

(** What [schedule] is given: a coroutine or a closure, by value or by a
    pointer whose target is swapped out. *)
Inductive OnceTask : Set := OfCo (co : option Z) | OfCb (cb : option nat).

(** [src/src/scheduler.h:76-92] Scheduler::Task::Task *)
Definition Task_of (t : OnceTask) (threadId : Z) : Task :=
  match t with
  | OfCo co => mkTask co None threadId
  | OfCb cb => mkTask None cb threadId
  end.

(** [src/src/scheduler.h:98-102] Scheduler::Task::reset *)
Definition Task_reset : Task := mkTask None None 0.

(** [src/src/scheduler.h:124-141] Scheduler. [m_callerThreadId] is given when it is made *)
Record Scheduler := mkScheduler {
  m_userCaller : bool;
  m_callerThreadId : Z;
  m_threadCnt : Z;
  m_threadIds : list Z;
  m_threads : list Z;
  m_activeThreadCnt : Z;
  m_idleThreadCnt : Z;
  m_stopping : bool;
  m_autoStop : bool;
  m_taskPools : list Task
}.

Definition set_pool (p : list Task) (s : Scheduler) : Scheduler :=
  mkScheduler (m_userCaller s) (m_callerThreadId s) (m_threadCnt s) (m_threadIds s) (m_threads s)
    (m_activeThreadCnt s) (m_idleThreadCnt s) (m_stopping s) (m_autoStop s) p.
Definition set_counts (active idle : Z) (s : Scheduler) : Scheduler :=
  mkScheduler (m_userCaller s) (m_callerThreadId s) (m_threadCnt s) (m_threadIds s) (m_threads s)
    active idle (m_stopping s) (m_autoStop s) (m_taskPools s).
Definition set_flags (stopping autoStop : bool) (s : Scheduler) : Scheduler :=
  mkScheduler (m_userCaller s) (m_callerThreadId s) (m_threadCnt s) (m_threadIds s) (m_threads s)
    (m_activeThreadCnt s) (m_idleThreadCnt s) stopping autoStop (m_taskPools s).

(** [src/src/scheduler.cpp:16-30] Scheduler::Scheduler, on the thread [tid]; its two assertions (at least one thread, no other scheduler on this thread) only log. [threads] is a size_t: the decrement of 0 wraps *)
Definition Scheduler_new (threads : Z) (useCaller : bool) (tid : Z) : Scheduler :=
  mkScheduler useCaller tid (if useCaller then u64 (threads - 1) else threads)
    (if useCaller then [tid] else []) [] 0 0 true false [].

(** [src/src/scheduler.cpp:43-45] Scheduler::getCallerThreadId *)
Definition getCallerThreadId (s : Scheduler) : Z := m_callerThreadId s.

(** [src/src/scheduler.h:142-142] Scheduler::hasIdleThreads *)
Definition hasIdleThreads (s : Scheduler) : bool := 0 <? m_idleThreadCnt s.

(** [src/src/scheduler.cpp:187-189] Scheduler::stopping *)
Definition stopping (s : Scheduler) : bool :=
  m_autoStop s && m_stopping s && bool_decide (m_taskPools s = []) && (m_activeThreadCnt s =? 0).

(** [src/src/scheduler.cpp:191-193] Scheduler::canEarlyClosure *)
Definition canEarlyClosure (s : Scheduler) : bool :=
  m_autoStop s && bool_decide (m_taskPools s = []) && (m_idleThreadCnt s =? 0).

(** [src/src/scheduler.cpp:195-197] Scheduler::tickle: the number of threads signalled (Thread::CondSignal) *)
Definition tickle (s : Scheduler) : Z := m_idleThreadCnt s.

(** ** Adding tasks *)

(** [src/src/scheduler.h:106-121] Scheduler::scheduleWithoutLock: the result and the scheduler. The thread of a coroutine is written to the local [task] after the pool has taken its copy, and is lost *)
Definition scheduleWithoutLock (t : OnceTask) (threadId : Z) (force : bool) (s : Scheduler)
    : bool * Scheduler :=
  if m_autoStop s && negb force then (false, s)
  else
    let task := Task_of t threadId in
    let s :=
      if bool_decide (t_cb task ≠ None ∨ t_co task ≠ None)
      then set_pool (m_taskPools s ++ [task]) s else s in
    (bool_decide (m_taskPools s ≠ []) && (0 <? m_idleThreadCnt s), s).

(** [src/src/scheduler.h:39-49] Scheduler::schedule: whether [tickle] is called, and the scheduler *)
Definition schedule (t : OnceTask) (threadId : Z) (force : bool) (s : Scheduler)
    : bool * Scheduler :=
  scheduleWithoutLock t threadId force s.

(** [src/src/scheduler.h:56-59] Scheduler::scheduleIterator, the loop *)
Fixpoint schedule_loop (ts : list OnceTask) (force needTickle : bool) (s : Scheduler)
    : bool * Scheduler :=
  match ts with
  | [] => (needTickle, s)
  | t :: ts =>
      let '(need, s) := scheduleWithoutLock t 0 force s in
      schedule_loop ts force (if need then true else needTickle) s
  end.
(** [src/src/scheduler.h:51-64] Scheduler::scheduleIterator *)
Definition scheduleIterator (ts : list OnceTask) (force : bool) (s : Scheduler)
    : bool * Scheduler :=
  schedule_loop ts force false s.

(** ** Starting and stopping *)

(** [src/src/scheduler.cpp:47-67] Scheduler::start: [ids] are the ids of the threads it creates, [callerState] the state of the caller coroutine; the boolean tells whether that coroutine is resumed *)
Definition start (ids : list Z) (callerState : Coroutine.State) (s : Scheduler)
    : res (bool * Scheduler) :=
  if negb (m_stopping s) then Ret (false, s)
  else
    let s := set_flags false false s in
    _ ← check (bool_decide (m_threads s = [])) "m_threads.empty()";
    let s := mkScheduler (m_userCaller s) (m_callerThreadId s) (m_threadCnt s)
               (m_threadIds s ++ ids) ids (m_activeThreadCnt s + zlen ids) (m_idleThreadCnt s)
               (m_stopping s) (m_autoStop s) (m_taskPools s) in
    Ret (m_userCaller s && bool_decide (callerState = Coroutine.INIT), s).

Section virtual.
(** The virtual methods [stopping] and [canEarlyClosure]. *)
Context (stopping canEarlyClosure : Scheduler → bool).

(** [src/src/scheduler.cpp:69-88] Scheduler::stop: the threads it joins, and the scheduler *)
Definition stop (tid : Z) (callerState : Coroutine.State) (s : Scheduler) : list Z * Scheduler :=
  if negb (m_callerThreadId s =? tid) then ([], s)
  else
    let s := set_flags (m_stopping s) true s in
    let early :=
      m_userCaller s && (m_threadCnt s =? 0) &&
      bool_decide (callerState = Coroutine.TERMINAL ∨ callerState = Coroutine.INIT) in
    let s := if early then set_flags true (m_autoStop s) s else s in
    if early && stopping s then ([], s)
    else
      let s := set_flags true (m_autoStop s) s in
      (if m_userCaller s then [] else m_threads s, s).

(** ** Running *)

(** [src/src/scheduler.cpp:101-113] Scheduler::run, the search of the pool: what was passed over, the task taken and the rest *)
Fixpoint find_task (tid : Z) (pool : list Task) : res (list Task * option Task * list Task) :=
  match pool with
  | [] => Ret ([], None, [])
  | it :: rest =>
      if negb (t_threadId it =? 0) && negb (t_threadId it =? tid) then
        '(passed, found, rest) ← find_task tid rest; Ret (it :: passed, found, rest)
      else
        _ ← check (bool_decide (t_co it ≠ None ∨ t_cb it ≠ None)) "it->co || it->cb";
        Ret ([], Some it, rest)
  end.

(** [src/src/scheduler.cpp:96-117] Scheduler::run, the critical section: the task, needTickle, and the scheduler *)
Definition take_task (tid : Z) (s : Scheduler) : res (option Task * bool * Scheduler) :=
  '(passed, found, rest) ← find_task tid (m_taskPools s);
  let pool := passed ++ rest in
  let needTickle := bool_decide (passed ≠ []) ||
                    (bool_decide (pool ≠ []) && (0 <? m_idleThreadCnt s)) in
  Ret (found, needTickle, set_pool pool s).

(** What a turn of [run] does next. *)
Inductive Action : Set :=
  | DoResume (co : Z)            (* task.co->resume() *)
  | DoResumeNew (co : Z)         (* task.co->resumeWithNewStack() *)
  | DoWrap (cb : nat) (tid : Z)  (* a new coroutine for the closure is scheduled *)
  | DoContinue                   (* the next turn *)
  | DoIdle                       (* idleCo->resume(), counted as an idle thread *)
  | DoLast (tickles : bool)      (* idleCo->resume() a last time, then [run] returns *)
  | DoReturn.                    (* [run] returns: the idle coroutine has ended *)

#[export] Instance Action_eq_dec : EqDecision Action.
Proof. solve_decision. Defined.

(** [src/src/scheduler.cpp:142-178] Scheduler::run, a turn without a task: [tid] is the thread's id *)
Definition run_idle (tid : Z) (idleState : Coroutine.State) (s : Scheduler) : Action * Scheduler :=
  if bool_decide (idleState = Coroutine.TERMINAL ∨ idleState = Coroutine.EXCEPT)
  then (DoReturn, s)
  else if m_callerThreadId s =? tid then
    if stopping s then (DoLast false, s)
    else (DoIdle, set_counts (m_activeThreadCnt s) (m_idleThreadCnt s + 1) s)
  else if canEarlyClosure s then
    (DoLast true, set_counts (m_activeThreadCnt s - 1) (m_idleThreadCnt s) s)
  else if m_autoStop s then (DoContinue, s)
  else (DoIdle, set_counts (m_activeThreadCnt s) (m_idleThreadCnt s + 1) s).

(** [src/src/scheduler.cpp:90-181] Scheduler::run, one turn: the action, the calls of tickle before it, and the scheduler *)
Definition run_once (tid : Z) (co : Z → Coroutine.Coroutine) (idleState : Coroutine.State)
    (s : Scheduler) : res (Action * bool * Scheduler) :=
  '(task, needTickle, s) ← take_task tid s;
  match task with
  | None =>
      let '(a, s') := run_idle tid idleState s in
      Ret (a, needTickle || (m_autoStop s && negb (bool_decide (a = DoReturn))), s')
  | Some task =>
      match t_co task with
      | Some c =>
          if negb (bool_decide (Coroutine.m_state (co c) = Coroutine.TERMINAL ∨
                                Coroutine.m_state (co c) = Coroutine.EXCEPT))
          then Ret (if 0 <? Coroutine.m_stackId (co c) then DoResume c else DoResumeNew c,
                    needTickle, s)
          else
            match t_cb task with
            | Some cb => Ret (DoWrap cb (t_threadId task), needTickle, s)
            | None => Ret (DoContinue, needTickle, s)
            end
      | None =>
          match t_cb task with
          | Some cb => Ret (DoWrap cb (t_threadId task), needTickle, s)
          | None => Ret (DoContinue, needTickle, s)
          end
      end
  end.

(** [src/src/scheduler.cpp:128-131] Scheduler::run, after a coroutine has given the thread back *)
Definition after_resume (c : Z) (co : Z → Coroutine.Coroutine) (s : Scheduler)
    : bool * Scheduler :=
  if bool_decide (Coroutine.m_state (co c) = Coroutine.READY)
  then schedule (OfCo (Some c)) (Coroutine.m_threadId (co c)) true s
  else (false, s).

(** [src/src/scheduler.cpp:133-136] Scheduler::run, a closure gets the new coroutine [c] *)
Definition wrap_closure (c tid : Z) (s : Scheduler) : bool * Scheduler :=
  schedule (OfCo (Some c)) tid true s.

(** [src/src/scheduler.cpp:158-161] Scheduler::run, the idle coroutine has given the thread back *)
Definition after_idle (s : Scheduler) : Scheduler :=
  set_counts (m_activeThreadCnt s) (m_idleThreadCnt s - 1) s.

(** [src/src/scheduler.cpp:199-207] Scheduler::idle, one turn: [false] when the loop ends, [true] when it waits for the condition and yields *)
Definition idle_once (tid : Z) (s : Scheduler) : bool :=
  negb (stopping s) && negb (negb (tid =? m_callerThreadId s) && canEarlyClosure s).
End virtual.
