(* ===== verification/SchedulerLock.v ===== *)
(** * The pool of the scheduler under its lock

    [Scheduler::scheduleIterator] as the critical section that it is, one
    statement for each turn of its loop, in many threads at once. *)

From S2P Require Import Prelude Lock LockProps Scheduler.

(** A call of [scheduleIterator] is a section under [m_mutex]: each turn of
    the loop adds one task and keeps in [needTickle] what it was told. *)
Definition schedule_statement (force : bool) (t : OnceTask) (p : Scheduler * bool) : Scheduler * bool :=
  let '(need, s) := scheduleWithoutLock t 0 force p.1 in (s, if need then true else p.2).
Definition batch_section (b : list OnceTask * bool) : Sec Scheduler bool :=
  mkSec Exclusive (map (schedule_statement b.2) b.1) false.

Lemma batch_loop ts force need s :
  statements (map (schedule_statement force) ts) (s, need) =
  (let '(need, s) := schedule_loop ts force need s in (s, need)).
Proof.
  unfold statements. revert s need. induction ts as [|t ts IH]; intros s need; [done|].
  cbn [map foldl schedule_loop]. unfold schedule_statement at 1. cbn [fst snd].
  destruct (scheduleWithoutLock t 0 force s) as [n s']. apply IH.
Qed.

(** Run in one piece it is [scheduleIterator]. *)
Lemma batch_section_run b s :
  sec_run (batch_section b) s = (let '(need, s) := scheduleIterator b.1 b.2 s in (s, need)).
Proof. apply batch_loop. Qed.

(** The tasks that a batch puts into a pool that is open: the empty ones are
    left out. *)
Definition nonempty (t : Task) : Prop := t_cb t ≠ None ∨ t_co t ≠ None.
#[export] Instance nonempty_dec t : Decision (nonempty t) := _.
Definition batch_tasks (ts : list OnceTask) : list Task :=
  filter nonempty (map (λ t, Task_of t 0) ts).

Lemma schedule_loop_pool ts force need s :
  force = true ∨ m_autoStop s = false →
  (schedule_loop ts force need s).2 = set_pool (m_taskPools s ++ batch_tasks ts) s.
Proof.
  revert need s. induction ts as [|t ts IH]; intros need s Hf; simpl.
  - rewrite app_nil_r. by destruct s.
  - unfold scheduleWithoutLock.
    assert (m_autoStop s && negb force = false) as -> by (destruct Hf as [-> | ->]; [apply andb_false_r|done]).
    unfold batch_tasks. cbn [map]. rewrite filter_cons. fold (batch_tasks ts).
    destruct (decide (nonempty (Task_of t 0))) as [Hn|Hn].
    + rewrite (bool_decide_eq_true_2 _ Hn), IH by done. destruct s; simpl. by rewrite <- app_assoc.
    + rewrite (bool_decide_eq_false_2 _ Hn), IH by done. by destruct s.
Qed.

Lemma batches_serial (cs : list (Z * (list OnceTask * bool))) s :
  Forall (λ c, c.2.2 = true ∨ m_autoStop s = false) cs →
  (serial (map (λ c, (c.1, batch_section c.2)) cs) s).1 =
  set_pool (m_taskPools s ++ concat (map (λ c, batch_tasks c.2.1) cs)) s.
Proof.
  revert s. induction cs as [|[t b] cs IH]; intros s Hf; simpl.
  - rewrite app_nil_r. by destruct s.
  - apply Forall_cons in Hf as [Hb Hf]; simpl in Hb. rewrite batch_section_run.
    pose proof (schedule_loop_pool b.1 b.2 false s Hb) as Hp. unfold scheduleIterator.
    destruct (schedule_loop b.1 b.2 false s) as [need s']. cbn [snd] in Hp.
    assert (Forall (λ c, c.2.2 = true ∨ m_autoStop s' = false) cs) as Hf' by (by rewrite Hp).
    specialize (IH s' Hf'). destruct (serial (map _ cs) s') as [d vs]. simpl in *.
    rewrite IH, Hp. destruct s; simpl. by rewrite <- app_assoc.
Qed.

(** The order that a log shows, as batches. *)
Lemma log_batches (l : list (Z * Sec Scheduler bool * bool)) (prog : gmap Z (list (list OnceTask * bool))) :
  (∀ t, secs_of t l = map batch_section (default [] (prog !! t))) →
  ∃ order, l.*1 = map (λ c, (c.1, batch_section c.2)) order ∧
    ∀ t, (filter (λ c, c.1 = t) order).*2 = default [] (prog !! t).
Proof.
  revert prog. induction l as [|[[t c] v] l IH]; intros prog Hp.
  - exists []. split; [done|]. intros t. specialize (Hp t). simpl in *.
    by destruct (default [] (prog !! t)).
  - pose proof (Hp t) as Ht. simpl in Ht. rewrite Z.eqb_refl in Ht.
    destruct (default [] (prog !! t)) as [|b bs] eqn:E; [done|]. simpl in Ht. injection Ht as -> Ht.
    destruct (IH (<[t := bs]> prog)) as (order & Hl & Ho).
    { intros t'. destruct (decide (t = t')) as [<-|N]; [by rewrite lookup_insert_eq|].
      specialize (Hp t'). simpl in Hp. rewrite (proj2 (Z.eqb_neq t t')) in Hp by done.
      by rewrite lookup_insert_ne. }
    exists ((t, b) :: order). split; [by rewrite fmap_cons, Hl|]. intros t'. specialize (Ho t').
    rewrite filter_cons. cbn [fst]. case_decide as Ed.
    + subst t'. rewrite lookup_insert_eq in Ho. rewrite fmap_cons, Ho, E. done.
    + by rewrite lookup_insert_ne in Ho.
Qed.

Section pool.
Context {T SL : Type} `{ScopedLaws T SL}.

(** The threads' calls of [scheduleIterator], with [force]. *)
Definition batches_init (prog : gmap Z (list (list OnceTask * bool))) (s : Scheduler)
    : System T SL Scheduler bool :=
  sys_init (map batch_section <$> prog) s.

(** C30: any number of threads call [scheduleIterator] on an open pool, each
    as often as it likes, and the turns of the loops of the calls interleave
    in any way that the lock allows.  When all have returned, the pool is what
    it was followed by the batches, each in one piece, in an order that keeps
    the order of each thread's calls; no task is lost or split from its
    batch, and nothing else has changed. *)
Theorem scheduleIterator_batches prog s0 ts s :
  map_Forall (λ _ bs, Forall (λ b : list OnceTask * bool, b.2 = true ∨ m_autoStop s0 = false) bs) prog →
  sys_run ts (batches_init prog s0) = Some s →
  length ts = sys_work (s_threads (batches_init prog s0)) →
  ∃ order : list (Z * (list OnceTask * bool)),
    (∀ t, (filter (λ c, c.1 = t) order).*2 = default [] (prog !! t)) ∧
    s_data s = set_pool (m_taskPools s0 ++ concat (map (λ c, batch_tasks c.2.1) order)) s0.
Proof.
  intros Hopen Hr Hl.
  destruct (sys_run_complete (map batch_section <$> prog) s0 ts s) as (Hs & Hp & Hn); [|done..|].
  { intros t cs. rewrite lookup_fmap. destruct (prog !! t) as [bs|]; [|done]. intros [= <-].
    apply Forall_forall. intros c Hc. apply list_elem_of_fmap in Hc as (b & -> & _). by intros [=]. }
  destruct (log_batches (s_log s) prog) as (order & Ho & Hf).
  { intros t. destruct (prog !! t) as [bs|] eqn:E.
    - destruct (Hp t (map batch_section bs)) as [_ Hq]; [by rewrite lookup_fmap, E|]. by rewrite Hq.
    - by rewrite Hn by (by rewrite lookup_fmap, E). }
  exists order. split; [done|]. rewrite Ho in Hs.
  rewrite <- (batches_serial order s0); [by rewrite Hs|].
  apply Forall_forall. intros [t b] Hc.
  assert (b ∈ default [] (prog !! t)) as Hb.
  { rewrite <- Hf. apply list_elem_of_fmap. exists (t, b). split; [done|].
    by apply list_elem_of_filter. }
  destruct (prog !! t) as [bs|] eqn:E; simpl in Hb; [|by apply not_elem_of_nil in Hb].
  specialize (Hopen _ _ E). by eapply Forall_forall in Hopen.
Qed.
End pool.

#[local] Existing Instance map_lock.
#[local] Existing Instance map_lock_laws.

(** Thread 1 calls twice, and thread 2 once in between. *)
Definition demo_batches : gmap Z (list (list OnceTask * bool)) :=
  {[1 := [([OfCb (Some 1%nat); OfCb (Some 2%nat)], false); ([OfCo (Some 8)], false)];
    2 := [([OfCo (Some 7); OfCo None; OfCb (Some 3%nat)], true)]]}.
Definition demo_scheduler : Scheduler := mkScheduler false 0 2 [] [] 0 0 true false [].
Definition demo_calls : list Z := [1; 1; 1; 1; 2; 2; 2; 2; 2; 1; 1; 1].

Lemma demo_batches_open :
  map_Forall (λ _ bs, Forall (λ b : list OnceTask * bool,
    b.2 = true ∨ m_autoStop demo_scheduler = false) bs) demo_batches.
Proof. intros t bs _. apply Forall_forall. intros b _. by right. Qed.

Lemma scheduleIterator_batches_witness :
  ∃ s, sys_run demo_calls
    (batches_init (T := MutexLock (gmap Z Mode)) (SL := ScopedLockTmpl) demo_batches demo_scheduler)
      = Some s ∧
    m_taskPools (s_data s) =
      [mkTask None (Some 1%nat) 0; mkTask None (Some 2%nat) 0; mkTask (Some 7) None 0;
       mkTask None (Some 3%nat) 0; mkTask (Some 8) None 0] ∧
    ∃ order : list (Z * (list OnceTask * bool)),
      (filter (λ c, c.1 = 1) order).*2 =
        [([OfCb (Some 1%nat); OfCb (Some 2%nat)], false); ([OfCo (Some 8)], false)] ∧
      s_data s = set_pool (concat (map (λ c, batch_tasks c.2.1) order)) demo_scheduler.
Proof.
  eexists. split; [vm_compute; reflexivity|]. split; [vm_compute; reflexivity|].
  edestruct (scheduleIterator_batches (T := MutexLock (gmap Z Mode)) (SL := ScopedLockTmpl)
    demo_batches demo_scheduler demo_calls) as (order & Ho & Hs);
    [exact demo_batches_open|vm_compute; reflexivity|vm_compute; reflexivity|].
  exists order. split; [exact (Ho 1)|exact Hs].
Defined.
