(* ===== verification/SchedulerProps.v ===== *)
(** * Properties of the scheduler

    The pool is served in order and by the threads a task allows; what
    [schedule] accepts; when [run] may return; and the coroutine that loses
    its thread. *)

From S2P Require Import Prelude Scheduler.
From S2P Require Coroutine.

#[local] Existing Instance Coroutine.State_eq_dec.

(** A thread may take a task that names no thread or names it. *)
Definition eligible (tid : Z) (t : Task) : bool := (t_threadId t =? 0) || (t_threadId t =? tid).

Definition task_ok (t : Task) : Prop := t_co t ≠ None ∨ t_cb t ≠ None.
Definition pool_ok (s : Scheduler) : Prop := Forall task_ok (m_taskPools s).

Lemma find_task_spec tid pool :
  Forall task_ok pool →
  ∃ passed found rest, find_task tid pool = Ret (passed, found, rest) ∧
    Forall (fun t => eligible tid t = false) passed ∧
    match found with
    | Some t => pool = passed ++ t :: rest ∧ eligible tid t = true
    | None => pool = passed ∧ rest = []
    end.
Proof.
  intros Hp. induction Hp as [|t pool Ht _ IH]; cbn [find_task].
  - by exists [], None, [].
  - assert (negb (t_threadId t =? 0) && negb (t_threadId t =? tid) = negb (eligible tid t)) as ->
      by (unfold eligible; by destruct (_ =? 0), (_ =? tid)).
    destruct (eligible tid t) eqn:He; simpl.
    + rewrite bool_decide_true by done. simpl. by exists [], (Some t), pool.
    + destruct IH as (passed & found & rest & -> & Hf & Hm). simpl.
      exists (t :: passed), found, rest. split_and!; [done|by constructor|].
      destruct found; [by destruct Hm as [-> ?]|by destruct Hm as [-> ->]].
Qed.

Lemma take_task_spec tid s :
  pool_ok s →
  ∃ found need s', take_task tid s = Ret (found, need, s') ∧
    match found with
    | Some t => ∃ l r, m_taskPools s = l ++ t :: r ∧ s' = set_pool (l ++ r) s ∧
        eligible tid t = true ∧ Forall (fun t => eligible tid t = false) l
    | None => s' = s ∧ Forall (fun t => eligible tid t = false) (m_taskPools s)
    end.
Proof.
  intros Hp. destruct (find_task_spec tid _ Hp) as (passed & found & rest & Hf & Hne & Hm).
  unfold take_task. rewrite Hf. cbn [mbind res_bind]. do 3 eexists. split; [done|].
  destruct found as [t|].
  - destruct Hm as [Heq He]. by exists passed, rest.
  - destruct Hm as [Heq ->]. rewrite app_nil_r, Heq. split; [|done].
    rewrite <- Heq. by destruct s.
Qed.

(** The tasks a thread takes when nobody else touches the pool. *)
Fixpoint take_all (fuel : nat) (tid : Z) (s : Scheduler) : res (list Task * Scheduler) :=
  match fuel with
  | O => OutOfFuel
  | S fuel =>
      '(found, _, s') ← take_task tid s;
      match found with
      | None => Ret ([], s')
      | Some t => '(ts, s'') ← take_all fuel tid s'; Ret (t :: ts, s'')
      end
  end.

(** The pool is a queue per thread.  A thread that keeps taking tasks
    takes, in the order in which they were scheduled, exactly those that name
    no thread or name it, and then finds none; the tasks of other threads stay
    in the pool, in order.  No search fails its assertion. *)
Theorem pool_is_fifo tid s :
  pool_ok s →
  take_all (S (length (m_taskPools s))) tid s =
    Ret (filter (fun t => eligible tid t = true) (m_taskPools s),
         set_pool (filter (fun t => eligible tid t = false) (m_taskPools s)) s).
Proof.
  remember (S (length (m_taskPools s))) as fuel eqn:Hfuel.
  assert (length (m_taskPools s) < fuel)%nat as Hlt by lia. clear Hfuel.
  revert s Hlt. induction fuel as [|fuel IH]; [lia|]. intros s Hlt Hp. cbn [take_all].
  destruct (take_task_spec tid s Hp) as (found & need & s' & -> & Hm). cbn [mbind res_bind].
  destruct found as [t|].
  - destruct Hm as (l & r & Heq & -> & He & Hl).
    assert (filter (fun t => eligible tid t = true) l = []) as Hl1.
    { clear -Hl. induction Hl as [|x l Hx _ IHl]; [done|]. rewrite filter_cons_False; [done|congruence]. }
    assert (filter (fun t => eligible tid t = false) l = l) as Hl2.
    { clear -Hl. induction Hl as [|x l Hx _ IHl]; [done|]. rewrite filter_cons_True by done. by f_equal. }
    rewrite IH.
    + cbn [mbind res_bind]. unfold set_pool. simpl. rewrite Heq, !filter_app, Hl1, Hl2.
      rewrite filter_cons_True by done. rewrite filter_cons_False by congruence. done.
    + simpl. rewrite Heq in Hlt. rewrite length_app in *. simpl in Hlt. lia.
    + unfold pool_ok in *. simpl. rewrite Heq in Hp. rewrite Forall_app, Forall_cons in Hp.
      rewrite Forall_app. tauto.
  - destruct Hm as [-> Hl]. do 2 f_equal.
    + clear -Hl. symmetry. induction Hl as [|x l Hx _ IHl]; [done|].
      rewrite filter_cons_False; [done|congruence].
    + assert (filter (fun t => eligible tid t = false) (m_taskPools s) = m_taskPools s) as ->.
      { clear -Hl. induction Hl as [|x l Hx _ IHl]; [done|]. rewrite filter_cons_True by done.
        by f_equal. }
      by destruct s.
Qed.

Definition two_thread_pool : Scheduler :=
  mkScheduler false 1 2 [] [11; 12] 2 0 false false
    [mkTask (Some 100) None 12; mkTask None (Some 5%nat) 0; mkTask (Some 101) None 11].

Lemma two_thread_pool_ok : pool_ok two_thread_pool.
Proof.
  unfold pool_ok, task_ok. simpl. rewrite !Forall_cons, Forall_nil. simpl. naive_solver.
Qed.

Example pool_is_fifo_witness :
  take_all 4 11 two_thread_pool =
    Ret (filter (fun t => eligible 11 t = true) (m_taskPools two_thread_pool),
         set_pool (filter (fun t => eligible 11 t = false) (m_taskPools two_thread_pool))
           two_thread_pool).
Proof. apply (pool_is_fifo 11 two_thread_pool two_thread_pool_ok). Defined.

(** What [schedule] does.  While the scheduler is stopping an unforced
    call changes nothing; otherwise a coroutine or closure goes to the end of
    the pool for the thread given, and nothing goes there for a null one; the
    pool stays well-formed and nothing in it moves; idle threads are woken
    exactly when there are some and the pool is not empty. *)
Theorem schedule_appends t tid force s :
  let '(need, s') := schedule t tid force s in
  (m_autoStop s = true ∧ force = false → s' = s ∧ need = false) ∧
  (m_autoStop s = false ∨ force = true →
     m_taskPools s' = m_taskPools s ++
       match t with
       | OfCo None | OfCb None => []
       | OfCo co => [mkTask co None tid]
       | OfCb cb => [mkTask None cb tid]
       end ∧
     (pool_ok s → pool_ok s') ∧ m_idleThreadCnt s' = m_idleThreadCnt s ∧
     (need = true ↔ m_taskPools s' ≠ [] ∧ 0 < m_idleThreadCnt s)).
Proof.
  unfold schedule, scheduleWithoutLock.
  destruct (m_autoStop s && negb force) eqn:Hf.
  - apply andb_true_iff in Hf as [-> Hf]. destruct force; [done|]. split; [done|]. by intros [].
  - split.
    { intros [Ha ->]. by rewrite Ha in Hf. }
    intros _. unfold pool_ok.
    destruct t as [[c|]|[c|]]; simpl; unfold set_pool; simpl; rewrite ?app_nil_r;
      rewrite ?andb_true_iff, ?bool_decide_eq_true, ?Z.ltb_lt; split_and!; try done;
      intros Hp; apply Forall_app; (split; [done|]); apply Forall_singleton; [by left|by right].
Qed.

(** C27: a thread gives up only when there is nothing left to do.  For any
    virtual methods that strengthen the scheduler's own (those of [IOManager]
    also ask that no event is pending), a turn after which [run] returns finds
    the pool empty and the scheduler told to stop, unless the idle coroutine
    has itself ended; no turn drops a task: the pool after it is the pool
    before it without the task taken. *)
Theorem run_ends_empty (stopping' canEarlyClosure' : Scheduler → bool) tid co idleState s a tick s' :
  (∀ s, stopping' s = true → Scheduler.stopping s = true) →
  (∀ s, canEarlyClosure' s = true → Scheduler.canEarlyClosure s = true) →
  pool_ok s →
  run_once stopping' canEarlyClosure' tid co idleState s = Ret (a, tick, s') →
  ((∃ b, a = DoLast b) → m_taskPools s' = [] ∧ m_autoStop s' = true) ∧
  (a = DoReturn → idleState = Coroutine.TERMINAL ∨ idleState = Coroutine.EXCEPT) ∧
  (m_taskPools s' = m_taskPools s ∨
   ∃ l t r, m_taskPools s = l ++ t :: r ∧ m_taskPools s' = l ++ r ∧ eligible tid t = true).
Proof.
  intros Hst Hcl Hp. destruct (take_task_spec tid s Hp) as (found & need & s1 & Ht & Hm).
  unfold run_once. rewrite Ht. cbn [mbind res_bind]. destruct found as [t|].
  - destruct Hm as (l & r & Heq & -> & He & _).
    assert (∀ a', (a', need, set_pool (l ++ r) s) = (a, tick, s') →
      (∀ b, a' ≠ DoLast b) → a' ≠ DoReturn →
      ((∃ b, a = DoLast b) → m_taskPools s' = [] ∧ m_autoStop s' = true) ∧
      (a = DoReturn → idleState = Coroutine.TERMINAL ∨ idleState = Coroutine.EXCEPT) ∧
      (m_taskPools s' = m_taskPools s ∨
       ∃ l t r, m_taskPools s = l ++ t :: r ∧ m_taskPools s' = l ++ r ∧ eligible tid t = true))
      as Hgen.
    { intros a' [= -> -> <-] H1 H2. split_and!.
      - intros [b ->]. by destruct (H1 b).
      - intros ->. done.
      - right. by exists l, t, r. }
    destruct (t_co t) as [c|]; [case_if; [case_if|destruct (t_cb t)]|destruct (t_cb t)];
      intros [= <- <- <-]; by eapply Hgen.
  - destruct Hm as [-> Hl]. unfold run_idle.
    case_if.
    { apply bool_decide_eq_true in E. intros [= <- <- <-]. split_and!; try done; [by intros []|by left]. }
    repeat case_if; intros [= <- <- <-]; split_and!; try done; try (by left); try (by intros []).
    + intros _. specialize (Hst _ E1). unfold Scheduler.stopping in Hst.
      rewrite !andb_true_iff, bool_decide_eq_true in Hst. tauto.
    + intros _. specialize (Hcl _ E1). unfold Scheduler.canEarlyClosure in Hcl.
      rewrite !andb_true_iff, bool_decide_eq_true in Hcl. simpl. tauto.
Qed.

Definition idle_caller : Scheduler := mkScheduler true 10 0 [10] [] 0 0 true true [].

Example run_ends_empty_witness :
  run_once stopping canEarlyClosure 10 (fun _ => Coroutine.mkCoroutine 0 0 0 Coroutine.INIT
    Coroutine.Entry None true true Coroutine.NotStarted) Coroutine.YIELD idle_caller
    = Ret (DoLast false, true, idle_caller) ∧
  (((∃ b, DoLast false = DoLast b) → m_taskPools idle_caller = [] ∧ m_autoStop idle_caller = true) ∧
   (DoLast false = DoReturn → Coroutine.YIELD = Coroutine.TERMINAL ∨ Coroutine.YIELD = Coroutine.EXCEPT) ∧
   (m_taskPools idle_caller = m_taskPools idle_caller ∨
    ∃ l t r, m_taskPools idle_caller = l ++ t :: r ∧ m_taskPools idle_caller = l ++ r ∧
      eligible 10 t = true)).
Proof.
  split; [reflexivity|].
  apply (run_ends_empty stopping canEarlyClosure 10 (fun _ => Coroutine.mkCoroutine 0 0 0 Coroutine.INIT
    Coroutine.Entry None true true Coroutine.NotStarted) Coroutine.YIELD idle_caller (DoLast false)
    true idle_caller); [done|done|constructor|reflexivity].
Defined.

(** C39: a coroutine scheduled without a thread loses the one it was running
    on (the thread is recorded in a copy of the task that is thrown away), so
    any thread may take it; and a coroutine whose stack lives in another
    thread does not run there: [resume] finds no such stack, logs and returns.
    So the task is taken out of the pool, the coroutine makes no step, and
    nothing refers to it any more. *)
Theorem migrated_coroutine_lost s c co m2 cc t2 :
  m_autoStop s = false → m_taskPools s = [] →
  Coroutine.t_cos m2 !! c = Some cc → co c = cc →
  Coroutine.m_state cc = Coroutine.YIELD → 0 < Coroutine.m_stackId cc →
  Coroutine.t_map_co_stack m2 !! Coroutine.m_stackId cc = None →
  ∃ need s1 tick s2, schedule (OfCo (Some c)) 0 false s = (need, s1) ∧
    run_once stopping canEarlyClosure t2 co Coroutine.YIELD s1 = Ret (DoResume c, tick, s2) ∧
    Coroutine.resume t2 false c m2 = Ret m2 ∧
    m_taskPools (snd (after_resume c co s2)) = [].
Proof.
  intros Ha Hp Hc Hco Hst Hpos Hmap. unfold schedule, scheduleWithoutLock.
  rewrite Ha. simpl. do 4 eexists. split; [done|].
  unfold run_once, take_task, set_pool. simpl. rewrite Hp. simpl. split; [|split].
  - rewrite Hco, Hst, (proj2 (Z.ltb_lt _ _)) by done. simpl. reflexivity.
  - unfold Coroutine.resume, Coroutine.co_at. cbn [deref mbind res_bind]. rewrite Hc.
    cbn [deref mbind res_bind]. rewrite (proj2 (Z.ltb_lt _ _)) by done. cbn [orb mbind res_bind].
    cbn [Coroutine.t_map_co_stack Coroutine.upd Coroutine.with_cos]. rewrite Hmap.
    f_equal. unfold Coroutine.upd, Coroutine.with_cos. destruct m2; simpl in *. f_equal.
    apply alter_id. intros x Hx. rewrite Hc in Hx. injection Hx as <-. by destruct cc.
  - unfold after_resume. rewrite Hco, Hst. done.
Qed.

Definition waiting_co : Coroutine.Coroutine :=
  Coroutine.mkCoroutine 1 4 11 Coroutine.YIELD (Coroutine.Susp 100 0) None true true (Coroutine.At 0).

Example migrated_coroutine_lost_witness :
  let s := mkScheduler false 1 2 [] [11; 12] 2 0 false false [] in
  let m2 := Coroutine.mkThread 1 1 4 None None None None ∅ {[100 := waiting_co]} None 1 in
  ∃ need s1 tick s2, schedule (OfCo (Some 100)) 0 false s = (need, s1) ∧
    run_once stopping canEarlyClosure 12 (fun _ => waiting_co) Coroutine.YIELD s1
      = Ret (DoResume 100, tick, s2) ∧
    Coroutine.resume 12 false 100 m2 = Ret m2 ∧
    m_taskPools (snd (after_resume 100 (fun _ => waiting_co) s2)) = [].
Proof.
  apply (migrated_coroutine_lost
    (mkScheduler false 1 2 [] [11; 12] 2 0 false false []) 100 (fun _ => waiting_co)
    (Coroutine.mkThread 1 1 4 None None None None ∅ {[100 := waiting_co]} None 1) waiting_co 12);
    reflexivity.
Defined.
