(* ===== verification/SchedulerWait.v ===== *)
(** * How the threads of a plain scheduler wait

    [Scheduler::idle] waits for a condition variable and [Scheduler::tickle]
    signals it (an [IOManager] overrides both).  The threads of a pool, each
    somewhere in its loop, with any interleaving of their critical sections,
    of calls of [schedule] and [stop], and of spurious wake-ups. *)

From S2P Require Import Prelude Thread ThreadProps Scheduler SchedulerProps.
From S2P Require Coroutine.

(** Where a thread of the pool is: in [run], before the search of the pool; after
    a search that found nothing; counted as idle and on the way to the
    condition variable; in [CondWait]; back from it and still counted. *)
Inductive Phase : Set := Running | Searched | Idling | Waiting | Back.
#[export] Instance Phase_eq_dec : EqDecision Phase.
Proof. solve_decision. Defined.

Section wait.
Context {C : Type} `{CondOps C}.

Record Pool := mkPool { p_s : Scheduler; p_cond : C; p_phase : gmap Z Phase }.

(** [Scheduler::tickle] when [need]. *)
Definition tickle_if (need : bool) (s : Scheduler) (c : C) : C :=
  if need then CondSignal (tickle s) c else c.

Inductive PEvent :=
| PSchedule (t : OnceTask) (tid : Z) (force : bool)
| PStop (tid : Z) (callerState : Coroutine.State)
| PTurn (tid : Z) (co : Z → Coroutine.Coroutine)
| PCount (tid : Z) (idleState : Coroutine.State)
| PWait (tid : Z)
| PWake (tid : Z)
| PSpurious (tid : Z)
| PBack (tid : Z).

(** [None]: not possible now.  [PTurn] is the first critical section of [run],
    the search of the pool, with the task when there is one (what the task
    schedules comes as [PSchedule]); [PCount] is the second one, of a turn that
    found nothing.  A woken thread goes on when it is no longer blocked. *)
Definition pool_step (e : PEvent) (p : Pool) : option Pool :=
  match e with
  | PSchedule t tid force =>
      let '(need, s) := schedule t tid force (p_s p) in
      Some (mkPool s (tickle_if need s (p_cond p)) (p_phase p))
  | PStop tid callerState =>
      Some (mkPool (stop stopping tid callerState (p_s p)).2 (p_cond p) (p_phase p))
  | PTurn tid co =>
      match p_phase p !! tid, take_task tid (p_s p) with
      | Some Running, Ret (None, need, s) =>
          Some (mkPool s (tickle_if need s (p_cond p)) (<[tid := Searched]> (p_phase p)))
      | Some Running, Ret (Some _, _, _) =>
          match run_once stopping canEarlyClosure tid co Coroutine.INIT (p_s p) with
          | Ret (_, need, s) => Some (mkPool s (tickle_if need s (p_cond p)) (p_phase p))
          | _ => None
          end
      | _, _ => None
      end
  | PCount tid idleState =>
      match p_phase p !! tid with
      | Some Searched =>
          let '(a, s) := run_idle stopping canEarlyClosure tid idleState (p_s p) in
          let c := tickle_if (m_autoStop (p_s p) && negb (bool_decide (a = DoReturn))) (p_s p) (p_cond p) in
          Some (match a with
                | DoIdle => mkPool s c (<[tid := Idling]> (p_phase p))
                | DoLast tickles => mkPool s (tickle_if tickles s c) (delete tid (p_phase p))
                | DoReturn => mkPool s c (delete tid (p_phase p))
                | _ => mkPool s c (<[tid := Running]> (p_phase p))
                end)
      | _ => None
      end
  | PWait tid =>
      match p_phase p !! tid with
      | Some Idling =>
          if idle_once stopping canEarlyClosure tid (p_s p)
          then Some (mkPool (p_s p) (CondWait tid (p_cond p)) (<[tid := Waiting]> (p_phase p)))
          else Some (mkPool (p_s p) (p_cond p) (<[tid := Back]> (p_phase p)))
      | _ => None
      end
  | PWake tid =>
      match p_phase p !! tid with
      | Some Waiting =>
          if bool_decide (tid ∈ cond_blocked (p_cond p)) then None
          else Some (mkPool (p_s p) (p_cond p) (<[tid := Back]> (p_phase p)))
      | _ => None
      end
  | PSpurious tid =>
      match p_phase p !! tid with
      | Some Waiting => Some (mkPool (p_s p) (cond_leave tid (p_cond p)) (<[tid := Back]> (p_phase p)))
      | _ => None
      end
  | PBack tid =>
      match p_phase p !! tid with
      | Some Back => Some (mkPool (after_idle (p_s p)) (p_cond p) (<[tid := Running]> (p_phase p)))
      | _ => None
      end
  end.
Fixpoint pool_steps (es : list PEvent) (p : Pool) : option Pool :=
  match es with
  | [] => Some p
  | e :: es => p ← pool_step e p; pool_steps es p
  end.

(** ** The count of the idle threads *)

Definition counted (f : Phase) : nat := match f with Running | Searched => 0 | _ => 1 end.
Definition idle_count (m : gmap Z Phase) : nat := map_fold (λ _ f n, (counted f + n)%nat) 0%nat m.

Lemma idle_count_insert t f m :
  m !! t = None → idle_count (<[t := f]> m) = (counted f + idle_count m)%nat.
Proof. intros Hn. apply (map_fold_insert_L (λ _ f n, (counted f + n)%nat)); [lia|done]. Qed.
Lemma idle_count_delete t f m :
  m !! t = Some f → idle_count m = (counted f + idle_count (delete t m))%nat.
Proof.
  intros E. rewrite <- (idle_count_insert t) by apply lookup_delete_eq. by rewrite insert_delete_id.
Qed.
Lemma idle_count_update t f g m :
  m !! t = Some f → (idle_count (<[t := g]> m) + counted f = idle_count m + counted g)%nat.
Proof.
  intros E. rewrite (idle_count_delete t f m E). rewrite <- (insert_delete_eq m t g).
  rewrite (idle_count_insert t g) by apply lookup_delete_eq. lia.
Qed.
(** Threads known to be counted are at most the count. *)
Lemma idle_count_size (X : gset Z) m :
  (∀ t, t ∈ X → ∃ f, m !! t = Some f ∧ counted f = 1%nat) → (size X <= idle_count m)%nat.
Proof.
  revert m. induction X as [|t X Ht IH] using set_ind_L; intros m Hm; [rewrite size_empty; lia|].
  rewrite size_union, size_singleton by set_solver.
  destruct (Hm t) as (f & E & Hf); [set_solver|]. rewrite (idle_count_delete t f m E), Hf.
  apply le_n_S, IH. intros t' Ht'. destruct (Hm t') as (f' & E' & Hf'); [set_solver|].
  exists f'. split; [|done]. rewrite lookup_delete_ne; [done|]. intros ->. done.
Qed.

Record pool_inv (p : Pool) : Prop := {
  inv_tasks : pool_ok (p_s p);
  inv_count : m_idleThreadCnt (p_s p) = Z.of_nat (idle_count (p_phase p));
  inv_blocked t : t ∈ cond_blocked (p_cond p) → p_phase p !! t = Some Waiting
}.

(** A scheduler with part of the pool, or with other flags. *)
Lemma take_task_facts tid s found need s' :
  pool_ok s → take_task tid s = Ret (found, need, s') →
  pool_ok s' ∧ m_idleThreadCnt s' = m_idleThreadCnt s.
Proof.
  intros Hp E. destruct (take_task_spec tid s Hp) as (f & n & s1 & Ht & Hm).
  rewrite E in Ht. injection Ht as -> -> ->. destruct f as [t|]; [|by destruct Hm as [-> _]].
  destruct Hm as (l & r & Heq & -> & _). split; [|done].
  unfold pool_ok in *; simpl. rewrite Heq in Hp.
  apply Forall_app in Hp as [Hl [_ Hr]%Forall_cons]. by apply Forall_app.
Qed.
Lemma run_once_found tid co st s t need0 s1 a need s' :
  take_task tid s = Ret (Some t, need0, s1) →
  run_once stopping canEarlyClosure tid co st s = Ret (a, need, s') → s' = s1.
Proof.
  intros Ht. unfold run_once. rewrite Ht, ret_bind. cbn iota beta. intros Hr.
  repeat (case_match; try discriminate Hr); by injection Hr.
Qed.
Lemma run_idle_facts tid st s a s' :
  pool_ok s → run_idle stopping canEarlyClosure tid st s = (a, s') →
  pool_ok s' ∧ m_idleThreadCnt s' = m_idleThreadCnt s + (if bool_decide (a = DoIdle) then 1 else 0).
Proof.
  intros Hp E. unfold run_idle in E. repeat (case_match; try done); injection E as <- <-;
    (split; [exact Hp|]); case_bool_decide; simpl; (done || lia).
Qed.
Lemma stop_facts tid st s :
  let s' := (stop stopping tid st s).2 in
  m_taskPools s' = m_taskPools s ∧ m_idleThreadCnt s' = m_idleThreadCnt s.
Proof. cbn zeta. unfold stop. by repeat case_match. Qed.

Context `{!CondLaws C}.

Lemma CondSignal_subset cnt c : cond_blocked (CondSignal cnt c) ⊆ cond_blocked c.
Proof.
  unfold CondSignal. revert c. induction (Z.to_nat cnt) as [|n IH]; intros c; simpl; [done|].
  etrans; [apply IH|]. destruct (decide (cond_blocked c = ∅)) as [E|N].
  - by rewrite cond_signal_none.
  - by apply cond_signal_some.
Qed.
Lemma tickle_subset need s c : cond_blocked (tickle_if need s c) ⊆ cond_blocked c.
Proof. destruct need; [apply CondSignal_subset|done]. Qed.

Lemma schedule_facts t tid force s :
  pool_ok s →
  pool_ok (schedule t tid force s).2 ∧
  m_idleThreadCnt (schedule t tid force s).2 = m_idleThreadCnt s.
Proof.
  intros Hp. unfold schedule, scheduleWithoutLock. case_match; simpl; [done|].
  case_bool_decide; simpl; [|done].
  split; [|done]. unfold pool_ok in *; simpl. apply Forall_app. split; [done|].
  apply Forall_cons. split; [unfold task_ok; tauto|done].
Qed.

(** A step of thread [tid] that changes its phase from [f] to [g]. *)
Lemma phase_inv p tid f g s c :
  pool_inv p → p_phase p !! tid = Some f → pool_ok s →
  m_idleThreadCnt s + Z.of_nat (counted f) = m_idleThreadCnt (p_s p) + Z.of_nat (counted g) →
  (∀ t, t ∈ cond_blocked c → t ∈ cond_blocked (p_cond p) ∨ (t = tid ∧ g = Waiting)) →
  (f = Waiting → g = Waiting ∨ tid ∉ cond_blocked c) →
  pool_inv (mkPool s c (<[tid := g]> (p_phase p))).
Proof.
  intros [Hp Hc Hb] E Hs Hi Hsub Hf. split; simpl; [done|..].
  - pose proof (idle_count_update tid f g _ E). lia.
  - intros t Ht. destruct (decide (t = tid)) as [->|N].
    + rewrite lookup_insert_eq. f_equal. destruct (Hsub _ Ht) as [Hin|[_ ->]]; [|done].
      apply Hb in Hin. rewrite E in Hin. injection Hin as ->. by destruct (Hf eq_refl).
    + rewrite lookup_insert_ne by done. destruct (Hsub _ Ht) as [Hin|[-> _]]; [by apply Hb|done].
Qed.

(** A step that keeps the phases, or takes an uncounted thread out. *)
Lemma same_inv p s c m :
  pool_inv p → pool_ok s → m_idleThreadCnt s = m_idleThreadCnt (p_s p) →
  cond_blocked c ⊆ cond_blocked (p_cond p) →
  (m = p_phase p ∨ ∃ tid f, p_phase p !! tid = Some f ∧ counted f = 0%nat ∧ m = delete tid (p_phase p)) →
  pool_inv (mkPool s c m).
Proof.
  intros [Hp Hc Hb] Hs Hi Hsub Hm. split; simpl; [done|rewrite Hi, Hc|].
  - destruct Hm as [->|(tid & f & E & Hf & ->)]; [done|]. by rewrite (idle_count_delete tid f _ E), Hf.
  - intros t Ht%Hsub%Hb. destruct Hm as [->|(tid & f & E & Hf & ->)]; [done|].
    rewrite lookup_delete_ne; [done|]. intros ->. rewrite E in Ht. by injection Ht as ->.
Qed.

Lemma pool_step_inv e p p' : pool_inv p → pool_step e p = Some p' → pool_inv p'.
Proof.
  intros Hinv. pose proof Hinv as [Hp Hc Hb].
  destruct e as [t tid force|tid st|tid co|tid st|tid|tid|tid|tid]; cbn [pool_step].
  - destruct (schedule_facts t tid force _ Hp) as [Hs Hi].
    destruct (schedule t tid force (p_s p)) as [need s]. intros [= <-].
    apply (same_inv p); [done..|apply tickle_subset|by left].
  - destruct (stop_facts tid st (p_s p)) as [Ht Hi]. intros [= <-].
    apply (same_inv p); [done| |done|done|by left]. unfold pool_ok. by rewrite Ht.
  - destruct (p_phase p !! tid) as [[]|] eqn:E; try done.
    destruct (take_task tid (p_s p)) as [[[found need] s]| | | |] eqn:Et; try done.
    destruct (take_task_facts _ _ _ _ _ Hp Et) as [Hs Hi]. destruct found as [t|].
    + destruct (run_once _ _ _ _ _ _) as [[[a need'] s']| | | |] eqn:Er; try done. intros [= <-].
      rewrite (run_once_found _ _ _ _ _ _ _ _ _ _ Et Er).
      apply (same_inv p); [done..|apply tickle_subset|by left].
    + intros [= <-]. eapply (phase_inv p tid Running Searched); [done..|simpl; lia| |done].
      intros t Ht. left. revert Ht. apply tickle_subset.
  - destruct (p_phase p !! tid) as [[]|] eqn:E; try done.
    destruct (run_idle _ _ _ _ _) as [a s] eqn:Er. intros [= <-].
    destruct (run_idle_facts _ _ _ _ _ Hp Er) as [Hs Hi].
    set (c := tickle_if _ (p_s p) (p_cond p)).
    assert (cond_blocked c ⊆ cond_blocked (p_cond p)) as Hsub by apply tickle_subset.
    destruct (decide (a = DoIdle)) as [->|Na].
    + eapply (phase_inv p tid Searched Idling); [done..|simpl in *; lia|intros t Ht; left; by apply Hsub|done].
    + rewrite bool_decide_eq_false_2 in Hi by done.
      assert (pool_inv (mkPool s c (<[tid := Running]> (p_phase p)))).
      { eapply (phase_inv p tid Searched Running); [done..|simpl; lia|intros t Ht; left; by apply Hsub|done]. }
      assert (∀ c', cond_blocked c' ⊆ cond_blocked (p_cond p) →
        pool_inv (mkPool s c' (delete tid (p_phase p)))) as Hdel.
      { intros c' Hc'. apply (same_inv p); [done|done|lia|done|]. right. by exists tid, Searched. }
      destruct a; try done; apply Hdel; [|done]. etrans; [apply tickle_subset|done].
  - destruct (p_phase p !! tid) as [[]|] eqn:E; try done. case_match; intros [= <-].
    + eapply (phase_inv p tid Idling Waiting); [done..|simpl; unfold CondWait; intros t|done].
      rewrite cond_block_spec. set_solver.
    + eapply (phase_inv p tid Idling Back); [done..|by left|done].
  - destruct (p_phase p !! tid) as [[]|] eqn:E; try done. case_bool_decide; [done|]. intros [= <-].
    eapply (phase_inv p tid Waiting Back); [done..|by left|by right].
  - destruct (p_phase p !! tid) as [[]|] eqn:E; try done. intros [= <-].
    eapply (phase_inv p tid Waiting Back); [done..| |].
    + intros t. rewrite cond_leave_spec. set_solver.
    + right. rewrite cond_leave_spec. set_solver.
  - destruct (p_phase p !! tid) as [[]|] eqn:E; try done. intros [= <-].
    eapply (phase_inv p tid Back Running); [done|done|done|simpl; lia|by left|done].
Qed.

(** A pool when its threads start. *)
Definition pool_start (p : Pool) : Prop :=
  pool_ok (p_s p) ∧ m_idleThreadCnt (p_s p) = 0 ∧ cond_blocked (p_cond p) = ∅ ∧
  map_Forall (λ _ f, f = Running) (p_phase p).

Lemma pool_start_inv p : pool_start p → pool_inv p.
Proof.
  intros (Hp & Hi & Hb & Hf). split; [done| |intros t; rewrite Hb; set_solver].
  rewrite Hi. change 0 with (Z.of_nat 0). f_equal. revert Hf. generalize (p_phase p). intros m.
  induction m as [|t f m Hn IH] using map_ind; intros Hf; [unfold idle_count; by rewrite map_fold_empty|].
  apply map_Forall_insert in Hf as [-> Hf]; [|done].
  rewrite idle_count_insert by done. simpl. by apply IH.
Qed.
Lemma pool_steps_inv es p p' : pool_inv p → pool_steps es p = Some p' → pool_inv p'.
Proof.
  revert p. induction es as [|e es IH]; intros p Hp; simpl; [by intros [= <-]|].
  destruct (pool_step e p) as [p1|] eqn:E; simpl; [|done]. apply IH. by eapply pool_step_inv.
Qed.

(** A call of [schedule] that puts a task into the pool wakes all who wait. *)
Lemma schedule_wakes_all t tid force p :
  pool_inv p → m_autoStop (p_s p) = false → task_ok (Task_of t tid) →
  ∃ s c, pool_step (PSchedule t tid force) p = Some (mkPool s c (p_phase p)) ∧
    m_taskPools s = m_taskPools (p_s p) ++ [Task_of t tid] ∧ m_autoStop s = false ∧
    cond_blocked c = ∅.
Proof.
  intros [Hp Hc Hb] Ha Ht. unfold pool_step, schedule, scheduleWithoutLock. rewrite Ha. simpl.
  rewrite bool_decide_eq_true_2 by (unfold task_ok in Ht; tauto). simpl.
  rewrite bool_decide_eq_true_2 by (by destruct (m_taskPools (p_s p))). simpl.
  do 2 eexists. split; [done|]. split; [done|]. split; [done|].
  assert (Z.of_nat (size (cond_blocked (p_cond p))) <= m_idleThreadCnt (p_s p)) as Hle.
  { rewrite Hc. apply inj_le, idle_count_size. intros t' Ht'%Hb. by eexists. }
  unfold tickle_if. case_match eqn:Hi.
  - apply CondSignal_all. done.
  - apply Z.ltb_ge in Hi. apply leibniz_equiv, size_empty_inv. lia.
Qed.

(** A pool whose only thread waits, and what can happen to it without a call of
    [schedule] and without a spurious wake-up: nothing but [stop], which wakes
    nobody. *)
Definition no_wake_up (e : PEvent) : Prop :=
  match e with PSchedule _ _ _ | PSpurious _ => False | _ => True end.
Lemma asleep_for_good w es p p' :
  p_phase p = {[w := Waiting]} → w ∈ cond_blocked (p_cond p) →
  Forall no_wake_up es → pool_steps es p = Some p' →
  p_phase p' = {[w := Waiting]} ∧ w ∈ cond_blocked (p_cond p') ∧
  m_taskPools (p_s p') = m_taskPools (p_s p).
Proof.
  intros Hw Hb Hes. revert p Hw Hb. induction Hes as [|e es He _ IH]; intros p Hw Hb; cbn [pool_steps].
  { by intros [= <-]. }
  destruct (pool_step e p) as [p1|] eqn:E; [|done]. cbn [mbind option_bind]. intros Hs.
  assert (∀ t f, p_phase p !! t = Some f → t = w ∧ f = Waiting) as Hph.
  { intros t f. rewrite Hw. intros [-> ->]%lookup_singleton_Some. done. }
  destruct e as [?|tid st|tid co|tid st|tid|tid|tid|tid]; cbn [pool_step] in E; try done.
  { injection E as <-. destruct (stop_facts tid st (p_s p)) as [Ht _].
    destruct (IH (mkPool _ _ _) Hw Hb Hs) as (H1 & H2 & H3). by rewrite H3. }
  all: destruct (p_phase p !! tid) as [f|] eqn:Ef; [|done]; destruct (Hph _ _ Ef) as [-> ->]; try done.
  by rewrite bool_decide_eq_true_2 in E.
Qed.

End wait.
Arguments Pool : clear implicits.

(** A condition variable is the set of those that wait; a signal wakes the
    one with the smallest key. *)
#[local] Instance set_cond : CondOps (gset Z) := {|
  cond_block t c := {[t]} ∪ c;
  cond_signal c := match elements c with [] => c | t :: _ => c ∖ {[t]} end;
  cond_leave t c := c ∖ {[t]};
  cond_blocked c := c
|}.
#[local] Instance set_cond_laws : CondLaws (gset Z).
Proof.
  split; simpl.
  - done.
  - intros c Hc. destruct (elements c) as [|t l] eqn:E; [by apply elements_empty_inv, leibniz_equiv in E|].
    assert (t ∈ c) by (apply elem_of_elements; rewrite E; by left). set_solver.
  - intros c ->. by rewrite elements_empty.
  - done.
Qed.

(** One thread, an empty pool, and a task that comes just before the wait. *)
Definition demo_pool : Pool (gset Z) :=
  mkPool (mkScheduler false 1 1 [11] [11] 1 0 false false []) ∅ {[11 := Running]}.
Definition demo_co : Z → Coroutine.Coroutine :=
  λ _, Coroutine.mkCoroutine 0 0 0 Coroutine.INIT Coroutine.Got None false false Coroutine.NotStarted.
Definition demo_turn : list PEvent := [PTurn 11 demo_co].

