(* ===== verification/SchedulerLive.v ===== *)
(** * Progress of the scheduler

    The pool under any interleaving of the threads' turns and of calls of
    [schedule]: a task does not wait for ever behind the tasks of others. *)

From S2P Require Import Prelude Scheduler SchedulerProps.
From S2P Require Coroutine.

(** ** Interleavings *)

(** One critical section: a call of [schedule] from anywhere (the code of a
    coroutine, another thread, a wrapped closure, [after_resume]), a turn of
    [run] in a thread, the end of the wait of an idle thread, or [stop]. *)
Inductive event :=
| EvSchedule (t : OnceTask) (tid : Z) (force : bool)
| EvTurn (tid : Z) (co : Z → Coroutine.Coroutine) (idleState : Coroutine.State)
| EvAfterIdle
| EvStop (tid : Z) (callerState : Coroutine.State).

Section interleaving.
Context (stopping canEarlyClosure : Scheduler → bool).

Definition event_step (e : event) (s : Scheduler) : res Scheduler :=
  match e with
  | EvSchedule t tid force => Ret (snd (schedule t tid force s))
  | EvTurn tid co idleState =>
      '(_, _, s') ← run_once stopping canEarlyClosure tid co idleState s; Ret s'
  | EvAfterIdle => Ret (after_idle s)
  | EvStop tid callerState => Ret (snd (stop stopping tid callerState s))
  end.
Fixpoint events_run (es : list event) (s : Scheduler) : res Scheduler :=
  match es with
  | [] => Ret s
  | e :: es => s ← event_step e s; events_run es s
  end.

(** The turns of a thread. *)
Definition is_turn (tid : Z) (e : event) : bool :=
  match e with EvTurn tid' _ _ => tid' =? tid | _ => false end.
Definition turns (tid : Z) (es : list event) : nat := length (filter (λ e, is_turn tid e = true) es).

(** The tasks that a thread takes before the one behind [l]. *)
Definition before (tid : Z) (l : list Task) : nat := length (filter (λ t, eligible tid t = true) l).

Lemma turns_cons tid e es : turns tid (e :: es) = ((if is_turn tid e then 1 else 0) + turns tid es)%nat.
Proof. unfold turns. rewrite filter_cons. destruct (is_turn tid e); [by rewrite decide_True|by rewrite decide_False]. Qed.
Lemma before_app tid l l' : before tid (l ++ l') = (before tid l + before tid l')%nat.
Proof. unfold before. by rewrite filter_app, length_app. Qed.
Lemma before_cons tid t l : before tid (t :: l) = ((if eligible tid t then 1 else 0) + before tid l)%nat.
Proof. unfold before. rewrite filter_cons. destruct (eligible tid t); [by rewrite decide_True|by rewrite decide_False]. Qed.
Lemma turns_nil tid : turns tid [] = 0%nat.
Proof. done. Qed.

Lemma split_cases {A} (l l0 r r0 : list A) t t0 :
  l ++ t :: r = l0 ++ t0 :: r0 →
  (∃ l1, l = l0 ++ t0 :: l1 ∧ r0 = l1 ++ t :: r) ∨ (l = l0 ∧ t = t0 ∧ r = r0) ∨
  (∃ r1, l0 = l ++ t :: r1 ∧ r = r1 ++ t0 :: r0).
Proof.
  revert l0. induction l as [|x l IH]; intros [|y l0] H; simpl in H; injection H as <- H.
  - by right; left.
  - right. right. by exists l0.
  - left. by exists l.
  - destruct (IH l0 H) as [(l1 & -> & ->)|[(-> & -> & ->)|(r1 & -> & ->)]]; eauto 10.
Qed.

Lemma run_once_pool tid co idle s :
  pool_ok s → ∃ a tick s' found need s1,
    run_once stopping canEarlyClosure tid co idle s = Ret (a, tick, s') ∧
    take_task tid s = Ret (found, need, s1) ∧ m_taskPools s' = m_taskPools s1.
Proof.
  intros Hp. destruct (take_task_spec tid s Hp) as (found & need & s1 & Ht & _).
  unfold run_once. rewrite Ht, ret_bind. destruct found as [t|].
  - destruct (t_co t) as [c|]; [case_if; [|destruct (t_cb t)]|destruct (t_cb t)]; by eexists _, _, _, _, _, _.
  - destruct (run_idle stopping canEarlyClosure tid idle s1) as [a s2] eqn:E.
    eexists _, _, _, _, _, _. split; [done|]. split; [done|].
    unfold run_idle in E. repeat (case_match; try done); by injection E as <- <-.
Qed.

Lemma stop_pool tid st s : m_taskPools (snd (stop stopping tid st s)) = m_taskPools s.
Proof. unfold stop. repeat (case_if || simpl); done. Qed.

(** What one event does to a task in the pool: it is taken, or it is still
    there, behind no more tasks, and behind fewer of those that [tid] takes
    first if the event is a turn of [tid]. *)
Lemma event_step_task tid e s l t r :
  pool_ok s → m_taskPools s = l ++ t :: r → eligible tid t = true →
  ∃ s', event_step e s = Ret s' ∧ pool_ok s' ∧
    ((∃ tid' co idle need s1, e = EvTurn tid' co idle ∧ take_task tid' s = Ret (Some t, need, s1) ∧
        m_taskPools s1 = l ++ r ∧ eligible tid' t = true) ∨
     (∃ l' r', m_taskPools s' = l' ++ t :: r' ∧ l' `sublist_of` l ∧
        (before tid l' + turns tid [e] <= before tid l)%nat)).
Proof.
  intros Hp Hpool He. destruct e as [ot otid force|tid' co idle| |tid' cst]; cbn [event_step].
  - eexists. split; [done|]. pose proof (schedule_appends ot otid force s) as H.
    destruct (schedule ot otid force s) as [need s']. simpl. destruct H as [H1 H2].
    assert (m_taskPools s' = m_taskPools s ∧ pool_ok s' ∨
      ∃ x, m_taskPools s' = m_taskPools s ++ x ∧ pool_ok s') as Hs'.
    { destruct (m_autoStop s) eqn:Ha, force; [right| |right|right];
        [| by destruct H1 as [-> _]; [done|left]| |];
        (destruct H2 as (H2 & H3 & _); [by (left + right)|]; eexists; split; [exact H2|auto]). }
    destruct Hs' as [[Hs' Hok]|(x & Hs' & Hok)]; (split; [done|]); right.
    + exists l, r. rewrite Hs'. split; [done|]. split; [done|]. rewrite turns_cons, turns_nil. simpl. lia.
    + exists l, (r ++ x). rewrite Hs', Hpool, <- app_assoc. split; [done|]. split; [done|].
      rewrite turns_cons, turns_nil. simpl. lia.
  - destruct (run_once_pool tid' co idle s Hp) as (a & tick & s' & found & need & s1 & -> & Ht & Hs').
    rewrite ret_bind. exists s'. split; [done|].
    destruct (take_task_spec tid' s Hp) as (found' & need' & s1' & Ht' & Hm). rewrite Ht in Ht'.
    injection Ht' as <- <- <-. destruct found as [t0|].
    + destruct Hm as (l0 & r0 & Hpool' & -> & He0 & Hl0). simpl in Hs'.
      assert (pool_ok s') as Hok.
      { unfold pool_ok in *. rewrite Hs'. rewrite Hpool', Forall_app, Forall_cons in Hp.
        rewrite Forall_app. tauto. }
      split; [done|]. rewrite Hpool in Hpool'.
      destruct (split_cases _ _ _ _ _ _ Hpool') as [(l1 & -> & ->)|[(-> & -> & ->)|(r1 & -> & ->)]].
      * right. exists (l0 ++ l1), r. rewrite Hs', <- app_assoc. split; [done|].
        split; [apply sublist_app; [done|by apply sublist_cons]|].
        rewrite !before_app, before_cons, turns_cons, turns_nil. simpl.
        destruct (Z.eqb_spec tid' tid) as [->|Hne]; [rewrite He0|destruct (eligible tid t0)]; lia.
      * left. eexists tid', co, idle, need, _. done.
      * right. exists l, (r1 ++ r0). rewrite Hs', <- app_assoc. split; [done|]. split; [done|].
        apply Forall_app in Hl0 as [_ Hl0]. apply Forall_cons in Hl0 as [Hne _].
        rewrite turns_cons, turns_nil. simpl. destruct (Z.eqb_spec tid' tid) as [->|]; [congruence|]. lia.
    + destruct Hm as [-> Hl0].
      assert (pool_ok s') as Hok by (unfold pool_ok in *; by rewrite Hs').
      split; [done|]. right. exists l, r. rewrite Hs'. split; [done|]. split; [done|].
      rewrite Hpool in Hl0. apply Forall_app in Hl0 as [_ Hl0]. apply Forall_cons in Hl0 as [Hne _].
      rewrite turns_cons, turns_nil. simpl. destruct (Z.eqb_spec tid' tid) as [->|]; [congruence|]. lia.
  - eexists. split; [done|]. split; [done|]. right. exists l, r. split; [done|]. split; [done|].
    rewrite turns_cons, turns_nil. simpl. lia.
  - eexists. split; [done|]. split; [unfold pool_ok; by rewrite stop_pool|]. right. exists l, r.
    rewrite stop_pool. split; [done|]. split; [done|]. rewrite turns_cons, turns_nil. simpl. lia.
Qed.

(** C16: no task starves.  Take a task of the pool and a thread that may run
    it.  In every interleaving of turns of any threads, calls of [schedule],
    ends of idle waits and [stop], in which this thread makes more turns than
    there are tasks in front that it may run: nothing fails an assertion, and
    one of the turns takes the task, at the latest the thread's own; until
    then no later task gets in front of it. *)
Theorem task_taken tid es s l t r :
  pool_ok s → m_taskPools s = l ++ t :: r → eligible tid t = true →
  (before tid l < turns tid es)%nat →
  ∃ es1 tid' co idle es2 s1 need s2 l' r',
    es = es1 ++ EvTurn tid' co idle :: es2 ∧ events_run es1 s = Ret s1 ∧
    m_taskPools s1 = l' ++ t :: r' ∧ l' `sublist_of` l ∧
    take_task tid' s1 = Ret (Some t, need, s2) ∧ m_taskPools s2 = l' ++ r' ∧ eligible tid' t = true.
Proof.
  revert s l r. induction es as [|e es IH]; intros s l r Hp Hpool He Hlt; [rewrite turns_nil in Hlt; lia|].
  destruct (event_step_task tid e s l t r Hp Hpool He) as (s' & Hstep & Hok & H).
  destruct H as [(tid' & co & idle & need & s1 & -> & Ht & Hs1 & He')|(l' & r' & Hpool' & Hsub & Hle)].
  - exists [], tid', co, idle, es, s, need, s1, l, r. done.
  - destruct (IH s' l' r' Hok Hpool' He) as (es1 & tid' & co & idle & es2 & s1 & need & s2 & l2 & r2 & -> & Hr & Hp1 & Hs & Hrest).
    { rewrite turns_cons in Hlt, Hle. rewrite turns_nil in Hle. lia. }
    exists (e :: es1), tid', co, idle, es2, s1, need, s2, l2, r2. cbn [app events_run].
    rewrite Hstep, ret_bind. split; [done|]. split; [done|]. split; [done|]. split; [by etrans|done].
Qed.
End interleaving.

(** Thread 11 takes the closure that any thread may run in its first turn, and
    then the coroutine that names it, whatever thread 12 does. *)
Example task_taken_witness :
  let turn tid := EvTurn tid (λ _, waiting_co) Coroutine.YIELD in
  ∃ es1 tid' co idle es2 s1 need s2 l' r',
    [turn 12; EvSchedule (OfCb (Some 6%nat)) 0 false; turn 11; turn 11] = es1 ++ EvTurn tid' co idle :: es2 ∧
    events_run stopping canEarlyClosure es1 two_thread_pool = Ret s1 ∧
    m_taskPools s1 = l' ++ mkTask (Some 101) None 11 :: r' ∧
    l' `sublist_of` [mkTask (Some 100) None 12; mkTask None (Some 5%nat) 0] ∧
    take_task tid' s1 = Ret (Some (mkTask (Some 101) None 11), need, s2) ∧ m_taskPools s2 = l' ++ r' ∧
    eligible tid' (mkTask (Some 101) None 11) = true.
Proof.
  intros turn. eapply (task_taken stopping canEarlyClosure 11); [apply two_thread_pool_ok|reflexivity|reflexivity|].
  vm_compute. repeat constructor.
Defined.
