(* ===== verification/IOManager.v ===== *)
(** * The I/O manager: src/src/iomanager.h, src/src/iomanager.cpp

    [IOManager] is a [Scheduler] and a [TimerManager] whose idle threads wait
    in [epoll_wait].  An [FdContext] lives on the heap and is named by its
    address; the kernel has the addresses too.  Whether a call of [epoll_ctl]
    succeeds is an argument ([ok]); the successful calls are logged in
    [m_ctl].  The pointer [EventContext::scheduler] is the manager itself or
    null, so it is a boolean; scheduling through null is [Undef]. *)

From S2P Require Import Prelude Scheduler.
From S2P Require Timer Coroutine.

#[local] Existing Instance Coroutine.State_eq_dec.

(** [src/src/iomanager.h:24-28] IOManager::Event *)
Definition NONE : Z := 0.
Definition READ : Z := 1.
Definition WRITE : Z := 4.
(** epoll's bits. *)
Definition EPOLLIN : Z := 1.
Definition EPOLLOUT : Z := 4.
Definition EPOLLERR : Z := 8.
Definition EPOLLHUP : Z := 16.
Definition EPOLLET : Z := 2 ^ 31.

Inductive CtlOp : Set := EPOLL_CTL_ADD | EPOLL_CTL_MOD | EPOLL_CTL_DEL.

(** [src/src/iomanager.h:38-43] IOManager::FdContext::EventContext *)
Record EventContext := mkEventContext {
  e_scheduler : bool;
  e_threadId : Z;
  e_co : option Z;
  e_cb : option nat
}.
Definition no_event : EventContext := mkEventContext false 0 None None.

(** [src/src/iomanager.h:48-52] IOManager::FdContext *)
Record FdContext := mkFdContext {
  c_read : EventContext;
  c_write : EventContext;
  c_fd : Z;
  c_events : Z
}.
Definition FdContext_new (fd : Z) : FdContext := mkFdContext no_event no_event fd NONE.

(** [src/src/iomanager.h:74-79] IOManager: its scheduler and timers, the pending events, the contexts by descriptor, the heap of contexts with the next free address, and the log of epoll_ctl *)
Record IOManager := mkIOManager {
  m_sched : Scheduler;
  m_tm : Timer.TimerManager;
  m_pendingEventCount : Z;
  m_fdContexts : list Z;
  m_ctxs : gmap Z FdContext;
  m_fresh : Z;
  m_ctl : list (CtlOp * Z * Z)
}.

Definition with_sched (s : Scheduler) (m : IOManager) : IOManager :=
  mkIOManager s (m_tm m) (m_pendingEventCount m) (m_fdContexts m) (m_ctxs m) (m_fresh m) (m_ctl m).
Definition with_tm (t : Timer.TimerManager) (m : IOManager) : IOManager :=
  mkIOManager (m_sched m) t (m_pendingEventCount m) (m_fdContexts m) (m_ctxs m) (m_fresh m) (m_ctl m).
Definition with_pending (n : Z) (m : IOManager) : IOManager :=
  mkIOManager (m_sched m) (m_tm m) n (m_fdContexts m) (m_ctxs m) (m_fresh m) (m_ctl m).
Definition with_ctx (a : Z) (c : FdContext) (m : IOManager) : IOManager :=
  mkIOManager (m_sched m) (m_tm m) (m_pendingEventCount m) (m_fdContexts m)
    (<[a := c]> (m_ctxs m)) (m_fresh m) (m_ctl m).
Definition log_ctl (op : CtlOp) (fd events : Z) (m : IOManager) : IOManager :=
  mkIOManager (m_sched m) (m_tm m) (m_pendingEventCount m) (m_fdContexts m) (m_ctxs m) (m_fresh m)
    (m_ctl m ++ [(op, fd, events)]).

Definition ctx_at (a : Z) (m : IOManager) : res FdContext :=
  deref (m_ctxs m !! a) "deleted FdContext".

(** [src/src/iomanager.cpp:20-26] IOManager::FdContext::getEventContext *)
Definition getEventContext (event : Z) (c : FdContext) : EventContext :=
  if event =? READ then c_read c else c_write c.
Definition setEventContext (event : Z) (e : EventContext) (c : FdContext) : FdContext :=
  if event =? READ then mkFdContext e (c_write c) (c_fd c) (c_events c)
  else mkFdContext (c_read c) e (c_fd c) (c_events c).
Definition set_events (events : Z) (c : FdContext) : FdContext :=
  mkFdContext (c_read c) (c_write c) (c_fd c) events.

(** [src/src/iomanager.cpp:28-33] IOManager::FdContext::resetContext *)
Definition resetContext (event : Z) (c : FdContext) : FdContext :=
  setEventContext event no_event c.

Definition has (events event : Z) : bool := negb (Z.land events event =? 0).
Definition without (events event : Z) : Z := Z.ldiff events event.

(** [src/src/iomanager.cpp:35-45] IOManager::FdContext::triggerEvent: the context and the scheduler afterwards. [schedule] swaps the closure or the coroutine out *)
Definition triggerEvent (event : Z) (c : FdContext) (s : Scheduler) : res (FdContext * Scheduler) :=
  _ ← check (has (c_events c) event) "events & event";
  let c := set_events (without (c_events c) event) c in
  let ctx := getEventContext event c in
  _ ← deref (if e_scheduler ctx then Some tt else None) "schedule on a null scheduler";
  let '(ctx, s) :=
    match e_cb ctx with
    | Some cb =>
        (mkEventContext false (e_threadId ctx) (e_co ctx) None,
         snd (schedule (OfCb (Some cb)) (e_threadId ctx) true s))
    | None =>
        (mkEventContext false (e_threadId ctx) None (e_cb ctx),
         snd (schedule (OfCo (e_co ctx)) (e_threadId ctx) true s))
    end in
  Ret (setEventContext event ctx c, s).

(** [triggerEvent], then [--m_pendingEventCount], on the context at [a]. *)
Definition trigger (event a : Z) (m : IOManager) : res IOManager :=
  c ← ctx_at a m;
  '(c, s) ← triggerEvent event c (m_sched m);
  Ret (with_pending (m_pendingEventCount m - 1) (with_ctx a c (with_sched s m))).

(** [src/src/iomanager.cpp:332-337] IOManager::fdContextsResize, the contexts for the new entries *)
Fixpoint fill_contexts (n : nat) (m : IOManager) : IOManager :=
  match n with
  | O => m
  | S n =>
      let a := m_fresh m in
      fill_contexts n
        (mkIOManager (m_sched m) (m_tm m) (m_pendingEventCount m) (m_fdContexts m ++ [a])
           (<[a := FdContext_new (zlen (m_fdContexts m))]> (m_ctxs m)) (a + 1) (m_ctl m))
  end.

(** [src/src/iomanager.cpp:325-338] IOManager::fdContextsResize *)
Definition fdContextsResize (size : Z) (m : IOManager) : IOManager :=
  let gone := zdrop size (m_fdContexts m) in
  let m := mkIOManager (m_sched m) (m_tm m) (m_pendingEventCount m) (ztake size (m_fdContexts m))
             (foldr (fun a h => delete a h) (m_ctxs m) gone) (m_fresh m) (m_ctl m) in
  fill_contexts (Z.to_nat (size - zlen (m_fdContexts m))) m.

(** [src/src/iomanager.cpp:47-62] IOManager::IOManager, once epoll and the pipe are made (their failures are assertions; that of epoll_create only logs, and the epoll_ctl that follows asserts) *)
Definition IOManager_new (s : Scheduler) : IOManager :=
  fdContextsResize 64 (mkIOManager s Timer.TimerManager_new 0 [] ∅ 0 []).

(** ** Adding an event *)

(** [src/src/iomanager.cpp:78-81] IOManager::addEvent, under the read lock: the context when there is one *)
Definition addEvent_find (fd : Z) (m : IOManager) : res (option Z) :=
  if fd <? zlen (m_fdContexts m) then
    if fd <? 0 then Undef "negative index"
    else a ← deref (m_fdContexts m !! Z.to_nat fd) "index out of range"; Ret (Some a)
  else Ret None.

(** [src/src/iomanager.cpp:84-86] IOManager::addEvent, under the write lock. [fd * 1.5] is converted back to an integer *)
Definition addEvent_grow (fd : Z) (m : IOManager) : res (Z * IOManager) :=
  let m := fdContextsResize (3 * fd / 2) m in
  a ← deref (m_fdContexts m !! Z.to_nat fd) "index out of range";
  Ret (a, m).

Inductive IOManagerCode : Set := ADD_EVENT_ERR | ADD_EVENT_SUC.

(** [src/src/iomanager.cpp:88-122] IOManager::addEvent, under the context's lock: [cur] and [tid] are Coroutine::GetThis() and GetThreadId(), [state] that coroutine's state, [hasScheduler] whether the thread has a scheduler *)
Definition addEvent_on (ok : bool) (cur tid : Z) (state : Coroutine.State) (hasScheduler : bool)
    (a fd event : Z) (cb : option nat) (m : IOManager) : res (IOManagerCode * IOManager) :=
  c ← ctx_at a m;
  if has (c_events c) event then Ret (ADD_EVENT_ERR, m)
  else
    let op := if c_events c =? 0 then EPOLL_CTL_ADD else EPOLL_CTL_MOD in
    if negb ok then Ret (ADD_EVENT_ERR, m)
    else
      let m := log_ctl op fd (Z.lor EPOLLET (Z.lor (c_events c) event)) m in
      let m := with_pending (m_pendingEventCount m + 1) m in
      let c := set_events (Z.lor (c_events c) event) c in
      let e := getEventContext event c in
      _ ← check (negb (e_scheduler e) && bool_decide (e_co e = None) && bool_decide (e_cb e = None))
            "!eventCtx.scheduler && !eventCtx.co && !eventCtx.cb";
      e ← match cb with
          | Some cb => Ret (mkEventContext hasScheduler (e_threadId e) None (Some cb))
          | None =>
              _ ← check (bool_decide (state = Coroutine.EXECING)) "EXECING";
              Ret (mkEventContext hasScheduler tid (Some cur) None)
          end;
      Ret (ADD_EVENT_SUC, with_ctx a (setEventContext event e c) m).

(** [src/src/iomanager.cpp:76-123] IOManager::addEvent, without interference between its locks *)
Definition addEvent (ok : bool) (cur tid : Z) (state : Coroutine.State) (hasScheduler : bool)
    (fd event : Z) (cb : option nat) (m : IOManager) : res (IOManagerCode * IOManager) :=
  found ← addEvent_find fd m;
  '(a, m) ← match found with Some a => Ret (a, m) | None => addEvent_grow fd m end;
  addEvent_on ok cur tid state hasScheduler a fd event cb m.

(** ** Removing events *)

(** The address of the context of [fd], or [None] when the vector is too
    short, for the three operations below. *)
Definition lookup_ctx (fd : Z) (m : IOManager) : res (option Z) :=
  if zlen (m_fdContexts m) <=? fd then Ret None else addEvent_find fd m.

(** [src/src/iomanager.cpp:125-158] IOManager::delEvent *)
Definition delEvent (ok : bool) (fd event : Z) (m : IOManager) : res (bool * IOManager) :=
  found ← lookup_ctx fd m;
  match found with
  | None => Ret (false, m)
  | Some a =>
      c ← ctx_at a m;
      if negb (has (c_events c) event) then Ret (false, m)
      else
        let newEvent := without (c_events c) event in
        let op := if newEvent =? 0 then EPOLL_CTL_DEL else EPOLL_CTL_MOD in
        if negb ok then Ret (false, m)
        else
          let m := log_ctl op fd (Z.lor EPOLLET newEvent) m in
          let m := with_pending (m_pendingEventCount m - 1) m in
          Ret (true, with_ctx a (resetContext event (set_events newEvent c)) m)
  end.

(** [src/src/iomanager.cpp:160-191] IOManager::cancelEvent *)
Definition cancelEvent (ok : bool) (fd event : Z) (m : IOManager) : res (bool * IOManager) :=
  found ← lookup_ctx fd m;
  match found with
  | None => Ret (false, m)
  | Some a =>
      c ← ctx_at a m;
      if negb (has (c_events c) event) then Ret (false, m)
      else
        let newEvent := without (c_events c) event in
        let op := if newEvent =? 0 then EPOLL_CTL_DEL else EPOLL_CTL_MOD in
        if negb ok then Ret (false, m)
        else
          m ← trigger event a (log_ctl op fd (Z.lor EPOLLET newEvent) m);
          Ret (true, m)
  end.

(** [if (fdCtx->events & event) { fdCtx->triggerEvent(event); --m_pendingEventCount; }] *)
Definition trigger_if (event a : Z) (m : IOManager) : res IOManager :=
  c ← ctx_at a m;
  if has (c_events c) event then trigger event a m else Ret m.

(** [src/src/iomanager.cpp:193-230] IOManager::cancelAllEvent *)
Definition cancelAllEvent (ok : bool) (fd : Z) (m : IOManager) : res (bool * IOManager) :=
  found ← lookup_ctx fd m;
  match found with
  | None => Ret (false, m)
  | Some a =>
      c ← ctx_at a m;
      if c_events c =? 0 then Ret (false, m)
      else if negb ok then Ret (false, m)
      else
        m ← trigger_if READ a (log_ctl EPOLL_CTL_DEL fd 0 m);
        m ← trigger_if WRITE a m;
        c ← ctx_at a m;
        _ ← check (c_events c =? NONE) "fdCtx->events == IOManager::Event::NONE";
        Ret (true, m)
  end.

(** ** Waiting and dispatching *)

(** [src/src/iomanager.cpp:232-237] IOManager::tickle: whether a byte is written to the pipe; [wrote] is what [write] returns *)
Definition tickle (wrote : Z) (m : IOManager) : res bool :=
  if hasIdleThreads (m_sched m) then _ ← check (wrote =? 1) "rt == 1"; Ret true else Ret false.

(** [src/src/iomanager.cpp:321-323] IOManager::onTimerRefresh *)
Definition onTimerRefresh : Z → IOManager → res bool := tickle.

(** [src/src/iomanager.cpp:239-241] IOManager::stopping *)
Definition stopping (m : IOManager) : bool :=
  Scheduler.stopping (m_sched m) && (m_pendingEventCount m =? 0).

(** [src/src/iomanager.cpp:243-245] IOManager::canEarlyClosure *)
Definition canEarlyClosure (m : IOManager) : bool :=
  Scheduler.canEarlyClosure (m_sched m) && (m_pendingEventCount m =? 0).

(** [src/src/iomanager.cpp:255-258] IOManager::idle, the conditions of a turn *)
Definition idle_continues (tid : Z) (m : IOManager) : bool :=
  negb (stopping m) && negb (negb (tid =? m_callerThreadId (m_sched m)) && canEarlyClosure m).

(** [src/src/iomanager.cpp:262-263] IOManager::idle, the timeout of epoll_wait *)
Definition wait_timeout (now : Z) (m : IOManager) : Z :=
  let nextTime := Timer.getNextTime now (m_tm m) in
  if 5000 <? nextTime then 5000 else nextTime.

(** [src/src/iomanager.cpp:264-265] IOManager::idle, whether the wait is over: [rt] is the number of ready events, [now] the time after it *)
Definition wait_over (rt now : Z) (m : IOManager) : bool :=
  (0 <? rt) || (Timer.getNextTime now (m_tm m) <=? 0) || m_autoStop (m_sched m) || stopping m.

(** [src/src/iomanager.cpp:267-269] IOManager::idle, the expired timers; [key] is the address of the temporary timer, [closure] the identity of a timer's callback as a task *)
Definition fire_timers (closure : Timer.Callback → nat) (now key : Z) (m : IOManager)
    : bool * IOManager :=
  let '(cbs, tm) := Timer.listExpiredCbs now key (m_tm m) in
  let '(need, s) := scheduleIterator ((fun cb => OfCb (closure <$> cb)) <$> cbs) false (m_sched m) in
  (need, with_sched s (with_tm tm m)).

(** A ready event: the pipe of [tickle], or a context with epoll's bits. *)
Inductive Ready : Set := Tickled | OnFd (a : Z) (bits : Z).

(** [src/src/iomanager.cpp:281-290] IOManager::idle, the events a ready context stands for *)
Definition realEvent (bits : Z) : Z :=
  let bits := if has bits (Z.lor EPOLLERR EPOLLHUP) then Z.lor bits (Z.lor EPOLLIN EPOLLOUT)
              else bits in
  Z.lor (if has bits EPOLLIN then READ else NONE) (if has bits EPOLLOUT then WRITE else NONE).

(** [src/src/iomanager.cpp:271-316] IOManager::idle, one ready event *)
Definition dispatch (ok : bool) (ev : Ready) (m : IOManager) : res IOManager :=
  match ev with
  | Tickled => Ret m
  | OnFd a bits =>
      c ← ctx_at a m;
      let real := realEvent bits in
      if negb (has (c_events c) real) then Ret m
      else
        let left := without (c_events c) real in
        let op := if left =? 0 then EPOLL_CTL_DEL else EPOLL_CTL_MOD in
        if negb ok then Ret m
        else
          let m := log_ctl op (c_fd c) (Z.lor EPOLLET left) m in
          m ← if has real READ then trigger READ a m else Ret m;
          if has real WRITE then trigger WRITE a m else Ret m
  end.

(** [src/src/iomanager.cpp:271-316] IOManager::idle, the loop over the ready events *)
Fixpoint dispatch_all (evs : list (bool * Ready)) (m : IOManager) : res IOManager :=
  match evs with
  | [] => Ret m
  | (ok, ev) :: evs => m ← dispatch ok ev m; dispatch_all evs m
  end.

(** What one [epoll_wait] brings: the time before it, what it returns and
    stores, the time after it, and the manager that the other threads leave. *)
Record Wait := mkWait {
  w_before : Z; w_rt : Z; w_events : list (bool * Ready); w_after : Z; w_manager : IOManager
}.
(** [src/src/iomanager.cpp:260-266] IOManager::idle, the waits of a turn: the timeouts they are given, and the events and the manager at the end. It is still waiting when the list is over *)
Fixpoint idle_wait (waits : list Wait) (m : IOManager)
    : res (list Z * list (bool * Ready) * IOManager) :=
  match waits with
  | [] => OutOfFuel
  | w :: waits =>
      let timeout := wait_timeout (w_before w) m in
      let m := w_manager w in
      if wait_over (w_rt w) (w_after w) m then Ret ([timeout], ztake (w_rt w) (w_events w), m)
      else '(timeouts, events, m) ← idle_wait waits m; Ret (timeout :: timeouts, events, m)
  end.

(** [src/src/iomanager.cpp:255-318] IOManager::idle, one turn: nothing when the loop ends. The coroutine yields after a turn *)
Definition idle_turn (closure : Timer.Callback → nat) (tid : Z) (waits : list Wait) (now key : Z)
    (m : IOManager) : res (option (list Z * IOManager)) :=
  if negb (idle_continues tid m) then Ret None
  else
    '(timeouts, events, m) ← idle_wait waits m;
    let '(_, m) := fire_timers closure now key m in
    m ← dispatch_all events m;
    Ret (Some (timeouts, m)).

(** [src/src/iomanager.cpp:64-74] IOManager::~IOManager *)
Definition IOManager_delete (m : IOManager) : IOManager :=
  mkIOManager (m_sched m) (Timer.cancelAllTimers (m_tm m)) (m_pendingEventCount m) []
    (foldr (fun a h => delete a h) (m_ctxs m) (m_fdContexts m)) (m_fresh m) (m_ctl m).
