(* ===== verification/IOManagerProps.v ===== *)
(** * Properties of the I/O manager

    The count of pending events and the kernel's interest list follow the
    registered events; a registered waiter is scheduled exactly once; and two
    flaws: a hang-up on a half-registered descriptor, and the window between
    the two locks of [addEvent]. *)

From S2P Require Import Prelude Scheduler IOManager.
From S2P Require Timer Coroutine.

#[local] Existing Instance Coroutine.State_eq_dec.

(** ** The kernel's view: what a log of successful epoll_ctl calls leaves *)

Definition ctl_apply (fd : Z) (cur : option Z) (e : CtlOp * Z * Z) : option Z :=
  let '(op, fd', ev) := e in
  if fd' =? fd then match op with EPOLL_CTL_DEL => None | _ => Some ev end else cur.
Definition interest (log : list (CtlOp * Z * Z)) (fd : Z) : option Z :=
  foldl (ctl_apply fd) None log.

(** A call the kernel can accept: ADD of an absent descriptor, MOD and DEL
    of a present one. *)
Definition ctl_fits (log : list (CtlOp * Z * Z)) (op : CtlOp) (fd : Z) : Prop :=
  match op with EPOLL_CTL_ADD => interest log fd = None | _ => interest log fd ≠ None end.
Inductive ctl_valid : list (CtlOp * Z * Z) → Prop :=
  | ctl_nil : ctl_valid []
  | ctl_snoc log op fd ev : ctl_valid log → ctl_fits log op fd → ctl_valid (log ++ [(op, fd, ev)]).

Lemma interest_snoc log op fd ev fd' :
  interest (log ++ [(op, fd, ev)]) fd' =
    if fd =? fd' then match op with EPOLL_CTL_DEL => None | _ => Some ev end else interest log fd'.
Proof. unfold interest. by rewrite foldl_app. Qed.

(** ** Well-formed contexts *)

Definition slot_ok (registered : bool) (e : EventContext) : Prop :=
  if registered
  then e_scheduler e = true ∧
       ((∃ co, e_co e = Some co ∧ e_cb e = None) ∨ (∃ cb, e_co e = None ∧ e_cb e = Some cb))
  else e_scheduler e = false ∧ e_co e = None ∧ e_cb e = None.

Definition events_ok (z : Z) : Prop := z = 0 ∨ z = 1 ∨ z = 4 ∨ z = 5.
Definition event_ok (z : Z) : Prop := z = READ ∨ z = WRITE.

Definition ctx_ok (c : FdContext) : Prop :=
  events_ok (c_events c) ∧ slot_ok (has (c_events c) READ) (c_read c) ∧
  slot_ok (has (c_events c) WRITE) (c_write c).

(** Who waits in a slot, as a task. *)
Definition waiter (e : EventContext) : Task := mkTask (e_co e) (e_cb e) (e_threadId e).

Definition pend (c : FdContext) : Z :=
  (if has (c_events c) READ then 1 else 0) + (if has (c_events c) WRITE then 1 else 0).
Definition pend_at (h : gmap Z FdContext) (a : Z) : Z :=
  match h !! a with Some c => pend c | None => 0 end.
Fixpoint total (h : gmap Z FdContext) (l : list Z) : Z :=
  match l with [] => 0 | a :: l => pend_at h a + total h l end.

Lemma total_ext h h' l : (∀ a, a ∈ l → h' !! a = h !! a) → total h' l = total h l.
Proof.
  induction l as [|a l IH]; intros Hl; [done|]. simpl.
  unfold pend_at. rewrite Hl by (by left). rewrite IH; [done|]. intros; apply Hl. by right.
Qed.

Lemma total_insert h a c c' l :
  NoDup l → a ∈ l → h !! a = Some c → total (<[a := c']> h) l = total h l + pend c' - pend c.
Proof.
  intros Hnd Ha Hc. induction Hnd as [|b l Hb Hnd IH]; [by apply not_elem_of_nil in Ha|].
  simpl. apply elem_of_cons in Ha as [->|Ha].
  - rewrite (total_ext h) by (intros; apply lookup_insert_ne; by intros ->).
    unfold pend_at at 1 2. rewrite lookup_insert_eq, Hc. lia.
  - rewrite IH by done. unfold pend_at at 1 2. rewrite lookup_insert_ne; [lia|]. by intros ->.
Qed.

Lemma pend_nonneg c : 0 <= pend c.
Proof. unfold pend. repeat case_if; lia. Qed.
Lemma total_nonneg h l : 0 <= total h l.
Proof.
  induction l as [|a l IH]; simpl; [lia|]. unfold pend_at.
  destruct (h !! a) as [c|]; [pose proof (pend_nonneg c)|]; lia.
Qed.

(** The interest the kernel has in a context. *)
Definition wanted (c : FdContext) : option Z :=
  if c_events c =? 0 then None else Some (Z.lor EPOLLET (c_events c)).

Record wf (m : IOManager) : Prop := {
  wf_size : 64 <= zlen (m_fdContexts m);
  wf_nodup : NoDup (m_fdContexts m);
  wf_ctx : ∀ i a, m_fdContexts m !! i = Some a →
    ∃ c, m_ctxs m !! a = Some c ∧ c_fd c = Z.of_nat i ∧ ctx_ok c ∧
         interest (m_ctl m) (Z.of_nat i) = wanted c;
  wf_fresh : ∀ a, is_Some (m_ctxs m !! a) → a < m_fresh m;
  wf_out : ∀ fd, zlen (m_fdContexts m) <= fd → interest (m_ctl m) fd = None;
  wf_pending : m_pendingEventCount m = total (m_ctxs m) (m_fdContexts m);
  wf_log : ctl_valid (m_ctl m)
}.

(** One context changes, with the call of epoll_ctl that goes with it. *)
Lemma wf_update m i a c c' s tm op ev :
  wf m → m_fdContexts m !! i = Some a → m_ctxs m !! a = Some c →
  ctx_ok c' → c_fd c' = c_fd c → ctl_fits (m_ctl m) op (Z.of_nat i) →
  interest (m_ctl m ++ [(op, Z.of_nat i, ev)]) (Z.of_nat i) = wanted c' →
  wf (mkIOManager s tm (m_pendingEventCount m + pend c' - pend c) (m_fdContexts m)
        (<[a := c']> (m_ctxs m)) (m_fresh m) (m_ctl m ++ [(op, Z.of_nat i, ev)])).
Proof.
  intros Hw Hi Hc Hok Hfd Hfit Hint.
  assert (a ∈ m_fdContexts m) as Hin by by eapply list_elem_of_lookup_2.
  split; simpl; try apply Hw.
  - intros j b Hj. destruct (decide (b = a)) as [->|Hne].
    + assert (j = i) as -> by by eapply (NoDup_lookup (m_fdContexts m)); [apply Hw| |].
      exists c'. rewrite lookup_insert_eq. split_and!; try done.
      destruct (wf_ctx _ Hw _ _ Hi) as (c0 & Hc0 & Hf0 & _). congruence.
    + assert (j ≠ i) by (intros ->; congruence).
      rewrite lookup_insert_ne by done. destruct (wf_ctx _ Hw _ _ Hj) as (cj & ? & ? & ? & ?).
      exists cj. split_and!; try done. rewrite interest_snoc.
      rewrite (proj2 (Z.eqb_neq _ _)) by lia. done.
  - intros b Hb. destruct (decide (b = a)) as [->|Hne]; [apply Hw; eauto|].
    rewrite lookup_insert_ne in Hb by done. by apply Hw.
  - intros fd Hfd'. rewrite interest_snoc. assert (Z.of_nat i < zlen (m_fdContexts m)).
    { apply lookup_lt_Some in Hi. unfold zlen. lia. }
    rewrite (proj2 (Z.eqb_neq _ _)) by lia. by apply Hw.
  - rewrite (total_insert _ _ c) by (done || apply Hw). rewrite (wf_pending _ Hw). lia.
  - by apply ctl_snoc; [apply Hw|].
Qed.

(** ** Slots *)

Ltac by_events H := destruct H as [-> | [-> | [-> | ->]]].

Lemma slot_of c event :
  ctx_ok c → event_ok event → slot_ok (has (c_events c) event) (getEventContext event c).
Proof. intros (_ & Hr & Hwr) [-> | ->]; done. Qed.

(** The context after an event is taken out of it. *)
Definition cleared (event tid : Z) (c : FdContext) : FdContext :=
  setEventContext event (mkEventContext false tid None None) (set_events (without (c_events c) event) c).

Lemma cleared_ok c event tid :
  ctx_ok c → event_ok event → ctx_ok (cleared event tid c) ∧ c_fd (cleared event tid c) = c_fd c ∧
  (has (c_events c) event = true → pend (cleared event tid c) = pend c - 1) ∧
  c_events (cleared event tid c) = without (c_events c) event.
Proof.
  intros (He & Hr & Hwr) Hev. destruct c as [r w fd ev]. unfold ctx_ok, pend. simpl in *.
  destruct Hev as [-> | ->]; by_events He; simpl in *; unfold events_ok; naive_solver.
Qed.

Lemma triggerEvent_spec c event s :
  ctx_ok c → event_ok event → has (c_events c) event = true →
  triggerEvent event c s =
    Ret (cleared event (e_threadId (getEventContext event c)) c,
         set_pool (m_taskPools s ++ [waiter (getEventContext event c)]) s).
Proof.
  intros Hok Hev Hhas. pose proof (slot_of c event Hok Hev) as Hs. rewrite Hhas in Hs.
  unfold triggerEvent. rewrite Hhas. cbn [check mbind res_bind].
  assert (getEventContext event (set_events (without (c_events c) event) c) = getEventContext event c)
    as -> by (by destruct Hev as [-> | ->]).
  destruct Hs as [-> Hs]. cbn [deref mbind res_bind].
  unfold schedule, scheduleWithoutLock, waiter, cleared. rewrite andb_false_r.
  destruct Hs as [(co & Hco & Hcb)|(cb & Hco & Hcb)]; rewrite Hco, Hcb; simpl; done.
Qed.

Lemma trigger_spec m a c event :
  m_ctxs m !! a = Some c → ctx_ok c → event_ok event → has (c_events c) event = true →
  trigger event a m =
    Ret (mkIOManager (set_pool (m_taskPools (m_sched m) ++ [waiter (getEventContext event c)]) (m_sched m))
           (m_tm m) (m_pendingEventCount m - 1) (m_fdContexts m)
           (<[a := cleared event (e_threadId (getEventContext event c)) c]> (m_ctxs m)) (m_fresh m)
           (m_ctl m)).
Proof.
  intros Hc Hok Hev Hhas. unfold trigger, ctx_at. rewrite Hc. cbn [deref mbind res_bind].
  by rewrite triggerEvent_spec.
Qed.

(** ** Lookups *)

Lemma lookup_ctx_spec fd m :
  wf m → 0 <= fd →
  (zlen (m_fdContexts m) <= fd ∧ lookup_ctx fd m = Ret None ∧ addEvent_find fd m = Ret None) ∨
  ∃ a c, m_fdContexts m !! Z.to_nat fd = Some a ∧ m_ctxs m !! a = Some c ∧ c_fd c = fd ∧ ctx_ok c ∧
    interest (m_ctl m) fd = wanted c ∧
    lookup_ctx fd m = Ret (Some a) ∧ addEvent_find fd m = Ret (Some a).
Proof.
  intros Hw Hfd. unfold lookup_ctx, addEvent_find.
  destruct (Z.leb_spec (zlen (m_fdContexts m)) fd) as [Hle|Hgt].
  - left. rewrite (proj2 (Z.ltb_ge fd _)) by done. done.
  - right. destruct (lookup_lt_is_Some_2 (m_fdContexts m) (Z.to_nat fd)) as [a Ha];
      [unfold zlen in Hgt; lia|].
    destruct (wf_ctx _ Hw _ _ Ha) as (c & Hc & Hcfd & Hok & Hint).
    rewrite Z2Nat.id in Hcfd, Hint by done. exists a, c.
    rewrite (proj2 (Z.ltb_lt fd _)) by done. rewrite (proj2 (Z.ltb_ge fd 0)) by done.
    rewrite Ha. done.
Qed.

Lemma fits_of m fd c event :
  ctx_ok c → interest (m_ctl m) fd = wanted c → event_ok event →
  (has (c_events c) event = false →
     ctl_fits (m_ctl m) (if c_events c =? 0 then EPOLL_CTL_ADD else EPOLL_CTL_MOD) fd) ∧
  (c_events c ≠ 0 → ∀ op, op ≠ EPOLL_CTL_ADD → ctl_fits (m_ctl m) op fd).
Proof.
  intros (He & _) Hint _. unfold ctl_fits, wanted in *. rewrite Hint. split.
  - intros _. by case_if.
  - intros Hne op Hop. rewrite (proj2 (Z.eqb_neq _ _)) by done. by destruct op.
Qed.

(** ** The operations *)

Lemma has_false_wanted c event fd m :
  ctx_ok c → event_ok event → has (c_events c) event = false →
  interest (m_ctl m ++ [(if c_events c =? 0 then EPOLL_CTL_ADD else EPOLL_CTL_MOD, fd,
    Z.lor EPOLLET (Z.lor (c_events c) event))]) fd =
  Some (Z.lor EPOLLET (Z.lor (c_events c) event)) ∧ Z.lor (c_events c) event ≠ 0.
Proof.
  intros (He & _) Hev Hhas. rewrite interest_snoc, Z.eqb_refl. split; [by case_if|].
  by_events He; destruct Hev as [-> | ->]; done.
Qed.

(** The slot a waiter leaves. *)
Definition new_waiter (cur tid : Z) (cb : option nat) (e : EventContext) : EventContext :=
  match cb with
  | Some cb => mkEventContext true (e_threadId e) None (Some cb)
  | None => mkEventContext true tid (Some cur) None
  end.

Definition added (cur tid : Z) (cb : option nat) (event : Z) (c : FdContext) : FdContext :=
  setEventContext event (new_waiter cur tid cb (getEventContext event c))
    (set_events (Z.lor (c_events c) event) c).

Lemma new_waiter_ok cur tid cb e : slot_ok true (new_waiter cur tid cb e).
Proof. destruct cb; (split; [done|]); [right|left]; by eexists. Qed.

Lemma filled_ok e c event :
  ctx_ok c → event_ok event → has (c_events c) event = false → slot_ok true e →
  let c' := setEventContext event e (set_events (Z.lor (c_events c) event) c) in
  ctx_ok c' ∧ c_fd c' = c_fd c ∧ pend c' = pend c + 1 ∧
  c_events c' = Z.lor (c_events c) event ∧ getEventContext event c' = e.
Proof.
  intros (He & Hr & Hwr) Hev. destruct c as [r w fd ev]. cbn zeta. unfold ctx_ok, pend.
  intros Hh Hn. cbn [c_events c_read c_write] in *.
  destruct Hev as [-> | ->]; by_events He; try discriminate Hh;
    (split; [split; [cbv; auto|split; assumption]|]); repeat split.
Qed.

Lemma added_ok cur tid cb c event :
  ctx_ok c → event_ok event → has (c_events c) event = false →
  let c' := added cur tid cb event c in
  ctx_ok c' ∧ c_fd c' = c_fd c ∧ pend c' = pend c + 1 ∧
  c_events c' = Z.lor (c_events c) event ∧
  getEventContext event c' = new_waiter cur tid cb (getEventContext event c).
Proof. intros. apply filled_ok; try done. apply new_waiter_ok. Qed.

Lemma addEvent_on_spec ok cur tid a i c event cb m :
  wf m → m_fdContexts m !! i = Some a → m_ctxs m !! a = Some c → event_ok event →
  if has (c_events c) event || negb ok
  then addEvent_on ok cur tid Coroutine.EXECING true a (Z.of_nat i) event cb m
         = Ret (ADD_EVENT_ERR, m)
  else ∃ m' c', addEvent_on ok cur tid Coroutine.EXECING true a (Z.of_nat i) event cb m
         = Ret (ADD_EVENT_SUC, m') ∧ wf m' ∧ m_sched m' = m_sched m ∧
         m_pendingEventCount m' = m_pendingEventCount m + 1 ∧
         m_fdContexts m' = m_fdContexts m ∧ m_ctxs m' = <[a := c']> (m_ctxs m) ∧
         c_fd c' = c_fd c ∧ c_events c' = Z.lor (c_events c) event ∧
         getEventContext event c' = new_waiter cur tid cb (getEventContext event c).
Proof.
  intros Hw Hi Hc Hev. destruct (wf_ctx _ Hw _ _ Hi) as (c0 & Hc0 & Hfd & Hok & Hint).
  rewrite Hc in Hc0. injection Hc0 as <-.
  unfold addEvent_on, ctx_at. rewrite Hc. cbn [deref mbind res_bind].
  destruct (has (c_events c) event) eqn:Hhas; [done|]. destruct ok; [|done]. cbn [negb orb].
  pose proof (slot_of c event Hok Hev) as Hs. rewrite Hhas in Hs. destruct Hs as (Hs1 & Hs2 & Hs3).
  assert (getEventContext event (set_events (Z.lor (c_events c) event) c) = getEventContext event c)
    as -> by (by destruct Hev as [-> | ->]).
  rewrite Hs1, Hs2, Hs3. rewrite !bool_decide_true by done. cbn [negb andb check mbind res_bind].
  set (e := new_waiter cur tid cb (getEventContext event c)).
  set (c' := setEventContext event e (set_events (Z.lor (c_events c) event) c)).
  destruct (added_ok cur tid cb c event Hok Hev Hhas) as (H1 & H2 & H3 & H4 & H5).
  change (added cur tid cb event c) with c' in H1, H2, H3, H4, H5.
  destruct (has_false_wanted c event (Z.of_nat i) m Hok Hev Hhas) as [Hn1 Hn2].
  pose proof (wf_update m i a c c' (m_sched m) (m_tm m) _
    (Z.lor EPOLLET (Z.lor (c_events c) event)) Hw Hi Hc H1 H2
    (proj1 (fits_of m (Z.of_nat i) c event Hok Hint Hev) Hhas)) as Hup.
  rewrite Hn1 in Hup. unfold wanted in Hup. rewrite H4 in Hup.
  rewrite (proj2 (Z.eqb_neq _ _) Hn2) in Hup. specialize (Hup eq_refl).
  rewrite H3 in Hup. replace (m_pendingEventCount m + (pend c + 1) - pend c)
    with (m_pendingEventCount m + 1) in Hup by lia.
  destruct cb as [cb|]; cbn [mbind res_bind check]; rewrite ?bool_decide_true by done;
    eexists _, c'; (split; [reflexivity|]); split_and!; done.
Qed.

Lemma without_interest c event fd m :
  ctx_ok c → event_ok event → has (c_events c) event = true →
  let left := without (c_events c) event in
  interest (m_ctl m ++ [(if left =? 0 then EPOLL_CTL_DEL else EPOLL_CTL_MOD, fd, Z.lor EPOLLET left)]) fd
  = if left =? 0 then None else Some (Z.lor EPOLLET left).
Proof. intros _ _ _. cbn zeta. rewrite interest_snoc, Z.eqb_refl. by case_if. Qed.

(** Removing one event: [delEvent] drops the waiter, [cancelEvent] schedules
    it; both refuse an event that is not registered. *)
Lemma remove_spec ok fd event m :
  wf m → 0 <= fd → event_ok event →
  (delEvent ok fd event m = Ret (false, m) ∧ cancelEvent ok fd event m = Ret (false, m) ∧
   (ok = true → ∀ a c, m_fdContexts m !! Z.to_nat fd = Some a → m_ctxs m !! a = Some c →
      has (c_events c) event = false)) ∨
  ∃ a c m1 m2, m_fdContexts m !! Z.to_nat fd = Some a ∧ m_ctxs m !! a = Some c ∧ ok = true ∧
    has (c_events c) event = true ∧
    delEvent ok fd event m = Ret (true, m1) ∧ wf m1 ∧ m_sched m1 = m_sched m ∧
    m_pendingEventCount m1 = m_pendingEventCount m - 1 ∧
    cancelEvent ok fd event m = Ret (true, m2) ∧ wf m2 ∧
    m_sched m2 = set_pool (m_taskPools (m_sched m) ++ [waiter (getEventContext event c)]) (m_sched m) ∧
    m_pendingEventCount m2 = m_pendingEventCount m - 1.
Proof.
  intros Hw Hfd Hev. unfold delEvent, cancelEvent.
  destruct (lookup_ctx_spec fd m Hw Hfd)
    as [(Hle & -> & _)|(a & c & Ha & Hc & Hcfd & Hok & Hint & -> & _)].
  { left. cbn [mbind res_bind]. split_and!; try done. intros _ a c Ha. apply lookup_lt_Some in Ha.
    unfold zlen in Hle. lia. }
  cbn [mbind res_bind]. unfold ctx_at. rewrite Hc. cbn [deref mbind res_bind].
  destruct (has (c_events c) event) eqn:Hhas.
  2: { left. split_and!; try done. intros _ a' c' Ha' Hc'. congruence. }
  destruct ok; [|left; by split_and!]. cbn [negb].
  right. exists a, c.
  pose proof (without_interest c event fd m Hok Hev Hhas) as Hi. cbn zeta in Hi.
  set (op := if without (c_events c) event =? 0 then EPOLL_CTL_DEL else EPOLL_CTL_MOD) in *.
  set (ev := Z.lor EPOLLET (without (c_events c) event)) in *.
  assert (c_events c ≠ 0) as Hne by (intros H0; rewrite H0 in Hhas; by destruct Hev as [-> | ->]).
  assert (ctl_fits (m_ctl m) op fd) as Hfit.
  { apply (proj2 (fits_of m fd c event Hok Hint Hev) Hne). unfold op. by case_if. }
  rewrite <- (Z2Nat.id fd Hfd) in Hfit, Hi.
  (* delEvent *)
  set (c1 := resetContext event (set_events (without (c_events c) event) c)).
  destruct (cleared_ok c event 0 Hok Hev) as (H1 & H2 & H3 & H4). specialize (H3 Hhas).
  change (cleared event 0 c) with c1 in H1, H2, H3, H4.
  pose proof (wf_update m (Z.to_nat fd) a c c1 (m_sched m) (m_tm m) op ev Hw Ha Hc H1 H2 Hfit) as Hup1.
  assert (wanted c1 = if without (c_events c) event =? 0 then None else Some ev) as Hwa1
    by (unfold wanted; by rewrite H4).
  rewrite Hwa1 in Hup1. specialize (Hup1 Hi). rewrite H3 in Hup1.
  (* cancelEvent *)
  set (c2 := cleared event (e_threadId (getEventContext event c)) c).
  destruct (cleared_ok c event (e_threadId (getEventContext event c)) Hok Hev) as (K1 & K2 & K3 & K4).
  specialize (K3 Hhas). fold c2 in K1, K2, K3, K4.
  set (s2 := set_pool (m_taskPools (m_sched m) ++ [waiter (getEventContext event c)]) (m_sched m)).
  pose proof (wf_update m (Z.to_nat fd) a c c2 s2 (m_tm m) op ev Hw Ha Hc K1 K2 Hfit) as Hup2.
  assert (wanted c2 = if without (c_events c) event =? 0 then None else Some ev) as Hwa2
    by (unfold wanted; by rewrite K4).
  rewrite Hwa2 in Hup2. specialize (Hup2 Hi). rewrite K3 in Hup2.
  replace (m_pendingEventCount m + (pend c - 1) - pend c) with (m_pendingEventCount m - 1)
    in Hup1, Hup2 by lia.
  rewrite (Z2Nat.id fd Hfd) in Hup1, Hup2.
  rewrite (trigger_spec _ a c event) by done. cbn [mbind res_bind].
  eexists _, _. split_and!; done.
Qed.

(** The waiters of a set of events, in the order they are scheduled. *)
Definition waiters (real : Z) (c : FdContext) : list Task :=
  (if has real READ then [waiter (c_read c)] else []) ++
  (if has real WRITE then [waiter (c_write c)] else []).

(** Both conditional triggers in a row, for events that are all registered. *)
Lemma trigger_pair a c real m :
  m_ctxs m !! a = Some c → ctx_ok c → events_ok real → Z.land (c_events c) real = real →
  ∃ c', (m ← if has real READ then trigger READ a m else Ret m;
         if has real WRITE then trigger WRITE a m else Ret m) =
      Ret (mkIOManager (set_pool (m_taskPools (m_sched m) ++ waiters real c) (m_sched m)) (m_tm m)
             (m_pendingEventCount m + pend c' - pend c) (m_fdContexts m) (<[a := c']> (m_ctxs m))
             (m_fresh m) (m_ctl m)) ∧
    ctx_ok c' ∧ c_fd c' = c_fd c ∧ c_events c' = without (c_events c) real.
Proof.
  intros Hc Hok Hreal Hsub. pose proof Hok as (He & _).
  destruct Hreal as [-> | [-> | [-> | ->]]]; cbn [has waiters].
  - exists c. split; [|split_and!; [done|done|by rewrite Z.ldiff_0_r]].
    change (has 0 READ) with false. change (has 0 WRITE) with false.
    cbn [mbind res_bind app]. rewrite app_nil_r. rewrite (insert_id _ _ _ Hc).
    destruct m as [[] ? ? ? ? ? ?]. unfold set_pool. simpl. do 3 f_equal. lia.
  - change (has 1 READ) with true. change (has 1 WRITE) with false. cbn [mbind res_bind app].
    assert (has (c_events c) READ = true) as Hh by (unfold has, READ; by rewrite Hsub).
    rewrite (trigger_spec _ a c READ) by (done || by left).
    destruct (cleared_ok c READ (e_threadId (getEventContext READ c)) Hok (or_introl eq_refl))
      as (H1 & H2 & H3 & H4). specialize (H3 Hh). eexists. split; [|split_and!; done].
    cbn [mbind res_bind]. rewrite H3. do 2 f_equal. lia.
  - change (has 4 READ) with false. change (has 4 WRITE) with true. cbn [mbind res_bind app].
    assert (has (c_events c) WRITE = true) as Hh by (unfold has, WRITE; by rewrite Hsub).
    rewrite (trigger_spec _ a c WRITE) by (done || by right).
    destruct (cleared_ok c WRITE (e_threadId (getEventContext WRITE c)) Hok (or_intror eq_refl))
      as (H1 & H2 & H3 & H4). specialize (H3 Hh). eexists. split; [|split_and!; done].
    rewrite H3. do 2 f_equal. lia.
  - assert (c_events c = 5) as H5.
    { destruct He as [E|[E|[E|E]]]; rewrite E in Hsub; done. }
    change (has 5 READ) with true. change (has 5 WRITE) with true. cbn [app].
    assert (has (c_events c) READ = true) as Hh by (by rewrite H5).
    rewrite (trigger_spec _ a c READ) by (done || by left). cbn [mbind res_bind].
    destruct (cleared_ok c READ (e_threadId (getEventContext READ c)) Hok (or_introl eq_refl))
      as (H1 & H2 & H3 & H4). specialize (H3 Hh). set (c1 := cleared READ _ c) in *.
    assert (has (c_events c1) WRITE = true) as Hh' by (by rewrite H4, H5).
    rewrite (trigger_spec _ a c1 WRITE) by (simpl; rewrite ?lookup_insert_eq; done || by right).
    destruct (cleared_ok c1 WRITE (e_threadId (getEventContext WRITE c1)) H1 (or_intror eq_refl))
      as (K1 & K2 & K3 & K4). specialize (K3 Hh').
    eexists. split; [|split_and!; [exact K1|congruence|by rewrite K4, H4, H5]].
    cbn [m_sched m_tm m_pendingEventCount m_fdContexts m_ctxs m_fresh m_ctl].
    rewrite insert_insert_eq, K3, H3. unfold set_pool. cbn. rewrite <- app_assoc.
    do 2 f_equal. lia.
Qed.

Lemma realEvent_ok bits : events_ok (realEvent bits).
Proof. unfold realEvent, events_ok. repeat case_if; vm_compute; auto. Qed.

Lemma without_ok e r : events_ok e → events_ok r → events_ok (without e r).
Proof. intros He Hr. by_events He; by_events Hr; cbv; auto. Qed.

(** A ready context all of whose events are registered. *)
Lemma dispatch_spec i a c bits m :
  wf m → m_fdContexts m !! i = Some a → m_ctxs m !! a = Some c →
  Z.land (c_events c) (realEvent bits) = realEvent bits → realEvent bits ≠ 0 →
  ∃ m' c', dispatch true (OnFd a bits) m = Ret m' ∧ wf m' ∧
    m_taskPools (m_sched m') = m_taskPools (m_sched m) ++ waiters (realEvent bits) c ∧
    m_ctxs m' !! a = Some c' ∧ c_events c' = without (c_events c) (realEvent bits) ∧
    m_fdContexts m' = m_fdContexts m ∧ m_tm m' = m_tm m ∧ ∀ b, b ≠ a → m_ctxs m' !! b = m_ctxs m !! b.
Proof.
  intros Hw Hi Hc Hsub Hne. destruct (wf_ctx _ Hw _ _ Hi) as (c0 & Hc0 & Hfd & Hok & Hint).
  rewrite Hc in Hc0. injection Hc0 as <-.
  unfold dispatch, ctx_at. rewrite Hc. cbn [deref mbind res_bind].
  pose proof (realEvent_ok bits) as Hr. set (real := realEvent bits) in *.
  assert (has (c_events c) real = true) as Hh.
  { unfold has. rewrite Hsub. by rewrite (proj2 (Z.eqb_neq _ _)). }
  rewrite Hh. cbn [negb].
  set (left := without (c_events c) real).
  set (op := if left =? 0 then EPOLL_CTL_DEL else EPOLL_CTL_MOD).
  destruct (trigger_pair a c real (log_ctl op (c_fd c) (Z.lor EPOLLET left) m))
    as (c' & Heq & H1 & H2 & H3); try done.
  rewrite Heq. cbn [log_ctl m_sched m_tm m_pendingEventCount m_fdContexts m_ctxs m_fresh m_ctl].
  eexists _, c'. split; [done|].
  split_and!; [| |simpl; by rewrite lookup_insert_eq|done|done|done|intros b Hb; simpl; by rewrite lookup_insert_ne].
  - rewrite Hfd. apply (wf_update m i a c c'); try done.
    + assert (c_events c ≠ 0).
      { intros H0. rewrite H0 in Hsub. by rewrite Z.land_0_l in Hsub. }
      apply (proj2 (fits_of m (Z.of_nat i) c READ Hok Hint (or_introl eq_refl))); [done|].
      unfold op. by case_if.
    + rewrite interest_snoc, Z.eqb_refl. unfold wanted. rewrite H3. fold left. unfold op. by case_if.
  - done.
Qed.

Lemma dispatch_none ok i a c bits m :
  wf m → m_fdContexts m !! i = Some a → m_ctxs m !! a = Some c →
  ok = false ∨ Z.land (c_events c) (realEvent bits) = 0 →
  dispatch ok (OnFd a bits) m = Ret m.
Proof.
  intros Hw Hi Hc Hno. unfold dispatch, ctx_at. rewrite Hc. cbn [deref mbind res_bind].
  destruct (has (c_events c) (realEvent bits)) eqn:Hh; [|done].
  destruct Hno as [->|H0]; [done|]. unfold has in Hh. by rewrite H0 in Hh.
Qed.

(** Both events ready, one registered: the assertion of [triggerEvent]. *)
Lemma dispatch_half a c bits m :
  m_ctxs m !! a = Some c → ctx_ok c → event_ok (c_events c) → realEvent bits = 5 →
  dispatch true (OnFd a bits) m = Panic "events & event".
Proof.
  intros Hc Hok Hev Hre.
  unfold dispatch, ctx_at. rewrite Hc. cbn [deref mbind res_bind]. rewrite Hre.
  destruct Hev as [Hce|Hce]; rewrite Hce.
  - change (has READ 5) with true. cbn [negb]. change (has 5 READ) with true.
    change (has 5 WRITE) with true.
    rewrite (trigger_spec _ a c READ); [|done|done|by left|by rewrite Hce].
    cbn [mbind res_bind]. unfold trigger, ctx_at. cbn [m_ctxs]. rewrite lookup_insert_eq.
    cbn [deref mbind res_bind]. unfold triggerEvent.
    destruct (cleared_ok c READ (e_threadId (getEventContext READ c)) Hok (or_introl eq_refl))
      as (_ & _ & _ & ->). by rewrite Hce.
  - change (has WRITE 5) with true. cbn [negb]. change (has 5 READ) with true.
    unfold trigger, ctx_at. cbn [log_ctl m_ctxs]. rewrite Hc. cbn [deref mbind res_bind].
    unfold triggerEvent. by rewrite Hce.
Qed.

(** What dispatching a context can do: nothing, what [dispatch_spec] says, or
    stop the process. *)
Lemma dispatch_cases ok i a c bits m :
  wf m → m_fdContexts m !! i = Some a → m_ctxs m !! a = Some c →
  (dispatch ok (OnFd a bits) m = Ret m ∧ (ok = false ∨ Z.land (c_events c) (realEvent bits) = 0)) ∨
  (ok = true ∧ Z.land (c_events c) (realEvent bits) = realEvent bits ∧ realEvent bits ≠ 0) ∨
  dispatch ok (OnFd a bits) m = Panic "events & event".
Proof.
  intros Hw Hi Hc. destruct (wf_ctx _ Hw _ _ Hi) as (c0 & Hc0 & _ & Hok & _).
  rewrite Hc in Hc0. injection Hc0 as <-.
  destruct (decide (ok = false ∨ Z.land (c_events c) (realEvent bits) = 0)) as [Hno|Hno].
  { left. split; [by eapply dispatch_none|done]. }
  right. destruct ok; [|tauto]. pose proof (realEvent_ok bits) as Hr. pose proof Hok as (He & _).
  assert (realEvent bits ≠ 0) by (intros E; rewrite E, Z.land_0_r in Hno; tauto).
  destruct (decide (Z.land (c_events c) (realEvent bits) = realEvent bits)); [by left|right].
  assert (event_ok (c_events c) ∧ realEvent bits = 5) as [? ?]; [|by apply (dispatch_half a c)].
  unfold event_ok, READ, WRITE.
  destruct He as [E|[E|[E|E]]], Hr as [F|[F|[F|F]]]; rewrite E, F in *; simpl in *; naive_solver.
Qed.

Lemma cancelAll_spec i a c m :
  wf m → m_fdContexts m !! i = Some a → m_ctxs m !! a = Some c → c_events c ≠ 0 →
  ∃ m' c', cancelAllEvent true (Z.of_nat i) m = Ret (true, m') ∧ wf m' ∧
    m_taskPools (m_sched m') = m_taskPools (m_sched m) ++ waiters (c_events c) c ∧
    m_ctxs m' !! a = Some c' ∧ c_events c' = 0.
Proof.
  intros Hw Hi Hc Hne. destruct (wf_ctx _ Hw _ _ Hi) as (c0 & Hc0 & Hfd & Hok & Hint).
  rewrite Hc in Hc0. injection Hc0 as <-. pose proof Hok as (He & _).
  unfold cancelAllEvent.
  destruct (lookup_ctx_spec (Z.of_nat i) m Hw) as [(Hle & _)|(a' & c0 & Ha' & _ & _ & _ & _ & -> & _)];
    [lia|apply lookup_lt_Some in Hi; unfold zlen in Hle; lia|]. clear c0.
  rewrite Nat2Z.id in Ha'. rewrite Hi in Ha'. injection Ha' as <-.
  cbn [mbind res_bind]. unfold ctx_at. rewrite Hc. cbn [deref mbind res_bind negb].
  rewrite (proj2 (Z.eqb_neq _ _)) by done.
  set (m0 := log_ctl EPOLL_CTL_DEL (Z.of_nat i) 0 m).
  destruct (trigger_pair a c (c_events c) m0) as (c' & Heq & H1 & H2 & H3);
    [done|done|done|apply Z.land_diag|].
  assert ((trigger_if READ a m0 ≫= trigger_if WRITE a) =
    (m1 ← if has (c_events c) READ then trigger READ a m0 else Ret m0;
     if has (c_events c) WRITE then trigger WRITE a m1 else Ret m1)) as Hif.
  { assert (trigger_if READ a m0 = if has (c_events c) READ then trigger READ a m0 else Ret m0)
      as ->.
    { unfold trigger_if, ctx_at. change (m_ctxs m0) with (m_ctxs m). by rewrite Hc. }
    destruct (has (c_events c) READ) eqn:Hr; cbn [mbind res_bind].
    - rewrite (trigger_spec _ a c READ) by (done || by left). cbn [mbind res_bind].
      unfold trigger_if, ctx_at. cbn [m_ctxs]. rewrite lookup_insert_eq. cbn [deref mbind res_bind].
      set (c1 := cleared READ _ c). assert (has (c_events c1) WRITE = has (c_events c) WRITE) as ->; [|done].
      subst c1. simpl. by_events He; done.
    - unfold trigger_if, ctx_at. change (m_ctxs m0) with (m_ctxs m). by rewrite Hc. }
  rewrite <- bind_assoc, Hif, Heq. cbn [mbind res_bind]. unfold ctx_at. cbn [m_ctxs].
  rewrite lookup_insert_eq. cbn [deref mbind res_bind]. rewrite H3.
  assert (without (c_events c) (c_events c) = 0) as Hz by apply Z.ldiff_diag.
  rewrite Hz. cbn [check mbind res_bind Z.eqb NONE].
  eexists _, c'. split; [done|]. split_and!; [|done|simpl; by rewrite lookup_insert_eq|congruence].
  cbn [log_ctl m_sched m_tm m_pendingEventCount m_fdContexts m_ctxs m_fresh m_ctl m0].
  apply (wf_update m i a c c'); try done.
  - apply (proj2 (fits_of m (Z.of_nat i) c READ Hok Hint (or_introl eq_refl))); done.
  - rewrite interest_snoc, Z.eqb_refl. unfold wanted. by rewrite H3, Hz.
Qed.

(** Growing the vector adds empty contexts and touches nothing else. *)
Lemma fill_contexts_spec n m :
  wf m →
  let m' := fill_contexts n m in
  wf m' ∧ m_sched m' = m_sched m ∧ m_pendingEventCount m' = m_pendingEventCount m ∧
  zlen (m_fdContexts m') = zlen (m_fdContexts m) + Z.of_nat n ∧
  (∀ i a, m_fdContexts m !! i = Some a → m_fdContexts m' !! i = Some a) ∧
  (∀ a c, m_ctxs m !! a = Some c → m_ctxs m' !! a = Some c).
Proof.
  revert m. induction n as [|n IH]; intros m Hw; cbn zeta; cbn [fill_contexts].
  { split_and!; try done. lia. }
  set (m1 := mkIOManager _ _ _ _ _ _ _).
  assert (m_ctxs m !! m_fresh m = None) as Hnone.
  { destruct (m_ctxs m !! m_fresh m) eqn:Hl; [|done].
    assert (m_fresh m < m_fresh m) by (apply (wf_fresh _ Hw); eauto). lia. }
  assert (m_fresh m ∉ m_fdContexts m) as Hout.
  { intros Hin. apply list_elem_of_lookup_1 in Hin as [i Hi].
    destruct (wf_ctx _ Hw _ _ Hi) as (c & Hc & _). congruence. }
  assert (wf m1) as Hw1.
  { pose proof (wf_size _ Hw). pose proof (zlen_nonneg (m_fdContexts m)). split; simpl.
    - rewrite zlen_app, zlen_cons, zlen_nil. lia.
    - apply NoDup_app. split; [apply Hw|]. split; [|apply NoDup_singleton].
      intros x Hx ->%list_elem_of_singleton. done.
    - intros i a Hi. apply lookup_app_Some in Hi as [Hi|[Hge Hi]].
      + assert (a ≠ m_fresh m).
        { intros ->. apply Hout. by eapply list_elem_of_lookup_2. }
        rewrite lookup_insert_ne by done. by apply Hw.
      + apply list_lookup_singleton_Some in Hi as [Hi <-]. rewrite lookup_insert_eq.
        assert (Z.of_nat i = zlen (m_fdContexts m)) as -> by (unfold zlen; lia).
        eexists. split; [done|]. split; [done|]. split.
        * split; [by left|]. by repeat split.
        * by apply (wf_out _ Hw).
    - intros a Ha. destruct (decide (a = m_fresh m)) as [->|]; [lia|].
      rewrite lookup_insert_ne in Ha by done. pose proof (wf_fresh _ Hw _ Ha). lia.
    - intros fd Hfd. rewrite zlen_app, zlen_cons, zlen_nil in Hfd. apply Hw. lia.
    - rewrite (wf_pending _ Hw).
      assert (∀ l h, m_fresh m ∉ l →
        total (<[m_fresh m := FdContext_new (zlen (m_fdContexts m))]> h) (l ++ [m_fresh m]) = total h l)
        as Ht.
      { intros l h Hl. induction l as [|b l IHl]; simpl.
        - unfold pend_at. rewrite lookup_insert_eq. done.
        - rewrite IHl by set_solver. unfold pend_at. rewrite lookup_insert_ne by set_solver. done. }
      by rewrite Ht.
    - apply Hw. }
  destruct (IH m1 Hw1) as (H1 & H2 & H3 & H4 & H5 & H6). split_and!; try done.
  - rewrite H4. simpl. rewrite zlen_app, zlen_cons, zlen_nil. lia.
  - intros i a Hi. apply H5. simpl. rewrite lookup_app_l; [done|]. by eapply lookup_lt_Some.
  - intros a c Hc. apply H6. simpl. rewrite lookup_insert_ne; [done|]. congruence.
Qed.

Lemma grown_past fd : 2 <= fd → fd < 3 * fd / 2.
Proof. intros H. apply Z.lt_le_trans with (fd + 1); [lia|]. apply Z.div_le_lower_bound; lia. Qed.
Lemma grown_past_size fd n : 64 <= n → n <= 3 * fd / 2 → 0 <= fd < 3 * fd / 2.
Proof.
  intros Hn Hfd. assert (2 <= fd) by (destruct (Z.le_gt_cases 2 fd); [done|];
    assert (3 * fd / 2 < 64) by (apply Z.div_lt_upper_bound; lia); lia).
  split; [lia|by apply grown_past].
Qed.
Lemma addEvent_grow_spec fd m :
  wf m → zlen (m_fdContexts m) <= 3 * fd / 2 →
  ∃ a m', addEvent_grow fd m = Ret (a, m') ∧ wf m' ∧ m_sched m' = m_sched m ∧
    m_pendingEventCount m' = m_pendingEventCount m ∧ m_fdContexts m' !! Z.to_nat fd = Some a ∧
    (∀ b c, m_ctxs m !! b = Some c → m_ctxs m' !! b = Some c) ∧
    (∀ i b, m_fdContexts m !! i = Some b → m_fdContexts m' !! i = Some b).
Proof.
  intros Hw Hfd. pose proof (wf_size _ Hw). unfold addEvent_grow, fdContextsResize.
  destruct (grown_past_size fd _ (wf_size _ Hw) Hfd) as [Hpos Hgt].
  rewrite ztake_ge, zdrop_ge by lia. cbn [foldr].
  assert (mkIOManager (m_sched m) (m_tm m) (m_pendingEventCount m) (m_fdContexts m) (m_ctxs m)
    (m_fresh m) (m_ctl m) = m) as -> by (by destruct m).
  destruct (fill_contexts_spec (Z.to_nat (3 * fd / 2 - zlen (m_fdContexts m))) m Hw)
    as (H1 & H2 & H3 & H4 & H5 & H6).
  set (m' := fill_contexts _ m) in *.
  destruct (lookup_lt_is_Some_2 (m_fdContexts m') (Z.to_nat fd)) as [a Ha].
  { unfold zlen in H4. lia. }
  rewrite Ha. cbn [deref mbind res_bind]. exists a, m'. split_and!; done.
Qed.

(** [addEvent] on a consistent manager: refused exactly when the event is
    registered or epoll refuses; otherwise the waiter is in its slot. *)
Lemma addEvent_spec ok cur tid fd event cb m :
  wf m → 0 <= fd → event_ok event →
  (∃ m', addEvent ok cur tid Coroutine.EXECING true fd event cb m = Ret (ADD_EVENT_ERR, m') ∧
     wf m' ∧ m_sched m' = m_sched m ∧ m_pendingEventCount m' = m_pendingEventCount m) ∨
  ∃ m' a c0 c', ok = true ∧
    addEvent ok cur tid Coroutine.EXECING true fd event cb m = Ret (ADD_EVENT_SUC, m') ∧
    wf m' ∧ m_sched m' = m_sched m ∧ m_pendingEventCount m' = m_pendingEventCount m + 1 ∧
    m_fdContexts m' !! Z.to_nat fd = Some a ∧ m_ctxs m' !! a = Some c' ∧
    has (c_events c0) event = false ∧ c_events c' = Z.lor (c_events c0) event ∧
    (∀ c, m_ctxs m !! a = Some c → c0 = c) ∧
    getEventContext event c' = new_waiter cur tid cb (getEventContext event c0).
Proof.
  intros Hw Hfd Hev. unfold addEvent.
  assert (∃ a m1, (found ← addEvent_find fd m;
      match found with Some a => Ret (a, m) | None => addEvent_grow fd m end) = Ret (a, m1) ∧
    wf m1 ∧ m_sched m1 = m_sched m ∧ m_pendingEventCount m1 = m_pendingEventCount m ∧
    m_fdContexts m1 !! Z.to_nat fd = Some a ∧
    (∀ b c, m_ctxs m !! b = Some c → m_ctxs m1 !! b = Some c))
    as (a & m1 & Heq & Hw1 & Hs1 & Hp1 & Ha1 & Hk1).
  { destruct (lookup_ctx_spec fd m Hw Hfd) as [(Hle & _ & ->)|(a & c & Ha & _ & _ & _ & _ & _ & ->)];
      cbn [mbind res_bind].
    - pose proof (wf_size _ Hw). pose proof (grown_past fd).
      destruct (addEvent_grow_spec fd m Hw) as (a & m1 & ? & ? & ? & ? & ? & ? & _); [lia|].
      exists a, m1. by split_and!.
    - exists a, m. by split_and!. }
  rewrite <- bind_assoc, Heq. cbn [mbind res_bind].
  destruct (wf_ctx _ Hw1 _ _ Ha1) as (c & Hc & _).
  pose proof (addEvent_on_spec ok cur tid a (Z.to_nat fd) c event cb m1 Hw1 Ha1 Hc Hev) as Hon.
  rewrite Z2Nat.id in Hon by done.
  destruct (has (c_events c) event || negb ok) eqn:Hb.
  - left. exists m1. by split_and!.
  - right. apply orb_false_iff in Hb as [Hb Hok]. destruct ok; [|done].
    destruct Hon as (m' & c' & H1 & H2 & H3 & H4 & H5 & H6 & H7 & H8 & H9).
    exists m', a, c, c'. split_and!; try done; [congruence|congruence|congruence| |].
    + rewrite H6. apply lookup_insert_eq.
    + intros cx Hcx. apply Hk1 in Hcx. congruence.
Qed.

(** ** Executions *)

(** What the threads of the manager do to it, one critical section at a time.
    The two halves of [addEvent] are steps of their own, so that anything can
    come between them: the growth of the vector, and the registration on the
    context that the first half found, which is the one that the vector still
    has at that index (see [step_keeps]).  One growth is left out: that of a
    thread whose descriptor is so small by now that the vector would shrink
    (see [addEvent_race]).  A ready context is dispatched whatever the kernel
    reports, unless an assertion fails. *)
Inductive step : IOManager → IOManager → Prop :=
  | step_grow fd a m m' : zlen (m_fdContexts m) <= 3 * fd / 2 →
      addEvent_grow fd m = Ret (a, m') → step m m'
  | step_on ok cur tid a fd event cb r m m' : 0 <= fd → event_ok event →
      m_fdContexts m !! Z.to_nat fd = Some a →
      addEvent_on ok cur tid Coroutine.EXECING true a fd event cb m = Ret (r, m') → step m m'
  | step_del ok fd event r m m' : 0 <= fd → event_ok event →
      delEvent ok fd event m = Ret (r, m') → step m m'
  | step_cancel ok fd event r m m' : 0 <= fd → event_ok event →
      cancelEvent ok fd event m = Ret (r, m') → step m m'
  | step_cancelAll ok fd r m m' : 0 <= fd → cancelAllEvent ok fd m = Ret (r, m') → step m m'
  | step_ready ok a i bits m m' : m_fdContexts m !! i = Some a →
      dispatch ok (OnFd a bits) m = Ret m' → step m m'
  | step_sched s m : step m (with_sched s m)
  | step_timers t m : step m (with_tm t m).

Lemma wf_with s t m : wf m → wf (with_sched s m) ∧ wf (with_tm t m).
Proof. intros Hw. split; split; apply Hw. Qed.

(** No call but the growth of [addEvent] changes the vector of contexts. *)
Lemma trigger_keeps_vector event a m m' : trigger event a m = Ret m' → m_fdContexts m' = m_fdContexts m.
Proof.
  unfold trigger. intros (c & _ & ([c' s] & _ & [= <-])%bind_Ret)%bind_Ret. done.
Qed.
Ltac same_vector := repeat match goal with
  | H : _ ≫= _ = Ret _ |- _ => apply bind_Ret in H as (? & ? & H)
  | H : trigger _ _ _ = Ret _ |- _ => apply trigger_keeps_vector in H
  | H : (if ?b then _ else _) = Ret _ |- _ => destruct b
  | H : match ?o with Some _ => _ | None => _ end = Ret _ |- _ => destruct o
  end; simplify_eq/=; try congruence.
Lemma addEvent_on_keeps_vector ok cur tid st sch a fd event cb r m m' :
  addEvent_on ok cur tid st sch a fd event cb m = Ret (r, m') → m_fdContexts m' = m_fdContexts m.
Proof. unfold addEvent_on. intros H. same_vector. Qed.
Lemma removal_keeps_vector ok fd event r m m' :
  delEvent ok fd event m = Ret (r, m') ∨ cancelEvent ok fd event m = Ret (r, m') ∨
  cancelAllEvent ok fd m = Ret (r, m') → m_fdContexts m' = m_fdContexts m.
Proof.
  unfold delEvent, cancelEvent, cancelAllEvent, trigger_if. intros [H|[H|H]]; same_vector.
Qed.
Lemma dispatch_keeps_vector ok ev m m' : dispatch ok ev m = Ret m' → m_fdContexts m' = m_fdContexts m.
Proof. unfold dispatch. intros H. destruct ev; same_vector. Qed.

(** A context that is at an index stays there: what the first half of
    [addEvent] has found is still the context of the descriptor when the
    second half takes its lock. *)
Lemma step_keeps m m' i a : wf m → step m m' → m_fdContexts m !! i = Some a → m_fdContexts m' !! i = Some a.
Proof.
  intros Hw Hst Hi. destruct Hst as [fd b m m' Hfd He|? ? ? ? ? ? ? ? m m' _ _ _ He|? ? ? ? m m' _ _ He
    |? ? ? ? m m' _ _ He|? ? ? m m' _ He|? ? ? ? m m' _ He|s m|t m]; try done.
  - destruct (addEvent_grow_spec fd m Hw Hfd) as (b' & m1 & E & _ & _ & _ & _ & _ & Hk).
    rewrite E in He. injection He as _ <-. by apply Hk.
  - by rewrite (addEvent_on_keeps_vector _ _ _ _ _ _ _ _ _ _ _ _ He).
  - by rewrite (removal_keeps_vector _ _ _ _ _ _ (or_introl He)).
  - by rewrite (removal_keeps_vector _ _ _ _ _ _ (or_intror (or_introl He))).
  - by rewrite (removal_keeps_vector _ _ READ _ _ _ (or_intror (or_intror He))).
  - by rewrite (dispatch_keeps_vector _ _ _ _ He).
Qed.

Lemma io_step_wf m m' : wf m → step m m' → wf m'.
Proof.
  intros Hw Hst. destruct Hst as [fd a m m' Hfd He|ok cur tid a fd event cb r m m' Hfd Hev Hi He
    |ok fd event r m m' Hfd Hev He|ok fd event r m m' Hfd Hev He|ok fd r m m' Hfd He|ok a i bits m m' Hi He|s m|t m].
  - destruct (addEvent_grow_spec fd m Hw Hfd) as (b & m1 & E & Hw1 & _). congruence.
  - destruct (wf_ctx _ Hw _ _ Hi) as (c & Hc & _).
    pose proof (addEvent_on_spec ok cur tid a (Z.to_nat fd) c event cb m Hw Hi Hc Hev) as Hon.
    rewrite Z2Nat.id in Hon by done. destruct (has (c_events c) event || negb ok); [congruence|].
    destruct Hon as (m1 & _ & H1 & H2 & _). congruence.
  - destruct (remove_spec ok fd event m Hw Hfd Hev)
      as [(H1 & _)|(_ & _ & m1 & _ & _ & _ & _ & _ & H1 & H2 & _)]; congruence.
  - destruct (remove_spec ok fd event m Hw Hfd Hev)
      as [(_ & H1 & _)|(_ & _ & _ & m2 & _ & _ & _ & _ & _ & _ & _ & _ & H1 & H2 & _)]; congruence.
  - destruct (lookup_ctx_spec fd m Hw Hfd) as [(_ & Hl & _)|(a & c & Ha & Hc & _ & Hok & _ & Hl & _)].
    { unfold cancelAllEvent in He. rewrite Hl in He. simpl in He. congruence. }
    destruct (decide (c_events c = 0 ∨ ok = false)) as [H0|H0].
    { unfold cancelAllEvent, ctx_at in He. rewrite Hl in He. cbn [mbind res_bind] in He.
      rewrite Hc in He. cbn [deref mbind res_bind] in He.
      destruct H0 as [E| ->]; [rewrite E in He|destruct (c_events c =? 0)]; simpl in He; congruence. }
    destruct ok; [|tauto].
    destruct (cancelAll_spec (Z.to_nat fd) a c m Hw Ha Hc) as (m1 & _ & H1 & H2 & _); [tauto|].
    rewrite Z2Nat.id in H1 by done. congruence.
  - destruct (wf_ctx _ Hw _ _ Hi) as (c & Hc & _ & Hok & _).
    destruct (dispatch_cases ok i a c bits m Hw Hi Hc) as [[E _]|[(-> & Hsub & Hne)|E]]; [congruence| |congruence].
    destruct (dispatch_spec i a c bits m Hw Hi Hc Hsub Hne) as (m1 & _ & H1 & H2 & _). congruence.
  - by apply (wf_with s (m_tm m)).
  - by apply (wf_with (m_sched m) t).
Qed.

(** [addEvent] without interference is its two halves in a row. *)
Lemma addEvent_steps ok cur tid fd event cb r m m' :
  wf m → 0 <= fd → event_ok event →
  addEvent ok cur tid Coroutine.EXECING true fd event cb m = Ret (r, m') → rtc step m m'.
Proof.
  intros Hw Hfd Hev H. unfold addEvent in H. apply bind_Ret in H as (found & Hf & H).
  apply bind_Ret in H as ([a m1] & Hg & H).
  destruct (lookup_ctx_spec fd m Hw Hfd) as [(Hle & _ & E)|(b & c & Hb & _ & _ & _ & _ & _ & E)];
    rewrite E in Hf; injection Hf as <-.
  - pose proof (wf_size _ Hw). pose proof (grown_past fd). assert (zlen (m_fdContexts m) <= 3 * fd / 2) by lia.
    destruct (addEvent_grow_spec fd m Hw) as (b & m2 & E2 & _ & _ & _ & Hb & _); [done|].
    rewrite E2 in Hg. injection Hg as <- <-.
    eapply rtc_l; [by eapply step_grow|]. by eapply rtc_once, step_on.
  - injection Hg as <- <-. by eapply rtc_once, step_on.
Qed.

Lemma new_wf s : wf (IOManager_new s).
Proof.
  unfold IOManager_new, fdContextsResize. cbn [foldr ztake zdrop].
  change (zlen []) with 0.
  (* the first context is added by hand: an empty vector is below the size of [wf] *)
  assert (∀ n m, (∀ a, a ∈ m_fdContexts m → a < m_fresh m) → NoDup (m_fdContexts m) →
    (∀ i a, m_fdContexts m !! i = Some a → m_ctxs m !! a = Some (FdContext_new (Z.of_nat i))) →
    (∀ a, is_Some (m_ctxs m !! a) → a < m_fresh m) → m_pendingEventCount m = 0 → m_ctl m = [] →
    let m' := fill_contexts n m in
    zlen (m_fdContexts m') = zlen (m_fdContexts m) + Z.of_nat n ∧ NoDup (m_fdContexts m') ∧
    (∀ i a, m_fdContexts m' !! i = Some a → m_ctxs m' !! a = Some (FdContext_new (Z.of_nat i))) ∧
    (∀ a, is_Some (m_ctxs m' !! a) → a < m_fresh m') ∧ m_pendingEventCount m' = 0 ∧ m_ctl m' = [])
    as Hgen.
  { intros n. induction n as [|n IH]; intros m H1 H2 H3 H4 H5 H6; cbn zeta; cbn [fill_contexts].
    { split_and!; try done. lia. }
    assert (m_fresh m ∉ m_fdContexts m) as Hout by (intros Hin%H1; lia).
    edestruct (IH (mkIOManager (m_sched m) (m_tm m) (m_pendingEventCount m) (m_fdContexts m ++ [m_fresh m])
      (<[m_fresh m := FdContext_new (zlen (m_fdContexts m))]> (m_ctxs m)) (m_fresh m + 1) (m_ctl m)))
      as (K1 & K2); simpl; try done.
    - intros a [Ha%H1| ->%list_elem_of_singleton]%elem_of_app; lia.
    - apply NoDup_app. split; [done|]. split; [|apply NoDup_singleton].
      intros x Hx ->%list_elem_of_singleton. done.
    - intros i a Hi. apply lookup_app_Some in Hi as [Hi|[Hge Hi]].
      + rewrite lookup_insert_ne; [by apply H3|]. intros <-. apply Hout. by eapply list_elem_of_lookup_2.
      + apply list_lookup_singleton_Some in Hi as [Hi <-]. rewrite lookup_insert_eq.
        do 2 f_equal. unfold zlen. lia.
    - intros a Ha. destruct (decide (a = m_fresh m)) as [->|]; [lia|].
      rewrite lookup_insert_ne in Ha by done. specialize (H4 _ Ha). lia.
    - split; [|done]. rewrite K1. simpl. rewrite zlen_app, zlen_cons, zlen_nil. lia. }
  set (m0 := mkIOManager _ _ _ _ _ _ _).
  assert (m_fdContexts m0 = [] ∧ m_ctxs m0 = ∅ ∧ m_pendingEventCount m0 = 0 ∧ m_ctl m0 = [])
    as (E1 & E2 & E3 & E4) by done.
  clearbody m0. rewrite E1. change (64 - zlen []) with 64.
  remember (Z.to_nat 64) as n eqn:Hn. assert (Z.of_nat n = 64) as Hn64 by lia. clear Hn.
  specialize (Hgen n m0). rewrite E1, E2 in Hgen.
  destruct Hgen as (H1 & H2 & H3 & H4 & H5 & H6).
  - intros a Ha. by apply not_elem_of_nil in Ha.
  - constructor.
  - intros i a Ha. by rewrite lookup_nil in Ha.
  - intros a [x Hx]. by rewrite lookup_empty in Hx.
  - done.
  - done.
  - set (m' := fill_contexts _ m0) in *. clearbody m'.
    assert (∀ l, (∀ a, a ∈ l → a ∈ m_fdContexts m') → total (m_ctxs m') l = 0) as Ht.
    { intros l. induction l as [|a l IHl]; intros Hl; [done|]. simpl.
      rewrite IHl by (intros; apply Hl; by right).
      assert (a ∈ m_fdContexts m') as Hin by (apply Hl; by left).
      apply list_elem_of_lookup_1 in Hin as [i Hi]. unfold pend_at. by rewrite (H3 _ _ Hi). }
    split; try done.
    + rewrite H1, zlen_nil. lia.
    + intros i a Hi. exists (FdContext_new (Z.of_nat i)). rewrite H6. split_and!; try done.
      * by apply H3.
      * split; [by left|]. by repeat split.
    + by rewrite H6.
    + rewrite H5. symmetry. by apply Ht.
    + rewrite H6. constructor.
Qed.

Lemma steps_keep m m' : wf m → rtc step m m' →
  ∀ i a, m_fdContexts m !! i = Some a → m_fdContexts m' !! i = Some a.
Proof.
  intros Hw Hs. revert Hw. induction Hs as [|m m1 m' H1 _ IH]; intros Hw i a Hi; [done|].
  apply IH; [by eapply io_step_wf|]. by eapply step_keeps.
Qed.

Lemma io_reachable_wf s m : rtc step (IOManager_new s) m → wf m.
Proof.
  intros Hr. assert (∀ m1 m2, rtc step m1 m2 → wf m1 → wf m2) as Hgen.
  { intros m1 m2 H. induction H; [done|]. eauto using io_step_wf. }
  eapply Hgen; [done|apply new_wf].
Qed.

(** ** Properties *)

(** C22: in every state that the threads can reach, with the critical sections
    of their calls in any order (the two halves of [addEvent] apart; the one
    section left out is a growth that would shrink the vector, as
    [addEvent_race] shows what that does), the pending count is the
    number of registered events, so the manager can only report that it is
    stopping when no event is registered; every call of epoll_ctl that was
    made fitted the kernel's interest list (ADD for an absent descriptor, MOD
    and DEL for a present one), and that list holds exactly the registered
    events of every descriptor, edge-triggered.  A context that a thread has
    found stays where it is, whatever the others do. *)
Theorem pending_counts_events s m :
  rtc step (IOManager_new s) m →
  m_pendingEventCount m = total (m_ctxs m) (m_fdContexts m) ∧
  (stopping m = true → ∀ i a c, m_fdContexts m !! i = Some a → m_ctxs m !! a = Some c →
     c_events c = NONE) ∧
  ctl_valid (m_ctl m) ∧
  (∀ i a, m_fdContexts m !! i = Some a → ∃ c, m_ctxs m !! a = Some c ∧
    interest (m_ctl m) (Z.of_nat i) =
      if c_events c =? 0 then None else Some (Z.lor EPOLLET (c_events c))) ∧
  ∀ m', rtc step m m' → ∀ i a, m_fdContexts m !! i = Some a → m_fdContexts m' !! i = Some a.
Proof.
  intros Hr. pose proof (io_reachable_wf s m Hr) as Hw.
  split_and!; [apply Hw| |apply Hw| |intros m' Hm'; by apply (steps_keep m m' Hw)].
  - unfold stopping. intros [_ Hp]%andb_true_iff i a c Hi Hc. apply Z.eqb_eq in Hp.
    rewrite (wf_pending _ Hw) in Hp.
    destruct (wf_ctx _ Hw _ _ Hi) as (c' & Hc' & _ & (He & _) & _). rewrite Hc in Hc'. injection Hc' as <-.
    assert (∀ l, a ∈ l → pend c <= total (m_ctxs m) l) as Hle.
    { intros l. induction l as [|b l IH]; [by intros ?%not_elem_of_nil|]. simpl.
      intros [<-|Hin]%elem_of_cons.
      - unfold pend_at. rewrite Hc. pose proof (total_nonneg (m_ctxs m) l). lia.
      - specialize (IH Hin). unfold pend_at. destruct (m_ctxs m !! b) as [cb|]; [|lia].
        pose proof (pend_nonneg cb). lia. }
    specialize (Hle (m_fdContexts m)). rewrite Hp in Hle.
    specialize (Hle ltac:(by eapply list_elem_of_lookup_2)). unfold pend in Hle.
    destruct He as [E|[E|[E|E]]]; rewrite E in Hle |- *; [done|vm_compute in Hle; by destruct Hle..].
  - intros i a Hi. destruct (wf_ctx _ Hw _ _ Hi) as (c & Hc & _ & _ & Hint). by exists c.
Qed.

Definition idle_sched : Scheduler := mkScheduler false 1 1 [] [11] 1 0 false false [].
Definition one_event : IOManager :=
  match addEvent true 100 11 Coroutine.EXECING true 5 READ None (IOManager_new idle_sched) with
  | Ret (_, m) => m
  | _ => IOManager_new idle_sched
  end.

Lemma one_event_reachable : rtc step (IOManager_new idle_sched) one_event.
Proof.
  apply (addEvent_steps true 100 11 5 READ None ADD_EVENT_SUC); [apply new_wf|lia|by left|].
  vm_compute. reflexivity.
Qed.

(** Thread 11 has found the vector too short for 100 and grown it; before it
    registers, another thread registers descriptor 5. *)
Definition two_halves (m : IOManager) : res IOManager :=
  '(a, m) ← addEvent_grow 100 m;
  '(_, m) ← addEvent true 200 12 Coroutine.EXECING true 5 READ None m;
  '(_, m) ← addEvent_on true 100 11 Coroutine.EXECING true a 100 WRITE None m;
  Ret m.
Definition interleaved : IOManager :=
  match two_halves (IOManager_new idle_sched) with Ret m => m | _ => IOManager_new idle_sched end.

Lemma two_halves_steps m : wf m → zlen (m_fdContexts m) <= 150 →
  rtc step m (match two_halves m with Ret m' => m' | _ => m end).
Proof.
  intros Hw Hsz. destruct (two_halves m) as [m'| | | |] eqn:E; try done.
  destruct (addEvent_grow_spec 100 m) as (a & m1 & E1 & Hw1 & _ & _ & Ha & _); [done|done|].
  eapply rtc_l; [by apply (step_grow 100 a m m1)|].
  unfold two_halves in E. rewrite E1, ret_bind in E.
  apply bind_Ret in E as ([r2 m2] & E2 & ([r3 m3] & E3 & [= <-])%bind_Ret).
  pose proof (addEvent_steps true 200 12 5 READ None r2 m1 m2 Hw1 ltac:(lia) (or_introl eq_refl) E2) as Hs.
  etrans; [exact Hs|]. eapply rtc_once, (step_on true 100 11 a 100 WRITE None r3); [lia|by right| |exact E3].
  by apply (steps_keep m1 m2 Hw1 Hs).
Qed.
Lemma interleaved_reachable : rtc step (IOManager_new idle_sched) interleaved.
Proof. apply two_halves_steps; [apply new_wf|vm_compute; discriminate]. Qed.

Example pending_counts_events_witness :
  m_pendingEventCount interleaved = 2 ∧
  m_pendingEventCount interleaved = total (m_ctxs interleaved) (m_fdContexts interleaved) ∧
  (stopping interleaved = true → ∀ i a c, m_fdContexts interleaved !! i = Some a →
     m_ctxs interleaved !! a = Some c → c_events c = NONE) ∧
  ctl_valid (m_ctl interleaved).
Proof.
  split; [vm_compute; reflexivity|].
  destruct (pending_counts_events idle_sched interleaved interleaved_reachable) as (H1 & H2 & H3 & _).
  split; [exact H1|]. split; [exact H2|exact H3].
Defined.



(** A hang-up or an error on a descriptor that waits for one direction
    only stops the process: the idle loop turns EPOLLHUP and EPOLLERR into
    both events without masking them by the registered ones, and triggering
    the one that is not registered fails the assertion of [triggerEvent]. *)
Theorem hangup_asserts s m i a c event bits :
  rtc step (IOManager_new s) m → m_fdContexts m !! i = Some a → m_ctxs m !! a = Some c →
  event_ok event → c_events c = event → has bits (Z.lor EPOLLERR EPOLLHUP) = true →
  dispatch true (OnFd a bits) m = Panic "events & event".
Proof.
  intros Hr Hi Hc Hev Hce Hbits. pose proof (io_reachable_wf s m Hr) as Hw.
  destruct (wf_ctx _ Hw _ _ Hi) as (c0 & Hc0 & _ & Hok & _). rewrite Hc in Hc0. injection Hc0 as <-.
  apply (dispatch_half a c bits m Hc Hok); [by rewrite Hce|].
  unfold realEvent. rewrite Hbits. unfold has.
  assert (∀ x, x = EPOLLIN ∨ x = EPOLLOUT → Z.land (Z.lor bits (Z.lor EPOLLIN EPOLLOUT)) x = x) as Hl.
  { intros x Hx. rewrite Z.land_lor_distr_l.
    assert (Z.land (Z.lor EPOLLIN EPOLLOUT) x = x) as -> by (by destruct Hx as [-> | ->]).
    apply Z.bits_inj'. intros n _. rewrite Z.lor_spec, Z.land_spec.
    by destruct (Z.testbit bits n), (Z.testbit x n). }
  rewrite (Hl EPOLLIN) by (by left). rewrite (Hl EPOLLOUT) by (by right). done.
Qed.

Example hangup_asserts_witness :
  ∃ c, m_ctxs one_event !! 5 = Some c ∧
  dispatch true (OnFd 5 EPOLLHUP) one_event = Panic "events & event".
Proof.
  eexists. split; [vm_compute; reflexivity|].
  eapply (hangup_asserts idle_sched one_event 5 5 _ READ EPOLLHUP one_event_reachable);
    [vm_compute; reflexivity|vm_compute; reflexivity|by left|reflexivity|reflexivity].
Defined.

(** C40: the two locks of [addEvent] leave a window.  When two threads both
    find the vector too short, for [fd1] and for an [fd2] of at least one and a
    half times [fd1] (rounded down), and the one with [fd2] grows it first, the
    other then shrinks it to one and a half times [fd1] and deletes the context
    the first one is about to use. *)
Theorem addEvent_race m fd1 fd2 cur tid event cb :
  wf m → zlen (m_fdContexts m) <= fd1 → 3 * fd1 / 2 <= fd2 →
  addEvent_find fd1 m = Ret None ∧ addEvent_find fd2 m = Ret None ∧
  ∃ a2 m1 a1 m2, addEvent_grow fd2 m = Ret (a2, m1) ∧ addEvent_grow fd1 m1 = Ret (a1, m2) ∧
    addEvent_on true cur tid Coroutine.EXECING true a2 fd2 event cb m2 = Undef "deleted FdContext".
Proof.
  intros Hw H1 H2. pose proof (wf_size _ Hw) as Hsz.
  pose proof (grown_past fd1 ltac:(lia)) as Hgt.
  split; [unfold addEvent_find; by rewrite (proj2 (Z.ltb_ge _ _))|].
  split; [unfold addEvent_find; by rewrite (proj2 (Z.ltb_ge _ _)) by lia|].
  pose proof (grown_past fd2 ltac:(lia)).
  destruct (addEvent_grow_spec fd2 m Hw) as (a2 & m1 & Hg & Hw1 & _ & _ & Ha2 & _); [lia|].
  exists a2, m1. unfold addEvent_grow at 2, fdContextsResize.
  set (k := 3 * fd1 / 2) in *.
  set (m1' := mkIOManager _ _ _ _ _ _ _).
  assert (k <= fd2 < zlen (m_fdContexts m1)) as Hk.
  { split; [done|]. apply lookup_lt_Some in Ha2. unfold zlen. lia. }
  assert (zlen (m_fdContexts m1') = k) as Hk1 by (apply zlen_ztake; lia).
  rewrite Hk1, Z.sub_diag. change (Z.to_nat 0) with 0%nat. cbn [fill_contexts].
  destruct (lookup_lt_is_Some_2 (m_fdContexts m1') (Z.to_nat fd1)) as [a1 Ha1].
  { simpl. unfold ztake, zlen in *. rewrite length_take. lia. }
  rewrite Ha1. cbn [deref mbind res_bind]. exists a1, m1'. split; [done|]. split; [done|].
  unfold addEvent_on, ctx_at.
  assert (m_ctxs m1' !! a2 = None) as ->; [|done].
  cbn [m1' m_ctxs].
  assert (∀ l (h : gmap Z FdContext), a2 ∈ l → foldr (fun a h => delete a h) h l !! a2 = None) as Hdel.
  { intros l h. induction l as [|b l IH]; [by intros ?%not_elem_of_nil|]. simpl.
    destruct (decide (b = a2)) as [->|]; [by rewrite lookup_delete_eq|].
    intros [->|Hin]%elem_of_cons; [done|]. rewrite lookup_delete_ne by done. by apply IH. }
  apply Hdel. apply list_elem_of_lookup. exists (Z.to_nat fd2 - Z.to_nat k)%nat.
  unfold zdrop. rewrite lookup_drop. rewrite <- Ha2. f_equal. lia.
Qed.

Example addEvent_race_witness :
  let m := IOManager_new idle_sched in
  addEvent_find 64 m = Ret None ∧ addEvent_find 100 m = Ret None ∧
  ∃ a2 m1 a1 m2, addEvent_grow 100 m = Ret (a2, m1) ∧ addEvent_grow 64 m1 = Ret (a1, m2) ∧
    addEvent_on true 7 11 Coroutine.EXECING true a2 100 READ None m2 = Undef "deleted FdContext".
Proof.
  apply (addEvent_race (IOManager_new idle_sched) 64 100 7 11 READ None);
    [apply new_wf|vm_compute; discriminate|vm_compute; discriminate].
Defined.
