(* ===== verification/IOManagerIdle.v ===== *)
(** * A turn of [IOManager::idle]

    What an idle thread does between two yields: it waits, hands over the
    timers that are due, and the waiters of the ready descriptors.  The timers
    of TimerProps.v, the pool of SchedulerLock.v and the contexts of
    IOManagerProps.v are put together. *)

From Stdlib Require Import Sorted.
From S2P Require Import Prelude Scheduler SchedulerLock IOManager IOManagerProps.
From S2P Require Timer TimerProps Coroutine.

(** ** The waits *)

(** Every wait begins where the other threads left the manager. *)
Fixpoint interfered (m : IOManager) (waits : list Wait) : Prop :=
  match waits with
  | [] => True
  | w :: waits => rtc step m (w_manager w) ∧ interfered (w_manager w) waits
  end.

Lemma getNextTime_nonneg now t : 0 <= Timer.getNextTime now t.
Proof. unfold Timer.getNextTime. destruct (Timer.m_timers t); [lia|]. case_match; lia. Qed.

Lemma idle_wait_spec waits m timeouts events m1 :
  interfered m waits → idle_wait waits m = Ret (timeouts, events, m1) →
  rtc step m m1 ∧ Forall (λ t, 0 <= t <= 5000) timeouts ∧
  ∃ w, w ∈ waits ∧ events = ztake (w_rt w) (w_events w) ∧ m1 = w_manager w ∧
    wait_over (w_rt w) (w_after w) m1 = true.
Proof.
  revert m timeouts. induction waits as [|w waits IH]; intros m timeouts; [done|].
  cbn [interfered idle_wait]. intros [Hr Hi].
  assert (0 <= wait_timeout (w_before w) m <= 5000) as Ht.
  { unfold wait_timeout. pose proof (getNextTime_nonneg (w_before w) (m_tm m)).
    destruct (Z.ltb_spec 5000 (Timer.getNextTime (w_before w) (m_tm m))); lia. }
  destruct (wait_over _ _ _) eqn:Ho.
  - intros [= <- <- <-]. split; [done|]. split; [by constructor|]. exists w. split; [by left|]. done.
  - destruct (idle_wait waits (w_manager w)) as [[[ts es] m2]| | | |] eqn:E; try done.
    intros [= <- <- <-]. destruct (IH _ _ Hi E) as (H1 & H2 & w' & Hw & H3).
    split; [by etrans|]. split; [by constructor|]. exists w'. split; [by right|done].
Qed.

(** ** The ready events *)

(** The events that a report takes out of a context: none when [epoll_ctl]
    fails, else those that are ready and registered. *)
Definition taken (ok : bool) (bits : Z) (c : FdContext) : Z :=
  if ok then Z.land (c_events c) (realEvent bits) else 0.
(** Every context is reported at most once; it is one of the vector; and its
    ready events (both for a hang-up or an error) are all registered, or none
    of them is any more. *)
Fixpoint events_fit (events : list (bool * Ready)) (m : IOManager) : Prop :=
  match events with
  | [] => True
  | (_, Tickled) :: events => events_fit events m
  | (ok, OnFd a bits) :: events =>
      (∃ i c, m_fdContexts m !! i = Some a ∧ m_ctxs m !! a = Some c ∧
         (Z.land (c_events c) (realEvent bits) = realEvent bits ∨
          Z.land (c_events c) (realEvent bits) = 0)) ∧
      (∀ ok' bits', (ok', OnFd a bits') ∉ events) ∧ events_fit events m
  end.
(** The coroutines and closures that wait for them. *)
Definition woken (m : IOManager) (e : bool * Ready) : list Task :=
  match e with
  | (_, Tickled) => []
  | (ok, OnFd a bits) =>
      match m_ctxs m !! a with Some c => waiters (taken ok bits c) c | None => [] end
  end.

Lemma dispatch_one ok i a c bits m :
  wf m → m_fdContexts m !! i = Some a → m_ctxs m !! a = Some c →
  Z.land (c_events c) (realEvent bits) = realEvent bits ∨ Z.land (c_events c) (realEvent bits) = 0 →
  ∃ m' c', dispatch ok (OnFd a bits) m = Ret m' ∧ wf m' ∧
    m_taskPools (m_sched m') = m_taskPools (m_sched m) ++ waiters (taken ok bits c) c ∧
    m_ctxs m' !! a = Some c' ∧ c_events c' = without (c_events c) (taken ok bits c) ∧
    m_fdContexts m' = m_fdContexts m ∧ m_tm m' = m_tm m ∧ ∀ b, b ≠ a → m_ctxs m' !! b = m_ctxs m !! b.
Proof.
  intros Hw Hi Hc Hs. unfold taken.
  destruct (decide (ok = false ∨ Z.land (c_events c) (realEvent bits) = 0)) as [H0|H0].
  - exists m, c. rewrite (dispatch_none ok i a c bits m Hw Hi Hc H0).
    assert ((if ok then Z.land (c_events c) (realEvent bits) else 0) = 0) as ->
      by (destruct H0 as [->|E]; [done|by destruct ok]).
    change (waiters 0 c) with (@nil Task). unfold without. rewrite app_nil_r, Z.ldiff_0_r. done.
  - destruct ok; [|tauto]. destruct Hs as [Hs|Hs]; [|tauto]. rewrite Hs.
    apply (dispatch_spec i); [done..|]. intros E. rewrite E, Z.land_0_r in H0. tauto.
Qed.

Lemma events_fit_same events m m' :
  m_fdContexts m' = m_fdContexts m →
  (∀ ok a bits, (ok, OnFd a bits) ∈ events → m_ctxs m' !! a = m_ctxs m !! a) →
  events_fit events m → events_fit events m' ∧ map (woken m') events = map (woken m) events.
Proof.
  intros Hf. induction events as [|[ok ev] events IH]; intros Hc; [done|].
  assert (∀ ok a bits, (ok, OnFd a bits) ∈ events → m_ctxs m' !! a = m_ctxs m !! a) as Hc'
    by (intros; eapply Hc; right; done).
  specialize (IH Hc'). destruct ev as [|a bits]; cbn [events_fit map].
  - intros [H1 H2]%IH. by rewrite H2.
  - intros ((i & c & Hi & Ha & Hs) & Hnot & [H1 H2]%IH).
    assert (m_ctxs m' !! a = m_ctxs m !! a) as Hsame by (eapply Hc; by left).
    split; [|unfold woken at 1 3; by rewrite H2, Hsame].
    split_and!; try done. exists i, c. by rewrite Hf, Hsame.
Qed.

Lemma dispatch_all_spec events m :
  wf m → events_fit events m →
  ∃ m', dispatch_all events m = Ret m' ∧ wf m' ∧ m_tm m' = m_tm m ∧
    m_taskPools (m_sched m') = m_taskPools (m_sched m) ++ concat (map (woken m) events) ∧
    ∀ ok a bits c, (ok, OnFd a bits) ∈ events → m_ctxs m !! a = Some c →
      ∃ c', m_ctxs m' !! a = Some c' ∧ c_events c' = without (c_events c) (taken ok bits c).
Proof.
  assert (∀ events m, wf m → events_fit events m →
    ∃ m', dispatch_all events m = Ret m' ∧ wf m' ∧ m_tm m' = m_tm m ∧
      m_taskPools (m_sched m') = m_taskPools (m_sched m) ++ concat (map (woken m) events) ∧
      (∀ ok a bits c, (ok, OnFd a bits) ∈ events → m_ctxs m !! a = Some c →
        ∃ c', m_ctxs m' !! a = Some c' ∧ c_events c' = without (c_events c) (taken ok bits c)) ∧
      (∀ a, (∀ ok bits, (ok, OnFd a bits) ∉ events) → m_ctxs m' !! a = m_ctxs m !! a)) as H.
  { clear events m. induction events as [|[ok [|a bits]] events IH]; intros m Hw; cbn [events_fit dispatch_all map].
    - intros _. exists m. rewrite app_nil_r. split_and!; try done. by intros ??? c ?%not_elem_of_nil.
    - intros Hf. destruct (IH m Hw Hf) as (m' & H1 & H2 & H3 & H4 & H5 & H6). exists m'.
      split; [exact H1|]. split_and!; try done.
      + intros ok' a bits c [?|Hin]%elem_of_cons; [done|]. by apply (H5 ok').
      + intros a Ha. apply H6. intros ok' bits Hin. apply (Ha ok' bits). by right.
    - intros ((i & c & Hi & Ha & Hs) & Hnot & Hf).
      destruct (dispatch_one ok i a c bits m Hw Hi Ha Hs)
        as (m1 & c1 & E & Hw1 & Hp & Hc1 & He1 & Hfd & Htm & Hother).
      destruct (events_fit_same events m m1 Hfd) as [Hf1 Hwk]; [|done|].
      { intros ok' a' bits' Hin. apply Hother. intros ->. by destruct (Hnot ok' bits'). }
      destruct (IH m1 Hw1 Hf1) as (m' & H1 & H2 & H3 & H4 & H5 & H6). exists m'.
      rewrite E, ret_bind. split; [exact H1|]. split; [done|]. split; [congruence|]. split; [|split].
      + rewrite H4, Hp, Hwk. cbn [concat]. unfold woken at 2. by rewrite Ha, app_assoc.
      + intros ok' a' bits' c' [[= -> -> ->]|Hin]%elem_of_cons Hc'.
        * exists c1. rewrite H6 by done. split; [done|]. congruence.
        * apply (H5 ok' a' bits'); [done|]. rewrite Hother; [done|]. intros ->. by destruct (Hnot ok' bits').
      + intros a' Ha'. rewrite H6 by (intros ok' bits' Hin; apply (Ha' ok' bits'); by right).
        apply Hother. intros ->. apply (Ha' ok bits). by left. }
  intros Hw Hf. destruct (H events m Hw Hf) as (m' & H1 & H2 & H3 & H4 & H5 & _). by exists m'.
Qed.

(** ** The turn *)

(** The tasks that the expired timers become: none when the manager stops. *)
Definition fired (closure : Timer.Callback → nat) (m : IOManager) (expired : list Z) : list Task :=
  if m_autoStop (m_sched m) then []
  else batch_tasks (map (λ x, OfCb (closure <$> Timer.m_cb (Timer.timer_at (m_tm m) x))) expired).

Lemma schedule_loop_stopped ts needTickle s :
  m_autoStop s = true → schedule_loop ts false needTickle s = (needTickle, s).
Proof.
  intros Ha. revert needTickle. induction ts as [|t ts IH]; intros needTickle; [done|]. cbn [schedule_loop].
  unfold scheduleWithoutLock. rewrite Ha. apply IH.
Qed.

Lemma fire_timers_spec closure now key m :
  TimerProps.wf (m_tm m) → Timer.m_heap (m_tm m) !! key = None →
  ∃ need tm expired,
    fire_timers closure now key m =
      (need, with_sched (set_pool (m_taskPools (m_sched m) ++ fired closure m expired)
               (m_sched m)) (with_tm tm m)) ∧
    TimerProps.wf tm ∧
    (∀ x, x ∈ expired ↔ TimerProps.due now (m_tm m) x) ∧ TimerProps.sorted (Timer.m_heap (m_tm m)) expired.
Proof.
  intros Hw Hk. pose proof (TimerProps.listExpired_spec now key (m_tm m) Hw Hk) as H. unfold fire_timers, fired.
  destruct (Timer.listExpiredCbs now key (m_tm m)) as [cbs tm].
  destruct H as (expired & _ & Hd & Hs & -> & Hw' & _).
  set (ts := (λ cb, OfCb (closure <$> cb)) <$> ((λ x, Timer.m_cb (Timer.timer_at (m_tm m) x)) <$> expired)).
  unfold scheduleIterator. destruct (m_autoStop (m_sched m)) eqn:Ha.
  - rewrite (schedule_loop_stopped ts false (m_sched m) Ha). exists false, tm, expired. split; [|done].
    rewrite app_nil_r. by destruct (m_sched m).
  - pose proof (schedule_loop_pool ts false false (m_sched m) (or_intror Ha)) as Hp.
    destruct (schedule_loop ts false false (m_sched m)) as [need s']. cbn [snd] in Hp. subst s'.
    exists need, tm, expired. split; [|done]. unfold with_sched, with_tm, ts. simpl.
    by rewrite <- list_fmap_compose.
Qed.


Definition idle_start : IOManager := with_tm TimerProps.two_timers one_event.
Definition idle_waits : list Wait :=
  [mkWait 100 0 [] 101 idle_start; mkWait 101 1 [(true, OnFd 5 EPOLLIN)] 121 idle_start].
Definition demo_closure (cb : Timer.Callback) : nat :=
  match cb with Timer.Plain n => n | _ => 0 end.

Lemma idle_start_reachable : rtc step one_event idle_start.
Proof. eapply rtc_l; [apply (step_timers TimerProps.two_timers)|apply rtc_refl]. Qed.

