(* ===== verification/Hook.v ===== *)
(** * Hooked system calls: src/src/hook.h, src/src/hook.cpp

    A hooked call runs in a thread with the hook switched on or off and talks
    to three parties: the kernel (the [name_f] functions), the [IOManager] and
    the scheduler (timers, events, [Yield]) and the [FdManager].  The first two
    answer whatever they like: an environment [env] maps the history of the
    requests made so far and a request to its value and to the [errno] after
    it, so a statement for every [env] holds for every behaviour of the kernel
    and of the coroutines that run while this one is suspended.  [FdManager]
    is the component of FdManager.v.  A computation is a state transformer on
    [World] with the results of Prelude.v; the loop of [doSocketIo] has fuel. *)

From S2P Require Import Prelude FdManager.

(** ** Requests and the world *)

Inductive Call :=
| Kernel (name : string) (args : list Z)
| AddTimer (ms : Z)
| AddCondTimer (ms : Z)
| CancelTimer
| AddEvent (fd event : Z)
| CancelEvent (fd event : Z)
| CancelAllEvent (fd : Z)
| CoYield.

#[export] Instance Call_eq_dec : EqDecision Call.
Proof. solve_decision. Defined.

(** [t_enable_hook], [IOManager::GetThis() != nullptr], [errno], the
    descriptor table and the requests made, newest first. *)
Record World := mkWorld {
  t_enable_hook : bool;
  w_iom : bool;
  w_errno : Z;
  w_fds : FdManager;
  w_trace : list Call
}.

Definition M (A : Type) : Type := World → res (A * World).
#[export] Instance M_ret : MRet M := fun A a w => Ret (a, w).
#[export] Instance M_bind : MBind M := fun A B f m w =>
  match m w with
  | Ret (a, w) => f a w
  | Throw e => Throw e
  | Panic e => Panic e
  | Undef e => Undef e
  | OutOfFuel => OutOfFuel
  end.

Definition EINTR : Z := 4.
Definition EBADF : Z := 9.
Definition EAGAIN : Z := 11.
Definition ETIMEDOUT : Z := 110.
Definition EINPROGRESS : Z := 115.
Definition F_GETFL : Z := 3.
Definition F_SETFL : Z := 4.
Definition FIONBIO : Z := 21537.
Definition SOL_SOCKET : Z := 1.
Definition SO_ERROR : Z := 4.
Definition SO_RCVTIMEO : Z := 20.
Definition SO_SNDTIMEO : Z := 21.
Definition S_IFMT : Z := 61440.
Definition S_IFSOCK : Z := 49152.

(** [src/src/iomanager.h:24-33] IOManager::Event, IOManager::IOManagerCode *)
Definition EV_READ : Z := 1.
Definition EV_WRITE : Z := 4.
Definition ADD_EVENT_ERR : Z := 0.
Definition ADD_EVENT_SUC : Z := -1.

Definition with_errno (e : Z) (w : World) : World :=
  mkWorld (t_enable_hook w) (w_iom w) e (w_fds w) (w_trace w).
Definition with_fds (m : FdManager) (w : World) : World :=
  mkWorld (t_enable_hook w) (w_iom w) (w_errno w) m (w_trace w).

(** [src/src/hook.cpp:64-66] setEnableHook *)
Definition setEnableHook (enable : bool) : M unit := fun w =>
  Ret (tt, mkWorld enable (w_iom w) (w_errno w) (w_fds w) (w_trace w)).
(** [src/src/hook.cpp:68-70] isEnableHook *)
Definition isEnableHook : M bool := fun w => Ret (t_enable_hook w, w).

Definition get_errno : M Z := fun w => Ret (w_errno w, w).
Definition set_errno (e : Z) : M unit := fun w => Ret (tt, with_errno e w).
Definition when (b : bool) (m : M unit) : M unit := if b then m else mret tt.
Definition undef {A} (what : string) : M A := fun _ => Undef what.

(** [IOManager::GetThis()->...] *)
Definition need_iom : M unit := fun w =>
  if w_iom w then Ret (tt, w) else Undef "IOManager::GetThis() is null".

Definition has_iom : M bool := fun w => Ret (w_iom w, w).

(** [SingletonFdMgr::GetInstance()->del(fd)] *)
Definition fd_del (fd : Z) : M unit := fun w =>
  m ← del fd (w_fds w); Ret (tt, with_fds m w).

(** Reading and changing an entity through its shared pointer. *)
Definition entity (p : Z) : M FdEntity := fun w =>
  e ← deref (f_heap (w_fds w) !! p) "entity"; Ret (e, w).
Definition upd_entity (p : Z) (f : FdEntity → FdEntity) : M unit := fun w =>
  Ret (tt, with_fds (update p f (w_fds w)) w).

(** [src/src/hook.cpp:74-76] SocketIoState: its flag [canceled] *)
Definition SocketIoState := bool.

(** [src/src/hook.cpp:116-123] the callback of the timer of doSocketIo: the state behind the weak pointer, if it is still there, and whether the callback cancels the event *)
Definition onTimeout (t : option SocketIoState) : option SocketIoState * bool :=
  match t with
  | None => (t, false)
  | Some true => (t, false)
  | Some false => (Some true, true)
  end.

Section hook.
(** What a request answers and the [errno] after it; a [CoYield] answers
    non-zero when the armed timer expired while the coroutine was suspended. *)
Context (env : list Call → Call → Z * Z).
(** The value of tigerkin.socket.tcpConnectTimeout. *)
Context (g_tcp_connect_timeout : Z).

Definition sys (c : Call) : M Z := fun w =>
  let '(v, e) := env (w_trace w) c in
  Ret (v, mkWorld (t_enable_hook w) (w_iom w) e (w_fds w) (c :: w_trace w)).
Definition do (c : Call) : M unit := _ ← sys c; mret tt.

Definition peek (c : Call) : M Z := fun w => Ret (fst (env (w_trace w) c), w).

(** What [fstat] and [fcntl(fd, F_GETFL)] answer at this point. *)
Definition k_fstat (w : World) (fd : Z) : option bool :=
  let v := fst (env (w_trace w) (Kernel "fstat" [fd])) in
  if v =? -1 then None else Some (Z.land v S_IFMT =? S_IFSOCK).
Definition k_getfl (w : World) (fd : Z) : Z :=
  fst (env (w_trace w) (Kernel "fcntl" [fd; F_GETFL; 0])).

(** [SingletonFdMgr::GetInstance()->get(fd, autoCreate)]; the flags that a new
    entity asks for go to the kernel. *)
Definition fd_get (fd : Z) (autoCreate : bool) : M (option Z) := fun w =>
  '(p, setfl, m) ← FdManager.get (k_fstat w) (k_getfl w) fd autoCreate (w_fds w);
  let w := with_fds m w in
  match setfl with
  | Some fl => '(_, w) ← sys (Kernel "fcntl" [fd; F_SETFL; fl]) w; Ret (p, w)
  | None => Ret (p, w)
  end.

(** [src/src/hook.cpp:108-149] the loop of doSocketIo. [continue] in a do-while goes on with the condition, so [errno] is read again after the wake-up *)
Fixpoint io_loop (fuel : nat) (func : string) (fd : Z) (args : list Z)
    (event timeout : Z) : M Z :=
  match fuel with
  | O => fun _ => OutOfFuel
  | S fuel =>
    let retry (n : Z) : M Z :=
      e ← get_errno;
      if (n =? -1) && ((e =? EINTR) || (e =? EAGAIN))
      then io_loop fuel func fd args event timeout else mret n in
    n ← sys (Kernel func (fd :: args));
    e ← get_errno;
    if (n =? -1) && (e =? EAGAIN) then
      let timer := 0 <=? timeout in
      _ ← need_iom;
      _ ← when timer (do (AddCondTimer (u64 timeout)));
      r ← sys (AddEvent fd event);
      if r =? ADD_EVENT_SUC then
        fired ← sys CoYield;
        let canceled :=
          if timer && negb (fired =? 0) then snd (onTimeout (Some false)) else false in
        _ ← when timer (do CancelTimer);
        if canceled then
          _ ← set_errno ETIMEDOUT; mret (-1)
        else retry n
      else
        _ ← when timer (do CancelTimer);
        mret (-1)
    else retry n
  end.

(** [src/src/hook.cpp:78-149] doSocketIo *)
Definition doSocketIo (fuel : nat) (func : string) (fd : Z) (args : list Z) (event : Z) : M Z :=
  on ← isEnableHook;
  if negb on then sys (Kernel func (fd :: args))
  else
    p ← fd_get fd false;
    match p with
    | None => sys (Kernel func (fd :: args))
    | Some p =>
      e ← entity p;
      if m_isClosed e then _ ← set_errno EBADF; mret (-1)
      else if negb (m_isSocket e) || m_isUserNonblock e then sys (Kernel func (fd :: args))
      else
        let timeout :=
          if negb (Z.land event EV_READ =? 0) then s32 (m_recvTimeout e)
          else if negb (Z.land event EV_WRITE =? 0) then s32 (m_sendTimeout e)
          else -1 in
        io_loop fuel func fd args event timeout
    end.

(** [src/src/hook.cpp:156-170] sleep. [seconds * 1000] is an unsigned int *)
Definition sleep (seconds : Z) : M Z :=
  on ← isEnableHook;
  if negb on then sys (Kernel "sleep" [seconds])
  else
    _ ← need_iom;
    _ ← do (AddTimer (u32 (seconds * 1000)));
    _ ← do CoYield;
    mret 0.

(** [src/src/hook.cpp:172-186] usleep. With the hook off it calls itself *)
Fixpoint usleep (fuel : nat) (usec : Z) : M Z :=
  match fuel with
  | O => fun _ => OutOfFuel
  | S fuel =>
    on ← isEnableHook;
    if negb on then usleep fuel usec
    else
      _ ← need_iom;
      _ ← do (AddTimer (usec / 1000));
      _ ← do CoYield;
      mret 0
  end.

(** [src/src/hook.cpp:188-203] nanosleep. The milliseconds are an int, the argument of addTimer unsigned *)
Definition nanosleep (tv_sec tv_nsec : Z) : M Z :=
  on ← isEnableHook;
  if negb on then sys (Kernel "nanosleep" [tv_sec; tv_nsec])
  else
    let ms := s32 (tv_sec * 1000 + Z.quot tv_nsec 1000000) in
    _ ← need_iom;
    _ ← do (AddTimer (u64 ms));
    _ ← do CoYield;
    mret 0.

(** [src/src/hook.cpp:205-215] socket *)
Definition socket (domain type protocol : Z) : M Z :=
  on ← isEnableHook;
  if negb on then sys (Kernel "socket" [domain; type; protocol])
  else
    fd ← sys (Kernel "socket" [domain; type; protocol]);
    if fd =? -1 then mret fd
    else
      p ← fd_get fd true;
      match p with
      | None => undef "get(fd, true) is null"
      | Some p => e ← entity p; mret (m_fd e)
      end.

(** [src/src/hook.cpp:483-485] getsockopt: the result and, when it is 0, the value stored, which the environment gives as the answer to a second request *)
Definition getsockopt (sockfd level optname : Z) : M (Z * Z) :=
  rt ← sys (Kernel "getsockopt" [sockfd; level; optname]);
  if rt =? 0 then
    v ← peek (Kernel "optval" [sockfd; level; optname]);
    mret (rt, v)
  else mret (rt, 0).

(** [src/src/hook.cpp:217-281] connect *)
Definition connect (sockfd addr addrlen : Z) : M Z :=
  on ← isEnableHook;
  if negb on then sys (Kernel "connect" [sockfd; addr; addrlen])
  else
    p ← fd_get sockfd false;
    match p with
    | None => _ ← set_errno EBADF; mret (-1)
    | Some p =>
      e ← entity p;
      if m_isClosed e then _ ← set_errno EBADF; mret (-1)
      else if negb (m_isSocket e) then sys (Kernel "connect" [sockfd; addr; addrlen])
      else if m_isUserNonblock e then sys (Kernel "connect" [sockfd; addr; addrlen])
      else
        n ← sys (Kernel "connect" [sockfd; addr; addrlen]);
        err ← get_errno;
        if n =? 0 then mret n
        else if negb (n =? -1) || negb (err =? EINPROGRESS) then mret n
        else
          let result : M Z :=
            '(rt, err) ← getsockopt sockfd SOL_SOCKET SO_ERROR;
            if rt =? -1 then mret (-1)
            else if err =? 0 then mret 0
            else _ ← set_errno err; mret (-1) in
          let timer := 0 <? getConnectTimeout g_tcp_connect_timeout e in
          _ ← need_iom;
          _ ← when timer (do (AddCondTimer (getConnectTimeout g_tcp_connect_timeout e)));
          r ← sys (AddEvent sockfd EV_WRITE);
          if r =? ADD_EVENT_SUC then
            fired ← sys CoYield;
            let canceled :=
              if timer && negb (fired =? 0) then snd (onTimeout (Some false)) else false in
            _ ← when timer (do CancelTimer);
            if canceled then _ ← set_errno ETIMEDOUT; mret (-1)
            else result
          else
            _ ← when timer (do CancelTimer);
            result
    end.

(** [src/src/hook.cpp:283-289] accept *)
Definition accept (fuel : nat) (sockfd addr addrlen : Z) : M Z :=
  fd ← doSocketIo fuel "accept" sockfd [addr; addrlen] EV_READ;
  _ ← (if 0 <=? fd then _ ← fd_get fd true; mret tt else mret tt);
  mret fd.

(** [src/src/hook.cpp:291-309] read, readv, recv, recvfrom, recvmsg *)
Definition read (fuel : nat) (func : string) (fd : Z) (args : list Z) : M Z :=
  doSocketIo fuel func fd args EV_READ.

(** [src/src/hook.cpp:311-329] write, writev, send, sendto, sendmsg *)
Definition write (fuel : nat) (func : string) (fd : Z) (args : list Z) : M Z :=
  doSocketIo fuel func fd args EV_WRITE.

(** [src/src/hook.cpp:331-344] close *)
Definition close (fd : Z) : M Z :=
  on ← isEnableHook;
  if negb on then sys (Kernel "close" [fd])
  else
    p ← fd_get fd false;
    _ ← match p with
        | None => mret tt
        | Some _ =>
          iom ← has_iom;
          _ ← when iom (do (CancelAllEvent fd));
          fd_del fd
        end;
    sys (Kernel "close" [fd]).

(** The commands of [fcntl] whose argument is passed on to the kernel; of the
    others only the command is. *)
Definition F_with_arg : list Z :=
  [0; 1030; 2; 8; 10; 1024; 1031; 1033; 1026;   (* F_DUPFD .. F_NOTIFY *)
   6; 7; 5; 37; 38; 36;                         (* F_SETLK .. F_OFD_GETLK *)
   16; 15;                                      (* F_GETOWN_EX, F_SETOWN_EX *)
   1035; 1036; 1037; 1038].                     (* F_GET_RW_HINT .. *)

(** [src/src/hook.cpp:346-465] fcntl. [!O_NONBLOCK] is 0 *)
Definition fcntl (fd cmd arg : Z) : M Z :=
  on ← isEnableHook;
  if negb on then sys (Kernel "fcntl" [fd; cmd])
  else if cmd =? F_SETFL then
    p ← fd_get fd false;
    match p with
    | None => sys (Kernel "fcntl" [fd; cmd; arg])
    | Some p =>
      e ← entity p;
      if negb (m_isSocket e) || negb (m_isClosed e) then sys (Kernel "fcntl" [fd; cmd; arg])
      else
        _ ← upd_entity p (setUserNonblock (negb (Z.land arg O_NONBLOCK =? 0)));
        let arg := if m_isSysNonblock e then Z.lor arg O_NONBLOCK else Z.land arg 0 in
        sys (Kernel "fcntl" [fd; cmd; arg])
    end
  else if cmd =? F_GETFL then
    flag ← sys (Kernel "fcntl" [fd; cmd]);
    p ← fd_get fd false;
    match p with
    | None => mret flag
    | Some p =>
      e ← entity p;
      if negb (m_isSocket e) || negb (m_isClosed e) then mret flag
      else if m_isUserNonblock e then mret (Z.lor flag O_NONBLOCK)
      else mret (Z.land flag (Z.lnot O_NONBLOCK))
    end
  else if bool_decide (cmd ∈ F_with_arg) then sys (Kernel "fcntl" [fd; cmd; arg])
  else sys (Kernel "fcntl" [fd; cmd]).

(** [src/src/hook.cpp:467-481] ioctl. [arg] is the int that the pointer points at *)
Definition ioctl (fd request arg : Z) : M Z :=
  if FIONBIO =? request then
    let block := negb (arg =? 0) in
    p ← fd_get fd false;
    match p with
    | None => sys (Kernel "ioctl" [fd; request; arg])
    | Some p =>
      e ← entity p;
      if negb (m_isSocket e) || negb (m_isClosed e) then sys (Kernel "ioctl" [fd; request; arg])
      else
        _ ← upd_entity p (setUserNonblock block);
        sys (Kernel "ioctl" [fd; request; arg])
    end
  else sys (Kernel "ioctl" [fd; request; arg]).

(** [src/src/hook.cpp:487-501] setsockopt. [optval] is the list of the words the pointer points at, a [timeval] here; the entity is used without a test *)
Definition setsockopt (sockfd level optname : Z) (optval : list Z) : M Z :=
  on ← isEnableHook;
  let direct := sys (Kernel "setsockopt" (sockfd :: level :: optname :: optval)) in
  if negb on then direct
  else
    _ ← (if level =? SOL_SOCKET then
           p ← fd_get sockfd false;
           let timeout := s64 (nth 0 optval 0 * 1000 + nth 1 optval 0) in
           if optname =? SO_RCVTIMEO then
             match p with
             | None => undef "entity is null"
             | Some p => upd_entity p (setRecvTimeout timeout)
             end
           else if optname =? SO_SNDTIMEO then
             match p with
             | None => undef "entity is null"
             | Some p => upd_entity p (setSendTimeout timeout)
             end
           else mret tt
         else mret tt);
    direct.
End hook.
