(* ===== verification/HookProps.v ===== *)
(** * Hooked system calls: theorems on Hook.v

    What a blocking call on a hooked socket can return, for every behaviour of
    the kernel and of the other coroutines; that it returns; and what the
    entity table records of the user's wishes. *)

From S2P Require Import Prelude FdManager Hook.

Lemma M_bind_Ret {A B} (m : M A) (f : A → M B) w b w' :
  (m ≫= f) w = Ret (b, w') ↔ ∃ a w1, m w = Ret (a, w1) ∧ f a w1 = Ret (b, w').
Proof.
  unfold mbind, M_bind. split.
  - destruct (m w) as [[a w1]| | | |] eqn:E; try discriminate. eauto.
  - by intros (a & w1 & -> & H).
Qed.

Lemma sys_spec env c w :
  ∃ w', (∀ B (k : Z → M B), (sys env c ≫= k) w = k (fst (env (w_trace w) c)) w') ∧ w_trace w' = c :: w_trace w ∧
    w_iom w' = w_iom w ∧ w_fds w' = w_fds w ∧ w_errno w' = snd (env (w_trace w) c).
Proof.
  unfold sys, mbind, M_bind. destruct (env (w_trace w) c) as [v e]. eexists. split; done.
Qed.

(** A step [m] that surely returns is a change of world. *)
Lemma when_do env b c w :
  ∃ w', (∀ B (k : unit → M B), (when b (do env c) ≫= k) w = k tt w') ∧
    w_trace w' = (if b then [c] else []) ++ w_trace w ∧ w_iom w' = w_iom w.
Proof.
  unfold when, do, sys, mbind, M_bind. destruct b; [|by exists w].
  destruct (env (w_trace w) c) as [v e]. eexists. split; done.
Qed.

Lemma need_iom_true B (k : unit → M B) w :
  w_iom w = true → (need_iom ≫= k) w = k tt w.
Proof. intros H. unfold mbind, M_bind, need_iom. by rewrite H. Qed.

Lemma get_errno_bind B (k : Z → M B) w : (get_errno ≫= k) w = k (w_errno w) w.
Proof. done. Qed.

Section loop.
Context (env : list Call → Call → Z * Z).
Context (func : string) (fd : Z) (args : list Z) (event timeout : Z).
Local Notation K := (Kernel func (fd :: args)).

(** The requests of one wait: armed timer, event, suspension. *)
Definition arm : list Call := if 0 <=? timeout then [AddCondTimer (u64 timeout)] else [].
Definition disarm : list Call := if 0 <=? timeout then [CancelTimer] else [].

(** How a call on a blocking socket can end, with the requests that led there
    (newest first). *)
Inductive outcome (n : Z) (w' : World) : Prop :=
| answered h
    (Htrace : w_trace w' = K :: h)
    (Hans : env h K = (n, w_errno w'))
    (Hfinal : ¬ (n = -1 ∧ (w_errno w' = EINTR ∨ w_errno w' = EAGAIN)))
| timed_out h
    (Htime : 0 <= timeout)
    (Htrace : w_trace w' = CancelTimer :: CoYield :: AddEvent fd event :: arm ++ K :: h)
    (Hwait : env h K = (-1, EAGAIN))
    (Hfired : fst (env (AddEvent fd event :: arm ++ K :: h) CoYield) ≠ 0)
    (Hn : n = -1) (Herrno : w_errno w' = ETIMEDOUT)
| not_registered h
    (Htrace : w_trace w' = disarm ++ AddEvent fd event :: arm ++ K :: h)
    (Hwait : env h K = (-1, EAGAIN))
    (Hadd : fst (env (arm ++ K :: h) (AddEvent fd event)) ≠ ADD_EVENT_SUC)
    (Hn : n = -1)
| errno_lost h
    (Htrace : w_trace w' = disarm ++ CoYield :: AddEvent fd event :: arm ++ K :: h)
    (Hwait : env h K = (-1, EAGAIN))
    (Hfired : 0 <= timeout → fst (env (AddEvent fd event :: arm ++ K :: h) CoYield) = 0)
    (Hlost : w_errno w' ≠ EINTR ∧ w_errno w' ≠ EAGAIN)
    (Hn : n = -1).

(** Timers armed and not yet cancelled. *)
Fixpoint pending (h : list Call) : Z :=
  match h with
  | [] => 0
  | AddCondTimer _ :: h => pending h + 1
  | CancelTimer :: h => pending h - 1
  | _ :: h => pending h
  end.

Lemma pending_app h h' : pending (h ++ h') = pending h + pending h'.
Proof. induction h as [|[]]; simpl; lia. Qed.

Lemma pending_round h mid :
  pending mid = 0 → pending (disarm ++ mid ++ arm ++ K :: h) = pending h.
Proof.
  intros Hm. rewrite !pending_app, Hm. unfold arm, disarm. case_match; simpl; lia.
Qed.

Lemma retry_cond n e :
  (n =? -1) && ((e =? EINTR) || (e =? EAGAIN)) = true ↔ n = -1 ∧ (e = EINTR ∨ e = EAGAIN).
Proof. by rewrite andb_true_iff, orb_true_iff, !Z.eqb_eq. Qed.

(** What follows a wake-up, in the world [w4] after the timer is cancelled. *)
Lemma after_wakeup fuel w w0 w4 fired :
  w_iom w4 = true →
  env (w_trace w) K = (-1, EAGAIN) →
  w_trace w0 = AddEvent fd event :: arm ++ K :: w_trace w →
  fired = fst (env (w_trace w0) CoYield) →
  w_trace w4 = disarm ++ CoYield :: AddEvent fd event :: arm ++ K :: w_trace w →
  let next f : M Z :=
    if if (0 <=? timeout) && negb (fired =? 0) then snd (onTimeout (Some false)) else false
    then _ ← set_errno ETIMEDOUT; mret (-1)
    else e ← get_errno;
         if (-1 =? -1) && ((e =? EINTR) || (e =? EAGAIN))
         then io_loop env f func fd args event timeout else mret (-1) in
  (∃ n w', (∀ f, next f w4 = Ret (n, w')) ∧ outcome n w' ∧
     pending (w_trace w') = pending (w_trace w)) ∨
  (∃ w1 t, next fuel w4 = io_loop env fuel func fd args event timeout w1 ∧ w_iom w1 = true ∧
     w_trace w1 = t ++ K :: w_trace w ∧
     pending (w_trace w1) = pending (w_trace w) ∧
     fst (env (w_trace w) K) = -1 ∧
     (snd (env (w_trace w) K) = EINTR ∨ snd (env (w_trace w) K) = EAGAIN)).
Proof.
  intros Hiom HK Ht0 Hf Ht4 next.
  assert (pending (w_trace w4) = pending (w_trace w)) as Hp.
  { rewrite Ht4. by apply (pending_round (w_trace w) [CoYield; AddEvent fd event]). }
  subst next. cbv beta. destruct ((0 <=? timeout) && negb (fired =? 0)) eqn:Hc.
  - left. eexists _, (with_errno ETIMEDOUT w4). split; [done|]. split; [|done].
    apply andb_true_iff in Hc as [Ht%Z.leb_le Hn%negb_true_iff%Z.eqb_neq].
    eapply timed_out with (h := w_trace w); eauto.
    + simpl. rewrite Ht4. unfold disarm. by rewrite (proj2 (Z.leb_le _ _) Ht).
    + congruence.
  - destruct ((-1 =? -1) && ((w_errno w4 =? EINTR) || (w_errno w4 =? EAGAIN))) eqn:He.
    + right. exists w4, (disarm ++ CoYield :: AddEvent fd event :: arm).
      split; [unfold mbind, M_bind, get_errno; by rewrite He|]. rewrite HK.
      split_and!; auto. by rewrite Ht4, <- app_assoc.
    + left. exists (-1), w4. split; [intros; unfold mbind, M_bind, get_errno; by rewrite He|].
      split; [|done]. eapply errno_lost with (h := w_trace w); eauto.
      * intros Ht%Z.leb_le. rewrite Ht in Hc. simpl in Hc.
        apply negb_false_iff, Z.eqb_eq in Hc. congruence.
      * simpl in He. by apply orb_false_iff in He as [?%Z.eqb_neq ?%Z.eqb_neq].
Qed.

(** One round of the loop: either it ends, in one of the four ways, or it
    starts again in a world with the same number of pending timers. *)
Lemma io_loop_round fuel w :
  w_iom w = true →
  (∃ n w', (∀ f, io_loop env (S f) func fd args event timeout w = Ret (n, w')) ∧ outcome n w' ∧
     pending (w_trace w') = pending (w_trace w)) ∨
  (∃ w1 t, io_loop env (S fuel) func fd args event timeout w =
       io_loop env fuel func fd args event timeout w1 ∧ w_iom w1 = true ∧
     w_trace w1 = t ++ K :: w_trace w ∧
     pending (w_trace w1) = pending (w_trace w) ∧
     fst (env (w_trace w) K) = -1 ∧
     (snd (env (w_trace w) K) = EINTR ∨ snd (env (w_trace w) K) = EAGAIN)).
Proof.
  intros Hiom. cbn [io_loop].
  destruct (sys_spec env K w) as (w0 & E0 & Ht0 & Hi0 & _ & He0).
  setoid_rewrite E0. setoid_rewrite get_errno_bind. rewrite He0.
  destruct (env (w_trace w) K) as [n e] eqn:HK. cbn [fst snd] in *.
  destruct ((n =? -1) && (e =? EAGAIN)) eqn:Hw.
  - apply andb_true_iff in Hw as [->%Z.eqb_eq ->%Z.eqb_eq].
    assert (w_iom w0 = true) as Hi by congruence.
    setoid_rewrite (need_iom_true _ _ _ Hi).
    destruct (when_do env (0 <=? timeout) (AddCondTimer (u64 timeout)) w0) as (w1 & E1 & Ht1 & Hi1).
    setoid_rewrite E1. fold arm in Ht1. destruct (sys_spec env (AddEvent fd event) w1) as (w2 & E2 & Ht2 & Hi2 & _).
    setoid_rewrite E2. rewrite Ht1, Ht0 in Ht2.
    destruct (Z.eqb_spec (fst (env (w_trace w1) (AddEvent fd event))) ADD_EVENT_SUC) as [Hr|Hr].
    + destruct (sys_spec env CoYield w2) as (w3 & E3 & Ht3 & Hi3 & _). setoid_rewrite E3.
      destruct (when_do env (0 <=? timeout) CancelTimer w3) as (w4 & E4 & Ht4 & Hi4).
      setoid_rewrite E4. fold disarm in Ht4. rewrite Ht2 in Ht3. rewrite Ht3 in Ht4.
      assert (w_iom w4 = true) as Hi' by congruence.
      pose proof (after_wakeup fuel w w2 w4 _ Hi' HK Ht2 eq_refl Ht4) as H.
      rewrite HK in H. exact H.
    + destruct (when_do env (0 <=? timeout) CancelTimer w2) as (w4 & E4 & Ht4 & Hi4).
      setoid_rewrite E4. fold disarm in Ht4. rewrite Ht2 in Ht4.
      left. eexists _, w4. split; [done|]. split;
        [|rewrite Ht4; by apply (pending_round (w_trace w) [AddEvent fd event])].
      eapply not_registered with (h := w_trace w); [done|done|by rewrite <- Ht0, <- Ht1|done].
  - setoid_rewrite get_errno_bind. rewrite He0. destruct ((n =? -1) && ((e =? EINTR) || (e =? EAGAIN))) eqn:Hc.
    + right. exists w0, []. apply retry_cond in Hc as [-> Hc].
      split_and!; [done|congruence|done|by rewrite Ht0|done|done].
    + left. exists n, w0. split; [done|]. split; [|by rewrite Ht0].
      eapply answered with (h := w_trace w); rewrite ?He0; [done..|].
      intros Hr%retry_cond. by rewrite Hr in Hc.
Qed.

Lemma io_loop_outcome fuel w n w' :
  w_iom w = true → io_loop env fuel func fd args event timeout w = Ret (n, w') →
  outcome n w' ∧ pending (w_trace w') = pending (w_trace w).
Proof.
  revert w. induction fuel as [|fuel IH]; intros w Hiom; [done|]. intros E.
  destruct (io_loop_round fuel w Hiom)
    as [(n1 & w1 & E1 & Ho & Hp)|(w1 & t & E1 & Hi & _ & Hp & _)].
  - rewrite E1 in E. by injection E as <- <-.
  - rewrite E1 in E. destruct (IH w1 Hi E) as [Ho Hp']. split; [done|congruence].
Qed.

(** The number of times the kernel was asked. *)
Definition asked (h : list Call) : nat := length (filter (λ c, c = K) h).

Lemma asked_cons h t : (asked h < asked (t ++ K :: h))%nat.
Proof.
  unfold asked. rewrite filter_app, length_app, filter_cons_True by done. simpl. lia.
Qed.

Lemma io_loop_returns N fuel w :
  (∀ h, (N ≤ asked h)%nat →
     ¬ (fst (env h K) = -1 ∧ (snd (env h K) = EINTR ∨ snd (env h K) = EAGAIN))) →
  w_iom w = true → (0 < fuel)%nat → (N < asked (w_trace w) + fuel)%nat →
  ∃ r, io_loop env fuel func fd args event timeout w = Ret r.
Proof.
  intros HN. revert w. induction fuel as [|fuel IH]; intros w Hiom Hf Hlt; [lia|].
  destruct (io_loop_round fuel w Hiom)
    as [(n1 & w1 & E1 & _)|(w1 & t & E1 & Hi & Ht & _ & Hv)]; [eauto|].
  assert (asked (w_trace w) < N)%nat as Hlt'.
  { apply Nat.nle_gt. intros Hle. by apply (HN _ Hle). }
  pose proof (asked_cons (w_trace w) t). rewrite E1. apply IH; [done|lia|rewrite Ht; lia].
Qed.

(** The entity of a blocking socket. *)
Definition blocking_entity (w : World) : Prop :=
  ∃ p e, fd_get env fd false w = Ret (Some p, w) ∧ f_heap (w_fds w) !! p = Some e ∧
    m_isClosed e = false ∧ m_isSocket e = true ∧ m_isUserNonblock e = false ∧
    timeout = (if negb (Z.land event EV_READ =? 0) then s32 (m_recvTimeout e)
               else if negb (Z.land event EV_WRITE =? 0) then s32 (m_sendTimeout e) else -1).

Lemma doSocketIo_blocking fuel w :
  t_enable_hook w = true → blocking_entity w →
  doSocketIo env fuel func fd args event w = io_loop env fuel func fd args event timeout w.
Proof.
  intros Hh (p & e & Hget & He & Hc & Hs & Hu & Ht).
  unfold doSocketIo, mbind, M_bind, isEnableHook. rewrite Hh. cbn [negb]. rewrite Hget.
  unfold entity, deref, mbind, res_bind. rewrite He, Hc, Hs, Hu. cbn [negb orb]. by rewrite Ht.
Qed.

End loop.


(** The call returns.  If the kernel answers "try again" or "interrupted"
    at most [N] times (whatever the timers and the other coroutines do), a
    hooked call on a blocking socket returns after at most [N + 1] rounds. *)
Theorem doSocketIo_returns env N func fd args event timeout w :
  t_enable_hook w = true → w_iom w = true → blocking_entity env fd event timeout w →
  (∀ h, (N ≤ asked func fd args h)%nat →
     ¬ (fst (env h (Kernel func (fd :: args))) = -1 ∧
        (snd (env h (Kernel func (fd :: args))) = EINTR ∨
         snd (env h (Kernel func (fd :: args))) = EAGAIN))) →
  ∃ r, doSocketIo env (S N) func fd args event w = Ret r.
Proof.
  intros Hh Hi Hb HN. rewrite (doSocketIo_blocking env func fd args event timeout) by done.
  apply (io_loop_returns env func fd args event timeout N); [done..|lia|lia].
Qed.

(** ** What the entity table records *)

(** No entity is closed or non-blocking by the user's wish, and every entry
    of the table points to an entity. *)
Definition tidy (m : FdManager) : Prop :=
  (∀ p e, f_heap m !! p = Some e →
     p < f_fresh m ∧ m_isClosed e = false ∧ m_isUserNonblock e = false) ∧
  (∀ j p, m_data m !! j = Some (Some p) → is_Some (f_heap m !! p)).

Lemma tidy_new : tidy FdManager_new.
Proof.
  split; intros ? ? H; [done|].
  unfold FdManager_new in H. cbn [m_data] in H. apply lookup_replicate in H as [H _]. done.
Qed.

Lemma slot_Ret m fd x : slot m fd = Ret x → 0 <= fd ∧ m_data m !! Z.to_nat fd = Some x.
Proof.
  unfold slot. destruct (Z.ltb_spec fd 0); [done|]. unfold deref.
  case_match; [|done]. intros [= ->]. done.
Qed.

Lemma resize_Some n l j p : resize n l !! j = Some (Some p) → l !! j = Some (Some p).
Proof.
  unfold resize, ztake. rewrite lookup_app_Some.
  intros [H|[_ H%lookup_replicate]]; [by apply lookup_take_Some in H as [? _]|by destruct H].
Qed.

Lemma tidy_add fstat getfl fd m p setfl m' :
  tidy m → add fstat getfl fd m = Ret (p, setfl, m') → tidy m'.
Proof.
  intros [Hh Hd]. unfold add. set (data := if _ <=? fd then _ else _).
  assert (∀ j p, data !! j = Some (Some p) → m_data m !! j = Some (Some p)) as Hdata.
  { intros j q. unfold data. case_match; [apply resize_Some|done]. }
  destruct (FdEntity_new fstat getfl fd) as [e fl] eqn:He.
  assert (m_isClosed e = false ∧ m_isUserNonblock e = false) as He'.
  { pose proof (FdEntity_new_flags fstat getfl fd) as H. by rewrite He in H. }
  unfold set_slot. set (m1 := mkFdManager (<[f_fresh m:=e]> (f_heap m)) (f_fresh m + 1) data).
  destruct (slot m1 fd) eqn:Hs; try done.
  cbn [mbind res_bind]. intros [= <- <- <-]. apply slot_Ret in Hs as [_ Hs]. split; simpl.
  - intros q e'. destruct (decide (q = f_fresh m)) as [->|Hne].
    + rewrite lookup_insert_eq. intros [= <-]. split; [lia|done].
    + rewrite lookup_insert_ne by done. intros (? & ? & ?)%Hh. split; [lia|done].
  - intros j q H. destruct (decide (j = Z.to_nat fd)) as [->|Hne].
    + rewrite list_lookup_insert_eq in H by (by eapply lookup_lt_Some).
      injection H as <-. subst m1. simpl. rewrite lookup_insert_eq. eauto.
    + rewrite list_lookup_insert_ne in H by done. apply Hdata, Hd in H as [e' He2].
      subst m1. simpl. rewrite lookup_insert_ne; [eauto|].
      apply Hh in He2 as [? _]. lia.
Qed.

Lemma tidy_get fstat getfl fd auto m p setfl m' :
  tidy m → FdManager.get fstat getfl fd auto m = Ret (p, setfl, m') → tidy m'.
Proof.
  intros Ht. unfold FdManager.get. cbn [mbind res_bind].
  destruct (_ <=? fd).
  - destruct auto; simpl; [|by intros [= _ _ <-]].
    destruct (add _ _ _ _) as [[[q fl] m1]| | | |] eqn:Ha; try done.
    intros [= <- <- <-]. by eapply tidy_add.
  - destruct (slot m fd) as [[q|]| | | |]; try done; simpl; [by intros [= _ _ <-]|].
    destruct auto; simpl; [|by intros [= _ _ <-]].
    destruct (add _ _ _ _) as [[[q fl] m1]| | | |] eqn:Ha; try done.
    intros [= <- <- <-]. by eapply tidy_add.
Qed.

Lemma tidy_del fd m m' : tidy m → del fd m = Ret m' → tidy m'.
Proof.
  intros [Hh Hd]. unfold del, set_slot. case_match; [by intros [= <-]|].
  destruct (slot m fd) eqn:Hs; try done.
  cbn [mbind res_bind]. intros [= <-]. apply slot_Ret in Hs as [_ Hs].
  split; [done|]. simpl. intros j q Hq. destruct (decide (j = Z.to_nat fd)) as [->|Hne].
  - rewrite list_lookup_insert_eq in Hq by (by eapply lookup_lt_Some). done.
  - rewrite list_lookup_insert_ne in Hq by done. eauto.
Qed.

Lemma tidy_update p f m :
  (∀ e, m_isClosed (f e) = m_isClosed e ∧ m_isUserNonblock (f e) = m_isUserNonblock e) →
  tidy m → tidy (update p f m).
Proof.
  intros Hf [Hh Hd]. split; simpl.
  - intros q e. destruct (decide (p = q)) as [<-|Hne].
    + rewrite lookup_alter_eq. intros (e0 & He & ->)%fmap_Some. destruct (Hf e0) as [-> ->]. eauto.
    + rewrite lookup_alter_ne by done. apply Hh.
  - intros j q [e He]%Hd. destruct (decide (p = q)) as [<-|Hne].
    + rewrite lookup_alter_eq, He. eauto.
    + rewrite lookup_alter_ne by done. eauto.
Qed.

(** [m] keeps the table tidy, whatever the world. *)
Definition keeps {A} (m : M A) : Prop :=
  ∀ w a w', tidy (w_fds w) → m w = Ret (a, w') → tidy (w_fds w').

Create HintDb keeps.

Section keeps.
Context (env : list Call → Call → Z * Z).

Lemma keeps_ret {A} (a : A) : keeps (mret a).
Proof. by intros w b w' Ht [= _ <-]. Qed.
Lemma keeps_bind {A B} (m : M A) (f : A → M B) :
  keeps m → (∀ a, keeps (f a)) → keeps (m ≫= f).
Proof. intros Hm Hf w b w' Ht (a & w1 & E1 & E2)%M_bind_Ret. eapply Hf; [|done]. by eapply Hm. Qed.
Lemma keeps_if {A} (b : bool) (m m' : M A) : keeps m → keeps m' → keeps (if b then m else m').
Proof. by destruct b. Qed.
Lemma keeps_match {A} (o : option Z) (m : M A) f :
  keeps m → (∀ p, keeps (f p)) → keeps (match o with None => m | Some p => f p end).
Proof. destruct o; auto. Qed.
Lemma keeps_sys c : keeps (sys env c).
Proof. intros w a w' Ht. unfold sys. destruct (env _ _). by intros [= _ <-]. Qed.
Lemma keeps_do c : keeps (do env c).
Proof. apply keeps_bind; [apply keeps_sys|intros; apply keeps_ret]. Qed.
Lemma keeps_when b m : keeps m → keeps (when b m).
Proof. intros. apply keeps_if; [done|apply keeps_ret]. Qed.
Lemma keeps_peek c : keeps (peek env c).
Proof. by intros w a w' Ht [= _ <-]. Qed.
Lemma keeps_get_errno : keeps get_errno.
Proof. by intros w a w' Ht [= _ <-]. Qed.
Lemma keeps_set_errno e : keeps (set_errno e).
Proof. by intros w a w' Ht [= _ <-]. Qed.
Lemma keeps_isEnableHook : keeps isEnableHook.
Proof. by intros w a w' Ht [= _ <-]. Qed.
Lemma keeps_setEnableHook b : keeps (setEnableHook b).
Proof. by intros w a w' Ht [= _ <-]. Qed.
Lemma keeps_has_iom : keeps has_iom.
Proof. by intros w a w' Ht [= _ <-]. Qed.
Lemma keeps_undef {A} what : keeps (@undef A what).
Proof. by intros w a w' Ht. Qed.
Lemma keeps_need_iom : keeps need_iom.
Proof. intros w a w' Ht. unfold need_iom. case_match; [|done]. by intros [= _ <-]. Qed.

(** An entity of a tidy table: the guards on [isClosed] are decided. *)
Lemma keeps_entity {A} p (f : FdEntity → M A) :
  (∀ e, m_isClosed e = false → m_isUserNonblock e = false → keeps (f e)) →
  keeps (entity p ≫= f).
Proof.
  intros Hf w b w' Ht (e & w1 & E1 & E2)%M_bind_Ret. unfold entity, deref in E1.
  destruct (f_heap (w_fds w) !! p) as [e'|] eqn:He; [|done]. injection E1 as <- <-.
  apply (proj1 Ht) in He as (_ & Hc & Hu). by eapply Hf.
Qed.

Lemma keeps_upd_entity p f :
  (∀ e, m_isClosed (f e) = m_isClosed e ∧ m_isUserNonblock (f e) = m_isUserNonblock e) →
  keeps (upd_entity p f).
Proof. intros Hf w a w' Ht [= _ <-]. by apply tidy_update. Qed.

Lemma keeps_fd_get fd auto : keeps (fd_get env fd auto).
Proof.
  intros w a w' Ht. unfold fd_get. cbn [mbind res_bind].
  destruct (FdManager.get _ _ _ _ _) as [[[p setfl] m]| | | |] eqn:Hg; try done.
  apply tidy_get in Hg; [|done]. destruct setfl as [fl|]; [|by intros [= _ <-]].
  cbn [mbind res_bind]. unfold sys. case_match. by intros [= _ <-].
Qed.

Lemma keeps_fd_del fd : keeps (fd_del fd).
Proof.
  intros w a w' Ht. unfold fd_del. cbn [mbind res_bind].
  destruct (del _ _) eqn:Hd; try done. intros [= _ <-]. by eapply tidy_del.
Qed.

End keeps.

#[export] Hint Resolve keeps_ret keeps_sys keeps_do keeps_when keeps_peek keeps_get_errno
  keeps_set_errno keeps_isEnableHook keeps_setEnableHook keeps_has_iom keeps_undef
  keeps_need_iom keeps_fd_get keeps_fd_del : keeps.

(** Follow the structure of a handler. *)
Ltac keeps_step :=
  match goal with
  | |- keeps (entity _ ≫= _) => apply keeps_entity; intros ? ? ?
  | |- keeps (_ ≫= _) => apply keeps_bind; [|intros ?]
  | |- keeps (upd_entity _ _) => apply keeps_upd_entity; done
  | |- keeps (when _ _) => apply keeps_when
  | |- keeps (match ?p with (_, _) => _ end) => destruct p
  | |- keeps (match ?o with Some _ => _ | None => _ end) => apply keeps_match; [|intros ?]
  | H : m_isClosed ?e = false |- keeps (if m_isClosed ?e then _ else _) => rewrite H
  | H : m_isClosed ?e = false |- keeps (if negb ?b || negb (m_isClosed ?e) then _ else _) =>
      rewrite H, orb_true_r
  | |- keeps (if _ then _ else _) => apply keeps_if
  | |- keeps _ => solve [auto with keeps]
  end.
Ltac keeps := repeat (cbv zeta; keeps_step).

(** The hooked calls a program can make. *)
Inductive hook_call :=
| HSetEnable (b : bool)
| HSocket (domain type protocol : Z)
| HConnect (fd addr len : Z)
| HAccept (fd addr len : Z)
| HRead (func : string) (fd : Z) (args : list Z)
| HWrite (func : string) (fd : Z) (args : list Z)
| HClose (fd : Z)
| HFcntl (fd cmd arg : Z)
| HIoctl (fd request arg : Z)
| HSetsockopt (fd level optname : Z) (optval : list Z).

Section program.
Context (env : list Call → Call → Z * Z) (g_tcp_connect_timeout : Z) (fuel : nat).

Definition run_call (c : hook_call) : M Z :=
  match c with
  | HSetEnable b => _ ← setEnableHook b; mret 0
  | HSocket d t p => socket env d t p
  | HConnect fd a l => connect env g_tcp_connect_timeout fd a l
  | HAccept fd a l => accept env fuel fd a l
  | HRead f fd args => read env fuel f fd args
  | HWrite f fd args => write env fuel f fd args
  | HClose fd => close env fd
  | HFcntl fd cmd arg => fcntl env fd cmd arg
  | HIoctl fd r arg => ioctl env fd r arg
  | HSetsockopt fd l o v => setsockopt env fd l o v
  end.

Fixpoint run_calls (cs : list hook_call) : M unit :=
  match cs with
  | [] => mret tt
  | c :: cs => _ ← run_call c; run_calls cs
  end.

Lemma keeps_io_loop n func fd args event timeout :
  keeps (io_loop env n func fd args event timeout).
Proof.
  induction n as [|n IH]; simpl io_loop; [by intros w a w' Ht|].
  keeps; apply IH.
Qed.

Lemma keeps_doSocketIo func fd args event : keeps (doSocketIo env fuel func fd args event).
Proof. unfold doSocketIo. keeps. apply keeps_io_loop. Qed.

Lemma keeps_run_call c : keeps (run_call c).
Proof.
  destruct c; simpl run_call;
    unfold socket, connect, getsockopt, accept, read, write, close, fcntl, ioctl, setsockopt;
    keeps; auto using keeps_doSocketIo.
Qed.

Lemma keeps_run_calls cs : keeps (run_calls cs).
Proof. induction cs; simpl; keeps; auto using keeps_run_call. Qed.

(** The flags of a descriptor go to the kernel as they are. *)
Lemma setfl_direct w fd arg :
  tidy (w_fds w) → t_enable_hook w = true → 0 <= fd →
  fcntl env fd F_SETFL arg w = sys env (Kernel "fcntl" [fd; F_SETFL; arg]) w.
Proof.
  intros [Hh Hd] Hon Hfd. unfold fcntl, mbind, M_bind, isEnableHook. rewrite Hon. simpl.
  unfold fd_get, FdManager.get. cbn [mbind res_bind].
  destruct (Z.leb_spec (zlen (m_data (w_fds w))) fd) as [|Hlt]; [by destruct w|].
  unfold slot. rewrite (proj2 (Z.ltb_ge _ _)) by done.
  destruct (m_data (w_fds w) !! Z.to_nat fd) as [[p|]|] eqn:Hj; simpl.
  - destruct (Hd _ _ Hj) as [e He]. unfold entity, deref. simpl. rewrite He. simpl.
    apply Hh in He as (_ & -> & _). rewrite orb_true_r. by destruct w.
  - by destruct w.
  - apply lookup_ge_None in Hj. unfold zlen in Hlt. lia.
Qed.
End program.

(** The entity table never learns that a program asked for non-blocking
    mode.  After any sequence of hooked calls that starts with the initial
    table, no entity is marked non-blocking by the user, and
    [fcntl(fd, F_SETFL, arg)] still goes to the kernel with [arg] as it is and
    without a change of the table: a program that sets O_NONBLOCK is still
    suspended in [read], and one that clears it makes the kernel's descriptor
    blocking.  The guards read [!isClosed()] where [isClosed()] is meant. *)
Theorem user_nonblock_never_recorded env g fuel cs w w' :
  w_fds w = FdManager_new → run_calls env g fuel cs w = Ret (tt, w') →
  (∀ p e, f_heap (w_fds w') !! p = Some e →
     m_isClosed e = false ∧ m_isUserNonblock e = false) ∧
  (∀ fd arg, t_enable_hook w' = true → 0 <= fd → ∃ r w'',
     fcntl env fd F_SETFL arg w' = Ret (r, w'') ∧ w_fds w'' = w_fds w' ∧
     w_trace w'' = Kernel "fcntl" [fd; F_SETFL; arg] :: w_trace w').
Proof.
  intros Hw Hrun. assert (tidy (w_fds w')) as Ht.
  { eapply keeps_run_calls; [|done]. rewrite Hw. apply tidy_new. }
  split; [by intros p e [_ H]%(proj1 Ht)|].
  intros fd arg Hon Hfd. rewrite setfl_direct by done. unfold sys.
  destruct (env _ _) as [v e]. by eexists _, _.
Qed.

(** ** A concrete kernel: descriptor 4 is a socket, its first [read] and its
    first [connect] cannot proceed, everything else succeeds at once. *)
Definition demo_args : list Z := [7; 100].
Definition demo_env (h : list Call) (c : Call) : Z * Z :=
  match c with
  | Kernel name args =>
    if decide (name = "fstat") then (S_IFSOCK, 0)
    else if decide (name = "socket") then (4, 0)
    else if decide (name = "read") then
      if (0 <? asked "read" 4 demo_args h)%nat then (5, EAGAIN) else (-1, EAGAIN)
    else (0, 0)
  | AddEvent _ _ => (ADD_EVENT_SUC, EAGAIN)
  | CoYield => (0, EAGAIN)
  | _ => (0, EAGAIN)
  end.
Definition demo_world : World := mkWorld true true 0 FdManager_new [].
Definition demo_socket : World :=
  match socket demo_env 2 1 0 demo_world with Ret (_, w) => w | _ => demo_world end.

Lemma demo_blocking : blocking_entity demo_env 4 EV_READ (-1) demo_socket.
Proof.
  exists 0, (fst (FdEntity_new (k_fstat demo_env demo_world) (k_getfl demo_env demo_world) 4)).
  vm_compute. repeat (split; [reflexivity|]). reflexivity.
Defined.


Example doSocketIo_returns_witness :
  ∃ r, doSocketIo demo_env 2 "read" 4 demo_args EV_READ demo_socket = Ret r.
Proof.
  apply (doSocketIo_returns demo_env 1 "read" 4 demo_args EV_READ (-1));
    [reflexivity|reflexivity|apply demo_blocking|].
  intros h Hh. cbn [demo_env].
  destruct (asked "read" 4 demo_args h); [inversion Hh|]. simpl. intros [? _]. discriminate.
Defined.

Example user_nonblock_never_recorded_witness :
  ∃ w', run_calls demo_env 0 3 [HSocket 2 1 0; HFcntl 4 F_SETFL O_NONBLOCK;
                                HRead "read" 4 demo_args] demo_world = Ret (tt, w') ∧
    (∀ p e, f_heap (w_fds w') !! p = Some e →
       m_isClosed e = false ∧ m_isUserNonblock e = false) ∧
    (∀ fd arg, t_enable_hook w' = true → 0 <= fd → ∃ r w'',
       fcntl demo_env fd F_SETFL arg w' = Ret (r, w'') ∧ w_fds w'' = w_fds w' ∧
       w_trace w'' = Kernel "fcntl" [fd; F_SETFL; arg] :: w_trace w').
Proof.
  eexists. split; [vm_compute; reflexivity|].
  eapply (user_nonblock_never_recorded demo_env 0 3 [HSocket 2 1 0; HFcntl 4 F_SETFL O_NONBLOCK;
    HRead "read" 4 demo_args] demo_world); [reflexivity|vm_compute; reflexivity].
Defined.
