(* ===== verification/Address.v ===== *)
(** * Socket addresses: src/src/address.h, src/src/address.cpp

    The four classes derived from [Address] are the constructors of a type;
    each wraps the [sockaddr] structure of its family with its fields as the
    code loads them (a port and an IPv4 address are in network byte order in
    memory).  [in_bytes], [in6_bytes], ... are the memory of the structures:
    what [memcmp], the kernel and [Create] see.  The name service
    ([getaddrinfo]) and the interface list ([getifaddrs]) are parameters. *)

From stdpp Require Import pretty.
From Stdlib Require Import Ascii.
From coqutil Require Import Byte Word.LittleEndianList.
From S2P Require Import Prelude Endian.

Notation chars := String.list_ascii_of_string.
Notation str_of := String.string_of_list_ascii.

Definition AF_UNSPEC : Z := 0.
Definition AF_UNIX : Z := 1.
Definition AF_INET : Z := 2.
Definition AF_INET6 : Z := 10.

(** [struct sockaddr_in], [sockaddr_in6], [sockaddr_un] and [sockaddr]. *)
Record sockaddr_in := mkIn {
  sin_family : Z; sin_port : Z; sin_addr : Z; sin_zero : list byte }.
Record sockaddr_in6 := mkIn6 {
  sin6_family : Z; sin6_port : Z; sin6_flowinfo : Z; sin6_addr : list byte; sin6_scope_id : Z }.
Record sockaddr_un := mkUn { sun_family : Z; sun_path : list byte }.
Record sockaddr := mkSa { sa_family : Z; sa_data : list byte }.

(** [src/src/address.h:27-151] the subclasses of Address *)
Inductive Address :=
| IpV4Address (m_addr : sockaddr_in)
| IpV6Address (m_addr : sockaddr_in6)
| UnixAddress (m_addr : sockaddr_un) (m_length : Z)
| UnknowAddress (m_addr : sockaddr).

Definition zeros (n : nat) : list byte := replicate n Byte.x00.

(** [src/src/address.cpp:20-23] CreateMask for a [w]-bit type. The shift is done on an int: it is undefined from 32 on, and for 31 the subtraction overflows *)
Definition CreateMask (w bits : Z) : res Z :=
  let s := u32 (w - bits) in
  if 31 <=? s then Undef "shift" else Ret ((Z.shiftl 1 s - 1) mod 2 ^ w).

(** [src/src/address.cpp:25-33] CountBytes, with fuel *)
Fixpoint CountBytes (fuel : nat) (value result : Z) : res Z :=
  match fuel with
  | O => OutOfFuel
  | S fuel =>
      if value =? 0 then Ret result
      else CountBytes fuel (Z.land value (value - 1)) (u32 (result + 1))
  end.

(** [src/src/address.cpp:68-88] Address::Lookup, the split of the host into node and service; the service is the rest of the string from a pointer on *)
Definition split_host (host : list ascii) : list ascii * option (list ascii) :=
  let memchr (c : ascii) (l : list ascii) := fst <$> list_find (λ x, x = c) l in
  let '(node, service) :=
    match host with
    | [] => ([], None)
    | c :: rest =>
        if Ascii.eqb c "["%char then
          match memchr "]"%char rest with
          | Some i =>
              (take i rest,
               match drop (S i) rest with
               | [] => None
               | c :: svc => if Ascii.eqb c ":"%char then Some svc else None
               end)
          | None => ([], None)
          end
        else ([], None)
    end in
  let '(node, service) :=
    match node with
    | [] =>
        match memchr ":"%char host with
        | Some i =>
            match memchr ":"%char (drop (S i) host) with
            | Some _ => ([], Some (drop i host))
            | None => (take i host, Some (drop (S i) host))
            end
        | None => ([], None)
        end
    | _ => (node, service)
    end in
  (match node with [] => host | _ => node end, service).

Section address.
Context (h : host_order).

(** The memory of the structures. *)
Definition in_bytes (a : sockaddr_in) : list byte :=
  mem_of_int h 2 (sin_family a) ++ mem_of_int h 2 (sin_port a) ++
  mem_of_int h 4 (sin_addr a) ++ sin_zero a.
Definition in6_bytes (a : sockaddr_in6) : list byte :=
  mem_of_int h 2 (sin6_family a) ++ mem_of_int h 2 (sin6_port a) ++
  mem_of_int h 4 (sin6_flowinfo a) ++ sin6_addr a ++ mem_of_int h 4 (sin6_scope_id a).
Definition un_bytes (a : sockaddr_un) : list byte :=
  mem_of_int h 2 (sun_family a) ++ sun_path a.
Definition sa_bytes (a : sockaddr) : list byte :=
  mem_of_int h 2 (sa_family a) ++ sa_data a.

(** The structures that memory holds. *)
Definition load_in (m : list byte) : sockaddr_in :=
  mkIn (int_of_mem h (slice 0 2 m)) (int_of_mem h (slice 2 2 m)) (int_of_mem h (slice 4 4 m))
       (slice 8 8 m).
Definition load_in6 (m : list byte) : sockaddr_in6 :=
  mkIn6 (int_of_mem h (slice 0 2 m)) (int_of_mem h (slice 2 2 m)) (int_of_mem h (slice 4 4 m))
        (slice 8 16 m) (int_of_mem h (slice 24 4 m)).
Definition load_un (m : list byte) : sockaddr_un :=
  mkUn (int_of_mem h (slice 0 2 m)) (slice 2 108 m).
Definition load_sa (m : list byte) : sockaddr :=
  mkSa (int_of_mem h (slice 0 2 m)) (slice 2 14 m).

(** [src/src/address.cpp:253-259] getAddr: the memory behind the pointer. The other classes are the same (367-373, 454-460, 496-502) *)
Definition getAddr (a : Address) : list byte :=
  match a with
  | IpV4Address a => in_bytes a
  | IpV6Address a => in6_bytes a
  | UnixAddress a _ => un_bytes a
  | UnknowAddress a => sa_bytes a
  end.

(** [src/src/address.cpp:261-263] IpV4Address::getAddrLen *)
Definition in_len : Z := 16.
(** [src/src/address.cpp:375-377] IpV6Address::getAddrLen *)
Definition in6_len : Z := 28.
(** [src/src/address.cpp:504-506] UnknowAddress::getAddrLen *)
Definition sa_len : Z := 16.
(** [src/src/address.cpp:466-468] getAddrLen, of a UnixAddress m_length *)
Definition getAddrLen (a : Address) : Z :=
  match a with
  | IpV4Address _ => in_len
  | IpV6Address _ => in6_len
  | UnixAddress _ m_length => m_length
  | UnknowAddress _ => sa_len
  end.

(** [src/src/address.cpp:183-185] Address::getFamily *)
Definition getFamily (a : Address) : Z := int_of_mem h (slice 0 2 (getAddr a)).

(** [src/src/address.cpp:229-234] IpV4Address::IpV4Address(uint32_t, uint16_t) *)
Definition IpV4Address_new (address port : Z) : Address :=
  IpV4Address (mkIn AF_INET (byteswapOnLittleEndian h 2 port) (byteswapOnLittleEndian h 4 address)
                 (zeros 8)).

(** [src/src/address.cpp:351-354] IpV6Address::IpV6Address *)
Definition IpV6Address_new : sockaddr_in6 := mkIn6 AF_INET6 0 0 (zeros 16) 0.

(** [src/src/address.cpp:360-365] IpV6Address::IpV6Address(address[16], port) *)
Definition IpV6Address_of (address : list byte) (port : Z) : Address :=
  IpV6Address (mkIn6 AF_INET6 (byteswapOnLittleEndian h 2 port) 0 address 0).

(** [src/src/address.cpp:35-52] Address::Create: [addr] is the memory behind the pointer. The copies are 225-227, 356-358 and 492-494 *)
Definition Create (addr : option (list byte)) : option Address :=
  match addr with
  | None => None
  | Some m =>
      let family := int_of_mem h (slice 0 2 m) in
      Some (if family =? AF_INET then IpV4Address (load_in m)
            else if family =? AF_INET6 then IpV6Address (load_in6 m)
            else UnknowAddress (load_sa m))
  end.

Section lookup.
(** [getaddrinfo]: an error, or the list of the addresses found. *)
Context (getaddrinfo : list ascii → option (list ascii) → Z → Z → Z → Z + list (list byte)).

(** [src/src/address.cpp:54-105] Address::Lookup: the addresses are appended to [result] *)
Definition Lookup (result : list (option Address)) (host : list ascii) (family type protocol : Z)
    : list (option Address) * bool :=
  let '(node, service) := split_host host in
  match getaddrinfo node service family type protocol with
  | inl _ => (result, false)
  | inr results =>
      let result := result ++ ((λ m, Create (Some m)) <$> results) in
      (result, match result with [] => false | _ => true end)
  end.

(** [src/src/address.cpp:107-113] Address::LookupAny *)
Definition LookupAny (host : list ascii) (family type protocol : Z) : option Address :=
  let '(result, ok) := Lookup [] host family type protocol in
  if ok then nth 0 result None else None.

(** [dynamic_pointer_cast<IpAddress>] *)
Definition to_ip (a : option Address) : option Address :=
  match a with
  | Some (IpV4Address _) | Some (IpV6Address _) => a
  | _ => None
  end.

(** [src/src/address.cpp:212-223] IpAddress::LookupAnyIpAddress *)
Definition LookupAnyIpAddress (host : list ascii) (family type protocol : Z) : option Address :=
  let '(rst, ok) := Lookup [] host family type protocol in
  if ok then
    match omap to_ip rst with v :: _ => Some v | [] => None end
  else None.
End lookup.

(** [src/src/address.cpp:328-330] IpV4Address::getPort *)
Definition v4_getPort (a : sockaddr_in) : Z := byteswapOnLittleEndian h 2 (sin_port a).
(** [src/src/address.cpp:332-334] IpV4Address::setPort *)
Definition v4_setPort (v : Z) (a : sockaddr_in) : sockaddr_in :=
  mkIn (sin_family a) (byteswapOnLittleEndian h 2 v) (sin_addr a) (sin_zero a).
(** [src/src/address.cpp:424-426] IpV6Address::getPort *)
Definition v6_getPort (a : sockaddr_in6) : Z := byteswapOnLittleEndian h 2 (sin6_port a).
(** [src/src/address.cpp:428-430] IpV6Address::setPort *)
Definition v6_setPort (v : Z) (a : sockaddr_in6) : sockaddr_in6 :=
  mkIn6 (sin6_family a) (byteswapOnLittleEndian h 2 v) (sin6_flowinfo a) (sin6_addr a)
        (sin6_scope_id a).

(** [src/src/address.cpp:275-300] IpAddress::Create: [numeric] is getaddrinfo with AI_NUMERICHOST *)
Definition IpAddress_Create (numeric : list ascii → Z + list byte) (address : list ascii) (port : Z)
    : option Address :=
  match numeric address with
  | inl _ => None
  | inr m =>
      match Create (Some m) with
      | Some (IpV4Address a) => Some (IpV4Address (v4_setPort port a))
      | Some (IpV6Address a) => Some (IpV6Address (v6_setPort port a))
      | _ => None
      end
  end.

(** [src/src/address.cpp:236-251] IpV4Address::IpV4Address(const char *, uint16_t): [pton6] is inet_pton(AF_INET6): 16 bytes, of which the first four land in sin_addr and the rest in sin_zero and beyond the structure *)
Definition IpV4Address_parse (pton6 : list ascii → option (list byte)) (address : list ascii) (port : Z)
    : res Address :=
  match pton6 address with
  | None => Throw "IPV4 ADDRESS INIT ERROR"
  | Some bs =>
      if 12 <? zlen bs then Undef "inet_pton writes past m_addr"
      else Ret (IpV4Address (mkIn AF_INET (byteswapOnLittleEndian h 2 port)
                  (int_of_mem h (slice 0 4 bs)) (slice 4 8 bs)))
  end.

(** [src/src/address.cpp:336-349] IpV6Address::Create *)
Definition IpV6Address_Create (pton6 : list ascii → option (list byte)) (address : list ascii) (port : Z)
    : option Address :=
  match pton6 address with
  | None => None
  | Some bs => Some (IpV6Address (mkIn6 AF_INET6 (byteswapOnLittleEndian h 2 port) 0 bs 0))
  end.

Definition v4_with_addr (v : Z) (a : sockaddr_in) : sockaddr_in :=
  mkIn (sin_family a) (sin_port a) v (sin_zero a).

(** [src/src/address.cpp:302-309] IpV4Address::broadcastAddress *)
Definition v4_broadcastAddress (prefixLen : Z) (a : sockaddr_in) : res (option sockaddr_in) :=
  if 32 <? prefixLen then Ret None
  else
    m ← CreateMask 32 prefixLen;
    Ret (Some (v4_with_addr (Z.lor (sin_addr a) (byteswapOnLittleEndian h 4 m)) a)).

(** [src/src/address.cpp:311-318] IpV4Address::networkAddress *)
Definition v4_networkAddress (prefixLen : Z) (a : sockaddr_in) : res (option sockaddr_in) :=
  if 32 <? prefixLen then Ret None
  else
    m ← CreateMask 32 prefixLen;
    Ret (Some (v4_with_addr (Z.land (sin_addr a) (byteswapOnLittleEndian h 4 m)) a)).

(** [src/src/address.cpp:320-326] IpV4Address::subnetMask *)
Definition v4_subnetMask (prefixLen : Z) : res sockaddr_in :=
  m ← CreateMask 32 prefixLen;
  Ret (mkIn AF_INET 0 (u32 (Z.lnot (byteswapOnLittleEndian h 4 m))) (zeros 8)).

(** [s6_addr[i]], outside of the array undefined. *)
Definition s6_get (a : list byte) (i : Z) : res Z :=
  if i <? 0 then Undef "s6_addr" else byte.unsigned <$> deref (a !! Z.to_nat i) "s6_addr".
Definition s6_set (i v : Z) (a : list byte) : list byte := <[Z.to_nat i := byte.of_Z v]> a.

(** The loop that fills the bytes from [i] on. *)
Definition s6_fill (i v : Z) (a : list byte) : list byte :=
  ztake i a ++ replicate (length a - Z.to_nat i) (byte.of_Z v).

Definition v6_with_addr (v : list byte) (a : sockaddr_in6) : sockaddr_in6 :=
  mkIn6 (sin6_family a) (sin6_port a) (sin6_flowinfo a) v (sin6_scope_id a).

(** [src/src/address.cpp:395-402] IpV6Address::broadcastAddress *)
Definition v6_broadcastAddress (prefixLen : Z) (a : sockaddr_in6) : res sockaddr_in6 :=
  let i := prefixLen / 8 in
  b ← s6_get (sin6_addr a) i;
  m ← CreateMask 8 (prefixLen mod 8);
  Ret (v6_with_addr (s6_fill (i + 1) 255 (s6_set i (Z.lor b m) (sin6_addr a))) a).

(** [src/src/address.cpp:404-411] IpV6Address::networkAddress *)
Definition v6_networkAddress (prefixLen : Z) (a : sockaddr_in6) : res sockaddr_in6 :=
  let i := prefixLen / 8 in
  b ← s6_get (sin6_addr a) i;
  m ← CreateMask 8 (prefixLen mod 8);
  Ret (v6_with_addr (s6_fill (i + 1) 0 (s6_set i (Z.land b m) (sin6_addr a))) a).

(** [src/src/address.cpp:413-422] IpV6Address::subnetMask *)
Definition v6_subnetMask (prefixLen : Z) : res sockaddr_in6 :=
  let i := prefixLen / 8 in
  _ ← s6_get (zeros 16) i;
  m ← CreateMask 8 (prefixLen mod 8);
  Ret (v6_with_addr (s6_fill (i + 1) 255 (s6_set i (Z.lnot m) (zeros 16))) IpV6Address_new).

Definition dec (v : Z) : list ascii := chars (pretty v).
Definition hex_digit (n : Z) : ascii :=
  ascii_of_N (Z.to_N (if n <? 10 then 48 + n else 87 + n)).
(** [std::hex << std::setw(4) << std::setfill('0')] of a 16-bit number. *)
Definition hex4 (v : Z) : list ascii :=
  [hex_digit (Z.land (Z.shiftr v 12) 15); hex_digit (Z.land (Z.shiftr v 8) 15);
   hex_digit (Z.land (Z.shiftr v 4) 15); hex_digit (Z.land v 15)].

(** [src/src/address.cpp:265-273] IpV4Address::insert *)
Definition v4_insert (a : sockaddr_in) : list ascii :=
  let addr := byteswapOnLittleEndian h 4 (sin_addr a) in
  dec (Z.land (Z.shiftr addr 24) 255) ++ ["."%char] ++
  dec (Z.land (Z.shiftr addr 16) 255) ++ ["."%char] ++
  dec (Z.land (Z.shiftr addr 8) 255) ++ ["."%char] ++
  dec (Z.land addr 255) ++ [":"%char] ++ dec (v4_getPort a).

(** [src/src/address.cpp:379-393] IpV6Address::insert *)
Definition v6_insert (a : sockaddr_in6) : list ascii :=
  let group i :=
    hex4 (byteswapOnLittleEndian h 2 (int_of_mem h (slice (2 * i) 2 (sin6_addr a)))) ++
    [if i =? 7 then "]"%char else ":"%char] in
  ["["%char] ++ concat (group <$> [0; 1; 2; 3; 4; 5; 6; 7]) ++ [":"%char; ":"%char] ++
  dec (v6_getPort a).

Definition MAX_PATH_LEN : Z := 107.

(** [src/src/address.cpp:434-438] UnixAddress::UnixAddress *)
Definition UnixAddress_new : Address := UnixAddress (mkUn AF_UNIX (zeros 108)) (2 + MAX_PATH_LEN).

(** [src/src/address.cpp:440-452] UnixAddress::UnixAddress(path) *)
Definition UnixAddress_of (path : list byte) : res Address :=
  let m_length := zlen path + 1 in
  let m_length := match path with Byte.x00 :: _ => m_length - 1 | _ => m_length end in
  if 108 <? m_length then Throw "PATH TOO LONG"
  else Ret (UnixAddress (mkUn AF_UNIX (splice 0 (ztake m_length (path ++ [Byte.x00])) (zeros 108)))
              (m_length + 2)).

(** [src/src/address.cpp:462-464] UnixAddress::setAddrLen *)
Definition setAddrLen (len : Z) (a : Address) : Address :=
  match a with UnixAddress a _ => UnixAddress a len | _ => a end.

(** The C string at a pointer into [m]. *)
Fixpoint cstr (m : list byte) : res (list byte) :=
  match m with
  | [] => Undef "string is not terminated"
  | Byte.x00 :: _ => Ret []
  | b :: m => s ← cstr m; Ret (b :: s)
  end.

(** [src/src/address.cpp:470-485] UnixAddress::getPath and UnixAddress::insert *)
Definition getPath (a : sockaddr_un) (m_length : Z) : res (list byte) :=
  match sun_path a with
  | Byte.x00 :: rest =>
      if 2 <? m_length then
        let n := m_length - 2 - 1 in
        if zlen rest <? n then Undef "past sun_path"
        else Ret ([Byte.x5c; Byte.x30] ++ ztake n rest)
      else cstr (sun_path a)
  | p => cstr p
  end.

(** An entry of [getifaddrs]: its name, its address and its netmask, if any. *)
Record ifaddrs := mkIf {
  ifa_name : string; ifa_addr : option (list byte); ifa_netmask : option (list byte) }.

(** [src/src/address.cpp:124-152] IpAddress::GetInterfaceAddresses, one interface: what is inserted, if anything *)
Definition interface_entry (family : Z) (nxt : ifaddrs)
    : res (option (string * (Address * Z))) :=
  match ifa_addr nxt with
  | None => Ret None
  | Some m =>
      let fam := int_of_mem h (slice 0 2 m) in
      if negb (fam =? family) then Ret None
      else if fam =? AF_INET then
        mask ← deref (ifa_netmask nxt) "ifa_netmask";
        n ← CountBytes 64 (sin_addr (load_in mask)) 0;
        Ret (Some (ifa_name nxt, (IpV4Address (load_in m), n)))
      else if fam =? AF_INET6 then
        mask ← deref (ifa_netmask nxt) "ifa_netmask";
        n ← foldl (λ acc b, l ← acc; c ← CountBytes 64 (byte.unsigned b) 0; Ret (u32 (l + c)))
              (Ret 0) (sin6_addr (load_in6 mask));
        Ret (Some (ifa_name nxt, (IpV6Address (load_in6 m), n)))
      else Ret None
  end.

(** [src/src/address.cpp:115-159] IpAddress::GetInterfaceAddresses: the entries are inserted into the multimap in order. [ifs] is what getifaddrs gives, [None] when it fails *)
Fixpoint interface_entries (family : Z) (rsts : list (string * (Address * Z))) (ifs : list ifaddrs)
    : res (list (string * (Address * Z))) :=
  match ifs with
  | [] => Ret rsts
  | nxt :: ifs =>
      e ← interface_entry family nxt;
      interface_entries family (rsts ++ option_list e) ifs
  end.

(** [src/src/address.cpp:161-181] IpAddress::GetInterfaceAddresses of one interface *)
Definition GetInterfaceAddresses (ifs : option (list ifaddrs))
    (result : list (Address * Z)) (iface : string) (family : Z) : res (list (Address * Z) * bool) :=
  if bool_decide (iface = EmptyString) || bool_decide (iface = "*"%string) then
    let result := result ++
      (if (family =? AF_INET) || (family =? AF_UNSPEC) then [(IpV4Address_new 0 0, 0)] else []) in
    let result := result ++
      (if (family =? AF_INET6) || (family =? AF_UNSPEC) then [(IpV6Address IpV6Address_new, 0)] else []) in
    Ret (result, true)
  else
    match ifs with
    | None => Ret (result, false)
    | Some ifs =>
        rsts ← interface_entries family [] ifs;
        let result := result ++ (snd <$> filter (λ e, fst e = iface) rsts) in
        Ret (result, match result with [] => false | _ => true end)
    end.

(** [memcmp] of [n] bytes: the sign. *)
Fixpoint memcmp (a b : list byte) : Z :=
  match a, b with
  | x :: a, y :: b =>
      if byte.unsigned x =? byte.unsigned y then memcmp a b
      else byte.unsigned x - byte.unsigned y
  | _, _ => 0
  end.

(** [src/src/address.cpp:193-202] Address::operator< *)
Definition Address_lt (a b : Address) : bool :=
  let minLen := Z.min (getAddrLen a) (getAddrLen b) in
  let rt := memcmp (ztake minLen (getAddr a)) (ztake minLen (getAddr b)) in
  if 0 <? rt then true
  else if rt <? 0 then false
  else getAddrLen b <? getAddrLen a.

(** [src/src/address.cpp:204-206] Address::operator== *)
Definition Address_eqb (a b : Address) : bool :=
  (getAddrLen a =? getAddrLen b) &&
  (memcmp (ztake (getAddrLen a) (getAddr a)) (ztake (getAddrLen a) (getAddr b)) =? 0).

(** [src/src/address.cpp:208-210] Address::operator!= *)
Definition Address_neqb (a b : Address) : bool := negb (Address_eqb a b).
End address.
