(* ===== verification/AddressProps.v ===== *)
(** * Socket addresses: theorems on Address.v

    The order of addresses, the arithmetic of IPv4 prefixes, and the split of
    a host string into node and service. *)

From Stdlib Require Import Ascii.
From coqutil Require Import Byte Word.LittleEndianList Z.prove_Zeq_bitwise.
From S2P Require Import Prelude Endian Address.

(** ** The order *)

(** The lexicographic order of byte strings, a proper prefix first. *)
Fixpoint lex_lt (a b : list byte) : Prop :=
  match a, b with
  | _, [] => False
  | [], _ :: _ => True
  | x :: a, y :: b =>
      byte.unsigned x < byte.unsigned y ∨ (x = y ∧ lex_lt a b)
  end.

Lemma unsigned_inj x y : byte.unsigned x = byte.unsigned y → x = y.
Proof. intros H. by rewrite <- (byte.of_Z_unsigned x), H, byte.of_Z_unsigned. Qed.

Lemma lex_irrefl a : ¬ lex_lt a a.
Proof.
  induction a as [|x a IH]; simpl; [by intros []|].
  intros [?|[_ ?]]; [lia|by apply IH].
Qed.

Lemma lex_trans a b c : lex_lt a b → lex_lt b c → lex_lt a c.
Proof.
  revert b c. induction a as [|x a IH]; intros [|y b] [|z c]; simpl; try done.
  intros [H1|[-> H1]] [H2|[-> H2]]; [left; lia|by left|by left|right; eauto].
Qed.

Lemma lex_total a b : lex_lt a b ∨ a = b ∨ lex_lt b a.
Proof.
  revert b. induction a as [|x a IH]; intros [|y b]; simpl; auto.
  destruct (Z.lt_total (byte.unsigned x) (byte.unsigned y)) as [?|[Heq|?]]; auto.
  apply unsigned_inj in Heq as ->. destruct (IH b) as [?|[->|?]]; auto.
Qed.

(** [memcmp] of the common length, then the lengths: the lexicographic order. *)
Lemma memcmp_lex a b :
  let n := Z.min (zlen a) (zlen b) in
  let rt := memcmp (ztake n a) (ztake n b) in
  (0 < rt ∨ (rt = 0 ∧ zlen b < zlen a)) ↔ lex_lt b a.
Proof.
  cbv zeta. unfold ztake.
  assert (Z.to_nat (Z.min (zlen a) (zlen b)) = Nat.min (length a) (length b)) as ->.
  { unfold zlen. lia. }
  revert b. induction a as [|x a IH]; intros [|y b]; simpl.
  - unfold zlen. simpl. split; [lia|done].
  - unfold zlen. simpl. split; [lia|done].
  - unfold zlen. simpl. split; [done|lia].
  - rewrite !zlen_cons. destruct (Z.eqb_spec (byte.unsigned x) (byte.unsigned y)) as [Heq|Hne].
    + apply unsigned_inj in Heq as ->. rewrite <- IH. split.
      * intros [?|[? ?]]; right; (split; [done|]); [by left|right; lia].
      * intros [?|[_ [?|[? ?]]]]; [lia|by left|right; lia].
    + split; [intros [?|[? ?]]; left; lia|]. intros [?|[-> ?]]; [left; lia|done].
Qed.

Lemma memcmp_eq a b : length a = length b → memcmp a b = 0 ↔ a = b.
Proof.
  revert b. induction a as [|x a IH]; intros [|y b]; simpl; try done.
  intros [= Hl]. destruct (Z.eqb_spec (byte.unsigned x) (byte.unsigned y)) as [Heq|Hne].
  - apply unsigned_inj in Heq as ->. rewrite IH by done. split; [by intros ->|by intros [= ->]].
  - split; [lia|]. by intros [= -> ->].
Qed.

Section order.
Context (h : host_order).

(** The bytes an address is compared by, and when they are all there. *)
Definition key (a : Address) : list byte := ztake (getAddrLen a) (getAddr h a).
Definition addr_wf (a : Address) : Prop := 0 <= getAddrLen a <= zlen (getAddr h a).

Lemma zlen_key a : addr_wf a → zlen (key a) = getAddrLen a.
Proof. intros [H1 H2]. unfold key. by rewrite zlen_ztake by lia. Qed.

Lemma Address_lt_lex a b :
  addr_wf a → addr_wf b → Address_lt h a b = true ↔ lex_lt (key b) (key a).
Proof.
  intros Ha Hb. rewrite <- memcmp_lex. cbv zeta. rewrite !zlen_key by done. unfold key.
  destruct Ha, Hb. rewrite !ztake_ztake by lia. unfold Address_lt.
  set (rt := memcmp _ _).
  destruct (Z.ltb_spec 0 rt); [naive_solver|].
  destruct (Z.ltb_spec rt 0); [split; [done|lia]|].
  rewrite Z.ltb_lt. split; [intros; right; lia|lia].
Qed.

Lemma Address_eqb_key a b :
  addr_wf a → addr_wf b → Address_eqb h a b = true ↔ key a = key b.
Proof.
  intros Ha Hb. unfold Address_eqb. rewrite andb_true_iff, !Z.eqb_eq. split.
  - intros [Hl Hm]. unfold key. rewrite <- Hl. apply memcmp_eq; [|done].
    destruct Ha, Hb. unfold ztake, zlen in *. rewrite !length_take. lia.
  - intros Hk. assert (getAddrLen a = getAddrLen b) as Hl.
    { by rewrite <- (zlen_key a), <- (zlen_key b), Hk by done. }
    split; [done|]. unfold key in Hk. rewrite <- Hl in Hk. rewrite Hk. by apply memcmp_eq.
Qed.
End order.

(** Addresses can be used as keys of an ordered container: on addresses
    whose length does not exceed their structure, [operator<] is a strict
    total order up to [operator==] (irreflexive, transitive, and exactly one
    of <, == and > holds), namely the reverse of the lexicographic order of
    the bytes; and [operator==] holds exactly for the same bytes. *)
Theorem address_order h a b c :
  addr_wf h a → addr_wf h b → addr_wf h c →
  (Address_lt h a b = true ↔ lex_lt (key h b) (key h a)) ∧
  (Address_eqb h a b = true ↔ key h a = key h b) ∧
  Address_lt h a a = false ∧
  (Address_lt h a b = true → Address_lt h b c = true → Address_lt h a c = true) ∧
  (Address_lt h a b = true ∨ Address_eqb h a b = true ∨ Address_lt h b a = true) ∧
  (Address_lt h a b = true → Address_eqb h a b = false ∧ Address_lt h b a = false).
Proof.
  intros Ha Hb Hc. pose proof (Address_lt_lex h a b Ha Hb) as Hab.
  pose proof (Address_lt_lex h b a Hb Ha) as Hba. pose proof (Address_eqb_key h a b Ha Hb) as He.
  split_and!; [done|done|..].
  - apply not_true_iff_false. rewrite Address_lt_lex by done. apply lex_irrefl.
  - rewrite !Address_lt_lex by done. intros. by eapply lex_trans.
  - rewrite Hab, Hba, He. destruct (lex_total (key h a) (key h b)) as [?|[?|?]]; auto.
  - rewrite <- !not_true_iff_false, Hab, Hba, He. intros Hl. split.
    + intros Heq. rewrite Heq in Hl. by apply lex_irrefl in Hl.
    + intros Hl'. by apply (lex_irrefl (key h a)), (lex_trans _ (key h b)).
Qed.

Example address_order_witness :
  let a := IpV4Address_new HostLittle 2130706433 80 in
  let b := IpV4Address_new HostLittle 2130706433 443 in
  addr_wf HostLittle a ∧
  ((Address_lt HostLittle a b = true ↔ lex_lt (key HostLittle b) (key HostLittle a)) ∧
   (Address_eqb HostLittle a b = true ↔ key HostLittle a = key HostLittle b) ∧
   Address_lt HostLittle a a = false ∧
   (Address_lt HostLittle a b = true → Address_lt HostLittle b a = true →
    Address_lt HostLittle a a = true) ∧
   (Address_lt HostLittle a b = true ∨ Address_eqb HostLittle a b = true ∨
    Address_lt HostLittle b a = true) ∧
   (Address_lt HostLittle a b = true →
    Address_eqb HostLittle a b = false ∧ Address_lt HostLittle b a = false)).
Proof.
  split; [vm_compute; split; discriminate|].
  apply address_order; vm_compute; split; discriminate.
Defined.

(** ** IPv4 prefixes *)

Lemma byteswap4 x : byteswap 4 x =
  Z.lor (Z.land (Z.shiftr x 24) 255) (Z.lor (Z.shiftl (Z.land (Z.shiftr x 16) 255) 8)
   (Z.lor (Z.shiftl (Z.land (Z.shiftr x 8) 255) 16) (Z.shiftl (Z.land x 255) 24))).
Proof.
  unfold byteswap, le_split. cbn [rev app]. unfold le_combine. rewrite !byte.unsigned_of_Z.
  unfold byte.wrap. rewrite !Z.shiftr_shiftr by lia.
  rewrite <- !(Z.land_ones _ 8) by lia.
  simpl Z.add. rewrite Z.shiftl_0_l, Z.lor_0_r.
  rewrite !Z.shiftl_lor, !Z.shiftl_shiftl by lia. reflexivity.
Qed.

Lemma byteswap4_lor x y : byteswap 4 (Z.lor x y) = Z.lor (byteswap 4 x) (byteswap 4 y).
Proof. rewrite !byteswap4. change 255 with (Z.ones 8). prove_Zeq_bitwise. Qed.
Lemma byteswap4_land x y : byteswap 4 (Z.land x y) = Z.land (byteswap 4 x) (byteswap 4 y).
Proof. rewrite !byteswap4. change 255 with (Z.ones 8). prove_Zeq_bitwise. Qed.

Section v4.
Context (h : host_order).

(** The address in host order. *)
Definition ip (a : sockaddr_in) : Z := byteswapOnLittleEndian h 4 (sin_addr a).

Lemma swap_lor x y : byteswapOnLittleEndian h 4 (Z.lor x y) =
  Z.lor (byteswapOnLittleEndian h 4 x) (byteswapOnLittleEndian h 4 y).
Proof. destruct h; [apply byteswap4_lor|done]. Qed.
Lemma swap_land x y : byteswapOnLittleEndian h 4 (Z.land x y) =
  Z.land (byteswapOnLittleEndian h 4 x) (byteswapOnLittleEndian h 4 y).
Proof. destruct h; [apply byteswap4_land|done]. Qed.
Lemma swap_swap x :
  0 <= x < 2 ^ 32 → byteswapOnLittleEndian h 4 (byteswapOnLittleEndian h 4 x) = x.
Proof.
  intros Hx. destruct h; [|done]. change (byteswap 4 (byteswap 4 x) = x).
  rewrite byteswap_involutive. by apply Z.mod_small.
Qed.

Lemma CreateMask_spec p : 2 <= p <= 32 → CreateMask 32 p = Ret (Z.ones (32 - p)).
Proof.
  intros Hp. unfold CreateMask. rewrite u32_small by lia.
  rewrite (proj2 (Z.leb_gt 31 (32 - p))) by lia. rewrite Z.shiftl_1_l. f_equal.
  rewrite Z.ones_equiv, <- Z.sub_1_r. apply Z.mod_small.
  assert (2 ^ (32 - p) <= 2 ^ 32) by (apply Z.pow_le_mono_r; lia).
  assert (0 < 2 ^ (32 - p)) by (apply Z.pow_pos_nonneg; lia). lia.
Qed.

Lemma ones_bound p : 2 <= p <= 32 → 0 <= Z.ones (32 - p) < 2 ^ 32.
Proof.
  intros Hp. rewrite Z.ones_equiv.
  assert (2 ^ (32 - p) <= 2 ^ 32) by (apply Z.pow_le_mono_r; lia).
  assert (0 < 2 ^ (32 - p)) by (apply Z.pow_pos_nonneg; lia). lia.
Qed.

End v4.

(** The 31 masks, computed. *)
Definition mask_ok (h : host_order) (p : Z) : bool :=
  match v4_subnetMask h p with
  | Ret s => (ip h s =? 2 ^ 32 - 2 ^ (32 - p)) && (sin_family s =? AF_INET) &&
             bool_decide (CountBytes 33 (sin_addr s) 0 = Ret p)
  | _ => false
  end.

Lemma masks_ok h p : 2 <= p <= 32 → mask_ok h p = true.
Proof.
  intros Hp. assert (forallb (mask_ok h) (seqZ 2 31) = true) as H.
  { destruct h; vm_compute; reflexivity. }
  rewrite forallb_forall in H. apply H, list_elem_of_In, elem_of_seqZ. lia.
Qed.
(** IPv4 prefixes, in host order, for the lengths 2 to 32 where the shift
    is defined: [broadcastAddress] sets the host bits; [subnetMask] is the
    mask of the prefix, and [CountBytes] of it gives the length back; but
    [networkAddress] keeps the host bits and clears the network (it masks with
    the complement).  For the lengths 0 and 1 the mask is undefined. *)
Theorem v4_prefix h a p :
  0 <= sin_addr a < 2 ^ 32 →
  (2 <= p <= 32 → ∃ b n s,
     v4_broadcastAddress h p a = Ret (Some b) ∧ ip h b = Z.lor (ip h a) (Z.ones (32 - p)) ∧
     v4_networkAddress h p a = Ret (Some n) ∧ ip h n = ip h a mod 2 ^ (32 - p) ∧
     v4_subnetMask h p = Ret s ∧ ip h s = 2 ^ 32 - 2 ^ (32 - p) ∧
     CountBytes 33 (sin_addr s) 0 = Ret p) ∧
  (p = 0 ∨ p = 1 → v4_broadcastAddress h p a = Undef "shift" ∧
     v4_networkAddress h p a = Undef "shift" ∧ v4_subnetMask h p = Undef "shift").
Proof.
  intros Ha. split; [|by intros [->| ->]].
  intros Hp. pose proof (masks_ok h p Hp) as Hm. unfold mask_ok in Hm.
  destruct (v4_subnetMask h p) as [s| | | |]; try done.
  rewrite !andb_true_iff, !Z.eqb_eq, bool_decide_eq_true in Hm. destruct Hm as [[Hip _] Hc].
  unfold v4_broadcastAddress, v4_networkAddress.
  rewrite (proj2 (Z.ltb_ge 32 p)), CreateMask_spec by lia. cbn [mbind res_bind].
  eexists _, _, s. split; [done|]. pose proof (ones_bound p Hp). split.
  { unfold ip. simpl. rewrite swap_lor. by rewrite swap_swap. }
  split; [done|]. split; [|done].
  unfold ip. simpl. rewrite swap_land, swap_swap by done. apply Z.land_ones. lia.
Qed.

Example v4_prefix_witness :
  let a := mkIn AF_INET 0 (byteswap 4 3232235777) (zeros 8) in
  0 <= sin_addr a < 2 ^ 32 ∧
  ∃ b n s,
     v4_broadcastAddress HostLittle 24 a = Ret (Some b) ∧
     ip HostLittle b = Z.lor (ip HostLittle a) (Z.ones (32 - 24)) ∧
     v4_networkAddress HostLittle 24 a = Ret (Some n) ∧
     ip HostLittle n = ip HostLittle a mod 2 ^ (32 - 24) ∧
     v4_subnetMask HostLittle 24 = Ret s ∧ ip HostLittle s = 2 ^ 32 - 2 ^ (32 - 24) ∧
     CountBytes 33 (sin_addr s) 0 = Ret 24.
Proof.
  split; [vm_compute; split; [discriminate|reflexivity]|].
  apply (v4_prefix HostLittle (mkIn AF_INET 0 (byteswap 4 3232235777) (zeros 8)) 24);
    [vm_compute; split; [discriminate|reflexivity]|lia].
Defined.

(** ** Host strings *)

Lemma find_char_None (c : ascii) l : c ∉ l → list_find (λ x, x = c) l = None.
Proof. intros Hn. apply list_find_None, Forall_forall. by intros x Hx ->. Qed.

Lemma find_char_app (c : ascii) l r :
  c ∉ l → list_find (λ x, x = c) (l ++ c :: r) = Some (length l, c).
Proof.
  intros Hn. apply list_find_Some. split_and!; [|done|].
  - by rewrite lookup_app_r, Nat.sub_diag by lia.
  - intros j y Hj Hlt ->. rewrite lookup_app_l in Hj by done.
    by apply list_elem_of_lookup_2, Hn in Hj.
Qed.

Lemma drop_S_app {A} (l r : list A) c : drop (S (length l)) (l ++ c :: r) = r.
Proof. induction l; simpl; auto. Qed.

(** The two ways through [split_host]. *)
Lemma split_unbracketed host :
  head host ≠ Some "["%char →
  split_host host =
    match fst <$> list_find (λ x, x = ":"%char) host with
    | Some i =>
        match fst <$> list_find (λ x, x = ":"%char) (drop (S i) host) with
        | Some _ => (host, Some (drop i host))
        | None => (match take i host with [] => host | _ => take i host end, Some (drop (S i) host))
        end
    | None => (host, None)
    end.
Proof.
  intros Hb. unfold split_host. destruct host as [|c host]; [done|].
  destruct (Ascii.eqb_spec c "["%char) as [->|Hc]; [done|].
  destruct (fst <$> list_find _ (c :: host)) as [i|]; [|done].
  by destruct (fst <$> list_find _ (drop (S i) (c :: host))).
Qed.

Lemma split_bracketed node rest :
  "]"%char ∉ node → node ≠ [] →
  split_host ("["%char :: node ++ "]"%char :: rest) =
    (node, match rest with
           | [] => None
           | c :: svc => if Ascii.eqb c ":"%char then Some svc else None
           end).
Proof.
  intros Hc Hne. unfold split_host. rewrite Ascii.eqb_refl. rewrite find_char_app by done.
  cbn [fst fmap option_fmap option_map].
  rewrite take_app_length, drop_S_app.
  by destruct node.
Qed.

(** How a host string is split.  "node:service" and "[node]:service" give
    the node and the service, a name without a colon has no service, and
    "[node]" has none either.  But a bare IPv6 address, with two colons or
    more and no brackets, is passed on with its own tail, from the first colon
    on, as the service: the pointer to the first colon is not reset. *)
Theorem split_host_forms node service rest :
  node ≠ [] →
  (":"%char ∉ node → head node ≠ Some "["%char → ":"%char ∉ service →
     split_host (node ++ ":"%char :: service) = (node, Some service)) ∧
  (":"%char ∉ node → head node ≠ Some "["%char → split_host node = (node, None)) ∧
  ("]"%char ∉ node →
     split_host ("["%char :: node ++ "]"%char :: ":"%char :: service) = (node, Some service) ∧
     split_host ("["%char :: node ++ ["]"%char]) = (node, None)) ∧
  (":"%char ∉ node → head node ≠ Some "["%char →
     split_host (node ++ ":"%char :: service ++ ":"%char :: rest) =
       (node ++ ":"%char :: service ++ ":"%char :: rest,
        Some (":"%char :: service ++ ":"%char :: rest))).
Proof.
  intros Hne. split_and!.
  - intros Hc Hb Hs. rewrite split_unbracketed by (by destruct node).
    rewrite find_char_app by done. cbn [fst fmap option_fmap option_map].
    rewrite drop_S_app, take_app_length.
    rewrite find_char_None by done. cbn. by destruct node.
  - intros Hc Hb. rewrite split_unbracketed by done. by rewrite find_char_None.
  - intros Hc. split.
    + rewrite split_bracketed by done. by destruct node.
    + rewrite (split_bracketed node []) by done. by destruct node.
  - intros Hc Hb. rewrite split_unbracketed by (by destruct node).
    rewrite find_char_app by done. cbn [fst fmap option_fmap option_map].
    rewrite drop_S_app.
    destruct (list_find _ (service ++ _)) as [[i c]|] eqn:Hf.
    + cbn. rewrite drop_app_length. done.
    + exfalso. apply list_find_None in Hf. rewrite Forall_app, Forall_cons in Hf. naive_solver.
Qed.

Example split_host_forms_witness :
  ["a"%char] ≠ [] ∧
  ((":"%char ∉ ["a"%char] → head ["a"%char] ≠ Some "["%char → ":"%char ∉ ["8"%char] →
      split_host (["a"%char] ++ ":"%char :: ["8"%char]) = (["a"%char], Some ["8"%char])) ∧
   (":"%char ∉ ["a"%char] → head ["a"%char] ≠ Some "["%char →
      split_host ["a"%char] = (["a"%char], None)) ∧
   ("]"%char ∉ ["a"%char] →
      split_host ("["%char :: ["a"%char] ++ "]"%char :: ":"%char :: ["8"%char]) =
        (["a"%char], Some ["8"%char]) ∧
      split_host ("["%char :: ["a"%char] ++ ["]"%char]) = (["a"%char], None)) ∧
   (":"%char ∉ ["a"%char] → head ["a"%char] ≠ Some "["%char →
      split_host (["a"%char] ++ ":"%char :: ["8"%char] ++ ":"%char :: ["1"%char]) =
        (["a"%char] ++ ":"%char :: ["8"%char] ++ ":"%char :: ["1"%char],
         Some (":"%char :: ["8"%char] ++ ":"%char :: ["1"%char])))).
Proof. split; [discriminate|]. apply split_host_forms. discriminate. Defined.
