(* ===== verification/Socket.v ===== *)
(** * Sockets: src/src/socket.h, src/src/socket.cpp

    A [Socket] is a record of its members; a method is a computation of the
    world of Hook.v that returns its result and the changed socket.  The
    system calls are the hooked ones of Hook.v where the hook covers them;
    [bind], [listen], [getpeername] and [getsockname] go to the kernel as they
    are.  The address that a name call stores is a parameter. *)

From Stdlib Require Import Ascii.
From coqutil Require Import Byte Word.LittleEndianList.
From S2P Require Import Prelude FdManager Hook Endian Address.

Definition SOCK_STREAM : Z := 1.
Definition SOCK_DGRAM : Z := 2.
Definition IPPROTO_TCP : Z := 6.
Definition SO_REUSEADDR : Z := 2.
Definition TCP_NODELAY : Z := 1.

(** [src/src/socket.h:93-101] Socket *)
Record Socket := mkSocket {
  m_socket : Z;
  m_family : Z;
  m_type : Z;
  m_protocol : Z;
  m_isConnected : bool;
  m_hasClosed : bool;
  m_localAddress : option Address;
  m_remoteAddress : option Address
}.

(** [src/src/socket.cpp:57-59] Socket::Socket *)
Definition Socket_new (family type protocol : Z) : Socket :=
  mkSocket (-1) family type protocol false false None None.

(** [src/src/socket.h:65-65] Socket::isValid *)
Definition isValid (s : Socket) : bool := negb (m_socket s =? -1).

Definition with_socket (fd : Z) (s : Socket) : Socket :=
  mkSocket fd (m_family s) (m_type s) (m_protocol s) (m_isConnected s) (m_hasClosed s)
    (m_localAddress s) (m_remoteAddress s).
Definition with_flags (connected closed : bool) (s : Socket) : Socket :=
  mkSocket (m_socket s) (m_family s) (m_type s) (m_protocol s) connected closed
    (m_localAddress s) (m_remoteAddress s).
Definition with_local (a : option Address) (s : Socket) : Socket :=
  mkSocket (m_socket s) (m_family s) (m_type s) (m_protocol s) (m_isConnected s) (m_hasClosed s)
    a (m_remoteAddress s).
Definition with_remote (a : option Address) (s : Socket) : Socket :=
  mkSocket (m_socket s) (m_family s) (m_type s) (m_protocol s) (m_isConnected s) (m_hasClosed s)
    (m_localAddress s) a.

Section socket.
Context (h : host_order) (env : list Call → Call → Z * Z) (g_tcp_connect_timeout : Z).
(** The memory and the length that a successful name call leaves in the
    address, after a history of requests. *)
Context (stored_name : list Call → Call → list byte * Z).
Context (fuel : nat).

Definition addr_arg (a : Address) : Z := le_combine (getAddr h a).

(** [src/src/socket.cpp:18-21] Socket::CreateTCPSocket(addr) *)
Definition CreateTCPSocket (addr : Address) : Socket := Socket_new (getFamily h addr) SOCK_STREAM 0.
(** [src/src/socket.cpp:23-26] Socket::CreateUDPSocket(addr) *)
Definition CreateUDPSocket (addr : Address) : Socket := Socket_new (getFamily h addr) SOCK_DGRAM 0.
(** [src/src/socket.cpp:28-35] Socket::CreateTCPSocket, Socket::CreateUDPSocket *)
Definition CreateTCPSocket4 : Socket := Socket_new AF_INET SOCK_STREAM 0.
(** [src/src/socket.cpp:37-45] Socket::CreateTCPSocket6, CreateUDPSocket6 *)
Definition CreateTCPSocket6 : Socket := Socket_new AF_INET6 SOCK_STREAM 0.
(** [src/src/socket.cpp:47-55] CreateUnixTCPSocket, CreateUnixUDPSocket *)
Definition CreateUnixTCPSocket : Socket := Socket_new AF_UNIX SOCK_STREAM 0.

(** [src/src/socket.cpp:65-71] Socket::getSendTimeout *)
Definition getSendTimeout (s : Socket) : M Z :=
  p ← fd_get env (m_socket s) false;
  match p with
  | Some p => e ← entity p; mret (s64 (m_sendTimeout e))
  | None => mret (-1)
  end.

(** [src/src/socket.cpp:80-86] Socket::getRecvTimeout *)
Definition getRecvTimeout (s : Socket) : M Z :=
  p ← fd_get env (m_socket s) false;
  match p with
  | Some p => e ← entity p; mret (s64 (m_recvTimeout e))
  | None => mret (-1)
  end.

(** [src/src/socket.cpp:95-101] Socket::getConnectTimeout *)
Definition getConnectTimeout (s : Socket) : M Z :=
  p ← fd_get env (m_socket s) false;
  match p with
  | Some p => e ← entity p; mret (s64 (FdManager.getConnectTimeout g_tcp_connect_timeout e))
  | None => mret (-1)
  end.

(** [src/src/socket.cpp:103-114] Socket::getOption *)
Definition getOption (s : Socket) (level optname : Z) : M (bool * Z) :=
  '(rt, v) ← getsockopt env (m_socket s) level optname;
  mret (rt =? 0, v).

(** [src/src/socket.cpp:116-129] Socket::setOption *)
Definition setOption (s : Socket) (level optname : Z) (optval : list Z) : M bool :=
  rt ← setsockopt env (m_socket s) level optname optval;
  mret (rt =? 0).

(** The [timeval] of a number of milliseconds. *)
Definition timeval_of (timeout : Z) : list Z :=
  [s32 (Z.quot timeout 1000); s32 (Z.rem timeout 1000 * 1000)].

(** [src/src/socket.cpp:73-78] Socket::setSendTimeout *)
Definition setSendTimeout (timeout : Z) (s : Socket) : M unit :=
  _ ← setOption s SOL_SOCKET SO_SNDTIMEO (timeval_of timeout); mret tt.
(** [src/src/socket.cpp:88-93] Socket::setRecvTimeout *)
Definition setRecvTimeout (timeout : Z) (s : Socket) : M unit :=
  _ ← setOption s SOL_SOCKET SO_RCVTIMEO (timeval_of timeout); mret tt.

(** [src/src/socket.cpp:429-436] Socket::getError *)
Definition getError (s : Socket) : M Z :=
  '(ok, err) ← getOption s SOL_SOCKET SO_ERROR;
  mret (if negb ok then -1 else err).

(** The empty address of a family. *)
Definition blank_address (family : Z) : Address :=
  if family =? AF_INET then IpV4Address_new h 0 0
  else if family =? AF_INET6 then IpV6Address IpV6Address_new
  else if family =? AF_UNIX then UnixAddress_new
  else UnknowAddress (mkSa family (zeros 14)).

(** The same address object with other memory behind it; a UnixAddress also
    takes the length. *)
Definition overwrite_address (a : Address) (m : list byte) (len : Z) : Address :=
  match a with
  | IpV4Address _ => IpV4Address (load_in h m)
  | IpV6Address _ => IpV6Address (load_in6 h m)
  | UnixAddress _ _ => UnixAddress (load_un h m) len
  | UnknowAddress _ => UnknowAddress (load_sa h m)
  end.

Definition stored (c : Call) : M (list byte * Z) := fun w =>
  Ret (stored_name (w_trace w) c, w).

(** The common body of the two getters: the address, kept when it is known. *)
Definition get_name (call : string) (s : Socket) : M (Address * bool) :=
  let rst := blank_address (m_family s) in
  let c := Kernel call [m_socket s; getAddrLen rst] in
  '(m, len) ← stored c;
  rt ← sys env c;
  if negb (rt =? 0) then mret (UnknowAddress (mkSa (m_family s) (zeros 14)), false)
  else mret (overwrite_address rst m len, true).

(** [src/src/socket.cpp:230-264] Socket::getRemoteAddress *)
Definition getRemoteAddress (s : Socket) : M (Address * Socket) :=
  match m_remoteAddress s with
  | Some a => mret (a, s)
  | None =>
      '(a, ok) ← get_name "getpeername" s;
      mret (a, if (ok : bool) then with_remote (Some a) s else s)
  end.

(** [src/src/socket.cpp:266-300] Socket::getLocalAddress *)
Definition getLocalAddress (s : Socket) : M (Address * Socket) :=
  match m_localAddress s with
  | Some a => mret (a, s)
  | None =>
      '(a, ok) ← get_name "getsockname" s;
      mret (a, if (ok : bool) then with_local (Some a) s else s)
  end.

(** [src/src/socket.cpp:315-321] Socket::initSocket *)
Definition initSocket (s : Socket) : M unit :=
  _ ← setOption s SOL_SOCKET SO_REUSEADDR [1];
  if (m_type s =? SOCK_STREAM) && negb (m_family s =? AF_UNIX) then
    _ ← setOption s IPPROTO_TCP TCP_NODELAY [1]; mret tt
  else mret tt.

(** [src/src/socket.cpp:323-333] Socket::newSocket *)
Definition newSocket (s : Socket) : M Socket :=
  fd ← Hook.socket env (m_family s) (m_type s) (m_protocol s);
  let s := with_socket fd s in
  if 0 <=? m_socket s then _ ← initSocket s; mret s else mret s.

(** [src/src/socket.cpp:302-313] Socket::init *)
Definition init (sock : Z) (s : Socket) : M (bool * Socket) :=
  p ← fd_get env sock false;
  match p with
  | None => mret (false, s)
  | Some p =>
      e ← entity p;
      if m_isSocket e && negb (m_isClosed e) then
        let s := with_flags true (m_hasClosed s) (with_socket sock s) in
        _ ← initSocket s;
        '(_, s) ← getRemoteAddress s;
        '(_, s) ← getLocalAddress s;
        mret (true, s)
      else mret (false, s)
  end.

(** [src/src/socket.cpp:335-346] Socket::close *)
Definition close (s : Socket) : M (bool * Socket) :=
  if negb (m_isConnected s) && (m_socket s =? -1) then mret (true, s)
  else
    let s := with_flags false true s in
    if negb (m_socket s =? -1) then
      _ ← Hook.close env (m_socket s);
      mret (true, with_socket (-1) s)
    else mret (true, s).

(** The common start of bind and connect: a descriptor, unless the families
    differ or the kernel gives none. *)
Definition ensure_socket (addr : Address) (s : Socket) : M (bool * Socket) :=
  if negb (isValid s) then
    if negb (getFamily h addr =? m_family s) then mret (false, s)
    else s ← newSocket s; mret (isValid s, s)
  else mret (true, s).

(** [src/src/socket.cpp:131-157] Socket::bind *)
Definition bind (addr : Address) (s : Socket) : M (bool * Socket) :=
  '(ok, s) ← ensure_socket addr s;
  if negb ok then mret (false, s)
  else
    rt ← sys env (Kernel "bind" [m_socket s; addr_arg addr; getAddrLen addr]);
    if negb (rt =? 0) then '(_, s) ← close s; mret (false, s)
    else '(_, s) ← getLocalAddress s; mret (true, s).

(** [src/src/socket.cpp:159-173] Socket::listen *)
Definition listen (backlog : Z) (s : Socket) : M bool :=
  if negb (isValid s) then mret false
  else
    rt ← sys env (Kernel "listen" [m_socket s; backlog]);
    mret (rt =? 0).

(** [src/src/socket.cpp:175-193] Socket::accept *)
Definition accept (s : Socket) : M (option Socket) :=
  let sock := Socket_new (m_family s) (m_type s) (m_protocol s) in
  newSocket ← Hook.accept env fuel (m_socket s) 0 0;
  if newSocket =? -1 then mret None
  else
    '(ok, sock) ← init newSocket sock;
    mret (if (ok : bool) then Some sock else None).

(** [src/src/socket.cpp:195-228] Socket::connect *)
Definition connect (addr : Address) (timeout : Z) (s : Socket) : M (bool * Socket) :=
  '(ok, s) ← ensure_socket addr s;
  if negb ok then mret (false, s)
  else
    p ← fd_get env (m_socket s) false;
    _ ← match p with
        | Some p => upd_entity p (setConnectTimeout timeout)
        | None => mret tt
        end;
    rt ← Hook.connect env g_tcp_connect_timeout (m_socket s) (addr_arg addr) (getAddrLen addr);
    if negb (rt =? 0) then '(_, s) ← close s; mret (false, s)
    else
      let s := with_flags true (m_hasClosed s) s in
      '(_, s) ← getRemoteAddress s;
      '(_, s) ← getLocalAddress s;
      mret (true, s).

(** [timeout]'s default value, [-1] as a [uint64_t]. *)
Definition default_timeout : Z := u64 (-1).

(** [src/src/socket.cpp:348-353] Socket::send *)
Definition send (buffer length flags : Z) (s : Socket) : M Z :=
  if m_isConnected s then Hook.write env fuel "send" (m_socket s) [buffer; length; flags]
  else mret (-1).
(** [src/src/socket.cpp:355-365] Socket::send of buffers *)
Definition send_iov (buffers length flags : Z) (s : Socket) : M Z :=
  if m_isConnected s then Hook.write env fuel "sendmsg" (m_socket s) [buffers; length; flags]
  else mret (-1).
(** [src/src/socket.cpp:367-372] Socket::sendTo *)
Definition sendTo (buffer length : Z) (to : Address) (flags : Z) (s : Socket) : M Z :=
  if negb (isValid s) then mret (-1)
  else Hook.write env fuel "sendto" (m_socket s)
         [buffer; length; flags; addr_arg to; getAddrLen to].
(** [src/src/socket.cpp:374-386] Socket::sendTo of buffers *)
Definition sendTo_iov (buffers length : Z) (to : Address) (flags : Z) (s : Socket) : M Z :=
  if negb (isValid s) then mret (-1)
  else Hook.write env fuel "sendmsg" (m_socket s)
         [buffers; length; flags; addr_arg to; getAddrLen to].
(** [src/src/socket.cpp:388-393] Socket::recv *)
Definition recv (buffer length flags : Z) (s : Socket) : M Z :=
  if m_isConnected s then Hook.read env fuel "recv" (m_socket s) [buffer; length; flags]
  else mret (-1).
(** [src/src/socket.cpp:395-405] Socket::recv of buffers *)
Definition recv_iov (buffers length flags : Z) (s : Socket) : M Z :=
  if m_isConnected s then Hook.read env fuel "recvmsg" (m_socket s) [buffers; length; flags]
  else mret (-1).
(** [src/src/socket.cpp:407-413] Socket::recvFrom *)
Definition recvFrom (buffer length : Z) (from : Address) (flags : Z) (s : Socket) : M Z :=
  if negb (isValid s) then mret (-1)
  else Hook.read env fuel "recvfrom" (m_socket s)
         [buffer; length; flags; addr_arg from; getAddrLen from].
(** [src/src/socket.cpp:415-427] Socket::recvFrom of buffers *)
Definition recvFrom_iov (buffers length : Z) (from : Address) (flags : Z) (s : Socket) : M Z :=
  if negb (isValid s) then mret (-1)
  else Hook.read env fuel "recvmsg" (m_socket s)
         [buffers; length; flags; addr_arg from; getAddrLen from].

(** [src/src/socket.cpp:438-444] Socket::cancelAccept, Socket::cancelRead *)
Definition cancelRead (s : Socket) : M bool :=
  _ ← need_iom; r ← sys env (CancelEvent (m_socket s) EV_READ); mret (negb (r =? 0)).
(** [src/src/socket.cpp:446-448] Socket::cancelWrite *)
Definition cancelWrite (s : Socket) : M bool :=
  _ ← need_iom; r ← sys env (CancelEvent (m_socket s) EV_WRITE); mret (negb (r =? 0)).
(** [src/src/socket.cpp:450-452] Socket::cancelAll *)
Definition cancelAll (s : Socket) : M bool :=
  _ ← need_iom; r ← sys env (CancelAllEvent (m_socket s)); mret (negb (r =? 0)).
End socket.
