(* ===== verification/SocketProps.v ===== *)
(** * Sockets: theorems on Socket.v

    The life of a socket under any sequence of its methods, and what the two
    kinds of timeout amount to. *)

From coqutil Require Import Byte.
From S2P Require Import Prelude FdManager Hook HookProps Endian Address Socket.
From S2P Require Timer.

(** Whatever [m] returns satisfies [P]. *)
Definition post {A} (m : M A) (P : A → Prop) : Prop :=
  ∀ w a w', m w = Ret (a, w') → P a.

Lemma post_ret {A} (a : A) P : P a → post (mret a) P.
Proof. by intros H w b w' [= <- _]. Qed.
Lemma post_bind {A B} (m : M A) (f : A → M B) Q P :
  post m Q → (∀ a, Q a → post (f a) P) → post (m ≫= f) P.
Proof. intros Hm Hf w b w' (a & w1 & E1 & E2)%M_bind_Ret. eapply Hf; [by eapply Hm|done]. Qed.
(** The result of [m] does not matter. *)
Lemma post_seq {A B} (m : M A) (f : A → M B) P : (∀ a, post (f a) P) → post (m ≫= f) P.
Proof. intros Hf. by apply (post_bind _ _ (λ _, True)). Qed.
Lemma post_if {A} (b : bool) (m m' : M A) P : post m P → post m' P → post (if b then m else m') P.
Proof. by destruct b. Qed.
Lemma post_weaken {A} (m : M A) (P Q : A → Prop) : post m P → (∀ a, P a → Q a) → post m Q.
Proof. intros H HPQ w a w' E. by eapply HPQ, H. Qed.

Section socket.
Context (h : host_order) (env : list Call → Call → Z * Z) (g : Z).
Context (stored_name : list Call → Call → list byte * Z) (fuel : nat).
Local Notation connect := (connect h env g stored_name).
Local Notation bind := (bind h env stored_name).
Local Notation close := (close env).
Local Notation getRemoteAddress := (getRemoteAddress h env stored_name).
Local Notation getLocalAddress := (getLocalAddress h env stored_name).

(** A connected socket has a descriptor. *)
Definition sock_inv (s : Socket) : Prop := m_isConnected s = true → m_socket s ≠ -1.

(** [s'] is [s] later: the invariant, the same kind of socket, and the
    addresses that were known. *)
Definition later (s s' : Socket) : Prop :=
  (sock_inv s → sock_inv s') ∧
  m_family s' = m_family s ∧ m_type s' = m_type s ∧ m_protocol s' = m_protocol s ∧
  (∀ a, m_remoteAddress s = Some a → m_remoteAddress s' = Some a) ∧
  (∀ a, m_localAddress s = Some a → m_localAddress s' = Some a).

#[local] Instance later_preorder : PreOrder later.
Proof.
  split; [by intros s; repeat (split; [done|])|].
  intros s1 s2 s3 (? & ? & ? & ? & ? & ?) (? & ? & ? & ? & ? & ?).
  unfold later. split_and!; auto; congruence.
Qed.

Lemma later_remote s : post (getRemoteAddress s) (λ r, later s (snd r) ∧ m_socket (snd r) = m_socket s).
Proof.
  unfold Socket.getRemoteAddress. destruct (m_remoteAddress s) as [a|] eqn:Ha;
    [by apply post_ret|].
  apply post_seq. intros [a ok]. apply post_ret. destruct ok; [|done]. split; [|done].
  unfold later, sock_inv. simpl. split_and!; try done. congruence.
Qed.
Lemma later_local s : post (getLocalAddress s) (λ r, later s (snd r) ∧ m_socket (snd r) = m_socket s).
Proof.
  unfold Socket.getLocalAddress. destruct (m_localAddress s) as [a|] eqn:Ha;
    [by apply post_ret|].
  apply post_seq. intros [a ok]. apply post_ret. destruct ok; [|done]. split; [|done].
  unfold later, sock_inv. simpl. split_and!; try done. congruence.
Qed.

Lemma later_close s :
  post (close s) (λ r, later s (snd r) ∧ (sock_inv s → m_socket (snd r) = -1 ∧
                       m_isConnected (snd r) = false)).
Proof.
  unfold Socket.close.
  destruct (negb (m_isConnected s) && (m_socket s =? -1)) eqn:E.
  - apply andb_true_iff in E as [?%negb_true_iff ?%Z.eqb_eq]. by apply post_ret.
  - cbn [m_socket with_flags]. destruct (Z.eqb_spec (m_socket s) (-1)) as [He|He]; simpl.
    + apply post_ret. split; [by split_and!|]. simpl. intros Hi.
      split; [done|done].
    + apply post_seq. intros _. apply post_ret. split; [|done]. by split_and!.
Qed.

(** A socket that is not valid is not connected. *)
Lemma later_newSocket s : m_socket s = -1 → sock_inv s → post (newSocket env s) (later s).
Proof.
  intros Hs Hi. unfold newSocket. apply post_seq. intros fd.
  assert (later s (with_socket fd s)) as Hl.
  { unfold later, sock_inv in *. simpl. split_and!; try done. intros _ Hc. by destruct (Hi Hc). }
  cbv zeta. apply post_if; [apply post_seq; intros _|]; by apply post_ret.
Qed.

Lemma later_ensure addr s :
  sock_inv s → post (ensure_socket h env addr s)
    (λ r, later s (snd r) ∧ (fst r = true → isValid (snd r) = true)).
Proof.
  intros Hi. unfold ensure_socket. destruct (isValid s) eqn:Hv; simpl; [by apply post_ret|].
  apply post_if; [by apply post_ret|].
  eapply post_bind; [apply later_newSocket; [|done]|].
  - unfold isValid in Hv. by apply negb_false_iff, Z.eqb_eq in Hv.
  - intros s' Hl. by apply post_ret.
Qed.

Lemma later_bind addr s : sock_inv s → post (bind addr s) (λ r, later s (snd r)).
Proof.
  intros Hi. unfold Socket.bind. eapply post_bind; [by apply later_ensure|].
  intros [ok s'] [Hl Hv]. simpl in *. apply post_if; [by apply post_ret|].
  apply post_seq. intros rt. apply post_if.
  - eapply post_bind; [apply later_close|]. intros [b s''] [Hc _]. apply post_ret. by etrans.
  - eapply post_bind; [apply later_local|]. intros [b s''] [Hc _]. apply post_ret. by etrans.
Qed.

Lemma later_connect addr timeout s :
  sock_inv s → post (connect addr timeout s) (λ r, later s (snd r)).
Proof.
  intros Hi. unfold Socket.connect. eapply post_bind; [by apply later_ensure|].
  intros [ok s'] [Hl Hv]. simpl in *. destruct ok; simpl; [|by apply post_ret].
  do 3 (apply post_seq; intros ?). apply post_if.
  - eapply post_bind; [apply later_close|]. intros [b s''] [Hc _]. apply post_ret. by etrans.
  - assert (later s' (with_flags true (m_hasClosed s') s')) as Hl'.
    { unfold later, sock_inv. simpl. split_and!; try done. intros _ _.
      specialize (Hv eq_refl). unfold isValid in Hv. by apply negb_true_iff, Z.eqb_neq in Hv. }
    cbv zeta. eapply post_bind; [apply later_remote|]. intros [b s1] [H1 _].
    eapply post_bind; [apply later_local|]. intros [b2 s2] [H2 _]. apply post_ret.
    simpl in *. etrans; [done|]. etrans; [done|]. by etrans.
Qed.

(** The methods that can change a socket. *)
Inductive sock_op :=
| SBind (addr : Address)
| SConnect (addr : Address) (timeout : Z)
| SLocal
| SRemote
| SClose.

Definition run_op (o : sock_op) (s : Socket) : M Socket :=
  match o with
  | SBind addr => '(_, s) ← bind addr s; mret s
  | SConnect addr t => '(_, s) ← connect addr t s; mret s
  | SLocal => '(_, s) ← getLocalAddress s; mret s
  | SRemote => '(_, s) ← getRemoteAddress s; mret s
  | SClose => '(_, s) ← close s; mret s
  end.
Fixpoint run_ops (os : list sock_op) (s : Socket) : M Socket :=
  match os with
  | [] => mret s
  | o :: os => s ← run_op o s; run_ops os s
  end.

Lemma later_run_op o s : sock_inv s → post (run_op o s) (later s).
Proof.
  intros Hi. destruct o; simpl;
    (eapply post_bind; [first [by apply later_bind|by apply later_connect|apply later_local
                              |apply later_remote|apply later_close]|]);
    intros [b s'] Hs; apply post_ret; simpl in *; tauto.
Qed.

Lemma later_run_ops os s : sock_inv s → post (run_ops os s) (later s).
Proof.
  revert s. induction os as [|o os IH]; intros s Hi; simpl; [by apply post_ret|].
  eapply post_bind; [by apply later_run_op|]. intros s' Hl.
  eapply post_weaken; [apply IH; by apply Hl|]. intros s'' Hl'. by etrans.
Qed.
End socket.

(** The life of a socket.  After any sequence of binds, connects, closes
    and address queries on a new socket, whatever the kernel answers, a
    connected socket has a descriptor; a socket that is not connected sends
    and receives nothing (-1, no request is made); and [close] leaves it
    without a descriptor and not connected, after which another [close] does
    nothing. *)
Theorem socket_lifecycle h env g stored_name fuel family type protocol os w s w1 :
  run_ops h env g stored_name os (Socket_new family type protocol) w = Ret (s, w1) →
  (m_isConnected s = true → m_socket s ≠ -1) ∧
  (m_family s, m_type s, m_protocol s) = (family, type, protocol) ∧
  (m_isConnected s = false → ∀ b n f w2,
     send env fuel b n f s w2 = Ret (-1, w2) ∧ recv env fuel b n f s w2 = Ret (-1, w2)) ∧
  (∀ r s' w2 w3, close env s w2 = Ret ((r, s'), w3) →
     m_socket s' = -1 ∧ m_isConnected s' = false ∧ ∀ w4, close env s' w4 = Ret ((true, s'), w4)).
Proof.
  intros Hrun. assert (later (Socket_new family type protocol) s) as Hl.
  { by eapply later_run_ops. }
  assert (sock_inv s) as Hi by (by apply Hl). destruct Hl as (_ & Hf & Ht & Hp & _).
  split_and!; [done|by rewrite Hf, Ht, Hp|..].
  - intros Hc b n f w2. unfold send, recv. by rewrite Hc.
  - intros r s' w2 w3 Hc. apply later_close in Hc as [_ Hc]. destruct (Hc Hi) as [H1 H2].
    simpl in H1, H2. split_and!; [done..|]. intros w4. unfold close. by rewrite H1, H2.
Qed.

(** The addresses of a socket are never refreshed.  Once [s] knows its
    remote address, it reports that address after any sequence of methods,
    also when it was closed and connected to another peer in between. *)
Theorem remote_address_stale h env g stored_name s a os w s' w1 :
  sock_inv s → m_remoteAddress s = Some a →
  run_ops h env g stored_name os s w = Ret (s', w1) →
  ∀ w2, getRemoteAddress h env stored_name s' w2 = Ret ((a, s'), w2).
Proof.
  intros Hi Ha Hrun w2. apply (later_run_ops h env g stored_name os s Hi) in Hrun.
  destruct Hrun as (_ & _ & _ & _ & Hr & _). apply Hr in Ha.
  unfold getRemoteAddress. by rewrite Ha.
Qed.

(** The receive timeout that a socket asks for is not the one recorded.
    [setRecvTimeout(ms)] on a hooked socket stores [ms + 999 * (ms mod 1000)]
    milliseconds in the entity (the hook adds microseconds to milliseconds),
    so it is exact only for whole seconds: 1500 ms become 501 seconds. *)
Theorem recv_timeout_recorded env s p e w ms :
  0 <= ms < 2 ^ 31 → t_enable_hook w = true →
  fd_get env (m_socket s) false w = Ret (Some p, w) → f_heap (w_fds w) !! p = Some e →
  ∃ w', setRecvTimeout env ms s w = Ret (tt, w') ∧
    f_heap (w_fds w') !! p = Some (FdManager.setRecvTimeout (ms + 999 * (ms mod 1000)) e) ∧
    m_recvTimeout (FdManager.setRecvTimeout (ms + 999 * (ms mod 1000)) e) =
      ms + 999 * (ms mod 1000) ∧
    (m_recvTimeout (FdManager.setRecvTimeout (ms + 999 * (ms mod 1000)) e) = ms ↔ ms mod 1000 = 0).
Proof.
  intros Hms Hon Hget He.
  pose proof (Z.mod_pos_bound ms 1000 ltac:(lia)) as Hr.
  pose proof (Z.div_mod ms 1000 ltac:(lia)) as Hd.
  assert (s64 (nth 0 (timeval_of ms) 0 * 1000 + nth 1 (timeval_of ms) 0) =
    ms + 999 * (ms mod 1000)) as Hv.
  { unfold timeval_of. cbn [nth]. rewrite Z.quot_div_nonneg, Z.rem_mod_nonneg by lia.
    rewrite (s32_small (ms / 1000)) by lia. rewrite s32_small by lia. rewrite s64_small; lia. }
  unfold setRecvTimeout, setOption, setsockopt, mbind, M_bind, isEnableHook. rewrite Hon.
  cbn [negb]. change (SOL_SOCKET =? SOL_SOCKET) with true. cbv beta iota. rewrite Hget, Hv.
  change (SO_RCVTIMEO =? SO_RCVTIMEO) with true. cbv beta iota. unfold upd_entity, sys.
  destruct (env _ _) as [v er]. eexists. split; [done|].
  simpl. rewrite lookup_alter_eq, He. rewrite u64_small by lia.
  split_and!; try done; lia.
Qed.

(** Looking a descriptor up does not depend on the entities. *)
Lemma fd_get_update env fd p w q f :
  fd_get env fd false w = Ret (Some p, w) →
  fd_get env fd false (with_fds (update q f (w_fds w)) w) =
    Ret (Some p, with_fds (update q f (w_fds w)) w).
Proof.
  unfold fd_get, get. cbn [mbind res_bind negb]. simpl (m_data _).
  destruct (_ <=? fd); [done|]. unfold slot. simpl (m_data _).
  destruct (fd <? 0); [done|]. destruct (deref _ _) as [[p'|]| | | |]; try done.
  by intros [= ->].
Qed.

(** A hooked connect whose timer, the longest there is, fires while it waits. *)
Lemma hook_connect_waits env g fd addr len p e w :
  t_enable_hook w = true → w_iom w = true →
  fd_get env fd false w = Ret (Some p, w) → f_heap (w_fds w) !! p = Some e →
  m_isClosed e = false → m_isSocket e = true → m_isUserNonblock e = false →
  FdManager.getConnectTimeout g e = 2 ^ 64 - 1 →
  let K := Kernel "connect" [fd; addr; len] in
  let t := AddEvent fd EV_WRITE :: AddCondTimer (2 ^ 64 - 1) :: K :: w_trace w in
  env (w_trace w) K = (-1, EINPROGRESS) →
  fst (env (AddCondTimer (2 ^ 64 - 1) :: K :: w_trace w) (AddEvent fd EV_WRITE)) = ADD_EVENT_SUC →
  fst (env t CoYield) ≠ 0 →
  ∃ w', w_trace w' = CancelTimer :: CoYield :: t ∧ w_errno w' = ETIMEDOUT ∧
    Hook.connect env g fd addr len w = Ret (-1, w').
Proof.
  intros Hon Hiom Hget He Hcl Hso Hus Hg K t HK Hadd Hfired.
  unfold Hook.connect, mbind at 1, M_bind at 1, isEnableHook. rewrite Hon. cbn [negb].
  unfold mbind at 1, M_bind at 1. rewrite Hget. cbv beta iota.
  unfold mbind at 1, M_bind at 1. unfold entity. rewrite He. cbn [deref mbind res_bind].
  rewrite Hcl, Hso, Hus, Hg. cbn [negb].
  destruct (sys_spec env K w) as (w0 & E0 & Ht0 & Hi0 & _ & He0). fold K. rewrite E0.
  rewrite get_errno_bind, He0, HK. cbn [fst snd]. change (-1 =? 0) with false.
  change (negb (-1 =? -1) || negb (EINPROGRESS =? EINPROGRESS)) with false. cbv iota.
  rewrite need_iom_true by congruence.
  destruct (when_do env (0 <? 2 ^ 64 - 1) (AddCondTimer (2 ^ 64 - 1)) w0) as (w1 & E1 & Ht1 & Hi1).
  rewrite E1. destruct (sys_spec env (AddEvent fd EV_WRITE) w1) as (w2 & E2 & Ht2 & Hi2 & _).
  rewrite Ht1, Ht0 in E2, Ht2. change (if 0 <? 2 ^ 64 - 1 then _ else _) with
    [AddCondTimer (2 ^ 64 - 1)] in E2, Ht2. cbn [app] in E2, Ht2.
  rewrite E2, Hadd, Z.eqb_refl. cbv iota.
  destruct (sys_spec env CoYield w2) as (w3 & E3 & Ht3 & Hi3 & _). rewrite Ht2 in E3, Ht3.
  rewrite E3. fold t. rewrite (proj2 (Z.eqb_neq _ _) Hfired).
  change ((0 <? 2 ^ 64 - 1) && negb false) with true. cbn [onTimeout snd]. cbv zeta.
  destruct (when_do env (0 <? 2 ^ 64 - 1) CancelTimer w3) as (w4 & E4 & Ht4 & Hi4).
  rewrite E4. exists (with_errno ETIMEDOUT w4). split; [|done]. simpl. rewrite Ht4, Ht3. done.
Qed.

(** A connect with the default timeout is cancelled at once.  When the
    kernel cannot finish the connect immediately, [Socket::connect] with its
    default timeout (-1, which is 2^64 - 1 ms) arms a timer of that length;
    the deadline of such a timer wraps to one millisecond before now, so it is
    due already ([listExpiredCbs] delivers what is not later than now), and
    when it fires during the wait the connect fails with ETIMEDOUT and the
    socket is closed. *)
Theorem connect_default_timeout h env g stored_name s a p e w :
  t_enable_hook w = true → w_iom w = true → isValid s = true →
  fd_get env (m_socket s) false w = Ret (Some p, w) → f_heap (w_fds w) !! p = Some e →
  m_isClosed e = false → m_isSocket e = true → m_isUserNonblock e = false →
  let K := Kernel "connect" [m_socket s; addr_arg h a; getAddrLen a] in
  let t := AddEvent (m_socket s) EV_WRITE :: AddCondTimer (2 ^ 64 - 1) :: K :: w_trace w in
  env (w_trace w) K = (-1, EINPROGRESS) →
  fst (env (AddCondTimer (2 ^ 64 - 1) :: K :: w_trace w) (AddEvent (m_socket s) EV_WRITE)) =
    ADD_EVENT_SUC →
  fst (env t CoYield) ≠ 0 →
  (∃ w1, w_errno w1 = ETIMEDOUT ∧ w_trace w1 = CancelTimer :: CoYield :: t ∧
     connect h env g stored_name a default_timeout s w =
       ('(_, s) ← close env s; mret (false, s)) w1) ∧
  (∀ now cb rec, 0 < now < 2 ^ 63 →
     Timer.m_next (Timer.Timer_new now (2 ^ 64 - 1) cb rec) = now - 1).
Proof.
  intros Hon Hiom Hval Hget He Hcl Hso Hus K t HK Hadd Hfired. split.
  - pose proof (fd_get_update env (m_socket s) p w p (setConnectTimeout default_timeout) Hget) as Hget'.
    set (w1 := with_fds _ w) in Hget'.
    assert (f_heap (w_fds w1) !! p = Some (setConnectTimeout default_timeout e)) as He1.
    { unfold w1. simpl. by rewrite lookup_alter_eq, He. }
    destruct (hook_connect_waits env g (m_socket s) (addr_arg h a) (getAddrLen a) p _ w1
      Hon Hiom Hget' He1 Hcl Hso Hus eq_refl HK Hadd Hfired) as (w2 & Ht2 & Her2 & E2).
    exists w2. split; [done|]. split; [done|].
    unfold connect, ensure_socket. rewrite Hval. unfold mbind at 1 2 3, M_bind at 1 2 3. cbn [negb mret M_ret].
    rewrite Hget. unfold upd_entity. fold w1. unfold mbind at 1, M_bind at 1. by rewrite E2.
  - intros now cb rec Hnow. unfold Timer.Timer_new. cbn [Timer.m_next].
    unfold u64. replace (now + (2 ^ 64 - 1)) with (now - 1 + 1 * 2 ^ 64) by lia.
    rewrite Z.mod_add, Z.mod_small by lia. done.
Qed.

(** ** Concrete runs *)

(** Like [demo_env], but [connect] is in progress and the timer fires. *)
Definition slow_env (h : list Call) (c : Call) : Z * Z :=
  match c with
  | Kernel name _ =>
    if decide (name = "connect") then (-1, EINPROGRESS) else demo_env h c
  | CoYield => (1, 0)
  | _ => demo_env h c
  end.
Definition demo_addr (port : Z) : Address := IpV4Address_new HostLittle 2130706433 port.
Definition demo_name (_ : list Call) (_ : Call) : list byte * Z :=
  (getAddr HostLittle (demo_addr 80), 16).
Definition demo_sock : Socket := with_socket 4 (Socket_new AF_INET SOCK_STREAM 0).
Definition connected_sock : Socket :=
  with_remote (Some (demo_addr 22)) (with_flags true false demo_sock).

Example socket_lifecycle_witness :
  ∃ s w1, run_ops HostLittle demo_env 0 demo_name [SConnect (demo_addr 80) 1000; SClose]
            (Socket_new AF_INET SOCK_STREAM 0) demo_world = Ret (s, w1) ∧
    (m_isConnected s = true → m_socket s ≠ -1) ∧
    (m_family s, m_type s, m_protocol s) = (AF_INET, SOCK_STREAM, 0) ∧
    (m_isConnected s = false → ∀ b n f w2,
       send demo_env 3 b n f s w2 = Ret (-1, w2) ∧ recv demo_env 3 b n f s w2 = Ret (-1, w2)) ∧
    (∀ r s' w2 w3, close demo_env s w2 = Ret ((r, s'), w3) →
       m_socket s' = -1 ∧ m_isConnected s' = false ∧
       ∀ w4, close demo_env s' w4 = Ret ((true, s'), w4)).
Proof.
  eexists _, _. split; [vm_compute; reflexivity|].
  eapply (socket_lifecycle HostLittle demo_env 0 demo_name 3 AF_INET SOCK_STREAM 0
    [SConnect (demo_addr 80) 1000; SClose] demo_world). vm_compute. reflexivity.
Defined.

Example remote_address_stale_witness :
  ∃ s' w1, run_ops HostLittle demo_env 0 demo_name [SClose; SConnect (demo_addr 80) 1000]
             connected_sock demo_socket = Ret (s', w1) ∧
    ∀ w2, getRemoteAddress HostLittle demo_env demo_name s' w2 = Ret ((demo_addr 22, s'), w2).
Proof.
  eexists _, _. split; [vm_compute; reflexivity|].
  eapply (remote_address_stale HostLittle demo_env 0 demo_name connected_sock (demo_addr 22)
    [SClose; SConnect (demo_addr 80) 1000] demo_socket);
    [intros _; discriminate|reflexivity|vm_compute; reflexivity].
Defined.

Definition demo_entity : FdEntity :=
  fst (FdEntity_new (k_fstat demo_env demo_world) (k_getfl demo_env demo_world) 4).

Example recv_timeout_recorded_witness :
  0 <= 1500 < 2 ^ 31 ∧
  ∃ w', setRecvTimeout demo_env 1500 demo_sock demo_socket = Ret (tt, w') ∧
    f_heap (w_fds w') !! 0 =
      Some (FdManager.setRecvTimeout (1500 + 999 * (1500 mod 1000)) demo_entity) ∧
    m_recvTimeout (FdManager.setRecvTimeout (1500 + 999 * (1500 mod 1000)) demo_entity) =
      1500 + 999 * (1500 mod 1000) ∧
    (m_recvTimeout (FdManager.setRecvTimeout (1500 + 999 * (1500 mod 1000)) demo_entity) = 1500 ↔
     1500 mod 1000 = 0).
Proof.
  split; [lia|]. apply (recv_timeout_recorded demo_env demo_sock 0 demo_entity);
    [lia|reflexivity|vm_compute; reflexivity|vm_compute; reflexivity].
Defined.

Example connect_default_timeout_witness :
  (∃ w1, w_errno w1 = ETIMEDOUT ∧
     w_trace w1 = [CancelTimer; CoYield; AddEvent 4 EV_WRITE; AddCondTimer (2 ^ 64 - 1);
       Kernel "connect" [4; addr_arg HostLittle (demo_addr 80); 16]] ++ w_trace demo_socket ∧
     connect HostLittle slow_env 0 demo_name (demo_addr 80) default_timeout demo_sock demo_socket =
       ('(_, s) ← close slow_env demo_sock; mret (false, s)) w1) ∧
  (∀ now cb rec, 0 < now < 2 ^ 63 →
     Timer.m_next (Timer.Timer_new now (2 ^ 64 - 1) cb rec) = now - 1).
Proof.
  apply (connect_default_timeout HostLittle slow_env 0 demo_name demo_sock (demo_addr 80) 0 demo_entity
    demo_socket); try reflexivity; try (vm_compute; reflexivity). vm_compute. discriminate.
Defined.
