(* ===== verification/Stream.v ===== *)
(** * Streams: src/src/stream.h, src/src/stream.cpp, src/src/stream/socket_stream.h, src/src/stream/socket_stream.cpp

    [Stream] is an interface: [StreamOps] is the class of its implementations
    and [StreamLaws] what the fixed-length loops rely on.  The loops are
    proved against the interface; [SocketStream] implements it over a
    [Transport], the part of [Socket] it uses. *)

From coqutil Require Import Byte.
From S2P Require Import Prelude Endian.
From S2P Require ByteArray.

(** [src/src/stream.h:16-32] Stream: the pure virtual methods. A read gives the [ssize_t] and the bytes it stores *)
Class StreamOps (S : Type) := {
  s_read : Z → S → res (Z * list byte * S);
  s_read_ba : ByteArray.ByteArray → Z → S → res (Z * ByteArray.ByteArray * S);
  s_write : list byte → S → res (Z * S);
  s_write_ba : ByteArray.ByteArray → Z → S → res (Z * ByteArray.ByteArray * S)
}.

(** A read gives at most what is asked for, or -1; a write takes at most what
    it is given. *)
Class StreamLaws (S : Type) `{StreamOps S} : Prop := {
  s_read_law n s r d s' : 0 <= n → s_read n s = Ret (r, d, s') →
    (r = -1 ∧ d = []) ∨ (r = zlen d ∧ zlen d <= n);
  s_write_law d s r s' : s_write d s = Ret (r, s') → r <= zlen d
}.

Section stream.
Context {S : Type} `{StreamOps S}.

(** [src/src/stream.cpp:12-24] Stream::readFixLength(buffer): the loop on [left] and [offset], then the whole *)
Fixpoint readFix_loop (fuel : nat) (buf : list byte) (left offset : Z) (s : S)
    : res (bool * list byte * S) :=
  match fuel with
  | O => OutOfFuel
  | Datatypes.S fuel =>
      if left <=? 0 then Ret (true, buf, s)
      else
        '(len, d, s) ← s_read left s;
        let buf := splice offset d buf in
        if len <? 0 then Ret (false, buf, s)
        else readFix_loop fuel buf (u64 (left - len)) (u64 (offset + len)) s
  end.
Definition readFixLength (fuel : nat) (buf : list byte) (length : Z) (s : S)
    : res (Z * list byte * S) :=
  '(ok, buf, s) ← readFix_loop fuel buf length 0 s;
  Ret (if ok : bool then length else -1, buf, s).

(** [src/src/stream.cpp:26-36] Stream::readFixLength(ByteArray) *)
Fixpoint readFixLength_ba (fuel : nat) (ba : ByteArray.ByteArray) (length left : Z) (s : S)
    : res (Z * ByteArray.ByteArray * S) :=
  match fuel with
  | O => OutOfFuel
  | Datatypes.S fuel =>
      if left <=? 0 then Ret (length, ba, s)
      else
        '(len, ba, s) ← s_read_ba ba left s;
        if len <? 0 then Ret (-1, ba, s)
        else readFixLength_ba fuel ba length (u64 (left - len)) s
  end.

(** [src/src/stream.cpp:38-50] Stream::writeFixLength(buffer) *)
Fixpoint writeFix_loop (fuel : nat) (buf : list byte) (left offset : Z) (s : S)
    : res (bool * S) :=
  match fuel with
  | O => OutOfFuel
  | Datatypes.S fuel =>
      if left <=? 0 then Ret (true, s)
      else
        '(len, s) ← s_write (slice offset left buf) s;
        if len <? 0 then Ret (false, s)
        else writeFix_loop fuel buf (u64 (left - len)) (u64 (offset + len)) s
  end.
Definition writeFixLength (fuel : nat) (buf : list byte) (length : Z) (s : S) : res (Z * S) :=
  '(ok, s) ← writeFix_loop fuel buf length 0 s;
  Ret (if ok : bool then length else -1, s).

(** [src/src/stream.cpp:52-62] Stream::writeFixLength(ByteArray) *)
Fixpoint writeFixLength_ba (fuel : nat) (ba : ByteArray.ByteArray) (length left : Z) (s : S)
    : res (Z * ByteArray.ByteArray * S) :=
  match fuel with
  | O => OutOfFuel
  | Datatypes.S fuel =>
      if left <=? 0 then Ret (length, ba, s)
      else
        '(len, ba, s) ← s_write_ba ba left s;
        if len <? 0 then Ret (-1, ba, s)
        else writeFixLength_ba fuel ba length (u64 (left - len)) s
  end.
End stream.

(** ** SocketStream *)

(** What [SocketStream] uses of its socket: [Socket::isConnected], [recv],
    [send] (of one buffer or of the buffers an iovec names) and [close]. *)
Class Transport (T : Type) := {
  t_connected : T → bool;
  t_recv : Z → T → res (Z * list byte * T);
  t_send : list byte → T → res (Z * T);
  t_close : T → res T
}.
Class TransportLaws (T : Type) `{Transport T} : Prop := {
  t_recv_law n t r d t' : 0 <= n → t_recv n t = Ret (r, d, t') →
    (r = -1 ∧ d = []) ∨ (r = zlen d ∧ zlen d <= n);
  t_send_law d t r t' : t_send d t = Ret (r, t') → r <= zlen d
}.

Section socket_stream.
Context {T : Type} `{Transport T}.
(** What fresh memory holds. *)
Context (junk : nat → byte).

(** [src/src/stream/socket_stream.h:32-34] SocketStream: the socket may be null *)
Record SocketStream := mkSocketStream { m_socket : option T; m_owner : bool }.

(** [src/src/stream/socket_stream.cpp:68-70] SocketStream::isConnected *)
Definition isConnected (s : SocketStream) : bool :=
  match m_socket s with Some t => t_connected t | None => false end.

Definition with_socket (t : T) (s : SocketStream) : SocketStream :=
  mkSocketStream (Some t) (m_owner s).

(** [src/src/stream/socket_stream.cpp:22-27] SocketStream::read(buffer) *)
Definition read (length : Z) (s : SocketStream) : res (Z * list byte * SocketStream) :=
  if negb (isConnected s) then Ret (-1, [], s)
  else
    t ← deref (m_socket s) "m_socket";
    '(rt, d, t) ← t_recv length t;
    Ret (rt, d, with_socket t s).

(** The kernel's side of an iovec: the room it offers, the bytes it names, and
    the bytes received put into it in order. *)
Definition iov_room (iovs : list ByteArray.iovec) : Z :=
  foldr (λ '(_, _, n) acc, n + acc) 0 iovs.
Fixpoint iov_gather (ba : ByteArray.ByteArray) (iovs : list ByteArray.iovec) : res (list byte) :=
  match iovs with
  | [] => Ret []
  | (node, off, n) :: iovs =>
      d ← ByteArray.memcpy_from ba node off n; ds ← iov_gather ba iovs; Ret (d ++ ds)
  end.
Fixpoint iov_scatter (ba : ByteArray.ByteArray) (iovs : list ByteArray.iovec) (d : list byte)
    : res ByteArray.ByteArray :=
  match iovs with
  | [] => Ret ba
  | (node, off, n) :: iovs =>
      ba ← ByteArray.memcpy_to ba node off (ztake n d); iov_scatter ba iovs (zdrop n d)
  end.

(** [src/src/stream/socket_stream.cpp:29-40] SocketStream::read(ByteArray). [&iovs[0]] needs an element *)
Definition read_ba (ba : ByteArray.ByteArray) (length : Z) (s : SocketStream)
    : res (Z * ByteArray.ByteArray * SocketStream) :=
  if negb (isConnected s) then Ret (-1, ba, s)
  else
    '(iovs, _, ba) ← ByteArray.getWriteBuffers junk ba length;
    _ ← deref (head iovs) "iovs[0]";
    t ← deref (m_socket s) "m_socket";
    '(rt, d, t) ← t_recv (iov_room iovs) t;
    ba ← iov_scatter ba iovs d;
    let rt := s32 rt in
    ba ← (if 0 <? rt then ByteArray.setOffset ba (u64 (ByteArray.m_offset ba + rt)) else Ret ba);
    Ret (rt, ba, with_socket t s).

(** [src/src/stream/socket_stream.cpp:42-47] SocketStream::write(buffer) *)
Definition write (buffer : list byte) (s : SocketStream) : res (Z * SocketStream) :=
  if negb (isConnected s) then Ret (-1, s)
  else
    t ← deref (m_socket s) "m_socket";
    '(rt, t) ← t_send buffer t;
    Ret (rt, with_socket t s).

(** [src/src/stream/socket_stream.cpp:49-60] SocketStream::write(ByteArray) *)
Definition write_ba (ba : ByteArray.ByteArray) (length : Z) (s : SocketStream)
    : res (Z * ByteArray.ByteArray * SocketStream) :=
  if negb (isConnected s) then Ret (-1, ba, s)
  else
    '(iovs, _) ← ByteArray.getReadBuffers ba length;
    _ ← deref (head iovs) "iovs[0]";
    t ← deref (m_socket s) "m_socket";
    d ← iov_gather ba iovs;
    '(rt, t) ← t_send d t;
    let rt := s32 rt in
    ba ← (if 0 <? rt then ByteArray.setOffset ba (u64 (ByteArray.m_offset ba + rt)) else Ret ba);
    Ret (rt, ba, with_socket t s).

(** [src/src/stream/socket_stream.cpp:62-66] SocketStream::close *)
Definition close (s : SocketStream) : res SocketStream :=
  match m_socket s with
  | Some t => t ← t_close t; Ret (with_socket t s)
  | None => Ret s
  end.

(** [src/src/stream/socket_stream.cpp:16-20] SocketStream::~SocketStream *)
Definition destroy (s : SocketStream) : res SocketStream :=
  if m_owner s then close s else Ret s.

(** [src/src/stream/socket_stream.h:15-35] SocketStream implements Stream *)
#[export] Instance SocketStream_ops : StreamOps SocketStream := {|
  s_read := read; s_read_ba := read_ba; s_write := write; s_write_ba := write_ba |}.

#[export] Instance SocketStream_laws `{!TransportLaws T} : StreamLaws SocketStream.
Proof.
  split.
  - intros n s r d s' Hn E. simpl in E. unfold read in E.
    destruct (isConnected s) eqn:Hc; simpl in E; [|injection E as <- <- <-; left; split; [lia|done]].
    destruct (m_socket s) as [t|]; [|done]. simpl in E.
    destruct (t_recv n t) as [[[rt d'] t']| | | |] eqn:Hr; try done. injection E as <- <- <-.
    by eapply t_recv_law.
  - intros d s r s' E. simpl in E. unfold write in E. pose proof (zlen_nonneg d).
    destruct (isConnected s) eqn:Hc; simpl in E; [|injection E as <- <-; lia].
    destruct (m_socket s) as [t|]; [|done]. simpl in E.
    destruct (t_send d t) as [[rt t']| | | |] eqn:Hr; try done. injection E as <- <-.
    by eapply t_send_law.
Qed.
End socket_stream.
Arguments SocketStream T : clear implicits.
