(* ===== verification/StreamProps.v ===== *)
(** * Streams: theorems on Stream.v, against the interface [StreamOps] *)

From coqutil Require Import Byte.
From S2P Require Import Prelude Endian Stream.
From S2P Require ByteArray.

Section stream.
Context {S : Type} `{StreamLaws S}.

(** Reads that gave [d], one after the other. *)
Inductive received : S → list byte → S → Prop :=
| received_nil s : received s [] s
| received_step n s r d s1 ds s2 :
    s_read n s = Ret (r, d, s1) → 0 <= r → received s1 ds s2 → received s (d ++ ds) s2.

(** Writes that took [d], one after the other: each offers the rest of [d] and more. *)
Inductive sent : S → list byte → S → Prop :=
| sent_nil s : sent s [] s
| sent_step d r s s1 ds s2 :
    s_write d s = Ret (r, s1) → 0 <= r → sent s1 ds s2 → sent s (ztake r d ++ ds) s2.

Lemma readFix_loop_spec fuel buf left offset s ok buf' s' :
  0 <= left → 0 <= offset → offset + left <= zlen buf → offset + left < 2 ^ 64 →
  readFix_loop fuel buf left offset s = Ret (ok, buf', s') →
  ∃ d s1, received s d s1 ∧ buf' = splice offset d buf ∧ zlen d <= left ∧
    if ok then zlen d = left ∧ s1 = s'
    else zlen d < left ∧ ∃ r, r < 0 ∧ s_read (left - zlen d) s1 = Ret (r, [], s').
Proof.
  revert buf left offset s. induction fuel as [|fuel IH]; intros buf left offset s Hl Ho Hb Hw E;
    [done|]. simpl in E. destruct (Z.leb_spec left 0) as [Hz|Hz].
  - injection E as <- <- <-. exists [], s. rewrite splice_nil by done. rewrite zlen_nil.
    split_and!; [constructor|done|lia|lia|done].
  - destruct (s_read left s) as [[[len d] s1]| | | |] eqn:Hr; try done. simpl in E.
    pose proof (s_read_law left _ _ _ _ Hl Hr) as Hlaw. pose proof (zlen_nonneg d).
    destruct (Z.ltb_spec len 0) as [Hneg|Hpos].
    + injection E as <- <- <-. destruct Hlaw as [[_ ->]|[-> _]]; [|lia].
      exists [], s. rewrite zlen_nil, Z.sub_0_r. split_and!; [constructor|done|lia|lia|eauto].
    + destruct Hlaw as [[? _]|[-> Hle]]; [lia|].
      rewrite !u64_small in E by lia.
      apply IH in E as (ds & s2 & Hrec & -> & Hle2 & Hok); [|lia..|rewrite zlen_splice; lia|lia].
      exists (d ++ ds), s2. rewrite zlen_app. split; [by econstructor|].
      split; [by apply splice_splice; lia|]. split; [lia|].
      destruct ok; [lia || (destruct Hok; split; [lia|done])|].
      destruct Hok as [Hlt Hex]. split; [lia|]. by replace (left - (zlen d + zlen ds)) with
        (left - zlen d - zlen ds) by lia.
Qed.

Lemma readFix_loop_total fuel buf left offset s :
  (∀ n s, 0 < n → ∃ r d s', s_read n s = Ret (r, d, s') ∧ r ≠ 0) →
  0 <= left < 2 ^ 64 → (Z.to_nat left < fuel)%nat →
  ∃ x, readFix_loop fuel buf left offset s = Ret x.
Proof.
  intros Hprog. revert buf left offset s. induction fuel as [|fuel IH]; intros buf left offset s Hl Hf;
    [lia|]. simpl. destruct (Z.leb_spec left 0) as [Hz|Hz]; [eauto|].
  destruct (Hprog left s Hz) as (r & d & s' & Hr & Hne). rewrite Hr. simpl.
  destruct (Z.ltb_spec r 0) as [Hneg|Hpos]; [eauto|].
  apply s_read_law in Hr as [[? _]|[-> Hle]]; [lia| |lia].
  apply IH; rewrite u64_small by lia; lia.
Qed.

Lemma writeFix_loop_spec fuel buf left offset s s' :
  0 <= left → 0 <= offset → offset + left <= zlen buf → offset + left < 2 ^ 64 →
  writeFix_loop fuel buf left offset s = Ret (true, s') → sent s (slice offset left buf) s'.
Proof.
  revert left offset s. induction fuel as [|fuel IH]; intros left offset s Hl Ho Hb Hw E; [done|].
  simpl in E. destruct (Z.leb_spec left 0) as [Hz|Hz].
  - injection E as <-. assert (left = 0) as -> by lia. constructor.
  - destruct (s_write _ s) as [[len s1]| | | |] eqn:Hr; try done. simpl in E.
    destruct (Z.ltb_spec len 0) as [Hneg|Hpos]; [done|].
    pose proof (s_write_law _ _ _ _ Hr) as Hle. rewrite zlen_slice in Hle by lia.
    rewrite !u64_small in E by lia. apply IH in E; [|lia..].
    replace left with (len + (left - len)) at 1 by lia. rewrite slice_app by lia.
    replace (slice offset len buf) with (ztake len (slice offset left buf)); [by econstructor|].
    unfold slice. apply ztake_ztake; lia.
Qed.
End stream.

(** Reading an exact length.  When [readFixLength] returns [length], the
    buffer starts with exactly the bytes of the reads it made, in order, and
    there are [length] of them; when it returns -1 the last read failed and
    the bytes before it, fewer than [length], are in the buffer.  It does
    return if no read gives 0. *)
Theorem readFixLength_exact {S} `{StreamLaws S} fuel buf length s :
  0 <= length <= zlen buf → length < 2 ^ 64 →
  (∀ r buf' s', readFixLength fuel buf length s = Ret (r, buf', s') →
     ∃ d s1, received s d s1 ∧ buf' = splice 0 d buf ∧
       ((r = length ∧ zlen d = length ∧ s1 = s') ∨
        (r = -1 ∧ zlen d < length ∧
         ∃ e, e < 0 ∧ s_read (length - zlen d) s1 = Ret (e, [], s')))) ∧
  ((∀ n s, 0 < n → ∃ r d s', s_read n s = Ret (r, d, s') ∧ r ≠ 0) →
   (Z.to_nat length < fuel)%nat → ∃ x, readFixLength fuel buf length s = Ret x).
Proof.
  intros Hl Hw. split.
  - intros r buf' s' E. unfold readFixLength in E.
    destruct (readFix_loop fuel buf length 0 s) as [[[ok b] s2]| | | |] eqn:El; try done.
    simpl in E. injection E as <- <- <-.
    apply readFix_loop_spec in El as (d & s1 & Hrec & -> & _ & Hok); [|lia..].
    exists d, s1. split; [done|]. split; [done|]. destruct ok; [left|right]; tauto.
  - intros Hprog Hf. unfold readFixLength.
    destruct (readFix_loop_total fuel buf length 0 s Hprog) as [[[ok b] s'] ->]; [lia|done|].
    simpl. eauto.
Qed.

(** Writing an exact length.  When [writeFixLength] returns [length] (and
    not -1), the stream took exactly the first [length] bytes of the buffer,
    in order, over as many writes as it needed. *)
Theorem writeFixLength_exact {S} `{StreamLaws S} fuel buf length s s' :
  0 <= length <= zlen buf → length < 2 ^ 64 →
  writeFixLength fuel buf length s = Ret (length, s') → sent s (ztake length buf) s'.
Proof.
  intros Hl Hw E. unfold writeFixLength in E.
  destruct (writeFix_loop fuel buf length 0 s) as [[ok s2]| | | |] eqn:El; try done.
  simpl in E. destruct ok; [|injection E; intros; lia]. injection E as <-.
  by apply writeFix_loop_spec in El; [|lia..].
Qed.

(** At the end of the stream the loop spins.  On a connection that the
    peer has closed every read gives 0 bytes; [readFixLength] of a positive
    length then never returns, whatever the fuel, and so does the version for
    a [ByteArray] (whose capacity a read may still change). *)
Theorem readFixLength_eof_spins {S} `{StreamOps S} fuel buf length s (P : ByteArray.ByteArray → Prop) :
  0 < length < 2 ^ 64 →
  s_read length s = Ret (0, [], s) →
  (∀ ba, P ba → ∃ ba', P ba' ∧ s_read_ba ba length s = Ret (0, ba', s)) →
  readFixLength fuel buf length s = OutOfFuel ∧
  (∀ ba, P ba → readFixLength_ba fuel ba length length s = OutOfFuel).
Proof.
  intros Hl Hr Hb. split.
  - unfold readFixLength. enough (∀ buf, readFix_loop fuel buf length 0 s = OutOfFuel) as -> by done.
    induction fuel as [|fuel IH]; intros b; [done|]. simpl.
    rewrite (proj2 (Z.leb_gt length 0)), Hr by lia. simpl.
    rewrite Z.sub_0_r, u64_small by lia. apply IH.
  - induction fuel as [|fuel IH]; [done|]. intros ba (ba' & HP & E)%Hb. simpl.
    rewrite (proj2 (Z.leb_gt length 0)), E by lia. simpl.
    rewrite Z.sub_0_r, u64_small by lia. by apply IH.
Qed.

(** ** A transport that plays a script: each element is what one [recv]
    delivers at most; the bytes sent are collected, three per call. *)
Record script := mkScript { sc_in : list (list byte); sc_out : list byte }.
#[export] Instance script_transport : Transport script := {|
  t_connected _ := true;
  t_recv n t :=
    match sc_in t with
    | [] => Ret (0, [], t)
    | d :: ds =>
        Ret (zlen (ztake n d), ztake n d,
             mkScript (match zdrop n d with [] => ds | r => r :: ds end) (sc_out t))
    end;
  t_send d t := Ret (zlen (ztake 3 d), mkScript (sc_in t) (sc_out t ++ ztake 3 d));
  t_close t := Ret t
|}.
#[export] Instance script_laws : TransportLaws script.
Proof.
  split; simpl.
  - intros n [ [|d ds] out] r d' t' Hn; simpl; intros [= <- <- <-]; right.
    + unfold zlen. simpl. lia.
    + split; [done|]. unfold zlen, ztake. rewrite length_take. lia.
  - intros d t r t' [= <- <-]. unfold zlen, ztake. rewrite length_take. lia.
Qed.
Definition no_junk (_ : nat) : byte := Byte.x00.
#[export] Instance script_stream : StreamOps (SocketStream script) := SocketStream_ops no_junk.
#[export] Instance script_stream_laws : StreamLaws (SocketStream script) := SocketStream_laws no_junk.

Definition five : list byte := [Byte.x01; Byte.x02; Byte.x03; Byte.x04; Byte.x05].
Definition demo_stream : SocketStream script :=
  mkSocketStream (Some (mkScript [ztake 2 five; zdrop 2 five] [])) false.
Definition ended_stream : SocketStream script := mkSocketStream (Some (mkScript [] [])) false.

Example readFixLength_exact_witness :
  (∃ s', readFixLength 9 (replicate 6 Byte.x00) 4 demo_stream =
           Ret (4, [Byte.x01; Byte.x02; Byte.x03; Byte.x04; Byte.x00; Byte.x00], s')) ∧
  (∀ r buf' s', readFixLength 9 (replicate 6 Byte.x00) 4 demo_stream = Ret (r, buf', s') →
     ∃ d s1, received demo_stream d s1 ∧ buf' = splice 0 d (replicate 6 Byte.x00) ∧
       ((r = 4 ∧ zlen d = 4 ∧ s1 = s') ∨
        (r = -1 ∧ zlen d < 4 ∧ ∃ e, e < 0 ∧ s_read (4 - zlen d) s1 = Ret (e, [], s')))).
Proof.
  split; [eexists; vm_compute; reflexivity|].
  apply (readFixLength_exact 9 (replicate 6 Byte.x00) 4 demo_stream);
    [vm_compute; split; discriminate|reflexivity].
Defined.

Example writeFixLength_exact_witness :
  ∃ s', writeFixLength 9 five 5 ended_stream = Ret (5, s') ∧ sent ended_stream (ztake 5 five) s'.
Proof.
  eexists. split; [vm_compute; reflexivity|].
  apply (writeFixLength_exact 9 five 5 ended_stream);
    [vm_compute; split; discriminate|reflexivity|vm_compute; reflexivity].
Defined.

Definition grown_ba : ByteArray.ByteArray :=
  match s_read_ba (ByteArray.ByteArray_new 8) 4 ended_stream with
  | Ret (_, ba, _) => ba
  | _ => ByteArray.ByteArray_new 8
  end.

Example readFixLength_eof_spins_witness :
  readFixLength 100 five 4 ended_stream = OutOfFuel ∧
  (∀ ba, ba = grown_ba → readFixLength_ba 100 ba 4 4 ended_stream = OutOfFuel).
Proof.
  apply (readFixLength_eof_spins 100 five 4 ended_stream (λ ba, ba = grown_ba));
    [lia|reflexivity|].
  intros ba ->. exists grown_ba. split; [reflexivity|vm_compute; reflexivity].
Defined.
