(* ===== verification/SocketTransport.v ===== *)
(** * Sockets as the transport of streams

    Stream.v proves what its loops do against the interface [Transport]; here
    [Socket] of Socket.v, whose calls are the hooked ones of Hook.v, is an
    implementation of it, for every environment that keeps the contract of the
    kernel's [recv] and [send].  So what holds of streams holds of a
    [SocketStream] over a hooked socket. *)

From Stdlib Require Import Ascii.
From coqutil Require Import Byte Word.LittleEndianList.
From S2P Require Import Prelude FdManager Hook Endian Address Stream StreamProps.
From S2P Require Socket.

(** ** The result of a hooked call *)

(** Every result of [m] is in [P]. *)
Definition gives {A} (P : A → Prop) (m : M A) : Prop := ∀ w r w', m w = Ret (r, w') → P r.

Lemma gives_ret {A} (P : A → Prop) a : P a → gives P (mret a).
Proof. by intros Ha w r w' [= <- <-]. Qed.
Lemma gives_bind {A B} (Q : A → Prop) (P : B → Prop) m f :
  gives Q m → (∀ a, Q a → gives P (f a)) → gives P (m ≫= f).
Proof.
  intros Hm Hf w r w'. unfold mbind, M_bind. destruct (m w) as [[a w1]| | | |] eqn:E; try done.
  apply Hf. by eapply Hm.
Qed.
Lemma gives_then {A B} (P : B → Prop) (m : M A) f : (∀ a, gives P (f a)) → gives P (m ≫= f).
Proof. intros Hf. apply (gives_bind (λ _, True)); [done|]. intros a _. apply Hf. Qed.
Lemma gives_none {A} (P : A → Prop) : gives P (λ _, OutOfFuel).
Proof. by intros w r w'. Qed.

Section result.
Context (env : list Call → Call → Z * Z) (P : Z → Prop).

Lemma gives_sys c : (∀ tr, P (env tr c).1) → gives P (sys env c).
Proof.
  intros Hk w r w'. unfold sys. specialize (Hk (w_trace w)). destruct (env (w_trace w) c) as [v e].
  by intros [= <- <-].
Qed.

(** What holds of -1 and of every answer of the kernel holds of the result. *)
Context (fail : P (-1)).

Lemma gives_io_loop fuel func fd args event timeout :
  (∀ tr, P (env tr (Kernel func (fd :: args))).1) →
  gives P (io_loop env fuel func fd args event timeout).
Proof using fail.
  intros Hk. induction fuel as [|fuel IH]; [apply gives_none|]. cbn [io_loop].
  apply (gives_bind P); [by apply gives_sys|]. intros n Hn. apply gives_then. intros e.
  assert (∀ n, P n → gives P ((e ← get_errno; if (n =? -1) && ((e =? EINTR) || (e =? EAGAIN))
    then io_loop env fuel func fd args event timeout else mret n) : M Z)) as Hretry.
  { intros n' Hn'. apply gives_then. intros e'. destruct (_ && _); [exact IH|by apply gives_ret]. }
  destruct (_ && _); [|by apply Hretry].
  do 3 (apply gives_then; intros ?). destruct (_ =? ADD_EVENT_SUC).
  - apply gives_then. intros fired. apply gives_then. intros _.
    match goal with |- gives _ (if ?b then _ else _) => destruct b end; [|by apply Hretry]. apply gives_then. intros _. by apply gives_ret.
  - apply gives_then. intros _. by apply gives_ret.
Qed.
Lemma gives_doSocketIo fuel func fd args event :
  (∀ tr, P (env tr (Kernel func (fd :: args))).1) →
  gives P (doSocketIo env fuel func fd args event).
Proof using fail.
  intros Hk. unfold doSocketIo. apply gives_then. intros on. destruct (negb on); [by apply gives_sys|].
  apply gives_then. intros [p|]; [|by apply gives_sys]. apply gives_then. intros e.
  destruct (m_isClosed e); [apply gives_then; intros _; by apply gives_ret|].
  destruct (_ || _); [by apply gives_sys|by apply gives_io_loop].
Qed.
End result.

(** ** The transport *)

Section transport.
Context (env : list Call → Call → Z * Z) (fuel : nat).
(** The address of the buffer of a [recv], and the bytes that a [recv] leaves
    in it, after the history and with its result. *)
Context (buffer : Z) (arrived : list Call → Z → list byte).

(** What [recv(fd, buf, n, flags)] and [send(fd, buf, n, flags)] may give. *)
Record kernel_ok : Prop := {
  recv_ok tr fd buf n flags : 0 <= n → -1 <= (env tr (Kernel "recv" [fd; buf; n; flags])).1 <= n;
  send_ok tr fd buf n flags : 0 <= n → -1 <= (env tr (Kernel "send" [fd; buf; n; flags])).1 <= n;
  arrived_ok tr n : 0 <= n → zlen (arrived tr n) = n
}.

(** A socket and the world it lives in. *)
Definition Hooked : Type := Socket.Socket * World.

(** The calls that [SocketStream] makes, [src/src/stream/socket_stream.cpp];
    the contents of a buffer that is sent stand for its address. *)
#[local] Instance hooked_transport : Transport Hooked := {|
  t_connected '(sock, _) := Socket.m_isConnected sock;
  t_recv n '(sock, w) :=
    '(r, w) ← Socket.recv env fuel buffer n 0 sock w;
    Ret (r, if 0 <? r then arrived (w_trace w) r else [], (sock, w));
  t_send d '(sock, w) :=
    '(r, w) ← Socket.send env fuel (le_combine d) (zlen d) 0 sock w;
    Ret (r, (sock, w));
  t_close '(sock, w) :=
    '(_, sock, w) ← Socket.close env sock w;
    Ret (sock, w)
|}.

Lemma hooked_laws : kernel_ok → TransportLaws Hooked.
Proof.
  intros Hk. split.
  - intros n [sock w] r d [sock' w'] Hn E. cbn [t_recv hooked_transport] in E.
    destruct (Socket.recv env fuel buffer n 0 sock w) as [[r1 w1]| | | |] eqn:Er; try done.
    injection E as <- <- <- <-.
    assert (-1 <= r1 <= n) as Hr.
    { unfold Socket.recv in Er. destruct (Socket.m_isConnected sock); [|injection Er; lia].
      revert Er. apply (gives_doSocketIo env (λ r, -1 <= r <= n)); [lia|]. intros tr. by apply recv_ok. }
    destruct (Z.ltb_spec 0 r1) as [Hp|Hp].
    + right. rewrite (arrived_ok Hk) by lia. lia.
    + destruct (decide (r1 = -1)) as [->|]; [by left|right]. assert (r1 = 0) as -> by lia. done.
  - intros d [sock w] r [sock' w'] E. cbn [t_send hooked_transport] in E. pose proof (zlen_nonneg d).
    destruct (Socket.send env fuel _ _ 0 sock w) as [[r1 w1]| | | |] eqn:Er; try done.
    injection E as <- <- <-.
    unfold Socket.send in Er. destruct (Socket.m_isConnected sock); [|injection Er; lia].
    cut (-1 <= r1 <= zlen d); [lia|]. revert Er.
    apply (gives_doSocketIo env (λ r, -1 <= r <= zlen d)); [lia|]. intros tr. by apply send_ok.
Qed.

(** The stream over such a socket. *)
Definition hooked_stream (junk : nat → byte) : StreamOps (SocketStream Hooked) := SocketStream_ops junk.
Lemma hooked_stream_laws junk : kernel_ok → @StreamLaws (SocketStream Hooked) (hooked_stream junk).
Proof. intros Hk. apply SocketStream_laws. by apply hooked_laws. Qed.

(** ** The end of the data *)

(** The hook is on, and the table knows the descriptor as a socket that is
    open and blocking for the user. *)
Definition open_socket (fd : Z) (w : World) : Prop :=
  t_enable_hook w = true ∧
  ∃ p e, (∀ st fl, FdManager.get st fl fd false (w_fds w) = Ret (Some p, None, w_fds w)) ∧
    f_heap (w_fds w) !! p = Some e ∧ m_isClosed e = false ∧ m_isSocket e = true ∧ m_isUserNonblock e = false.

Lemma open_socket_sys fd w c : open_socket fd w →
  ∃ w', sys env c w = Ret ((env (w_trace w) c).1, w') ∧ open_socket fd w' ∧ w_trace w' = c :: w_trace w.
Proof.
  intros (Hh & p & e & Hget & He & H). unfold sys. destruct (env (w_trace w) c) as [v er].
  eexists. split; [reflexivity|]. split; [|reflexivity]. split; [exact Hh|]. exists p, e.
  split; [|split; [exact He|exact H]]. intros st fl. destruct w. apply Hget.
Qed.
Lemma doSocketIo_answers n fd func args event w :
  open_socket fd w → (env (w_trace w) (Kernel func (fd :: args))).1 = n → n ≠ -1 →
  ∃ w', doSocketIo env (Datatypes.S fuel) func fd args event w = Ret (n, w') ∧ open_socket fd w' ∧
    w_trace w' = Kernel func (fd :: args) :: w_trace w.
Proof.
  intros Ho En Hn. pose proof Ho as (Hh & p & e & Hget & He & Hc & Hs & Hu).
  destruct (open_socket_sys fd w (Kernel func (fd :: args)) Ho) as (w' & E & Hw' & Ht).
  exists w'. split; [|split; [exact Hw'|exact Ht]].
  unfold doSocketIo, mbind, M_bind, isEnableHook. rewrite Hh. cbn [negb].
  assert (fd_get env fd false w = Ret (Some p, w)) as ->.
  { unfold fd_get. rewrite Hget, ret_bind. unfold with_fds. by destruct w. }
  unfold entity, deref, mbind, res_bind. rewrite He, Hc, Hs, Hu. cbn [negb orb].
  cbn [io_loop]. unfold mbind, M_bind, get_errno. rewrite E, En.
  by rewrite (proj2 (Z.eqb_neq n (-1)) Hn).
Qed.
End transport.

(** C13: fixed-length reads and writes over a hooked socket.  Whatever the
    timers, the other coroutines and the kernel do, as long as [recv] and
    [send] give -1 or at most what they are asked for: when
    [Stream::readFixLength] returns the length, the buffer starts with the
    bytes of its reads in order, exactly that many; when it returns -1 the last
    read failed (also by a time-out of the hook) and what came before is in the
    buffer; and when [writeFixLength] returns the length, the socket took
    exactly these bytes, in order. *)
Theorem hooked_fixed_length env fuel buffer arrived junk n buf length s :
  kernel_ok env arrived → 0 <= length <= zlen buf → length < 2 ^ 64 →
  let ops := hooked_stream env fuel buffer arrived junk in
  (∀ r buf' s', readFixLength (H := ops) n buf length s = Ret (r, buf', s') →
     ∃ d s1, received (H := ops) s d s1 ∧ buf' = splice 0 d buf ∧
       ((r = length ∧ zlen d = length ∧ s1 = s') ∨
        (r = -1 ∧ zlen d < length ∧
         ∃ e, e < 0 ∧ s_read (StreamOps := ops) (length - zlen d) s1 = Ret (e, [], s')))) ∧
  (∀ s', writeFixLength (H := ops) n buf length s = Ret (length, s') →
     sent (H := ops) s (ztake length buf) s').
Proof.
  intros Hk Hl Hlt ops. pose proof (hooked_stream_laws env fuel buffer arrived junk Hk) as Hlaws.
  split.
  - exact (proj1 (readFixLength_exact n buf length s Hl Hlt)).
  - intros s'. by apply (writeFixLength_exact n buf length s s').
Qed.

(** ** A concrete kernel: the first [recv] of a length has to wait, the next
    ones give three bytes at most, as [send] does. *)
Definition tcp_env (h : list Call) (c : Call) : Z * Z :=
  match c with
  | Kernel "fstat" _ => (S_IFSOCK, 0)
  | Kernel "socket" _ => (4, 0)
  | Kernel "recv" [fd; buf; n; flags] =>
      if bool_decide (c ∈ h) then (Z.min n 3, 0) else (-1, EAGAIN)
  | Kernel "send" [fd; buf; n; flags] => (Z.min n 3, 0)
  | AddEvent _ _ => (ADD_EVENT_SUC, EAGAIN)
  | Kernel _ _ => (0, 0)
  | _ => (0, EAGAIN)
  end.
Definition tcp_data (h : list Call) (n : Z) : list byte := replicate (Z.to_nat n) Byte.x61.
Definition tcp_socket (env : list Call → Call → Z * Z) : SocketStream Hooked :=
  mkSocketStream
    (Some (Socket.mkSocket 4 2 1 0 true false None None,
           match socket env 2 1 0 (mkWorld true true 0 FdManager_new []) with
           | Ret (_, w) => w
           | _ => mkWorld true true 0 FdManager_new []
           end)) true.

Lemma tcp_kernel_ok : kernel_ok tcp_env tcp_data.
Proof.
  split.
  - intros tr fd buf n flags Hn. cbn [tcp_env]. destruct (bool_decide _); simpl; lia.
  - intros tr fd buf n flags Hn. simpl. lia.
  - intros tr n Hn. unfold tcp_data, zlen. rewrite length_replicate. lia.
Qed.

Example hooked_fixed_length_witness :
  (let ops := hooked_stream tcp_env 5 0 tcp_data no_junk in
   ∃ buf s' d s1, readFixLength (H := ops) 9 five 4 (tcp_socket tcp_env) = Ret (4, buf, s') ∧
     received (H := ops) (tcp_socket tcp_env) d s1 ∧ buf = splice 0 d five) ∧
  ∃ s', writeFixLength (H := hooked_stream tcp_env 5 0 tcp_data no_junk) 9 five 5 (tcp_socket tcp_env) =
          Ret (5, s') ∧
    sent (H := hooked_stream tcp_env 5 0 tcp_data no_junk) (tcp_socket tcp_env) (ztake 5 five) s'.
Proof.
  split.
  - destruct (hooked_fixed_length tcp_env 5 0 tcp_data no_junk 9 five 4 (tcp_socket tcp_env) tcp_kernel_ok)
      as [H _]; [vm_compute; split; discriminate|reflexivity|].
    eexists _, _. edestruct H as (d & s1 & Hr & Hb & _); [vm_compute; reflexivity|].
    exists d, s1. split; [vm_compute; reflexivity|]. split; [exact Hr|exact Hb].
  - eexists. split; [vm_compute; reflexivity|].
    apply (hooked_fixed_length tcp_env 5 0 tcp_data no_junk 9 five 5 (tcp_socket tcp_env) tcp_kernel_ok);
      [vm_compute; split; discriminate|reflexivity|vm_compute; reflexivity].
Defined.
