(* ===== verification/TcpServer.v ===== *)
(** * The TCP server: src/src/tcp_server.h, src/src/tcp_server.cpp

    A [TcpServer] binds sockets, schedules an accept loop per socket on its
    accepting [IOManager] and a handler per client on its working one.  The
    two [IOManager]s are the lists of the tasks scheduled on them.  [m_isStop]
    is set by another coroutine while the accept loop is suspended:
    [stop_seen] says, for the history of requests so far, whether it is. *)

From coqutil Require Import Byte.
From S2P Require Import Prelude FdManager Hook HookProps Endian Address Socket.

Inductive Task :=
| StartAccept (sock : nat)
| StopAll
| HandleClient (client : Socket).

(** [src/src/tcp_server.h:46-51] TcpServer *)
Record TcpServer := mkTcpServer {
  m_sockets : list Socket;
  m_workerIOM : list Task;
  m_acceptIOM : list Task;
  m_rdTimeout : Z;
  m_name : string;
  m_isStop : bool
}.

(** [src/src/tcp_server.cpp:17-19] TcpServer::TcpServer *)
Definition TcpServer_new (rdTimeout : Z) (name : string) : TcpServer :=
  mkTcpServer [] [] [] rdTimeout name true.

Definition with_sockets (l : list Socket) (t : TcpServer) : TcpServer :=
  mkTcpServer l (m_workerIOM t) (m_acceptIOM t) (m_rdTimeout t) (m_name t) (m_isStop t).
Definition schedule_accept (l : list Task) (t : TcpServer) : TcpServer :=
  mkTcpServer (m_sockets t) (m_workerIOM t) (m_acceptIOM t ++ l) (m_rdTimeout t) (m_name t)
    (m_isStop t).
Definition schedule_work (l : list Task) (t : TcpServer) : TcpServer :=
  mkTcpServer (m_sockets t) (m_workerIOM t ++ l) (m_acceptIOM t) (m_rdTimeout t) (m_name t)
    (m_isStop t).
Definition with_stop (b : bool) (t : TcpServer) : TcpServer :=
  mkTcpServer (m_sockets t) (m_workerIOM t) (m_acceptIOM t) (m_rdTimeout t) (m_name t) b.

(** [src/src/tcp_server.h:34-37] getReadTimeout, setReadTimeout, getName *)
Definition setReadTimeout (v : Z) (t : TcpServer) : TcpServer :=
  mkTcpServer (m_sockets t) (m_workerIOM t) (m_acceptIOM t) (u64 v) (m_name t) (m_isStop t).
(** [src/src/tcp_server.h:38-38] TcpServer::setName *)
Definition setName (v : string) (t : TcpServer) : TcpServer :=
  mkTcpServer (m_sockets t) (m_workerIOM t) (m_acceptIOM t) (m_rdTimeout t) v (m_isStop t).

Section server.
Context (h : host_order) (env : list Call → Call → Z * Z).
Context (stored_name : list Call → Call → list byte * Z) (fuel : nat).

Definition SOMAXCONN : Z := 4096.

(** [src/src/tcp_server.cpp:35-67] TcpServer::bind(addrs, errAddrs). A socket that fails is dropped, and closed by its destructor *)
Fixpoint bind_all (addrs : list Address) (rt : bool) (errAddrs : list Address) (t : TcpServer)
    : M (bool * list Address * TcpServer) :=
  match addrs with
  | [] => mret (rt, errAddrs, t)
  | addr :: addrs =>
      let sock := CreateTCPSocket h addr in
      '(ok, sock) ← bind h env stored_name addr sock;
      if negb ok then
        '(_, _) ← close env sock;
        bind_all addrs false (errAddrs ++ [addr]) t
      else
        ok ← listen env SOMAXCONN sock;
        if negb ok then
          '(_, _) ← close env sock;
          bind_all addrs false (errAddrs ++ [addr]) t
        else bind_all addrs rt errAddrs (with_sockets (m_sockets t ++ [sock]) t)
  end.

(** [src/src/tcp_server.cpp:28-33] TcpServer::bind(addr) *)
Definition bind_one (addr : Address) (t : TcpServer) : M (bool * TcpServer) :=
  '(rt, _, t) ← bind_all [addr] true [] t; mret (rt, t).

(** [src/src/tcp_server.cpp:69-78] TcpServer::start *)
Definition start (t : TcpServer) : bool * TcpServer :=
  if negb (m_isStop t) then (true, t)
  else (true, schedule_accept (StartAccept <$> seq 0 (length (m_sockets t))) (with_stop false t)).

(** [src/src/tcp_server.cpp:80-82] TcpServer::stop: the flag, and the task it schedules *)
Definition stop (t : TcpServer) : TcpServer := schedule_accept [StopAll] (with_stop true t).

(** [src/src/tcp_server.cpp:83-90] the task of TcpServer::stop *)
Fixpoint stop_sockets (socks : list Socket) : M unit :=
  match socks with
  | [] => mret tt
  | sock :: socks =>
      _ ← cancelAll env sock;
      '(_, _) ← close env sock;
      stop_sockets socks
  end.
Definition stop_task (t : TcpServer) : M TcpServer :=
  _ ← stop_sockets (m_sockets t); mret (with_sockets [] t).

(** [src/src/tcp_server.cpp:21-26] TcpServer::~TcpServer *)
Fixpoint close_sockets (socks : list Socket) : M unit :=
  match socks with
  | [] => mret tt
  | sock :: socks => '(_, _) ← close env sock; close_sockets socks
  end.

(** Whether [m_isStop] is set when it is read after these requests. *)
Context (stop_seen : list Call → bool).
Definition read_stop : M bool := fun w => Ret (stop_seen (w_trace w), w).

(** [src/src/tcp_server.cpp:92-104] TcpServer::startAccept *)
Fixpoint startAccept (n : nat) (sock : Socket) (t : TcpServer) : M TcpServer :=
  match n with
  | O => fun _ => OutOfFuel
  | S n =>
      isStop ← read_stop;
      if (isStop : bool) then mret t
      else
        client ← accept h env stored_name fuel sock;
        match client with
        | Some client =>
            _ ← setRecvTimeout env (s64 (m_rdTimeout t)) client;
            startAccept n sock (schedule_work [HandleClient client] t)
        | None => startAccept n sock t
        end
  end.

(** ** Properties *)

(** The clients that the accepts of a loop gave, between two worlds. *)
Inductive accepts (sock : Socket) (timeout : Z) : World → list Socket → World → Prop :=
| accepts_nil w : accepts sock timeout w [] w
| accepts_some w w1 w2 w3 client cs :
    stop_seen (w_trace w) = false →
    accept h env stored_name fuel sock w = Ret (Some client, w1) →
    setRecvTimeout env timeout client w1 = Ret (tt, w2) →
    accepts sock timeout w2 cs w3 → accepts sock timeout w (client :: cs) w3
| accepts_none w w1 w2 cs :
    stop_seen (w_trace w) = false →
    accept h env stored_name fuel sock w = Ret (None, w1) →
    accepts sock timeout w1 cs w2 → accepts sock timeout w cs w2.

Lemma startAccept_spec n sock t w t' w' :
  startAccept n sock t w = Ret (t', w') →
  ∃ cs, accepts sock (s64 (m_rdTimeout t)) w cs w' ∧ stop_seen (w_trace w') = true ∧
    t' = schedule_work (HandleClient <$> cs) t.
Proof.
  revert t w. induction n as [|n IH]; intros t w E; [done|].
  cbn [startAccept] in E. apply M_bind_Ret in E as (b & w1 & Hb & E). injection Hb as <- <-.
  destruct (stop_seen (w_trace w)) eqn:Hs.
  - injection E as <- <-. exists []. split; [constructor|]. split; [done|].
    destruct t. unfold schedule_work. simpl. by rewrite app_nil_r.
  - apply M_bind_Ret in E as (c & w1 & Ha & E). destruct c as [client|].
    + apply M_bind_Ret in E as ([] & w2 & Ht & E). apply IH in E as (cs & Hcs & Hst & ->).
      exists (client :: cs). split; [by eapply accepts_some|]. split; [done|].
      unfold schedule_work. simpl. by rewrite <- app_assoc.
    + apply IH in E as (cs & Hcs & Hst & ->). exists cs.
      split; [by eapply accepts_none|]. done.
Qed.

(** What [bind_all] adds: the sockets of the addresses that worked, and the
    addresses that did not. *)
Lemma bind_all_spec addrs rt errs t w rt' errs' t' w' :
  bind_all addrs rt errs t w = Ret ((rt', errs', t'), w') →
  ∃ good bad socks, addrs ≡ₚ good ++ bad ∧ bad `sublist_of` addrs ∧
    errs' = errs ++ bad ∧ t' = with_sockets (m_sockets t ++ socks) t ∧
    length socks = length good ∧ Forall (λ s, isValid s = true) socks ∧
    rt' = rt && match bad with [] => true | _ => false end.
Proof.
  revert rt errs t w. induction addrs as [|addr addrs IH]; intros rt errs t w E.
  - injection E as <- <- <- <-. exists [], [], []. rewrite !app_nil_r, andb_true_r.
    split_and!; try done. by destruct t.
  - cbn [bind_all] in E. apply M_bind_Ret in E as ([ok sock] & w1 & Hb & E). destruct ok.
    + apply M_bind_Ret in E as (ok2 & w2 & Hl & E). destruct ok2; cbn [negb] in E.
      * apply IH in E as (good & bad & socks & Hp & Hsub & -> & -> & Hlen & Hall & ->).
        exists (addr :: good), bad, (sock :: socks). split_and!; simpl; auto.
        -- by constructor.
        -- by rewrite <- app_assoc.
        -- constructor; [|done]. unfold listen in Hl. destruct (isValid sock); [done|].
           injection Hl as Hl _. discriminate Hl.
      * apply M_bind_Ret in E as ([? ?] & w3 & _ & E).
        apply IH in E as (good & bad & socks & Hp & Hsub & -> & -> & Hlen & Hall & ->).
        exists good, (addr :: bad), socks. rewrite andb_false_r, <- app_assoc.
        split_and!; auto; [by rewrite Hp, Permutation_middle|by constructor].
    + apply M_bind_Ret in E as ([? ?] & w3 & _ & E).
      apply IH in E as (good & bad & socks & Hp & Hsub & -> & -> & Hlen & Hall & ->).
      exists good, (addr :: bad), socks. rewrite andb_false_r, <- app_assoc.
      split_and!; auto; [by rewrite Hp, Permutation_middle|by constructor].
Qed.
End server.

(** What a server serves.  [bind] splits its addresses into those that got
    a valid listening socket and those reported in [errAddrs], in order, and
    is true exactly when the latter are none; an accept loop that returns has
    seen the stop flag, and has handed every client it accepted, in order and
    once, to the workers, after setting the client's receive timeout. *)
Theorem server_accounts h env stored_name fuel stop_seen addrs t w :
  (∀ errs errs' rt t' w', bind_all h env stored_name addrs true errs t w = Ret ((rt, errs', t'), w') →
     ∃ good bad socks, addrs ≡ₚ good ++ bad ∧ bad `sublist_of` addrs ∧ errs' = errs ++ bad ∧
       m_sockets t' = m_sockets t ++ socks ∧ length socks = length good ∧
       Forall (λ s, isValid s = true) socks ∧ (rt = true ↔ bad = [])) ∧
  (∀ n sock t' w', startAccept h env stored_name fuel stop_seen n sock t w = Ret (t', w') →
     ∃ cs, accepts h env stored_name fuel stop_seen sock (s64 (m_rdTimeout t)) w cs w' ∧
       stop_seen (w_trace w') = true ∧
       m_workerIOM t' = m_workerIOM t ++ (HandleClient <$> cs)).
Proof.
  split.
  - intros errs errs' rt t' w' E.
    apply bind_all_spec in E as (good & bad & socks & ? & ? & -> & -> & ? & ? & ->).
    exists good, bad, socks. split_and!; auto; by destruct bad.
  - intros n sock t' w' E. apply startAccept_spec in E as (cs & ? & ? & ->). by exists cs.
Qed.
