(* ===== verification/Http.v ===== *)
(** * HTTP messages: src/src/http/http.h, src/src/http/http.cpp

    A text is the list of its characters.  [std::map] with the comparator
    [CaseInsensitiveLess] is the list of its entries in the order of the map
    ([hmap]).  [boost::lexical_cast] and the formatting of a time are
    parameters. *)

From stdpp Require Import pretty.
From Stdlib Require Import Ascii.
From S2P Require Import Prelude Util.

Definition txt : Type := list ascii.

(** ** Methods and status codes *)

(** [src/src/http/http.h:25-67] HTTP_METHOD_MAP: the strings, which the macro makes from tokens (so number 24 has blanks) *)
Definition s_method_string : list string :=
  ["DELETE"; "GET"; "HEAD"; "POST"; "PUT"; "CONNECT"; "OPTIONS"; "TRACE"; "COPY"; "LOCK"; "MKCOL";
   "MOVE"; "PROPFIND"; "PROPPATCH"; "SEARCH"; "UNLOCK"; "BIND"; "REBIND"; "UNBIND"; "ACL"; "REPORT";
   "MKACTIVITY"; "CHECKOUT"; "MERGE"; "M - SEARCH"; "NOTIFY"; "SUBSCRIBE"; "UNSUBSCRIBE"; "PATCH";
   "PURGE"; "MKCALENDAR"; "LINK"; "UNLINK"; "SOURCE"]%string.

(** [src/src/http/http.h:134-139] HttpMethod: the number of the enumerator *)
Definition HttpMethod : Type := Z.
Definition GET : HttpMethod := 1.
Definition INVALID_METHOD : HttpMethod := 34.

(** [src/src/http/http.h:70-129] HTTP_STATUS_MAP *)
Definition s_status : list (Z * string) :=
  [(100, "Continue"); (101, "Switching Protocols"); (102, "Processing"); (200, "OK");
   (201, "Created"); (202, "Accepted"); (203, "Non - Authoritative Information");
   (204, "No Content"); (205, "Reset Content"); (206, "Partial Content"); (207, "Multi - Status");
   (208, "Already Reported"); (226, "IM Used"); (300, "Multiple Choices");
   (301, "Moved Permanently"); (302, "Found"); (303, "See Other"); (304, "Not Modified");
   (305, "Use Proxy"); (307, "Temporary Redirect"); (308, "Permanent Redirect");
   (400, "Bad Request"); (401, "Unauthorized"); (402, "Payment Required"); (403, "Forbidden");
   (404, "Not Found"); (405, "Method Not Allowed"); (406, "Not Acceptable");
   (407, "Proxy Authentication Required"); (408, "Request Timeout"); (409, "Conflict");
   (410, "Gone"); (411, "Length Required"); (412, "Precondition Failed");
   (413, "Payload Too Large"); (414, "URI Too Long"); (415, "Unsupported Media Type");
   (416, "Range Not Satisfiable"); (417, "Expectation Failed"); (421, "Misdirected Request");
   (422, "Unprocessable Entity"); (423, "Locked"); (424, "Failed Dependency");
   (426, "Upgrade Required"); (428, "Precondition Required"); (429, "Too Many Requests");
   (431, "Request Header Fields Too Large"); (451, "Unavailable For Legal Reasons");
   (500, "Internal Server Error"); (501, "Not Implemented"); (502, "Bad Gateway");
   (503, "Service Unavailable"); (504, "Gateway Timeout"); (505, "HTTP Version Not Supported");
   (506, "Variant Also Negotiates"); (507, "Insufficient Storage"); (508, "Loop Detected");
   (510, "Not Extended"); (511, "Network Authentication Required")]%string.

(** The index of the first string of the table that [p] accepts. *)
Fixpoint first_method (p : txt → bool) (l : list string) (i : Z) : HttpMethod :=
  match l with
  | [] => INVALID_METHOD
  | s :: l => if p (chars s) then i else first_method p l (i + 1)
  end.

Definition nul : ascii := Ascii.zero.
(** [c_str()], up to the first NUL. *)
Fixpoint c_str (s : txt) : txt :=
  match s with
  | [] => []
  | c :: s => if Ascii.eqb c nul then [] else c :: c_str s
  end.

(** [src/src/http/http.cpp:15-23] StringToHttpMethod *)
Definition StringToHttpMethod (m : txt) : HttpMethod :=
  first_method (λ s, bool_decide (s = c_str m)) s_method_string 0.

(** [src/src/http/http.cpp:25-33] CharsToHttpMethod: the table's string has to be a prefix *)
Definition CharsToHttpMethod (m : txt) : HttpMethod :=
  first_method (λ s, bool_decide (s = take (length s) (c_str m))) s_method_string 0.

(** [src/src/http/http.cpp:35-46] HttpMethodToString: the test lets the size of the table pass *)
Definition HttpMethodToString (m : HttpMethod) : res txt :=
  let idx := u32 m in
  if zlen s_method_string <? idx then Ret (chars "UNKNOWN")
  else chars <$> deref (s_method_string !! Z.to_nat idx) "s_method_string".

(** [src/src/http/http.cpp:48-58] HttpStatusToString *)
Definition HttpStatusToString (s : Z) : txt :=
  match list_find (λ '(code, _), code = s) s_status with
  | Some (_, (_, msg)) => chars msg
  | None => chars "UNKNOWN"
  end.

(** ** Case-insensitive maps *)

Definition tolower (c : ascii) : ascii :=
  let z := code c in if between 65 z 90 then char_of (z + 32) else c.

(** What [strcasecmp] compares. *)
Definition folded (s : txt) : list Z := (λ c, code (tolower c)) <$> c_str s.

Fixpoint codes_lt (a b : list Z) : bool :=
  match a, b with
  | _, [] => false
  | [], _ :: _ => true
  | x :: a, y :: b => if x <? y then true else if y <? x then false else codes_lt a b
  end.

(** [strcasecmp(a, b) == 0]. *)
Definition strcaseeq (a b : txt) : bool := bool_decide (folded a = folded b).

(** [src/src/http/http.cpp:60-62] CaseInsensitiveLess::operator() *)
Definition CaseInsensitiveLess (lhs rhs : txt) : bool := codes_lt (folded lhs) (folded rhs).

Definition hmap : Type := list (txt * txt).

(** [m.find(key)], [m[key] = v], [m.insert], [m.erase(key)]: a walk along the
    order of the map. *)
Fixpoint h_find (key : txt) (m : hmap) : option txt :=
  match m with
  | [] => None
  | (k, v) :: m =>
      if CaseInsensitiveLess k key then h_find key m
      else if CaseInsensitiveLess key k then None else Some v
  end.
Fixpoint h_put (overwrite : bool) (key val : txt) (m : hmap) : hmap :=
  match m with
  | [] => [(key, val)]
  | (k, v) :: m' =>
      if CaseInsensitiveLess k key then (k, v) :: h_put overwrite key val m'
      else if CaseInsensitiveLess key k then (key, val) :: m
      else (k, if overwrite then val else v) :: m'
  end.
Fixpoint h_erase (key : txt) (m : hmap) : hmap :=
  match m with
  | [] => []
  | (k, v) :: m' =>
      if CaseInsensitiveLess k key then (k, v) :: h_erase key m'
      else if CaseInsensitiveLess key k then m else m'
  end.

Section getas.
Context {T : Type} (lexical_cast : txt → option T).

(** [src/src/http/http.h:159-176] checkGetAs: the result and [val] *)
Definition checkGetAs (m : hmap) (key : txt) (def : T) : bool * T :=
  match h_find key m with
  | None => (false, def)
  | Some s =>
      match lexical_cast s with
      | Some val => (false, val)
      | None => (false, def)
      end
  end.

(** [src/src/http/http.h:178-192] getAs *)
Definition getAs (m : hmap) (key : txt) (def : T) : T :=
  match h_find key m with
  | None => def
  | Some s => match lexical_cast s with Some v => v | None => def end
  end.
End getas.

(** ** Responses *)

(** [src/src/http/http.h:233-241] HttpResponse *)
Record HttpResponse := mkResponse {
  r_status : Z;
  r_version : Z;
  r_close : bool;
  r_websocket : bool;
  r_body : txt;
  r_reason : txt;
  r_headers : hmap;
  r_cookies : list txt
}.

(** [src/src/http/http.cpp:64-66] HttpResponse::HttpResponse *)
Definition HttpResponse_new (version : Z) (close : bool) : HttpResponse :=
  mkResponse 200 version close false [] [] [] [].

(** [src/src/http/http.h:206-212] the setters of HttpResponse *)
Definition r_setStatus (v : Z) (r : HttpResponse) : HttpResponse :=
  mkResponse v (r_version r) (r_close r) (r_websocket r) (r_body r) (r_reason r) (r_headers r) (r_cookies r).
Definition r_setClose (v : bool) (r : HttpResponse) : HttpResponse :=
  mkResponse (r_status r) (r_version r) v (r_websocket r) (r_body r) (r_reason r) (r_headers r) (r_cookies r).
Definition r_setWebsocket (v : bool) (r : HttpResponse) : HttpResponse :=
  mkResponse (r_status r) (r_version r) (r_close r) v (r_body r) (r_reason r) (r_headers r) (r_cookies r).
Definition r_setBody (v : txt) (r : HttpResponse) : HttpResponse :=
  mkResponse (r_status r) (r_version r) (r_close r) (r_websocket r) v (r_reason r) (r_headers r) (r_cookies r).
Definition r_setReason (v : txt) (r : HttpResponse) : HttpResponse :=
  mkResponse (r_status r) (r_version r) (r_close r) (r_websocket r) (r_body r) v (r_headers r) (r_cookies r).
Definition r_setHeaders (v : hmap) (r : HttpResponse) : HttpResponse :=
  mkResponse (r_status r) (r_version r) (r_close r) (r_websocket r) (r_body r) (r_reason r) v (r_cookies r).

(** [src/src/http/http.cpp:68-70] HttpResponse::delHeader *)
Definition r_delHeader (key : txt) (r : HttpResponse) : HttpResponse :=
  r_setHeaders (h_erase key (r_headers r)) r.
(** [src/src/http/http.cpp:72-74] HttpResponse::setHeader *)
Definition r_setHeader (key value : txt) (r : HttpResponse) : HttpResponse :=
  r_setHeaders (h_put true key value (r_headers r)) r.
(** [src/src/http/http.cpp:76-79] HttpResponse::setRedirect *)
Definition r_setRedirect (uri : txt) (r : HttpResponse) : HttpResponse :=
  r_setHeader (chars "Location") uri (r_setStatus 302 r).
(** [src/src/http/http.cpp:81-84] HttpResponse::getHeader *)
Definition r_getHeader (key def : txt) (r : HttpResponse) : txt :=
  default def (h_find key (r_headers r)).

Definition dec (v : Z) : txt := chars (pretty v).
Definition crlf : txt := [ascii_of_nat 13; ascii_of_nat 10].
Definition lf : txt := [ascii_of_nat 10].
Definition tab : txt := [ascii_of_nat 9].
Definition is_empty (s : txt) : bool := match s with [] => true | _ => false end.

Section setcookies.
Context (Time2Str : Z → string → txt).

(** [src/src/http/http.cpp:86-102] HttpResponse::setCookies *)
Definition r_setCookies (key val : txt) (expired : Z) (path domain : txt) (secure : bool)
    (r : HttpResponse) : HttpResponse :=
  let ss := key ++ chars "=" ++ val ++
    (if 0 <? expired
     then chars ";expires=" ++ Time2Str expired "%a, %d %b %Y %H:%M:%S"%string ++ chars " GMT" else []) ++
    (if negb (is_empty domain) then chars ";dlomain=" ++ domain else []) ++
    (if negb (is_empty path) then chars ";path=" ++ path else []) ++
    (if secure then chars ";secure" else []) in
  mkResponse (r_status r) (r_version r) (r_close r) (r_websocket r) (r_body r) (r_reason r)
    (r_headers r) (r_cookies r ++ [ss]).
End setcookies.

Definition version_txt (version : Z) : txt :=
  chars "HTTP/" ++ dec (Z.shiftr version 4) ++ chars "." ++ dec (Z.land version 15).

(** The header lines of a message: those of the map, without [connection]
    unless the message is a websocket's. *)
Definition header_line (name value : txt) : txt := name ++ chars ": " ++ value ++ crlf.
Definition kept_headers (websocket : bool) (m : hmap) : hmap :=
  filter (λ e, negb websocket && strcaseeq (fst e) (chars "connection") = false) m.
Definition connection_value (close : bool) : txt := chars (if close then "close" else "keep-alive").
Definition connection_header (websocket close : bool) : hmap :=
  if negb websocket then [(chars "connection", connection_value close)] else [].
Definition render_headers (m : hmap) : txt := concat ((λ e, header_line (fst e) (snd e)) <$> m).
(** The end of a message: the length and the body, or the empty line. *)
Definition render_body (body : txt) : txt :=
  if negb (is_empty body)
  then chars "content-length: " ++ dec (zlen body) ++ crlf ++ crlf ++ body
  else crlf.

(** [src/src/http/http.cpp:110-136] HttpResponse::dump *)
Definition r_dump (r : HttpResponse) : txt :=
  version_txt (r_version r) ++ chars " " ++ dec (u32 (r_status r)) ++ chars " " ++
  (if is_empty (r_reason r) then HttpStatusToString (r_status r) else r_reason r) ++ crlf ++
  render_headers (kept_headers (r_websocket r) (r_headers r)) ++
  concat ((λ c, chars "Set-Cookie: " ++ c ++ crlf) <$> r_cookies r) ++
  render_headers (connection_header (r_websocket r) (r_close r)) ++
  render_body (r_body r).

(** ** Requests *)

(** [src/src/http/http.h:325-337] HttpRequest *)
Record HttpRequest := mkRequest {
  q_method : HttpMethod;
  q_version : Z;
  q_close : bool;
  q_websocket : bool;
  q_parserParamFlag : Z;
  q_path : txt;
  q_query : txt;
  q_fragment : txt;
  q_body : txt;
  q_headers : hmap;
  q_params : hmap;
  q_cookies : hmap
}.

(** [src/src/http/http.cpp:138-140] HttpRequest::HttpRequest *)
Definition HttpRequest_new (version : Z) (close : bool) : HttpRequest :=
  mkRequest GET version close false 0 (chars "/") [] [] [] [] [] [].

(** [src/src/http/http.h:262-273] the setters of HttpRequest *)
Definition q_setMethod (v : HttpMethod) (q : HttpRequest) : HttpRequest :=
  mkRequest v (q_version q) (q_close q) (q_websocket q) (q_parserParamFlag q) (q_path q) (q_query q)
    (q_fragment q) (q_body q) (q_headers q) (q_params q) (q_cookies q).
Definition q_setVersion (v : Z) (q : HttpRequest) : HttpRequest :=
  mkRequest (q_method q) v (q_close q) (q_websocket q) (q_parserParamFlag q) (q_path q) (q_query q)
    (q_fragment q) (q_body q) (q_headers q) (q_params q) (q_cookies q).
Definition q_setClose (v : bool) (q : HttpRequest) : HttpRequest :=
  mkRequest (q_method q) (q_version q) v (q_websocket q) (q_parserParamFlag q) (q_path q) (q_query q)
    (q_fragment q) (q_body q) (q_headers q) (q_params q) (q_cookies q).
Definition q_setFlag (v : Z) (q : HttpRequest) : HttpRequest :=
  mkRequest (q_method q) (q_version q) (q_close q) (q_websocket q) v (q_path q) (q_query q)
    (q_fragment q) (q_body q) (q_headers q) (q_params q) (q_cookies q).
Definition q_setPath (v : txt) (q : HttpRequest) : HttpRequest :=
  mkRequest (q_method q) (q_version q) (q_close q) (q_websocket q) (q_parserParamFlag q) v (q_query q)
    (q_fragment q) (q_body q) (q_headers q) (q_params q) (q_cookies q).
Definition q_setQuery (v : txt) (q : HttpRequest) : HttpRequest :=
  mkRequest (q_method q) (q_version q) (q_close q) (q_websocket q) (q_parserParamFlag q) (q_path q) v
    (q_fragment q) (q_body q) (q_headers q) (q_params q) (q_cookies q).
Definition q_setFragment (v : txt) (q : HttpRequest) : HttpRequest :=
  mkRequest (q_method q) (q_version q) (q_close q) (q_websocket q) (q_parserParamFlag q) (q_path q)
    (q_query q) v (q_body q) (q_headers q) (q_params q) (q_cookies q).
Definition q_setBody (v : txt) (q : HttpRequest) : HttpRequest :=
  mkRequest (q_method q) (q_version q) (q_close q) (q_websocket q) (q_parserParamFlag q) (q_path q)
    (q_query q) (q_fragment q) v (q_headers q) (q_params q) (q_cookies q).
Definition q_setHeaders (v : hmap) (q : HttpRequest) : HttpRequest :=
  mkRequest (q_method q) (q_version q) (q_close q) (q_websocket q) (q_parserParamFlag q) (q_path q)
    (q_query q) (q_fragment q) (q_body q) v (q_params q) (q_cookies q).
Definition q_setParams (v : hmap) (q : HttpRequest) : HttpRequest :=
  mkRequest (q_method q) (q_version q) (q_close q) (q_websocket q) (q_parserParamFlag q) (q_path q)
    (q_query q) (q_fragment q) (q_body q) (q_headers q) v (q_cookies q).
Definition q_setCookies (v : hmap) (q : HttpRequest) : HttpRequest :=
  mkRequest (q_method q) (q_version q) (q_close q) (q_websocket q) (q_parserParamFlag q) (q_path q)
    (q_query q) (q_fragment q) (q_body q) (q_headers q) (q_params q) v.

(** [src/src/http/http.cpp:211-214] HttpRequest::getHeader *)
Definition q_getHeader (key def : txt) (q : HttpRequest) : txt := default def (h_find key (q_headers q)).
(** [src/src/http/http.cpp:216-219] HttpRequest::hasHeader *)
Definition q_hasHeader (key : txt) (q : HttpRequest) : bool := bool_decide (is_Some (h_find key (q_headers q))).
(** [src/src/http/http.cpp:221-223] HttpRequest::delHeader *)
Definition q_delHeader (key : txt) (q : HttpRequest) : HttpRequest := q_setHeaders (h_erase key (q_headers q)) q.
(** [src/src/http/http.cpp:225-227] HttpRequest::setHeader *)
Definition q_setHeader (key val : txt) (q : HttpRequest) : HttpRequest := q_setHeaders (h_put true key val (q_headers q)) q.

(** [src/src/http/http.cpp:142-151] HttpRequest::init *)
Definition q_init (q : HttpRequest) : HttpRequest :=
  let conn := q_getHeader (chars "connection") [] q in
  if negb (is_empty conn) then
    if strcaseeq conn (chars "keep-alive") then q_setClose false q else q_setClose true q
  else q.

(** [str.find(c, pos)], given as what is before the character and what is after it. *)
Fixpoint split_at (c : ascii) (s : txt) : option (txt * txt) :=
  match s with
  | [] => None
  | x :: s =>
      if Ascii.eqb x c then Some ([], s)
      else match split_at c s with Some (a, b) => Some (x :: a, b) | None => None end
  end.

Definition UrlEncode (s : txt) : txt := chars (Util.UrlEncode (str_of s) true).

(** [src/src/http/http.cpp:159-175] PARSE_PARAM on what is left of the string from [pos] on; the fuel is its length and one more *)
Fixpoint parse_param (fuel : nat) (flag : ascii) (trim : txt → txt) (str : txt) (m : hmap) : hmap :=
  match fuel with
  | O => m
  | S fuel =>
      match split_at "="%char str with
      | None => m
      | Some (key, rest) =>
          match split_at flag rest with
          | None => h_put false (trim key) (UrlEncode rest) m
          | Some (val, rest) => parse_param fuel flag trim rest (h_put false (trim key) (UrlEncode val) m)
          end
      end
  end.
Definition PARSE_PARAM (flag : ascii) (trim : txt → txt) (str : txt) (m : hmap) : hmap :=
  parse_param (S (length str)) flag trim str m.

(** [src/src/http/http.cpp:177-183] HttpRequest::initQueryParam *)
Definition initQueryParam (q : HttpRequest) : HttpRequest :=
  if negb (Z.land (q_parserParamFlag q) 1 =? 0) then q
  else
    let q := q_setParams (PARSE_PARAM "&"%char id (q_query q) (q_params q)) q in
    q_setFlag (Z.lor (q_parserParamFlag q) 1) q.

(** [strcasestr]: does the second text occur in the first? *)
Fixpoint strcasestr (s sub : txt) : bool :=
  bool_decide (folded sub = take (length (folded sub)) (folded s)) ||
  match s with
  | [] => false
  | c :: s => if Ascii.eqb c nul then false else strcasestr s sub
  end.

(** [src/src/http/http.cpp:185-196] HttpRequest::initBodyParam *)
Definition initBodyParam (q : HttpRequest) : HttpRequest :=
  if negb (Z.land (q_parserParamFlag q) 2 =? 0) then q
  else
    let contentType := q_getHeader (chars "content-type") [] q in
    if negb (strcasestr contentType (chars "application/x-www-form-urlencoded"))
    then q_setFlag (Z.lor (q_parserParamFlag q) 2) q
    else
      let q := q_setParams (PARSE_PARAM "&"%char id (q_body q) (q_params q)) q in
      q_setFlag (Z.lor (q_parserParamFlag q) 2) q.

(** The default delimiters of [StringUtils::Trim]: blank, tab, CR, LF. *)
Definition blanks : string :=
  str_of [" "%char; ascii_of_nat 9; ascii_of_nat 13; ascii_of_nat 10].

(** [src/src/http/http.cpp:198-209] HttpRequest::initCookies *)
Definition initCookies (q : HttpRequest) : HttpRequest :=
  if negb (Z.land (q_parserParamFlag q) 4 =? 0) then q
  else
    let cookie := q_getHeader (chars "cookie") [] q in
    if is_empty cookie then q_setFlag (Z.lor (q_parserParamFlag q) 4) q
    else
      let q := q_setCookies (PARSE_PARAM ";"%char (Trim blanks) cookie (q_cookies q)) q in
      q_setFlag (Z.lor (q_parserParamFlag q) 4) q.

(** [src/src/http/http.cpp:153-157] HttpRequest::initParam *)
Definition initParam (q : HttpRequest) : HttpRequest := initCookies (initBodyParam (initQueryParam q)).

(** [src/src/http/http.cpp:229-233] HttpRequest::getParams *)
Definition getParams (q : HttpRequest) : hmap * HttpRequest :=
  let q := initBodyParam (initQueryParam q) in (q_params q, q).
(** [src/src/http/http.cpp:235-240] HttpRequest::getParam *)
Definition getParam (key def : txt) (q : HttpRequest) : txt * HttpRequest :=
  let q := initBodyParam (initQueryParam q) in (default def (h_find key (q_params q)), q).
(** [src/src/http/http.cpp:242-247] HttpRequest::hasParam *)
Definition hasParam (key : txt) (q : HttpRequest) : bool * HttpRequest :=
  let q := initBodyParam (initQueryParam q) in (bool_decide (is_Some (h_find key (q_params q))), q).
(** [src/src/http/http.cpp:249-251] HttpRequest::delParam *)
Definition delParam (key : txt) (q : HttpRequest) : HttpRequest := q_setParams (h_erase key (q_params q)) q.
(** [src/src/http/http.cpp:253-255] HttpRequest::setParam *)
Definition setParam (key val : txt) (q : HttpRequest) : HttpRequest := q_setParams (h_put true key val (q_params q)) q.

(** [src/src/http/http.cpp:257-260] HttpRequest::getCookies *)
Definition getCookies (q : HttpRequest) : hmap * HttpRequest :=
  let q := initCookies q in (q_cookies q, q).
(** [src/src/http/http.cpp:262-266] HttpRequest::getCookie *)
Definition getCookie (key def : txt) (q : HttpRequest) : txt * HttpRequest :=
  let q := initCookies q in (default def (h_find key (q_cookies q)), q).
(** [src/src/http/http.cpp:268-272] HttpRequest::hasCookie *)
Definition hasCookie (key : txt) (q : HttpRequest) : bool * HttpRequest :=
  let q := initCookies q in (bool_decide (is_Some (h_find key (q_cookies q))), q).
(** [src/src/http/http.cpp:274-276] HttpRequest::delCookie *)
Definition delCookie (key : txt) (q : HttpRequest) : HttpRequest := q_setCookies (h_erase key (q_cookies q)) q.
(** [src/src/http/http.cpp:278-280] HttpRequest::setCookie *)
Definition setCookie (key val : txt) (q : HttpRequest) : HttpRequest := q_setCookies (h_put true key val (q_cookies q)) q.

(** [src/src/http/http.cpp:282-309] HttpRequest::dump *)
Definition q_dump (q : HttpRequest) : res txt :=
  method ← HttpMethodToString (q_method q);
  Ret (method ++ chars " " ++ q_path q ++
    (if is_empty (q_query q) then [] else chars "?") ++ q_query q ++
    (if is_empty (q_fragment q) then [] else chars "#") ++ q_fragment q ++
    chars " " ++ version_txt (q_version q) ++ crlf ++
    render_headers (connection_header (q_websocket q) (q_close q)) ++
    render_headers (kept_headers (q_websocket q) (q_headers q)) ++
    (if 0 <? zlen (q_cookies q)
     then chars "Set-Cookie: " ++ lf ++
          concat ((λ e, tab ++ fst e ++ chars ":" ++ snd e ++ lf) <$> q_cookies q)
     else []) ++
    render_body (q_body q)).

(** [src/src/http/http.cpp:104-108] HttpResponse::toString (and HttpRequest's, 311-315) *)
Definition r_toString (r : HttpResponse) : txt := r_dump r.
