(* ===== verification/Ragel.v ===== *)
(** * The shape of the parsers that ragel generates

    The files http_request_parser.cpp and http_response_parser.cpp are made by
    ragel: a [switch] over the states, where the code of a state looks at the
    current character and jumps to a label, either a state ([st]) or a
    transition ([tr]), which runs actions and goes to a state.  A [part] is
    the translation of a stretch of such a file; [run] is the loop that the
    jumps make. *)

From Stdlib Require Import Ascii.
From S2P Require Import Prelude Util Http.

Inductive label := St (n : Z) | Tr (n : Z).

(** [switch (x) { case k: goto l; ... }], then what follows. *)
Fixpoint sw (x : Z) (cases : list (Z * label)) (rest : label) : label :=
  match cases with
  | [] => rest
  | (k, l) :: cases => if x =? k then l else sw x cases rest
  end.

(** A stretch of the file: the code of states, as a function of the flag
    [uri_relaxed] and the character, and the actions of transitions with the
    state they go to. *)
Record part (A : Type) := mkPart {
  p_cases : list (Z * (bool → Z → label));
  p_trans : list (Z * (list A * Z))
}.
Arguments mkPart {A}.
Arguments p_cases {A}.
Arguments p_trans {A}.

(** A machine: the parts put together. *)
Record machine (A : Type) := mkMachine {
  m_cases : gmap Z (bool → Z → label);
  m_trans : gmap Z (list A * Z)
}.
Arguments mkMachine {A}.
Arguments m_cases {A}.
Arguments m_trans {A}.

Definition link {A} (parts : list (part A)) : machine A :=
  mkMachine (list_to_map (concat (p_cases <$> parts))) (list_to_map (concat (p_trans <$> parts))).

(** [char] is signed. *)
Definition schar (c : ascii) : Z := swrap 8 (code c).

(** What a character does in a state: the actions and the next state; no
    state for a value that the [switch] has no case for. *)
Definition next {A} (m : machine A) (relaxed : bool) (cs x : Z) : option (list A * Z) :=
  match m_cases m !! cs with
  | None => None
  | Some f =>
      match f relaxed x with
      | St n => Some ([], n)
      | Tr n => Some (default ([], 0) (m_trans m !! n))
      end
  end.

Section run.
(** [act a p s] is the action [a] at the position [p]; [breaks] says which
    action leaves the loop ([fbreak]). *)
Context {A S : Type} (m : machine A) (relaxed : bool) (act : A → Z → S → res S) (breaks : A → bool).

Fixpoint actions (al : list A) (p : Z) (s : S) : res S :=
  match al with
  | [] => Ret s
  | a :: al => s ← act a p s; actions al p s
  end.

(** The loop from the state [cs] at the position [p], where [rest] is what is
    left of the buffer: the final [cs] and [p].  After the [switch] stands
    [_test_eof2], which is where an unknown state goes.  State 0 is the error
    state: the position does not move. *)
Fixpoint run (rest : txt) (cs p : Z) (s : S) : res (Z * Z * S) :=
  match rest with
  | [] => Ret (cs, p, s)
  | c :: rest =>
      match next m relaxed cs (schar c) with
      | None => Ret (2, p, s)
      | Some (al, n) =>
          if n =? 0 then Ret (0, p, s)
          else
            s ← actions al p s;
            if existsb breaks al then Ret (n, p + 1, s) else run rest n (p + 1) s
      end
  end.
End run.

(** ** All characters *)

Definition all_ascii : list ascii := ascii_of_nat <$> seq 0 256.
Lemma elem_all_ascii c : c ∈ all_ascii.
Proof.
  apply list_elem_of_fmap. exists (nat_of_ascii c). rewrite ascii_nat_embedding. split; [done|].
  apply elem_of_seq. pose proof (nat_ascii_bounded c). lia.
Qed.
Lemma forall_ascii f : forallb f all_ascii = true → ∀ c, f c = true.
Proof. intros H c. rewrite forallb_forall in H. apply H, list_elem_of_In, elem_all_ascii. Qed.

(** ** Stretches of a text on which a machine runs no action *)

Section walk.
(** [walk1 s c]: the character [c] leads from [s] to a state without an
    action. *)
Context {S : Type} `{EqDecision S} (walk1 : S → ascii → option S).

Fixpoint walk (t : txt) (cs : S) : option S :=
  match t with
  | [] => Some cs
  | c :: t => match walk1 cs c with Some cs => walk t cs | None => None end
  end.

Lemma walk_app t1 t2 cs cs1 : walk t1 cs = Some cs1 → walk (t1 ++ t2) cs = walk t2 cs1.
Proof.
  revert cs. induction t1 as [|c t1 IH]; intros cs; simpl; [by intros [= ->]|].
  destruct (walk1 cs c); [apply IH|done].
Qed.

(** The states [ss] are closed under the characters that satisfy [ok]. *)
Definition closed (ok : ascii → bool) (ss : list S) : bool :=
  forallb (λ cs, forallb (λ c, negb (ok c) ||
    match walk1 cs c with Some n => bool_decide (n ∈ ss) | None => false end) all_ascii) ss.

Lemma closed_step ok ss cs c :
  closed ok ss = true → cs ∈ ss → ok c = true → ∃ n, walk1 cs c = Some n ∧ n ∈ ss.
Proof.
  unfold closed. rewrite forallb_forall. intros H Hcs Hc.
  specialize (H cs). rewrite <- list_elem_of_In in H. specialize (H Hcs).
  apply forall_ascii with (c := c) in H. cbn beta in H. rewrite Hc in H. cbn [negb orb] in H.
  destruct (walk1 cs c) as [n|]; [|done]. exists n. split; [done|]. by apply bool_decide_eq_true_1 in H.
Qed.

Lemma walk_closed ok ss t cs :
  closed ok ss = true → forallb ok t = true → cs ∈ ss → ∃ n, walk t cs = Some n ∧ n ∈ ss.
Proof.
  intros H. revert cs. induction t as [|c t IH]; intros cs Ht Hcs; simpl in *; [eauto|].
  apply andb_true_iff in Ht as [Hc Ht].
  destruct (closed_step ok ss cs c H Hcs Hc) as (n & -> & Hn). by apply IH.
Qed.

(** Texts with percent escapes. *)
Lemma percent_code c : code c = 37 → c = "%"%char.
Proof.
  intros Hc. apply (f_equal char_of) in Hc. revert Hc. unfold char_of, code.
  rewrite N2Z.id, ascii_N_embedding. by intros ->.
Qed.
Definition xdigit (c : ascii) : bool :=
  let z := code c in between 48 z 57 || between 65 z 70 || between 97 z 102.
Fixpoint escaped (ok : ascii → bool) (t : txt) : bool :=
  match t with
  | [] => true
  | c :: t' =>
      if code c =? 37
      then match t' with a :: b :: t'' => xdigit a && xdigit b && escaped ok t'' | _ => false end
      else ok c && escaped ok t'
  end.
Definition closed_escape (ss : list S) : bool :=
  forallb (λ cs, match walk1 cs "%"%char with
    | Some n => forallb (λ a, negb (xdigit a) || match walk1 n a with
        | Some n' => forallb (λ b, negb (xdigit b) || match walk1 n' b with
            | Some n => bool_decide (n ∈ ss) | None => false end) all_ascii
        | None => false end) all_ascii
    | None => false end) ss.

Lemma closed_escape_step ss cs a b :
  closed_escape ss = true → cs ∈ ss → xdigit a = true → xdigit b = true →
  ∃ n, walk ["%"%char; a; b] cs = Some n ∧ n ∈ ss.
Proof.
  unfold closed_escape. rewrite forallb_forall. intros H Hcs Ha Hb.
  specialize (H cs). rewrite <- list_elem_of_In in H. specialize (H Hcs). unfold walk.
  destruct (walk1 cs "%"%char) as [n|]; [|done].
  apply forall_ascii with (c := a) in H. cbn beta in H. rewrite Ha in H. cbn [negb orb] in H.
  destruct (walk1 n a) as [n'|]; [|done].
  apply forall_ascii with (c := b) in H. cbn beta in H. rewrite Hb in H. cbn [negb orb] in H.
  destruct (walk1 n' b) as [n''|]; [|done]. apply bool_decide_eq_true_1 in H. eauto.
Qed.

Lemma walk_escaped ok ss t cs :
  closed ok ss = true → closed_escape ss = true → escaped ok t = true → cs ∈ ss →
  ∃ n, walk t cs = Some n ∧ n ∈ ss.
Proof.
  intros H He. remember (length t) as k eqn:Hk. revert t Hk cs.
  induction (Nat.lt_wf_0 k) as [k _ IH]. intros t -> cs Ht Hcs.
  destruct t as [|c t]; [simpl; eauto|]. cbn [escaped] in Ht.
  destruct (Z.eqb_spec (code c) 37) as [Hc|Hc].
  - destruct t as [|a [|b t]]; try done. rewrite !andb_true_iff in Ht. destruct Ht as [[Ha Hb] Ht].
    apply percent_code in Hc as ->.
    destruct (closed_escape_step ss cs a b He Hcs Ha Hb) as (n & Hw & Hn).
    change ("%"%char :: a :: b :: t) with (["%"%char; a; b] ++ t). rewrite (walk_app _ _ _ _ Hw).
    apply (IH (length t)); simpl; [lia|done..].
  - apply andb_true_iff in Ht as [Hok Ht]. simpl.
    destruct (closed_step ok ss cs c H Hcs Hok) as (n & -> & Hn).
    apply (IH (length t)); simpl; [lia|done..].
Qed.
End walk.

(** The characters on which a machine runs no action. *)
Definition quiet {A} (m : machine A) (relaxed : bool) (cs : Z) (c : ascii) : option Z :=
  match next m relaxed cs (schar c) with
  | Some ([], n) => if n =? 0 then None else Some n
  | _ => None
  end.

(** ** The loop on a walk, on a step, and its invariants *)

Section run_lemmas.
Context {A S : Type} (m : machine A) (relaxed : bool) (act : A → Z → S → res S) (breaks : A → bool).
Local Notation run := (run m relaxed act breaks).

Lemma run_walk t rest cs cs' p s :
  walk (quiet m relaxed) t cs = Some cs' → run (t ++ rest) cs p s = run rest cs' (p + zlen t) s.
Proof.
  revert cs p. induction t as [|c t IH]; intros cs p; simpl.
  - intros [= ->]. by rewrite zlen_nil, Z.add_0_r.
  - unfold quiet. destruct (next m relaxed cs (schar c)) as [[[|a al] n]|]; try done.
    destruct (n =? 0); [done|]. intros Hw. simpl. rewrite (IH n (p + 1) Hw). f_equal.
    rewrite zlen_cons. lia.
Qed.

Lemma run_step c rest cs p s al n s' :
  next m relaxed cs (schar c) = Some (al, n) → n ≠ 0 → actions act al p s = Ret s' →
  run (c :: rest) cs p s =
    if existsb breaks al then Ret (n, p + 1, s') else run rest n (p + 1) s'.
Proof.
  intros Hx Hn Ha. simpl. rewrite Hx, (proj2 (Z.eqb_neq _ _) Hn), Ha. done.
Qed.

(** What every step keeps holds at the end, and the position stays inside. *)
Lemma run_inv (I : Z → Z → S → Prop) rest cs p s :
  (∀ cs p' s c al n, I cs p' s → p <= p' < p + zlen rest →
     next m relaxed cs (schar c) = Some (al, n) → n ≠ 0 →
     ∃ s', actions act al p' s = Ret s' ∧ I n (p' + 1) s') →
  I cs p s →
  ∃ cs' p' s' cs'', run rest cs p s = Ret (cs', p', s') ∧ p <= p' <= p + zlen rest ∧ I cs'' p' s'.
Proof.
  revert cs p s. induction rest as [|c rest IH]; intros cs p s Hstep HI; simpl.
  - exists cs, p, s, cs. rewrite zlen_nil. split; [done|]. split; [lia|done].
  - pose proof (zlen_nonneg rest). rewrite zlen_cons in *.
    destruct (next m relaxed cs (schar c)) as [[al n]|] eqn:Hx.
    2:{ exists 2, p, s, cs. split; [done|]. split; [lia|done]. }
    destruct (Z.eqb_spec n 0) as [->|Hn].
    { exists 0, p, s, cs. split; [done|]. split; [lia|done]. }
    destruct (Hstep cs p s c al n HI ltac:(lia) Hx Hn) as (s' & -> & HI'). simpl.
    destruct (existsb breaks al).
    { exists n, (p + 1), s', n. split; [done|]. split; [lia|done]. }
    destruct (IH n (p + 1) s') as (cs' & p' & s'' & cs'' & Hr & Hp & HI''); [|done|].
    + intros ? ? ? ? ? ? ? ?. apply Hstep; [done|lia].
    + exists cs', p', s'', cs''. split; [done|]. split; [lia|done].
Qed.
End run_lemmas.
