(* ===== verification/Explore.v ===== *)
(** * Exploring an automaton together with an expression

    Pairs of a state of an automaton and an expression [X] of what is still
    to come are explored from a first pair until no new one turns up; every
    pair is checked against every character.  Regex.v uses it with regular
    expressions, Embed.v with grammars that have actions. *)

From Stdlib Require Import Ascii.
From S2P Require Import Prelude Util Http Ragel.

(** A set of characters, as ranges of codes. *)
Definition cset := list (Z * Z).
Definition inset (l : cset) (c : ascii) : bool :=
  let z := code c in existsb (λ r, between (fst r) z (snd r)) l.
Fixpoint cset_eqb (l1 l2 : cset) : bool :=
  match l1, l2 with
  | [], [] => true
  | (a1, b1) :: l1, (a2, b2) :: l2 => (a1 =? a2) && (b1 =? b2) && cset_eqb l1 l2
  | _, _ => false
  end.
Lemma cset_eqb_eq l1 l2 : cset_eqb l1 l2 = true → l1 = l2.
Proof.
  revert l2. induction l1 as [|[a1 b1] l1 IH]; intros [|[a2 b2] l2]; simpl; try done.
  intros [[?%Z.eqb_eq ?%Z.eqb_eq]%andb_true_iff ?%IH]%andb_true_iff. by subst.
Qed.

(** ** Characters that are not told apart *)

Fixpoint distinct (ls : list cset) : list cset :=
  match ls with
  | [] => []
  | l :: ls => let ls := distinct ls in if existsb (cset_eqb l) ls then ls else l :: ls
  end.

Definition alike (ls : list cset) (c c' : ascii) : Prop := ∀ l, l ∈ ls → inset l c = inset l c'.

Lemma alike_app l1 l2 c c' : alike (l1 ++ l2) c c' ↔ alike l1 c c' ∧ alike l2 c c'.
Proof.
  unfold alike. split.
  - intros H. split; intros l Hl; apply H, elem_of_app; tauto.
  - intros [H1 H2] l [?|?]%elem_of_app; auto.
Qed.
Lemma elem_of_distinct l ls : l ∈ ls → l ∈ distinct ls.
Proof.
  induction ls as [|l' ls IH]; simpl; [done|]. intros [->|?]%elem_of_cons.
  - destruct (existsb _ _) eqn:E; [|by left]. apply existsb_exists in E as (l & Hin & ->%cset_eqb_eq).
    by apply list_elem_of_In.
  - destruct (existsb _ _); [auto|right; auto].
Qed.

(** ** The exploration *)

Section explore.
Context {V X : Type} (veqb : V → V → bool) (xeqb : X → X → bool) (xok : X → bool)
  (heads : X → list cset)
  (* the pair of the next state and what is to come; [Some None] at a stop, [None] when they disagree *)
  (follow : V → X → ascii → option (option (Z * X)))
  (veqb_eq : ∀ v v', veqb v v' = true → v = v')
  (xeqb_eq : ∀ x x', xeqb x x' = true → x = x')
  (follow_alike : ∀ v x c c', alike (heads x) c c' → follow v x c = follow v x c')
  (step : Z → ascii → V).

Local Notation pairs := (gmap Z (list X)).
Definition at_state (s : pairs) (cs : Z) : list X := default [] (s !! cs).
Definition seen (s : pairs) (cs : Z) (r : X) : bool := existsb (xeqb r) (at_state s cs).

Definition looks (ls : list cset) (c : ascii) : list bool := (λ l, inset l c) <$> ls.
Fixpoint looks_eqb (l1 l2 : list bool) : bool :=
  match l1, l2 with
  | b1 :: l1, b2 :: l2 => eqb b1 b2 && looks_eqb l1 l2
  | _, _ => true
  end.
(** A character that the state and the expression treat as one of [reps]. *)
Definition same_char (v : V) (lk : list bool) (c' : V * list bool) : bool :=
  veqb v (fst c') && looks_eqb lk (snd c').

(** The pairs that follow a pair with the characters [t]; [reps] says how the
    state and the sets [ls], the heads of [r], see the characters that are
    done.  The new pairs are to be visited.  An expression that has the empty
    word or no word is refused. *)
Fixpoint visit (t : txt) (reps : list (V * list bool)) (ls : list cset) (cs : Z) (r : X)
    (s : pairs) (todo : list (Z * X)) : option (pairs * list (Z * X)) :=
  match t with
  | [] => Some (s, todo)
  | c :: t =>
      let v := step cs c in
      let lk := looks ls c in
      if existsb (same_char v lk) reps then visit t reps ls cs r s todo
      else
        match follow v r c with
        | None => None
        | Some None => visit t ((v, lk) :: reps) ls cs r s todo
        | Some (Some (n, d)) =>
            if seen s n d then visit t ((v, lk) :: reps) ls cs r s todo
            else if xok d
            then visit t ((v, lk) :: reps) ls cs r (<[n := d :: at_state s n]> s) ((n, d) :: todo)
            else None
        end
  end.
Fixpoint explore (chars : txt) (fuel : nat) (s : pairs) (todo : list (Z * X)) : option pairs :=
  match fuel, todo with
  | _, [] => Some s
  | O, _ => None
  | S fuel, (cs, r) :: todo =>
      match visit chars [] (distinct (heads r)) cs r s todo with
      | Some (s, todo) => explore chars fuel s todo
      | None => None
      end
  end.

Definition within (s : pairs) (cs : Z) (r : X) : Prop := r ∈ at_state s cs.
Definition follows (s : pairs) (cs : Z) (r : X) (c : ascii) : Prop :=
  match follow (step cs c) r c with
  | None => False
  | Some None => True
  | Some (Some (n, d)) => within s n d
  end.
Definition good (t : txt) (s : pairs) (cs : Z) (r : X) : Prop := ∀ c, c ∈ t → follows s cs r c.
Definition larger (s s' : pairs) : Prop := ∀ cs r, within s cs r → within s' cs r.
Definition proper (s : pairs) : Prop := ∀ cs r, within s cs r → xok r = true.

Lemma seen_within s cs r : seen s cs r = true → within s cs r.
Proof.
  unfold seen, within. rewrite existsb_exists. intros (r' & Hin & ->%xeqb_eq).
  by apply list_elem_of_In.
Qed.
Lemma within_insert s n d cs r :
  within (<[n := d :: at_state s n]> s) cs r ↔ (cs = n ∧ r = d) ∨ within s cs r.
Proof.
  unfold within, at_state. destruct (decide (cs = n)) as [->|Hne].
  - rewrite lookup_insert_eq. simpl. rewrite elem_of_cons. tauto.
  - rewrite lookup_insert_ne by done. split; [auto|]. by intros [[? _]|?].
Qed.
Lemma follows_larger s s' cs r c : larger s s' → follows s cs r c → follows s' cs r c.
Proof. unfold follows. intros H. destruct (follow _ r c) as [[[n d]|]|]; auto. Qed.

Lemma looks_alike ls c c' : looks_eqb (looks ls c) (looks ls c') = true → alike ls c c'.
Proof.
  induction ls as [|l ls IH]; cbn; [by intros _ l ?%elem_of_nil|].
  intros [H1%eqb_prop H2%IH]%andb_true_iff l' [->|?]%elem_of_cons; auto.
Qed.

Lemma follow_same v v' r ls c c' :
  (∀ l, l ∈ heads r → l ∈ ls) → same_char v (looks ls c) (v', looks ls c') = true →
  follow v r c = follow v r c' ∧ v = v'.
Proof.
  unfold same_char. cbn [fst snd]. intros Hls [->%veqb_eq Hl%looks_alike]%andb_true_iff.
  split; [|done]. apply follow_alike. intros l Hin. by apply Hl, Hls.
Qed.

(** What [reps] holds. *)
Definition done_with (reps : list (V * list bool)) (ls : list cset) (s : pairs) (cs : Z) (r : X)
    : Prop :=
  ∀ p, p ∈ reps → ∃ c, p = (step cs c, looks ls c) ∧ follows s cs r c.

Lemma visit_spec t reps ls cs r s todo s' todo' :
  (∀ l, l ∈ heads r → l ∈ ls) → done_with reps ls s cs r → proper s →
  visit t reps ls cs r s todo = Some (s', todo') →
  larger s s' ∧ proper s' ∧ good t s' cs r ∧ (∀ p, p ∈ todo → p ∈ todo') ∧
  (∀ n d, within s' n d → within s n d ∨ (n, d) ∈ todo').
Proof.
  intros Hls. revert reps s todo. induction t as [|c t IH]; intros reps s todo Hr Hp E; simpl in E.
  { injection E as <- <-. split; [by intros ? ?|]. split; [done|].
    split; [by intros c ?%elem_of_nil|]. auto. }
  assert (∀ reps0 s0 todo0, visit t reps0 ls cs r s0 todo0 = Some (s', todo') → done_with reps0 ls s0 cs r →
    proper s0 → follows s0 cs r c → larger s s0 → (∀ p, p ∈ todo → p ∈ todo0) →
    (∀ n d, within s0 n d → within s n d ∨ (n, d) ∈ todo0) →
    larger s s' ∧ proper s' ∧ good (c :: t) s' cs r ∧ (∀ p, p ∈ todo → p ∈ todo') ∧
    (∀ n d, within s' n d → within s n d ∨ (n, d) ∈ todo')) as Hnext.
  { intros reps0 s0 todo0 E0 Hr0 Hp0 Hc Hl Ht Hw. apply IH in E0 as (H1 & Hp' & H2 & H3 & H4); [|done..].
    split; [intros ? ? ?; by apply H1, Hl|]. split; [done|]. split; [|split; [by auto|]].
    - intros c' [->|?]%elem_of_cons; [by eapply follows_larger|by apply H2].
    - intros n d [?%Hw|?]%H4; [|by right]. destruct H; auto. }
  destruct (existsb _ reps) eqn:Ex.
  { apply existsb_exists in Ex as (p & Hin%list_elem_of_In & Hs). apply (Hnext _ _ _ E); auto.
    - destruct (Hr _ Hin) as (c' & -> & Hf). unfold follows.
      apply (follow_same _ _ _ _ _ _ Hls) in Hs as [-> ->]. exact Hf.
    - unfold larger. auto. }
  assert (∀ s0, larger s s0 → follows s0 cs r c →
    done_with ((step cs c, looks ls c) :: reps) ls s0 cs r) as Hadd.
  { intros s0 Hl Hc p [->|Hin]%elem_of_cons; [by exists c|]. destruct (Hr _ Hin) as (c' & -> & ?).
    exists c'. split; [done|]. by eapply follows_larger. }
  unfold follows in Hnext, Hadd. destruct (follow (step cs c) r c) as [[[n d]|]|]; [| |done].
  - destruct (seen s n d) eqn:Hs.
    + apply seen_within in Hs. apply (Hnext _ _ _ E); unfold larger; auto. apply Hadd; unfold larger; auto.
    + destruct (xok d) eqn:Ea; [|done].
      assert (larger s (<[n := d :: at_state s n]> s)) as Hl by (intros ? ? ?; apply within_insert; auto).
      apply (Hnext _ _ _ E); [apply Hadd; [done|]; apply within_insert; auto|..].
      * intros n' d' [[-> ->]|?]%within_insert; [done|by eapply Hp].
      * apply within_insert; auto.
      * done.
      * intros. apply elem_of_cons. by right.
      * intros n' d' [[-> ->]|?]%within_insert; [right; apply elem_of_cons; by left|by left].
  - apply (Hnext _ _ _ E); unfold larger; auto. apply Hadd; unfold larger; auto.
Qed.

Lemma explore_spec chars fuel s todo s' :
  explore chars fuel s todo = Some s' → proper s →
  (∀ cs r, within s cs r → (cs, r) ∈ todo ∨ good chars s cs r) →
  larger s s' ∧ proper s' ∧ ∀ cs r, within s' cs r → good chars s' cs r.
Proof.
  revert s todo. induction fuel as [|fuel IH]; intros s [|[cs r] todo] E Hp Hs; cbn [explore] in E; try done.
  - injection E as <-. split; [by intros ? ?|]. split; [done|].
    intros cs r Hw. destruct (Hs _ _ Hw) as [?%elem_of_nil|?]; done.
  - injection E as <-. split; [by intros ? ?|]. split; [done|].
    intros cs r Hw. destruct (Hs _ _ Hw) as [?%elem_of_nil|?]; done.
  - destruct (visit _ _ _ cs r s todo) as [[s1 todo1]|] eqn:Ev; [|done].
    apply visit_spec in Ev as (Hl & Hp' & Hg & Ht & Hw);
      [|intros l; apply elem_of_distinct|by intros ? ?%elem_of_nil|done].
    apply IH in E as (Hl' & Hp'' & Hc); [|done|].
    + split; [|done]. intros ? ? ?. by apply Hl', Hl.
    + intros cs' r' [Hin|?]%Hw; [|by left]. destruct (Hs _ _ Hin) as [Hd|Hg'].
      * apply elem_of_cons in Hd as [[= -> ->]|Hd]; auto.
      * right. intros c Hc. eapply follows_larger; [exact Hl|by apply Hg'].
Qed.


(** The whole check from a pair. *)
Definition explored (fuel : nat) (cs0 : Z) (r0 : X) : bool :=
  xok r0 && bool_decide (is_Some (explore all_ascii fuel {[cs0 := [r0]]} [(cs0, r0)])).

Lemma explored_spec fuel cs0 r0 :
  explored fuel cs0 r0 = true →
  ∃ s, within s cs0 r0 ∧ proper s ∧ ∀ c cs r, within s cs r → follows s cs r c.
Proof using veqb_eq xeqb_eq follow_alike.
  unfold explored. rewrite andb_true_iff. intros [Ha [s E]%bool_decide_eq_true_1].
  assert (∀ cs r, within {[cs0 := [r0]]} cs r ↔ cs = cs0 ∧ r = r0) as Hw.
  { intros cs r. unfold within, at_state. destruct (decide (cs = cs0)) as [->|Hne].
    - rewrite lookup_singleton_eq. simpl. rewrite list_elem_of_singleton. tauto.
    - rewrite lookup_singleton_ne by done. simpl. rewrite elem_of_nil. tauto. }
  apply explore_spec in E as (Hlarger & Hp & Hgood).
  - exists s. split; [apply Hlarger; by apply Hw|]. split; [done|].
    intros c cs r Hin. apply (Hgood cs r Hin c), elem_all_ascii.
  - intros cs r [-> ->]%Hw. done.
  - intros cs r [-> ->]%Hw. left. by left.
Qed.
End explore.
