(* ===== verification/Regex.v ===== *)
(** * Regular expressions and automata

    The language of a ragel grammar as a regular expression, with ragel's
    entry-guarded concatenation as a constructor, its derivatives, and a check
    that an automaton which stops at the first word of the language agrees
    with the expression: pairs of a state and a derivative are explored until
    no new one turns up. *)

From Stdlib Require Import Ascii.
From S2P Require Import Prelude Util Http Ragel Explore.

Inductive re :=
| Emp | Eps | Chr (l : cset) | Alt (a b : re) | Seq (a b : re) | Star (a : re)
| Guard (a : re) (l : cset).

#[export] Instance re_eq_dec : EqDecision re.
Proof. solve_decision. Defined.

(** [Guard a l], for [a :> b] where [l] is what [b] starts with: the words of
    [a] with no shorter word of [a] in front that a character of [l] follows. *)
Inductive stars (P : txt → Prop) : txt → Prop :=
| stars_nil : stars P []
| stars_app u v : P u → stars P v → stars P (u ++ v).
Fixpoint lang (r : re) (w : txt) : Prop :=
  match r with
  | Emp => False
  | Eps => w = []
  | Chr l => ∃ c, w = [c] ∧ inset l c = true
  | Alt a b => lang a w ∨ lang b w
  | Seq a b => ∃ u v, w = u ++ v ∧ lang a u ∧ lang b v
  | Star a => stars (lang a) w
  | Guard a l => lang a w ∧ ∀ u c v, w = u ++ c :: v → lang a u → inset l c = false
  end.

(** ** Derivatives *)

Fixpoint re_eqb (r1 r2 : re) : bool :=
  match r1, r2 with
  | Emp, Emp | Eps, Eps => true
  | Chr l1, Chr l2 => cset_eqb l1 l2
  | Alt a1 b1, Alt a2 b2 | Seq a1 b1, Seq a2 b2 => re_eqb a1 a2 && re_eqb b1 b2
  | Star a1, Star a2 => re_eqb a1 a2
  | Guard a1 l1, Guard a2 l2 => re_eqb a1 a2 && cset_eqb l1 l2
  | _, _ => false
  end.

Fixpoint nullable (r : re) : bool :=
  match r with
  | Emp | Chr _ => false
  | Eps | Star _ => true
  | Alt a b => nullable a || nullable b
  | Seq a b => nullable a && nullable b
  | Guard a _ => nullable a
  end.

(** Constructors that keep the expressions small: an alternative is a list to
    the right without repetitions, a sequence is nested to the right. *)
Fixpoint member (r s : re) : bool :=
  match s with
  | Alt a b => re_eqb r a || member r b
  | _ => re_eqb r s
  end.
Fixpoint alt (a b : re) : re :=
  match a with
  | Emp => b
  | Alt a1 a2 => alt a1 (alt a2 b)
  | _ => match b with
         | Emp => a
         | _ => if member a b then b else Alt a b
         end
  end.
Fixpoint seq (a b : re) : re :=
  match b with
  | Emp => Emp
  | _ =>
      match a with
      | Emp => Emp
      | Eps => b
      | Seq a1 a2 => seq a1 (seq a2 b)
      | _ => match b with Eps => a | _ => Seq a b end
      end
  end.
Definition guard (a : re) (l : cset) : re := match a with Emp => Emp | _ => Guard a l end.

Fixpoint deriv (r : re) (c : ascii) : re :=
  match r with
  | Emp | Eps => Emp
  | Chr l => if inset l c then Eps else Emp
  | Alt a b => alt (deriv a c) (deriv b c)
  | Seq a b => let d := seq (deriv a c) b in if nullable a then alt d (deriv b c) else d
  | Star a => seq (deriv a c) r
  | Guard a l => if nullable a && inset l c then Emp else guard (deriv a c) l
  end.

(** Is there a word? *)
Fixpoint alive (r : re) : bool :=
  match r with
  | Emp => false
  | Eps | Star _ => true
  | Chr l => existsb (λ r, (0 <=? snd r) && (fst r <=? snd r) && (fst r <=? 255)) l
  | Alt a b => alive a || alive b
  | Seq a b => alive a && alive b
  | Guard a _ => alive a
  end.

Lemma re_eqb_eq r1 r2 : re_eqb r1 r2 = true → r1 = r2.
Proof.
  revert r2. induction r1; intros []; simpl; try done; intros H;
    repeat match goal with H : _ && _ = true |- _ => apply andb_true_iff in H as [? ?] end;
    f_equal; auto using cset_eqb_eq.
Qed.

Lemma nullable_lang r : nullable r = true ↔ lang r [].
Proof.
  induction r as [| |l|a IHa b IHb|a IHa b IHb|a IHa|a IHa l]; simpl; try done.
  - split; [done|]. by intros (c & ? & _).
  - rewrite orb_true_iff. tauto.
  - rewrite andb_true_iff, IHa, IHb. split.
    + intros [? ?]. by exists [], [].
    + intros (u & v & E & ? & ?). symmetry in E. apply app_nil in E as [-> ->]. done.
  - split; [|done]. intros _. constructor.
  - rewrite IHa. split; [|tauto]. intros H. split; [done|]. intros [|? u] ? ? E; done.
Qed.

Lemma member_lang r s w : member r s = true → lang r w → lang s w.
Proof.
  induction s; simpl; intros H Hr; try (apply re_eqb_eq in H as ->; exact Hr).
  apply orb_true_iff in H as [->%re_eqb_eq|H]; auto.
Qed.
Lemma alt_one a b w :
  lang (match b with Emp => a | _ => if member a b then b else Alt a b end) w ↔ lang a w ∨ lang b w.
Proof.
  assert (lang (if member a b then b else Alt a b) w ↔ lang a w ∨ lang b w) as H.
  { destruct (member a b) eqn:E; [|done]. split; [tauto|]. intros [Ha|Hb]; [|done].
    by eapply member_lang. }
  destruct b; try exact H. simpl. tauto.
Qed.
Lemma alt_lang a b w : lang (alt a b) w ↔ lang a w ∨ lang b w.
Proof.
  revert b. induction a as [| |l|a1 IH1 a2 IH2|a1 IH1 a2 IH2|a1 IH1|a1 IH1 l]; intros b;
    try apply alt_one.
  - simpl. tauto.
  - simpl. rewrite IH1, IH2. tauto.
Qed.

Lemma Seq_assoc a b c w : lang (Seq (Seq a b) c) w ↔ lang (Seq a (Seq b c)) w.
Proof.
  simpl. split.
  - intros (u & v & -> & (u1 & u2 & -> & ? & ?) & ?). exists u1, (u2 ++ v).
    rewrite <- app_assoc. eauto 10.
  - intros (u & v & -> & ? & (v1 & v2 & -> & ? & ?)). exists (u ++ v1), v2.
    rewrite <- app_assoc. eauto 10.
Qed.
Lemma Seq_ext a a' b b' w :
  (∀ w, lang a w ↔ lang a' w) → (∀ w, lang b w ↔ lang b' w) → lang (Seq a b) w ↔ lang (Seq a' b') w.
Proof.
  intros Ha Hb. simpl. split; intros (u & v & -> & H1 & H2); exists u, v; (split; [done|]).
  - by rewrite <- Ha, <- Hb.
  - by rewrite Ha, Hb.
Qed.
Lemma Seq_Eps_l b w : lang (Seq Eps b) w ↔ lang b w.
Proof. simpl. split; [by intros (u & v & -> & -> & ?)|]. intros. by exists [], w. Qed.
Lemma Seq_Eps_r a w : lang (Seq a Eps) w ↔ lang a w.
Proof.
  simpl. split; [intros (u & v & -> & ? & ->); by rewrite app_nil_r|].
  intros. exists w, []. by rewrite app_nil_r.
Qed.
Lemma Seq_Emp_l b w : lang (Seq Emp b) w ↔ False.
Proof. simpl. split; [by intros (u & v & _ & ? & _)|done]. Qed.
Lemma Seq_Emp_r a w : lang (Seq a Emp) w ↔ False.
Proof. simpl. split; [by intros (u & v & _ & _ & ?)|done]. Qed.

Lemma seq_lang a b w : lang (seq a b) w ↔ lang (Seq a b) w.
Proof.
  revert b w. induction a as [| |l|a1 IH1 a2 IH2|a1 IH1 a2 IH2|a1 IH1|a1 IH1 l]; intros b w;
    (destruct (decide (b = Emp)) as [->|Hb]; [rewrite Seq_Emp_r; by cbn [seq]|]);
    try (destruct b; cbn [seq]; try done; by rewrite Seq_Eps_r).
  - rewrite Seq_Emp_l. by destruct b.
  - rewrite Seq_Eps_l. by destruct b.
  - rewrite Seq_assoc. transitivity (lang (seq a1 (seq a2 b)) w); [by destruct b|].
    rewrite IH1. by apply Seq_ext.
Qed.
Lemma guard_lang a l w : lang (guard a l) w ↔ lang (Guard a l) w.
Proof. destruct a; try done. simpl. tauto. Qed.

Lemma stars_cons P c w :
  stars P (c :: w) ↔ ∃ u v, w = u ++ v ∧ P (c :: u) ∧ stars P v.
Proof.
  split.
  - intros H. remember (c :: w) as cw eqn:E. revert c w E.
    induction H as [|u v Hu Hv IH]; intros c w E; [done|].
    destruct u as [|c' u]; [by apply IH|]. injection E as -> <-. eauto.
  - intros (u & v & -> & Hu & Hv). change (c :: u ++ v) with ((c :: u) ++ v). by constructor.
Qed.

(** The derivative by [c] has the words that follow [c]. *)
Lemma deriv_lang r c w : lang (deriv r c) w ↔ lang r (c :: w).
Proof.
  revert w. induction r as [| |l|a IHa b IHb|a IHa b IHb|a IHa|a IHa l]; intros w; cbn [deriv].
  - done.
  - simpl. by split.
  - destruct (inset l c) eqn:E; simpl.
    + split; [intros ->; eauto|]. by intros (c' & [= -> ->] & _).
    + split; [done|]. intros (c' & [= <- _] & ?). congruence.
  - rewrite alt_lang, IHa, IHb. done.
  - assert (lang (seq (deriv a c) b) w ↔ ∃ u v, w = u ++ v ∧ lang a (c :: u) ∧ lang b v) as Hs.
    { rewrite seq_lang. simpl. split; intros (u & v & ? & H1 & ?); exists u, v; by apply IHa in H1. }
    assert (lang (Seq a b) (c :: w) ↔ lang (seq (deriv a c) b) w ∨ nullable a = true ∧ lang b (c :: w)) as H.
    { rewrite Hs, nullable_lang. simpl. split.
      - intros ([|c' u] & v & E & Ha & Hb); [right; by simplify_eq/=|left]. injection E as <- ->. eauto 10.
      - intros [(u & v & -> & ? & ?)|[? ?]]; [by exists (c :: u), v|by exists [], (c :: w)]. }
    rewrite H. cbv zeta. destruct (nullable a).
    + rewrite alt_lang, IHb. tauto.
    + split; [tauto|]. intros [?|[? _]]; done.
  - rewrite seq_lang. cbn [lang]. rewrite stars_cons.
    split; intros (u & v & ? & H1 & ?); exists u, v; by apply IHa in H1.
  - destruct (nullable a && inset l c) eqn:E.
    + apply andb_true_iff in E as [Hn Hc]. apply nullable_lang in Hn. simpl. split; [done|].
      intros [_ H]. specialize (H [] c w eq_refl Hn). congruence.
    + rewrite guard_lang. cbn [lang]. rewrite IHa. split; intros [H1 H2]; (split; [done|]).
      * intros [|c' u] d v Eq Hu.
        -- injection Eq as <- <-. apply nullable_lang in Hu. by rewrite Hu in E.
        -- injection Eq as <- ->. apply (H2 u d v eq_refl). by apply IHa.
      * intros u d v -> Hu. apply (H2 (c :: u) d v eq_refl). by apply IHa.
Qed.

(** The language is decidable. *)
Definition matches (r : re) (w : txt) : bool := nullable (foldl deriv r w).
Lemma matches_lang r w : matches r w = true ↔ lang r w.
Proof.
  unfold matches. revert r. induction w as [|c w IH]; intros r; simpl; [apply nullable_lang|].
  by rewrite IH, deriv_lang.
Qed.
#[export] Instance lang_dec r w : Decision (lang r w).
Proof.
  refine (match matches r w as b return matches r w = b → _ with true => λ H, left _ | false => λ H, right _ end
    eq_refl); [by apply matches_lang|]. intros Hl%matches_lang. congruence.
Defined.

Lemma least (P : nat → Prop) `{∀ n, Decision (P n)} n : P n → ∃ k, P k ∧ ∀ j, (j < k)%nat → ¬ P j.
Proof.
  induction (lt_wf n) as [n _ IH]. intros Hn.
  destruct (decide (Exists P (List.seq 0 n))) as [He|He].
  - apply Exists_exists in He as (j & Hj%elem_of_seq & HP). apply (IH j); [lia|done].
  - exists n. split; [done|]. intros j Hj HP. apply He, Exists_exists. exists j.
    split; [apply elem_of_seq; lia|done].
Qed.

Lemma code_bound c : 0 <= code c <= 255.
Proof. unfold code. pose proof (N_ascii_bounded c). lia. Qed.
Lemma code_char_of z : 0 <= z <= 255 → code (char_of z) = z.
Proof. intros Hz. unfold code, char_of. rewrite N_ascii_embedding; lia. Qed.

(** A shortest word is a word of the guard. *)
Lemma alive_lang r : alive r = true → ∃ w, lang r w.
Proof.
  induction r as [| |l|a IHa b IHb|a IHa b IHb|a IHa|a IHa l]; cbn [alive lang]; try done.
  - intros _. by exists [].
  - intros (r & Hin & Hr)%existsb_exists. exists [char_of (Z.max 0 (fst r))], (char_of (Z.max 0 (fst r))). split; [done|].
    apply existsb_exists. exists r. split; [done|]. rewrite code_char_of by lia. unfold between. lia.
  - intros [[w ?]%IHa|[w ?]%IHb]%orb_true_iff; exists w; auto.
  - intros [[u ?]%IHa [v ?]%IHb]%andb_true_iff. exists (u ++ v), u, v. done.
  - intros _. exists []. constructor.
  - intros [w Hw]%IHa. destruct (least (λ n, lang a (take n w)) (length w)) as (k & Hk & Hmin).
    { by rewrite take_ge. }
    exists (take k w). split; [done|]. intros u c v E Hu. exfalso. apply (Hmin (length u)).
    + apply (f_equal length) in E. rewrite length_take, length_app in E. simpl in E. lia.
    + enough (take (length u) w = u) as -> by done.
      assert (length u <= k)%nat by (apply (f_equal length) in E; rewrite length_take, length_app in E;
        simpl in E; lia).
      transitivity (take (length u) (take k w)); [rewrite take_take; f_equal; lia|].
      by rewrite E, take_app_length.
Qed.

Lemma lang_alive r w : lang r w → alive r = true.
Proof.
  revert w. induction r as [| |l|a IHa b IHb|a IHa b IHb|a IHa|a IHa l]; intros w; cbn [alive lang]; try done.
  - intros (c & -> & Hc). unfold inset in Hc. apply existsb_exists in Hc as (r & Hin & Hr).
    apply existsb_exists. exists r. split; [done|]. unfold between in Hr. pose proof (code_bound c). lia.
  - intros [?%IHa|?%IHb]; apply orb_true_iff; auto.
  - intros (u & v & -> & ?%IHa & ?%IHb). by apply andb_true_iff.
  - intros [? _]. by eapply IHa.
Qed.

(** ** Characters that an expression does not tell apart *)

(** The sets that a first character is looked up in. *)
Fixpoint heads (r : re) : list cset :=
  match r with
  | Emp | Eps => []
  | Chr l => [l]
  | Alt a b => heads a ++ heads b
  | Seq a b => heads a ++ (if nullable a then heads b else [])
  | Star a => heads a
  | Guard a l => l :: heads a
  end.
Lemma deriv_alike r c c' : alike (heads r) c c' → deriv r c = deriv r c'.
Proof.
  induction r; cbn [heads deriv]; intros H; try done.
  - by rewrite (H l) by left.
  - apply alike_app in H as [? ?]. by rewrite IHr1, IHr2.
  - apply alike_app in H as [? H]. rewrite IHr1 by done. destruct (nullable r1); [|done].
    by rewrite IHr2.
  - by rewrite IHr.
  - rewrite IHr by (intros l' Hl; apply H; by right). by rewrite (H l) by left.
Qed.

(** ** An automaton against an expression *)

(** What a character does in a state: stop without or with success, or go on. *)
Inductive verdict := Reject | Accept | Goto (n : Z).
#[export] Instance verdict_eq_dec : EqDecision verdict.
Proof. solve_decision. Defined.

Definition verdict_eqb (v1 v2 : verdict) : bool :=
  match v1, v2 with
  | Reject, Reject | Accept, Accept => true
  | Goto n1, Goto n2 => n1 =? n2
  | _, _ => false
  end.
Lemma verdict_eqb_eq v1 v2 : verdict_eqb v1 v2 = true → v1 = v2.
Proof. destruct v1, v2; try done. by intros ->%Z.eqb_eq. Qed.

(** The pair of the next state and the derivative; [None] when they disagree. *)
Definition follow (v : verdict) (r : re) (c : ascii) : option (option (Z * re)) :=
  let d := deriv r c in
  match v with
  | Accept => if nullable d then Some None else None
  | Reject => if re_eqb d Emp then Some None else None
  | Goto n => Some (Some (n, d))
  end.

(** An expression that has the empty word or no word is refused. *)
Definition ongoing (r : re) : bool := negb (nullable r) && alive r.
Lemma follow_alike v r c c' : alike (heads r) c c' → follow v r c = follow v r c'.
Proof. intros H. unfold follow. by rewrite (deriv_alike r c c' H). Qed.

Section product.
Context (step : Z → ascii → verdict).

(** Where the automaton stops on a text, after how many characters. *)
Fixpoint scan (t : txt) (cs : Z) : verdict * nat :=
  match t with
  | [] => (Goto cs, O)
  | c :: t =>
      match step cs c with
      | Goto n => let '(v, k) := scan t n in (v, S k)
      | Accept => (Accept, 1%nat)
      | Reject => (Reject, O)
      end
  end.

(** What the check gives: from a pair, the automaton stops with success
    exactly at the first word of the expression, and without success exactly
    when no text that goes on can be one. *)
Definition stops_at (r : re) (t : txt) (o : verdict * nat) : Prop :=
  let '(v, k) := o in
  (k <= length t)%nat ∧
  match v with
  | Accept => lang r (take k t) ∧ ∀ j, (j < k)%nat → ¬ lang r (take j t)
  | Reject => (k < length t)%nat ∧ (∀ j, ¬ lang r (take j t)) ∧ (∃ w, lang r (take k t ++ w)) ∧
              ∀ w, ¬ lang r (take (S k) t ++ w)
  | Goto _ => k = length t ∧ (∀ j, ¬ lang r (take j t)) ∧ ∃ w, lang r (t ++ w)
  end.

Lemma stops_cons c r t v k :
  nullable r = false → stops_at (deriv r c) t (v, k) → stops_at r (c :: t) (v, S k).
Proof.
  intros Hn [Hk H]. assert (∀ j, (∀ j', j = S j' → ¬ lang (deriv r c) (take j' t)) →
    ¬ lang r (take j (c :: t))) as Hj.
  { intros [|j] Hj Hl; simpl in Hl; [apply nullable_lang in Hl; congruence|].
    apply (Hj j eq_refl). by apply deriv_lang. }
  split; [simpl; lia|]. destruct v.
  - destruct H as (Hlt & H1 & [w Hw] & H2). split; [simpl; lia|]. split; [|split].
    + intros j. apply Hj. intros j' ->. apply H1.
    + exists w. simpl. by apply deriv_lang.
    + intros w' Hw'. apply (H2 w'). apply deriv_lang. done.
  - destruct H as [H1 H2]. split; [simpl; by apply deriv_lang|].
    intros j Hlt. apply Hj. intros j' ->. apply H2. lia.
  - destruct H as (-> & H1 & [w Hw]). split; [done|]. split.
    + intros j. apply Hj. intros j' ->. apply H1.
    + exists w. simpl. by apply deriv_lang.
Qed.

Lemma scan_lang s :
  proper ongoing s → (∀ c cs r, within s cs r → follows follow step s cs r c) →
  ∀ t cs r, within s cs r → stops_at r t (scan t cs).
Proof.
  intros Hp Hs. induction t as [|c t IH]; intros cs r Hw;
    pose proof (Hp _ _ Hw) as [Hn%negb_true_iff Ha]%andb_true_iff; cbn [scan].
  - split; [done|]. split; [done|]. split.
    + intros j Hj. rewrite take_nil in Hj. apply nullable_lang in Hj. congruence.
    + by apply alive_lang.
  - pose proof (Hs c _ _ Hw) as Hf. unfold follows, follow in Hf.
    destruct (step cs c) as [| |n].
    + destruct (re_eqb (deriv r c) Emp) eqn:E; [|done]. apply re_eqb_eq in E.
      assert (∀ w, ¬ lang r (c :: w)) as Hno by (intros w Hw'%deriv_lang; by rewrite E in Hw').
      split; [lia|]. split; [simpl; lia|]. split; [|split].
      * intros [|j] Hj; [apply nullable_lang in Hj; congruence|by apply Hno in Hj].
      * simpl. by apply alive_lang.
      * intros w. apply Hno.
    + destruct (nullable (deriv r c)) eqn:E; [|done]. split; [simpl; lia|]. split.
      * simpl. by apply deriv_lang, nullable_lang.
      * intros [|j] Hj Hj'; [|lia]. apply nullable_lang in Hj'. congruence.
    + destruct (scan t n) as [v k] eqn:Esc. apply stops_cons; [done|].
      rewrite <- Esc. by apply IH.
Qed.

(** The check, as one computation. *)
Definition agree (fuel : nat) (cs0 : Z) (r0 : re) : bool :=
  explored verdict_eqb re_eqb ongoing heads follow step fuel cs0 r0.

Theorem agree_sound fuel cs0 r0 :
  agree fuel cs0 r0 = true → ∀ t, stops_at r0 t (scan t cs0).
Proof.
  intros H t. apply explored_spec in H as (s & Hw & Hp & Hs);
    [by apply (scan_lang s)|exact verdict_eqb_eq|exact re_eqb_eq|exact follow_alike].
Qed.
End product.
