(* ===== verification/RagelProps.v ===== *)
(** * Lemmas on the loop of the generated parsers

    A machine is sane when every transition leads to the error state or to a
    state with code, and when exactly the transitions into final states leave
    the loop.  The loop then ends at the end of the data, in the error state
    or in a final state. *)

From Stdlib Require Import Ascii.
From S2P Require Import Prelude Util Http Ragel Explore Regex.

(** What no action changes is the same at the end of the loop. *)
Lemma run_keeps {A S B} (m : machine A) r (act : A → Z → S → res S) breaks (f : S → B) :
  (∀ a p s s', act a p s = Ret s' → f s' = f s) →
  ∀ rest cs p s cs' p' s', run m r act breaks rest cs p s = Ret (cs', p', s') → f s' = f s.
Proof.
  intros Hact. assert (∀ al p s s', actions act al p s = Ret s' → f s' = f s) as Hacts.
  { induction al as [|a al IH]; intros p s s'; cbn [actions]; [by intros [= ->]|].
    destruct (act a p s) as [s1| | | |] eqn:E; try done. rewrite ret_bind. intros E2.
    by rewrite (IH _ _ _ E2), (Hact _ _ _ _ E). }
  induction rest as [|c rest IH]; intros cs p s cs' p' s'; simpl; [by intros [= _ _ ->]|].
  destruct (next m r cs (schar c)) as [[al n]|]; [|by intros [= _ _ ->]].
  destruct (n =? 0); [by intros [= _ _ ->]|].
  destruct (actions act al p s) as [s1| | | |] eqn:E; try done. rewrite ret_bind.
  rewrite <- (Hacts _ _ _ _ E). destruct (existsb breaks al); [by intros [= _ _ ->]|]. apply IH.
Qed.

Lemma run_bounds {A S} (m : machine A) r (act : A → Z → S → res S) breaks rest cs p s cs' p' s' :
  run m r act breaks rest cs p s = Ret (cs', p', s') → p <= p' <= p + zlen rest.
Proof.
  revert cs p s. induction rest as [|c rest IH]; intros cs p s; simpl.
  { intros [= _ <- _]. rewrite zlen_nil. lia. }
  rewrite zlen_cons. pose proof (zlen_nonneg rest).
  destruct (next m r cs (schar c)) as [[al n]|]; [|intros [= _ <- _]; lia].
  destruct (n =? 0); [intros [= _ <- _]; lia|].
  destruct (actions act al p s) as [s1| | | |]; try done. rewrite ret_bind.
  destruct (existsb breaks al); [intros [= _ <- _]; lia|]. intros E%IH. lia.
Qed.

(** What a character does in a state of the machine. *)
Definition machine_step {A} (m : machine A) (r : bool) (breaks : A → bool) (cs : Z) (c : ascii) : verdict :=
  match next m r cs (schar c) with
  | Some (al, n) => if n =? 0 then Reject else if existsb breaks al then Accept else Goto n
  | None => Reject
  end.

Section sane.
Context {A : Type} (m : machine A) (breaks : A → bool) (first_final : Z).

(** Every transition goes to the error state or to a state with code, and one
    that leaves the loop goes to a final state. *)
Definition sane_machine : bool :=
  forallb (λ r, forallb (λ cs, forallb (λ c,
    match next m r cs (schar c) with
    | Some (al, n) => (n =? 0) || (bool_decide (is_Some (m_cases m !! n)) &&
                        eqb (existsb breaks al) (first_final <=? n))
    | None => false
    end) all_ascii) (fst <$> map_to_list (m_cases m))) [true; false].

Lemma sane_step r cs c :
  sane_machine = true → is_Some (m_cases m !! cs) →
  ∃ al n, next m r cs (schar c) = Some (al, n) ∧
    (n = 0 ∨ is_Some (m_cases m !! n) ∧
       (existsb breaks al = true ↔ first_final <= n)).
Proof.
  intros H [f Hf]. assert (In r [true; false]) as Hr by (destruct r; simpl; auto).
  assert (In cs (fst <$> map_to_list (m_cases m))) as Hin.
  { apply list_elem_of_In, list_elem_of_fmap. exists (cs, f). split; [done|].
    by apply elem_of_map_to_list. }
  unfold sane_machine in H. rewrite forallb_forall in H. specialize (H r Hr).
  rewrite forallb_forall in H. specialize (H cs Hin). pose proof (forall_ascii _ H c) as H3.
  cbn beta in H3. destruct (next m r cs (schar c)) as [[al n]|]; [|done]. exists al, n.
  split; [done|]. apply orb_true_iff in H3 as [Hn|H3]; [left; lia|right].
  apply andb_true_iff in H3 as [H4 H5]. apply bool_decide_eq_true_1 in H4. split; [done|].
  apply eqb_prop in H5. rewrite H5. lia.
Qed.

Lemma run_end {S} r (act : A → Z → S → res S) rest cs p s cs' p' s' :
  sane_machine = true → is_Some (m_cases m !! cs) →
  run m r act breaks rest cs p s = Ret (cs', p', s') →
  p <= p' <= p + zlen rest ∧
  (p' < p + zlen rest → cs' = 0 ∨ first_final <= cs').
Proof.
  intros H. revert cs p s. induction rest as [|c rest IH]; intros cs p s Hcs E; simpl in E.
  - injection E as <- <- <-. rewrite zlen_nil. lia.
  - pose proof (zlen_nonneg rest). rewrite zlen_cons.
    destruct (sane_step r cs c H Hcs) as (al & n & Hx & Hn). rewrite Hx in E.
    destruct (n =? 0) eqn:Hn0.
    { injection E as <- <- <-. split; [lia|]. by left. }
    destruct Hn as [?|[Hn Hb]]; [lia|].
    destruct (actions act al p s) as [s1| | | |]; try done. simpl in E.
    destruct (existsb breaks al).
    + injection E as <- <- <-. split; [lia|]. right. by apply Hb.
    + apply IH in E as [E1 E2]; [|done]. split; [lia|]. intros. apply E2. lia.
Qed.

(** The loop of the parser stops where the automaton does. *)
Lemma run_scan {S} r (act : A → Z → S → res S) t cs p s cs' p' s' :
  sane_machine = true → is_Some (m_cases m !! cs) → cs ≠ 0 → cs < first_final →
  run m r act breaks t cs p s = Ret (cs', p', s') →
  let '(v, k) := scan (machine_step m r breaks) t cs in
  p' = p + Z.of_nat k ∧
  match v with
  | Reject => cs' = 0
  | Accept => first_final <= cs'
  | Goto _ => cs' ≠ 0 ∧ cs' < first_final
  end.
Proof.
  intros Hsane. revert cs p s. induction t as [|c t IH]; intros cs p s Hcs H0 Hlow E; simpl in E; cbn [scan].
  { injection E as <- <- <-. split; [lia|done]. }
  destruct (sane_step r cs c Hsane Hcs) as (al & n & Hx & Hn). unfold machine_step at 1. rewrite Hx in *.
  destruct (n =? 0) eqn:Hn0; [injection E as <- <- <-; split; [lia|done]|]. apply Z.eqb_neq in Hn0.
  destruct Hn as [?|[Hn Hb]]; [done|]. destruct (actions act al p s) as [s1| | | |]; try done. simpl in E.
  destruct (existsb breaks al).
  - injection E as <- <- <-. split; [lia|]. by apply Hb.
  - assert (n < first_final) as Hlt.
    { destruct (Z.lt_ge_cases n first_final) as [?|Hge]; [done|]. apply Hb in Hge. done. }
    pose proof (IH n (p + 1) s1 Hn Hn0 Hlt E) as H.
    destruct (scan _ t n) as [v k]. destruct H as [-> Hv]. split; [lia|done].
Qed.

(** [n] characters of the data were consumed and the state is [cs]: it is
    final when they are the first word of the language, the error state when
    they, but not the next, can be continued to a word, and another state
    when all data are consumed and can be continued. *)
Definition recognises (L : txt → Prop) (buffer : txt) (cs n : Z) : Prop :=
  if first_final <=? cs then L (ztake n buffer) ∧ ∀ m, 0 <= m < n → ¬ L (ztake m buffer)
  else (∀ m, ¬ L (ztake m buffer)) ∧ (∃ w, L (ztake n buffer ++ w)) ∧
       if cs =? 0 then n < zlen buffer ∧ ∀ w, ¬ L (ztake (n + 1) buffer ++ w) else n = zlen buffer.

Lemma run_recognises {S} r (act : A → Z → S → res S) fuel start e buffer s cs n s' :
  sane_machine = true → is_Some (m_cases m !! start) → start ≠ 0 → 0 <= start < first_final →
  agree (machine_step m r breaks) fuel start e = true →
  run m r act breaks buffer start 0 s = Ret (cs, n, s') → recognises (lang e) buffer cs n.
Proof.
  intros Hsane Hstart H0 Hlow Hagree E. pose proof (agree_sound _ _ _ _ Hagree buffer) as Hstop.
  apply run_scan in E; [|done|done|done|lia]. destruct (scan _ buffer start) as [v k].
  destruct E as [-> Hv]. rewrite Z.add_0_l. destruct Hstop as [Hk Hstop]. unfold recognises, ztake, zlen.
  rewrite Nat2Z.id. destruct v as [| |q].
  - subst cs. rewrite (proj2 (Z.leb_gt _ _)) by lia. destruct Hstop as (Hlt & H1 & H2 & H3).
    split; [intros m'; apply H1|]. split; [exact H2|]. cbn [Z.eqb]. split; [lia|].
    intros w. replace (Z.to_nat (Z.of_nat k + 1)) with (Datatypes.S k) by lia. apply H3.
  - rewrite (proj2 (Z.leb_le _ _) Hv). destruct Hstop as [H1 H2]. split; [exact H1|].
    intros j Hj. apply H2. lia.
  - rewrite (proj2 (Z.leb_gt _ _) (proj2 Hv)), (proj2 (Z.eqb_neq cs 0) (proj1 Hv)).
    destruct Hstop as (-> & H1 & H2). split; [intros j; apply H1|].
    rewrite take_ge by reflexivity. split; [exact H2|reflexivity].
Qed.
End sane.

(** ** Types of states

    What holds of the marks of a parser in a state, as two booleans; an action
    needs some of it and leaves some. *)
Section typed.
Context {A : Type} (action_type : A → bool * bool → option (bool * bool)) (state_type : Z → bool * bool).

Fixpoint actions_type (al : list A) (t : bool * bool) : option (bool * bool) :=
  match al with
  | [] => Some t
  | a :: al => match action_type a t with Some t => actions_type al t | None => None end
  end.
Definition implb2 (a b : bool * bool) : bool := implb (fst a) (fst b) && implb (snd a) (snd b).

Definition typed_step (cs : Z) (o : option (list A * Z)) : bool :=
  match o with
  | Some (al, n) => match actions_type al (state_type cs) with
                    | Some t => implb2 (state_type n) t
                    | None => false
                    end
  | None => true
  end.

Definition typed_machine (m : machine A) : bool :=
  forallb (λ r, forallb (λ cs, forallb (λ c, typed_step cs (next m r cs (schar c))) all_ascii)
    (fst <$> map_to_list (m_cases m))) [true; false].

Lemma typed_machine_step m r cs c al n :
  typed_machine m = true → next m r cs (schar c) = Some (al, n) →
  ∃ t, actions_type al (state_type cs) = Some t ∧ implb2 (state_type n) t = true.
Proof.
  intros H Hx. destruct (m_cases m !! cs) as [f|] eqn:Hf.
  2:{ unfold next in Hx. by rewrite Hf in Hx. }
  assert (In r [true; false]) as Hr by (destruct r; simpl; auto).
  assert (In cs (fst <$> map_to_list (m_cases m))) as Hin.
  { apply list_elem_of_In, list_elem_of_fmap. exists (cs, f). split; [done|].
    by apply elem_of_map_to_list. }
  unfold typed_machine in H. rewrite forallb_forall in H. specialize (H r Hr).
  rewrite forallb_forall in H. specialize (H cs Hin). pose proof (forall_ascii _ H c) as H3.
  cbn beta in H3. rewrite Hx in H3. unfold typed_step in H3.
  destruct (actions_type al (state_type cs)) as [t|]; [|done]. eauto.
Qed.
End typed.
