(* ===== verification/Grammar.v ===== *)
(** * The operators of ragel's grammars, as regular expressions

    Shared by the grammars of requests and responses.  In ragel a number is a
    character and [-] is a difference of languages, on sets of characters a
    difference of sets. *)

From Stdlib Require Import Ascii.
From S2P Require Import Prelude Util Http Ragel Explore Regex.

(** The set of the codes that satisfy [f], as ranges. *)
Definition ranges (f : Z → bool) : cset :=
  foldr (λ n l, let z := Z.of_nat n in
    if f z then match l with
                | (a, b) :: l' => if a =? z + 1 then (z, b) :: l' else (z, z) :: l
                | [] => [(z, z)]
                end
    else l) [] (List.seq 0 256).
Definition incode (l : cset) (z : Z) : bool := existsb (λ r, between (fst r) z (snd r)) l.
Definition number (n : Z) : cset := [(n, n)].
Definition one_of (s : string) : cset := ranges (λ z, existsb (λ c, code c =? z) (chars s)).
Definition union (l1 l2 : cset) : cset := ranges (λ z, incode l1 z || incode l2 z).
(** [l1 - l2]; on sets also [l1 -- l2]. *)
Definition minus (l1 l2 : cset) : cset := ranges (λ z, incode l1 z && negb (incode l2 z)).

Definition any : cset := [(0, 255)].
Definition ascii_set : cset := [(0, 127)].
Definition upper : cset := [(65, 90)].
Definition lower : cset := [(97, 122)].
Definition alpha : cset := union upper lower.
Definition digit : cset := [(48, 57)].
Definition xdigit : cset := union digit [(65, 70); (97, 102)].
Definition space : cset := [(9, 13); (32, 32)].

Definition lit (s : txt) : re := foldr (λ c r, seq (Chr (number (code c))) r) Eps s.
Definition str (s : string) : re := lit (chars s).
Definition opt (r : re) : re := alt Eps r.
Definition plus (r : re) : re := seq r (Star r).
Fixpoint times (n : nat) (r : re) : re := match n with O => Eps | S n => seq r (times n r) end.
Fixpoint up_to (n : nat) (r : re) : re := match n with O => Eps | S n => opt (seq r (up_to n r)) end.
Definition from_to (m n : nat) (r : re) : re := seq (times m r) (up_to (n - m) r).
Definition at_least (n : nat) (r : re) : re := seq (times n r) (Star r).
(** Alternatives; their sets of single characters become one set. *)
Definition sets_of (l : list re) : cset :=
  foldr (λ r s, match r with Chr x => union x s | _ => s end) [] l.
Definition is_set (r : re) : bool := match r with Chr _ => true | _ => false end.
Fixpoint alts (l : list re) : re := match l with [] => Emp | [r] => r | r :: l => alt r (alts l) end.
Definition choice (l : list re) : re :=
  match sets_of l with
  | [] => alts l
  | s => alts (Chr s :: List.filter (λ r, negb (is_set r)) l)
  end.
Fixpoint seqs (l : list re) : re := match l with [] => Eps | [r] => r | r :: l => seq r (seqs l) end.
(** [a :> b], where [l] is what [b] starts with. *)
Definition entry_guarded (a : re) (l : cset) (b : re) : re := seq (guard a l) b.

