(* ===== verification/Embed.v ===== *)
(** * Grammars with embedded actions, as ragel compiles them

    Ragel attaches actions to parts of a grammar: on the first transition
    ([>]), on every transition into a final state ([@]), and on leaving
    ([%]).  Here such a grammar is a tree; its derivative by a character is
    the grammar of what may follow together with the actions that run.  That
    this is what ragel does is checked against the generated parsers of the
    repository, in RequestEmbed.v and ResponseEmbed.v; it is then used for
    uri.rl, whose generated parser is not in the repository. *)

From Stdlib Require Import Ascii.
From S2P Require Import Prelude Util Http Ragel Explore Regex Grammar.

(** [Guarded a l] is the left side of [:>], see [Guard]. *)
Inductive grammar (A : Type) :=
| Plain (r : re)
| Or (a b : grammar A)
| Then (a b : grammar A)
| Many (n : Z) (a : grammar A)         (* a* *)
| Guarded (a : grammar A) (l : cset)
| Entering (x : A) (a : grammar A)     (* a >x *)
| Leaving (x : A) (a : grammar A)      (* a %x *)
| Finishing (x : A) (a : grammar A).   (* a @x *)
Arguments Plain {A}.
Arguments Or {A}.
Arguments Then {A}.
Arguments Many {A}.
Arguments Guarded {A}.
Arguments Entering {A}.
Arguments Leaving {A}.
Arguments Finishing {A}.

Fixpoint thens {A} (l : list (grammar A)) : grammar A :=
  match l with [] => Plain Eps | [a] => a | a :: l => Then a (thens l) end.
(** [a*]. *)
Definition many {A} (a : grammar A) : grammar A := Many 0 a.
(** [a?]. *)
Definition maybe {A} (a : grammar A) : grammar A := Or (Plain Eps) a.
Definition word {A} (s : string) : grammar A := Plain (str s).

(** The actions get numbers in the order in which ragel walks the grammar: an
    entering action before what it is attached to, the others after it.
    Actions of one transition run in this order.  For a repetition the actions
    on its first transitions are numbered again, so that they come after those
    of leaving the round before; [Many n a] has their first number. *)
Fixpoint attached {A} (g : grammar A) : Z :=
  match g with
  | Plain _ => 0
  | Or a b | Then a b => attached a + attached b
  | Many _ a | Guarded a _ => attached a
  | Entering _ a | Leaving _ a | Finishing _ a => 1 + attached a
  end.
Fixpoint order {A} (n : Z) (g : grammar A) : Z * grammar (Z * A) :=
  match g with
  | Plain r => (n, Plain r)
  | Or a b => let '(n, a) := order n a in let '(n, b) := order n b in (n, Or a b)
  | Then a b => let '(n, a) := order n a in let '(n, b) := order n b in (n, Then a b)
  | Many _ a => let '(n, a) := order n a in (n + attached a, Many n a)
  | Guarded a l => let '(n, a) := order n a in (n, Guarded a l)
  | Entering x a => let '(m, a) := order (n + 1) a in (m, Entering (n, x) a)
  | Leaving x a => let '(n, a) := order n a in (n + 1, Leaving (n, x) a)
  | Finishing x a => let '(n, a) := order n a in (n + 1, Finishing (n, x) a)
  end.
Definition ordered {A} (g : grammar A) : grammar (Z * A) := snd (order 0 g).

(** The language, without the actions. *)
Fixpoint erase {A} (g : grammar A) : re :=
  match g with
  | Plain r => r
  | Or a b => Alt (erase a) (erase b)
  | Then a b => Seq (erase a) (erase b)
  | Many _ a => Star (erase a)
  | Guarded a l => Guard (erase a) l
  | Entering _ a | Leaving _ a | Finishing _ a => erase a
  end.

Lemma erase_order {A} (g : grammar A) n : erase (snd (order n g)) = erase g.
Proof.
  revert n. induction g as [r|a IHa b IHb|a IHa b IHb|k a IHa|a IHa l|x a IHa|x a IHa|x a IHa];
    intros n; cbn [order]; [done|..];
    try (specialize (IHa n); destruct (order n a) as [m a']; simpl in *; rewrite ?IHa; try done;
         specialize (IHb m); destruct (order m b) as [m' b']; simpl in *; by rewrite IHa, IHb).
  specialize (IHa (n + 1)). destruct (order (n + 1) a) as [m a']. done.
Qed.

Section embed.
Context {A : Type} (aeqb : A → A → bool) (aeqb_eq : ∀ a b, aeqb a b = true → a = b).
Local Notation act := (Z * A)%type.
Local Notation gr := (grammar act).

Definition act_eqb (x y : act) : bool := (fst x =? fst y) && aeqb (snd x) (snd y).
Fixpoint gr_eqb (a b : gr) : bool :=
  match a, b with
  | Plain r, Plain s => re_eqb r s
  | Or a1 b1, Or a2 b2 | Then a1 b1, Then a2 b2 => gr_eqb a1 a2 && gr_eqb b1 b2
  | Many n a, Many m b => (n =? m) && gr_eqb a b
  | Guarded a l, Guarded b l' => gr_eqb a b && cset_eqb l l'
  | Entering x a, Entering y b | Leaving x a, Leaving y b | Finishing x a, Finishing y b =>
      act_eqb x y && gr_eqb a b
  | _, _ => false
  end.
Definition gnull (g : gr) : bool := nullable (erase g).
Definition galive (g : gr) : bool := alive (erase g).

(** ** Constructors that keep the grammars small *)

Definition is_emp (g : gr) : bool := match g with Plain Emp => true | _ => false end.
Definition is_eps (g : gr) : bool := match g with Plain Eps => true | _ => false end.
Fixpoint gmember (r s : gr) : bool :=
  match s with Or a b => gr_eqb r a || gmember r b | _ => gr_eqb r s end.
Fixpoint gor (a b : gr) : gr :=
  match a with
  | Plain Emp => b
  | Or a1 a2 => gor a1 (gor a2 b)
  | _ => if is_emp b then a else if gmember a b then b else Or a b
  end.
Definition plain_then (r : re) (b : gr) : gr :=
  match r with
  | Emp => Plain Emp
  | Eps => b
  | _ => match b with
         | Plain s => Plain (seq r s)
         | Then (Plain s) b => Then (Plain (seq r s)) b
         | _ => Then (Plain r) b
         end
  end.
Fixpoint gthen (a b : gr) : gr :=
  if is_emp b then Plain Emp else
  match a with
  | Plain r => plain_then r b
  | Then a1 a2 => gthen a1 (gthen a2 b)
  | _ => if is_eps b then a else Then a b
  end.
Definition wrap (f : gr → gr) (g : gr) : gr := if is_emp g then Plain Emp else f g.

(** ** Derivatives *)

(** The actions that run when the grammar is left here, where it has the
    empty word: on the next character, or at the end of the data.  An entering
    action of a part that is passed over is among them. *)
Fixpoint out (g : gr) : list act :=
  match g with
  | Plain _ | Many _ _ => []
  | Or a b => (if gnull a then out a else []) ++ (if gnull b then out b else [])
  | Then a b => out a ++ out b
  | Guarded a _ | Finishing _ a => out a
  | Entering x a => x :: out a
  | Leaving x a => out a ++ [x]
  end.

(** In order, and numbered again from [n]. *)
Fixpoint insert_act (x : act) (l : list act) : list act :=
  match l with [] => [x] | y :: l' => if fst x <=? fst y then x :: l else y :: insert_act x l' end.
Fixpoint from (n : Z) (l : list act) : list act :=
  match l with [] => [] | x :: l => (n, snd x) :: from (n + 1) l end.

(** What may follow the character, and the actions that it runs.  Actions of
    an alternative that cannot come to an end do not run: ragel removes its
    states. *)
Fixpoint derive (g : gr) (c : ascii) : gr * list act :=
  match g with
  | Plain r => (Plain (deriv r c), [])
  | Or a b =>
      let '(da, xa) := derive a c in
      let '(db, xb) := derive b c in
      (gor da db, (if galive da then xa else []) ++ (if galive db then xb else []))
  | Then a b =>
      let '(da, xa) := derive a c in
      let d := gthen da b in
      let xd := if galive d then xa else [] in
      if gnull a then
        let '(db, xb) := derive b c in
        (gor d db, xd ++ if galive db then out a ++ xb else [])
      else (d, xd)
  | Many n a => let '(da, xa) := derive a c in (gthen da g, from n (foldr insert_act [] xa))
  | Guarded a l =>
      if gnull a && inset l c then (Plain Emp, [])
      else let '(da, xa) := derive a c in (wrap (λ g, Guarded g l) da, xa)
  | Entering x a => let '(da, xa) := derive a c in (da, x :: xa)
  | Leaving x a => let '(da, xa) := derive a c in (wrap (Leaving x) da, xa)
  | Finishing x a =>
      let '(da, xa) := derive a c in
      (wrap (Finishing x) da, xa ++ if gnull da then [x] else [])
  end.

(** The actions of a transition, in order; an action that is attached twice
    runs once, the first time. *)
Fixpoint once (l : list act) (done : list A) : list A :=
  match l with
  | [] => []
  | x :: l => if existsb (aeqb (snd x)) done then once l done else snd x :: once l (snd x :: done)
  end.
Definition in_order (l : list act) : list A := once (foldr insert_act [] l) [].

(** ** Their language *)

Lemma act_eqb_eq x y : act_eqb x y = true → x = y.
Proof using aeqb_eq.
  destruct x, y. unfold act_eqb. simpl. intros [->%Z.eqb_eq ->%aeqb_eq]%andb_true_iff. done.
Qed.
Lemma gr_eqb_eq a b : gr_eqb a b = true → a = b.
Proof using aeqb_eq.
  revert b. induction a; intros []; simpl; try done; intros H;
    repeat match goal with H : _ && _ = true |- _ => apply andb_true_iff in H as [? ?]
           | H : (_ =? _) = true |- _ => apply Z.eqb_eq in H end;
    f_equal; auto using cset_eqb_eq, re_eqb_eq, act_eqb_eq.
Qed.

Local Notation glang g := (lang (erase g)).

Lemma is_emp_eq g : is_emp g = true → g = Plain Emp.
Proof. destruct g as [[]| | | | | | |]; done. Qed.
Lemma is_eps_eq g : is_eps g = true → g = Plain Eps.
Proof. destruct g as [[]| | | | | | |]; done. Qed.

Lemma gmember_lang r s w : gmember r s = true → glang r w → glang s w.
Proof using aeqb_eq.
  induction s; simpl; intros H Hr; try (apply gr_eqb_eq in H as ->; exact Hr).
  apply orb_true_iff in H as [->%gr_eqb_eq|H]; auto.
Qed.
Lemma gor_one a b w :
  glang (if is_emp b then a else if gmember a b then b else Or a b) w ↔ glang a w ∨ glang b w.
Proof using aeqb_eq.
  destruct (is_emp b) eqn:E; [apply is_emp_eq in E as ->; simpl; tauto|].
  destruct (gmember a b) eqn:Em; [|done]. split; [tauto|]. intros [Ha|Hb]; [|done].
  by eapply gmember_lang.
Qed.
Lemma gor_lang a b w : glang (gor a b) w ↔ glang a w ∨ glang b w.
Proof using aeqb_eq.
  revert b. induction a as [r|a1 IH1 a2 IH2|a1 IH1 a2 IH2|k a1 IH1|a1 IH1 l|x a1 IH1|x a1 IH1|x a1 IH1];
    intros b; try apply gor_one.
  - destruct r; try apply gor_one. simpl. tauto.
  - simpl. rewrite IH1, IH2. tauto.
Qed.

Lemma plain_then_lang r b w : glang (plain_then r b) w ↔ lang (Seq r (erase b)) w.
Proof.
  assert (glang (match b with
         | Plain s => Plain (seq r s)
         | Then (Plain s) b => Then (Plain (seq r s)) b
         | _ => Then (Plain r) b
         end) w ↔ lang (Seq r (erase b)) w) as H.
  { destruct b as [s|b1 b2|b1 b2|k b1|b1 l|x b1|x b1|x b1]; try done; [apply seq_lang|].
    destruct b1 as [s|b11 b12|b11 b12|k b11|b11 l|x b11|x b11|x b11]; try done.
    transitivity (lang (Seq (Seq r s) (erase b2)) w); [|apply Seq_assoc].
    cbn [erase]. apply Seq_ext; [intros; apply seq_lang|done]. }
  destruct r; try exact H; unfold plain_then.
  - rewrite Seq_Emp_l. done.
  - by rewrite Seq_Eps_l.
Qed.
Lemma gthen_lang a b w : glang (gthen a b) w ↔ lang (Seq (erase a) (erase b)) w.
Proof.
  revert b w. induction a as [r|a1 IH1 a2 IH2|a1 IH1 a2 IH2|k a1 IH1|a1 IH1 l|x a1 IH1|x a1 IH1|x a1 IH1];
    intros b w; cbn [gthen];
    (destruct (is_emp b) eqn:E; [apply is_emp_eq in E as ->; cbn [erase]; by rewrite Seq_Emp_r|]);
    try (destruct (is_eps b) eqn:E'; [apply is_eps_eq in E' as ->; by rewrite Seq_Eps_r|done]).
  - apply plain_then_lang.
  - rewrite IH1. transitivity (lang (Seq (erase a1) (Seq (erase a2) (erase b))) w).
    + apply Seq_ext; [done|]. intros. apply IH2.
    + symmetry. apply Seq_assoc.
Qed.
Lemma wrap_lang f g w :
  (∀ w, glang (f g) w ↔ glang g w) → glang (wrap f g) w ↔ glang g w.
Proof. intros H. unfold wrap. destruct (is_emp g) eqn:E; [by apply is_emp_eq in E as ->|apply H]. Qed.

(** The derivative has the words that follow the character. *)
Lemma derive_lang g c w : glang (derive g c).1 w ↔ glang g (c :: w).
Proof using aeqb_eq.
  rewrite <- deriv_lang. revert w.
  induction g as [r|a IHa b IHb|a IHa b IHb|k a IHa|a IHa l|x a IHa|x a IHa|x a IHa];
    intros w; cbn [derive erase].
  - done.
  - destruct (derive a c) as [da xa], (derive b c) as [db xb]. cbn [fst snd deriv] in *.
    by rewrite gor_lang, alt_lang, IHa, IHb.
  - destruct (derive a c) as [da xa], (derive b c) as [db xb]. cbn [fst snd deriv] in *.
    assert (∀ w, glang (gthen da b) w ↔ lang (seq (deriv (erase a) c) (erase b)) w) as Hs.
    { intros w'. rewrite gthen_lang, seq_lang. by apply Seq_ext. }
    cbv zeta. unfold gnull. destruct (nullable (erase a)); cbn [fst]; [|done].
    by rewrite gor_lang, alt_lang, Hs, IHb.
  - destruct (derive a c) as [da xa]. cbn [fst snd deriv] in *.
    rewrite gthen_lang, seq_lang. by apply Seq_ext.
  - unfold gnull. cbn [deriv]. destruct (nullable (erase a) && inset l c); [done|].
    destruct (derive a c) as [da xa]. cbn [fst] in *. rewrite guard_lang.
    unfold wrap. destruct (is_emp da) eqn:E; cbn [erase lang].
    + apply is_emp_eq in E as ->. simpl in *. rewrite <- IHa. tauto.
    + rewrite IHa. split; intros [H1 H2]; (split; [done|]); intros u c' v Eu Hu;
        (eapply H2; [exact Eu|]; by apply IHa).
  - destruct (derive a c) as [da xa]. apply IHa.
  - destruct (derive a c) as [da xa]. cbn [fst] in *. by rewrite wrap_lang.
  - destruct (derive a c) as [da xa]. cbn [fst] in *. by rewrite wrap_lang.
Qed.

(** Characters that look the same to the sets at the front. *)
Lemma derive_alike g c c' : alike (heads (erase g)) c c' → derive g c = derive g c'.
Proof.
  induction g as [r|a IHa b IHb|a IHa b IHb|k a IHa|a IHa l|x a IHa|x a IHa|x a IHa];
    cbn [derive erase heads]; intros H.
  - by rewrite (deriv_alike r c c').
  - apply alike_app in H as [? ?]. by rewrite IHa, IHb.
  - apply alike_app in H as [? H]. rewrite IHa by done. unfold gnull.
    destruct (nullable (erase a)); [by rewrite IHb|done].
  - by rewrite IHa.
  - rewrite IHa by (intros l' Hl; apply H; by right). by rewrite (H l) by left.
  - by rewrite IHa.
  - by rewrite IHa.
  - by rewrite IHa.
Qed.

(** ** Running a grammar *)

Section run.
Context {S : Type} (perform : A → Z → S → res S) (breaks : A → bool).

(** On [rest], from the position [p]: what may follow at the end, [None] when
    a character does not fit; the position; and what the actions have done. *)
Fixpoint parse (rest : txt) (g : gr) (p : Z) (s : S) : res (option gr * Z * S) :=
  match rest with
  | [] => Ret (Some g, p, s)
  | c :: rest =>
      let '(d, x) := derive g c in
      if negb (galive d) then Ret (None, p, s)
      else
        s ← actions perform (in_order x) p s;
        if existsb breaks (in_order x) then Ret (Some d, p + 1, s) else parse rest d (p + 1) s
  end.

(** Where no action breaks the loop, a word of the language is what can be
    parsed to its end, and ends there. *)
Lemma parse_lang rest g p s o p' s' :
  (∀ a, breaks a = false) → parse rest g p s = Ret (o, p', s') →
  glang g rest ↔ ∃ d, o = Some d ∧ gnull d = true.
Proof using aeqb_eq.
  intros Hb. assert (∀ l, existsb breaks l = false) as Hbs by (induction l; simpl; [done|by rewrite Hb]).
  revert g p s. induction rest as [|c rest IH]; intros g p s; cbn [parse].
  - intros [= <- <- <-]. rewrite <- nullable_lang. split; [by eexists|by intros (d & [= <-] & ?)].
  - rewrite <- derive_lang. destruct (derive g c) as [d x]. cbn [fst].
    destruct (galive d) eqn:Ea; simpl.
    + destruct (actions perform (in_order x) p s) as [s1| | | |]; simpl; try done.
      rewrite Hbs. apply IH.
    + intros [= <- <- <-]. split; [|by intros (d' & ? & _)]. intros Hl. exfalso.
      apply lang_alive in Hl. unfold galive in Ea. congruence.
Qed.
End run.

(** ** A generated automaton against a grammar *)

Section against.
Context (m : machine A) (relaxed : bool) (breaks : A → bool) (first_final : Z).

(** What a character does in a state; [None] for the error state. *)
Definition act_step (cs : Z) (c : ascii) : option (list A * Z) :=
  match next m relaxed cs (schar c) with
  | Some (al, n) => if n =? 0 then None else Some (al, n)
  | None => None
  end.
Fixpoint list_eqb (l1 l2 : list A) : bool :=
  match l1, l2 with
  | [], [] => true
  | a :: l1, b :: l2 => aeqb a b && list_eqb l1 l2
  | _, _ => false
  end.
Definition step_eqb (v1 v2 : option (list A * Z)) : bool :=
  match v1, v2 with
  | None, None => true
  | Some (l1, n1), Some (l2, n2) => list_eqb l1 l2 && (n1 =? n2)
  | _, _ => false
  end.
(** They agree on a character: both refuse it, or both take it with the same
    actions, into a final state exactly if the word can end there. *)
Definition act_follow (v : option (list A * Z)) (g : gr) (c : ascii) : option (option (Z * gr)) :=
  let '(d, x) := derive g c in
  match v with
  | None => if galive d then None else Some None
  | Some (al, n) =>
      if galive d && list_eqb al (in_order x) && eqb (gnull d) (first_final <=? n)
      then Some (if existsb breaks al then None else Some (n, d))
      else None
  end.
Definition acts_agree (fuel : nat) (cs0 : Z) (g0 : gr) : bool :=
  explored step_eqb gr_eqb galive (λ g, heads (erase g)) act_follow act_step fuel cs0 g0.

Lemma list_eqb_eq l1 l2 : list_eqb l1 l2 = true → l1 = l2.
Proof using aeqb_eq.
  revert l2. induction l1 as [|a l1 IH]; intros [|b l2]; simpl; try done.
  by intros [->%aeqb_eq ->%IH]%andb_true_iff.
Qed.
Lemma step_eqb_eq v1 v2 : step_eqb v1 v2 = true → v1 = v2.
Proof using aeqb_eq.
  destruct v1 as [[l1 n1]|], v2 as [[l2 n2]|]; simpl; try done.
  by intros [->%list_eqb_eq ->%Z.eqb_eq]%andb_true_iff.
Qed.
Lemma act_follow_alike v g c c' :
  alike (heads (erase g)) c c' → act_follow v g c = act_follow v g c'.
Proof. intros H. unfold act_follow. by rewrite (derive_alike g c c' H). Qed.

(** How the state at the end says what may follow. *)
Definition tells (o : option gr) (cs : Z) : Prop :=
  match o with
  | None => cs = 0
  | Some d => cs ≠ 0 ∧ (first_final <= cs ↔ gnull d = true)
  end.

Context {S : Type} (perform : A → Z → S → res S).

(** The loop of the automaton is the parse: the same actions at the same
    positions with the same outcome, and a state that tells what is left.
    [known]: the automaton has a transition for every state that is met. *)
Lemma run_parse fuel cs0 g0 :
  acts_agree fuel cs0 g0 = true →
  (∀ cs c, is_Some (m_cases m !! cs) → ∃ al n, next m relaxed cs (schar c) = Some (al, n) ∧
     (n = 0 ∨ is_Some (m_cases m !! n))) → is_Some (m_cases m !! cs0) → cs0 ≠ 0 →
  (first_final <= cs0 ↔ gnull g0 = true) →
  ∀ rest p s, ∃ cs,
    run m relaxed perform breaks rest cs0 p s =
      ('(_, p, s) ← parse perform breaks rest g0 p s; Ret (cs, p, s)) ∧
    ∀ o p' s', parse perform breaks rest g0 p s = Ret (o, p', s') → tells o cs.
Proof using aeqb_eq.
  intros Ha Hknown. apply explored_spec in Ha as (ps & Hw & _ & Hf);
    [|exact step_eqb_eq|exact gr_eqb_eq|exact act_follow_alike].
  intros Hk H0 Hfin rest. revert cs0 g0 Hw Hk H0 Hfin.
  induction rest as [|c rest IH]; intros cs g Hw Hk H0 Hfin p s; cbn [run parse].
  - exists cs. split; [done|]. by intros o p' s' [= <- <- <-].
  - specialize (Hf c cs g Hw). unfold follows, act_follow, act_step in Hf.
    destruct (Hknown cs c Hk) as (al & n & En & Hn). rewrite En in *.
    destruct (derive g c) as [d x]. destruct (Z.eqb_spec n 0) as [->|N0].
    + destruct (galive d); [done|]. simpl. exists 0. split; [done|]. by intros o p' s' [= <- <- <-].
    + destruct (galive d && _ && _) eqn:E; [|done].
      apply andb_true_iff in E as [[-> ->%list_eqb_eq]%andb_true_iff E%eqb_prop]. simpl.
      assert (first_final <= n ↔ gnull d = true) as Hfin'.
      { rewrite E. symmetry. apply Z.leb_le. }
      destruct (actions perform (in_order x) p s) as [s1| | | |]; simpl; [|by exists 0..].
      destruct (existsb breaks (in_order x)).
      * exists n. split; [done|]. by intros o p' s' [= <- <- <-].
      * destruct Hn as [?|Hn]; [done|]. by apply IH.
Qed.
End against.

(** ** Sets of grammars that a class of characters does not leave

    For texts of any length: the grammars that are met while a part of the
    text is read are few, and are computed. *)

(** One character of each class that satisfies [ok]. *)
Fixpoint classes (t : txt) (ok : ascii → bool) (ls : list cset) (seen : list (list bool)) : txt :=
  match t with
  | [] => []
  | c :: t =>
      if ok c && negb (existsb (looks_eqb (looks ls c)) seen)
      then c :: classes t ok ls (looks ls c :: seen)
      else classes t ok ls seen
  end.
Definition all_chars (ok : ascii → bool) (X : list gr) (f : gr → ascii → bool) : bool :=
  forallb (λ g, forallb (f g) (classes all_ascii ok (distinct (heads (erase g))) [])) X.
(** From [X] a character that satisfies [ok] runs [al] and leads to [Y]. *)
Definition moves (ok : ascii → bool) (X : list gr) (al : list A) (Y : list gr) : bool :=
  all_chars ok X (λ g c, let '(d, x) := derive g c in
    galive d && list_eqb (in_order x) al && existsb (gr_eqb d) Y).
(** The text may end in [X], which runs [al]. *)
Definition ends (X : list gr) (al : list A) : bool :=
  forallb (λ g, gnull g && list_eqb (in_order (out g)) al) X.
(** Percent escapes inside [X]. *)
Definition escapes (X Y1 Y2 : list gr) : bool :=
  moves (Ascii.eqb "%") X [] Y1 && moves Ragel.xdigit Y1 [] Y2 && moves Ragel.xdigit Y2 [] X.

(** What the characters that satisfy [ok] lead to, and everything that
    follows. *)
Definition grow (d : gr) (l : list gr) : list gr := if existsb (gr_eqb d) l then l else d :: l.
Definition image (ok : ascii → bool) (X : list gr) : list gr :=
  foldr (λ g l, foldr (λ c l, let d := (derive g c).1 in if galive d then grow d l else l) l
    (classes all_ascii ok (distinct (heads (erase g))) [])) [] X.
Fixpoint closure (fuel : nat) (ok : ascii → bool) (todo seen : list gr) : list gr :=
  match fuel with
  | O => seen
  | S fuel =>
      let new := List.filter (λ d, negb (existsb (gr_eqb d) seen)) (image ok todo) in
      match new with [] => seen | _ => closure fuel ok new (new ++ seen) end
  end.

Lemma classes_spec t ok ls seen c :
  c ∈ t → ok c = true →
  (∃ c', c' ∈ classes t ok ls seen ∧ alike ls c c') ∨
  existsb (λ l, looks_eqb l (looks ls c)) seen = true.
Proof.
  revert seen. induction t as [|c0 t IH]; intros seen; [by intros ?%elem_of_nil|].
  intros Hin Hok. cbn [classes]. destruct (ok c0 && _) eqn:E.
  - apply elem_of_cons in Hin as [->|Hin].
    + left. exists c0. split; [by left|]. done.
    + destruct (IH (looks ls c0 :: seen) Hin Hok) as [(c' & Hc' & Hl)|Hs].
      * left. exists c'. split; [by right|done].
      * simpl in Hs. apply orb_true_iff in Hs as [Hs|Hs]; [|by right].
        left. exists c0. split; [by left|]. intros l Hl. symmetry. by apply looks_alike in Hs as ->.
  - apply elem_of_cons in Hin as [->|Hin]; [|by apply IH].
    rewrite Hok in E. simpl in E. apply negb_false_iff in E.
    right. apply existsb_exists in E as (l & Hl & El). apply existsb_exists. exists l. split; [done|].
    clear -El. revert l El. generalize (looks ls c0). intros l1.
    induction l1 as [|b l1 IH]; intros [|b' l]; simpl; try done.
    intros [->%eqb_prop ?%IH]%andb_true_iff. by rewrite eqb_reflx.
Qed.
Lemma all_chars_spec ok X f g c :
  all_chars ok X f = true → g ∈ X → ok c = true →
  ∃ c', f g c' = true ∧ derive g c = derive g c'.
Proof.
  unfold all_chars. rewrite forallb_forall. intros H Hg Hc.
  specialize (H g (proj1 (list_elem_of_In _ _) Hg)). rewrite forallb_forall in H.
  destruct (classes_spec all_ascii ok (distinct (heads (erase g))) [] c (elem_all_ascii c) Hc)
    as [(c' & Hin & Ha)|?]; [|done].
  exists c'. split; [by apply H, list_elem_of_In|]. apply derive_alike. intros l Hl.
  apply Ha. by apply elem_of_distinct.
Qed.
Lemma moves_spec ok X al Y g c :
  moves ok X al Y = true → g ∈ X → ok c = true →
  ∃ d x, derive g c = (d, x) ∧ galive d = true ∧ in_order x = al ∧ d ∈ Y.
Proof using aeqb_eq.
  intros H Hg Hc. destruct (all_chars_spec _ _ _ _ _ H Hg Hc) as (c' & Hf & E). rewrite E.
  destruct (derive g c') as [d x]. apply andb_true_iff in Hf as [[Ha Hl%list_eqb_eq]%andb_true_iff Hy].
  exists d, x. split; [done|]. split; [done|]. split; [done|].
  apply existsb_exists in Hy as (y & Hin & ->%gr_eqb_eq). by apply list_elem_of_In.
Qed.
Lemma ends_spec X al g :
  ends X al = true → g ∈ X → gnull g = true ∧ in_order (out g) = al.
Proof using aeqb_eq.
  unfold ends. rewrite forallb_forall. intros H Hg.
  specialize (H g (proj1 (list_elem_of_In _ _) Hg)). apply andb_true_iff in H as [? ?%list_eqb_eq]. done.
Qed.

Section regions.
Context {S : Type} (perform : A → Z → S → res S).
Local Notation parses := (parse perform (λ _, false)).

Lemma existsb_none (l : list A) : existsb (λ _, false) l = false.
Proof. by induction l. Qed.

Lemma parse_move ok X al Y g c rest p s s' :
  moves ok X al Y = true → g ∈ X → ok c = true → actions perform al p s = Ret s' →
  ∃ d, d ∈ Y ∧ parses (c :: rest) g p s = parses rest d (p + 1) s'.
Proof using aeqb_eq.
  intros Hm Hg Hc Ha. destruct (moves_spec _ _ _ _ _ _ Hm Hg Hc) as (d & x & E & Hal & <- & Hd).
  exists d. split; [done|]. cbn [parse]. rewrite E, Hal, Ha. simpl. by rewrite existsb_none.
Qed.
Lemma parse_stay ok X t g rest p s :
  moves ok X [] X = true → forallb ok t = true → g ∈ X →
  ∃ d, d ∈ X ∧ parses (t ++ rest) g p s = parses rest d (p + zlen t) s.
Proof using aeqb_eq.
  intros Hm. revert g p. induction t as [|c t IH]; intros g p Ht Hg.
  - exists g. rewrite zlen_nil, Z.add_0_r. done.
  - simpl in Ht. apply andb_true_iff in Ht as [Hc Ht].
    destruct (parse_move ok X [] X g c (t ++ rest) p s s Hm Hg Hc eq_refl) as (d & Hd & E).
    destruct (IH d (p + 1) Ht Hd) as (d' & Hd' & E'). exists d'. split; [done|].
    simpl app. rewrite E, E', zlen_cons. f_equal. lia.
Qed.
Lemma parse_escaped ok X Y1 Y2 t g rest p s :
  moves ok X [] X = true → escapes X Y1 Y2 = true → escaped ok t = true → g ∈ X →
  ∃ d, d ∈ X ∧ parses (t ++ rest) g p s = parses rest d (p + zlen t) s.
Proof using aeqb_eq.
  intros Hm [[H1 H2]%andb_true_iff H3]%andb_true_iff. remember (length t) as k eqn:Hk. revert t Hk g p.
  induction (Nat.lt_wf_0 k) as [k _ IH]. intros t -> g p Ht Hg.
  destruct t as [|c t]; [exists g; by rewrite zlen_nil, Z.add_0_r|]. cbn [escaped] in Ht.
  destruct (Z.eqb_spec (code c) 37) as [Hc|Hc].
  - destruct t as [|a [|b t]]; try done. rewrite !andb_true_iff in Ht. destruct Ht as [[Ha Hb] Ht].
    apply percent_code in Hc as ->.
    destruct (parse_move _ _ _ _ g "%"%char (a :: b :: t ++ rest) p s s H1 Hg eq_refl eq_refl) as (d1 & Hd1 & E1).
    destruct (parse_move _ _ _ _ d1 a (b :: t ++ rest) (p + 1) s s H2 Hd1 Ha eq_refl) as (d2 & Hd2 & E2).
    destruct (parse_move _ _ _ _ d2 b (t ++ rest) (p + 1 + 1) s s H3 Hd2 Hb eq_refl) as (d3 & Hd3 & E3).
    destruct (IH (length t) ltac:(simpl; lia) t eq_refl d3 (p + 1 + 1 + 1) Ht Hd3) as (d & Hd & E).
    exists d. split; [done|]. simpl app. rewrite E1, E2, E3, E, !zlen_cons. f_equal. lia.
  - apply andb_true_iff in Ht as [Hok Ht].
    destruct (parse_move ok X [] X g c (t ++ rest) p s s Hm Hg Hok eq_refl) as (d & Hd & E).
    destruct (IH (length t) ltac:(simpl; lia) t eq_refl d (p + 1) Ht Hd) as (d' & Hd' & E').
    exists d'. split; [done|]. simpl app. rewrite E, E', zlen_cons. f_equal. lia.
Qed.
End regions.
End embed.
