(* ===== verification/RequestTable.v ===== *)
(** * The request automaton: src/src/http/http_request_parser.cpp, lines 84 to 6240

    The generated [switch] of [http_request_parser_execute], stretch by
    stretch: for every state what its code does with the character, for every
    transition its actions and the state it goes to.  The labels have the
    numbers of the file. *)

From S2P Require Import Prelude Util Ragel.

(** The actions that the transitions run, with the names of the grammar. *)
Inductive RequestAction :=
| Mark | StartField | WriteField | StartValue | WriteValue | RequestMethod | RequestUri | Fragment
| StartQuery | QueryString | HttpVersion | RequestPath | Done | Xml | Json.

#[export] Instance RequestAction_eq_dec : EqDecision RequestAction.
Proof. solve_decision. Defined.

(** [src/src/http/http_request_parser.cpp:127-147] http_request_parser_execute, the conversion of a character that is looked at under the condition [uri_relaxed]; it is the same in every state that has it *)
Definition widec (relaxed : bool) (x : Z) : Z :=
  let wide := swrap 16 (128 + (x - -128)) in
  let wide := if relaxed then swrap 16 (wide + 256) else wide in
  if x <? 123 then if between 94 x 94 then wide else x
  else if 123 <? x then if between 125 x 125 then wide else x
  else wide.

(** [src/src/http/http_request_parser.cpp:84-228] http_request_parser_execute, cases 1 to 3 and the transitions tr0 to tr53 *)
Definition request_part_1 : part RequestAction := mkPart
  [(1, λ r x, sw x [(60, Tr 2); (64, Tr 3)]
      (if 57 <? x then (if between 65 x 90 then Tr 0 else St 0) else if 48 <=? x then Tr 0 else
      St 0));
   (2, λ r x, if x =? 32 then Tr 4 else if 57 <? x then (if between 65 x 90 then St 175 else St 0) else
      if 48 <=? x then St 175 else St 0);
   (3, λ r x, let w := widec r x in
      sw w [(32, Tr 6); (33, Tr 7); (35, Tr 8); (37, Tr 9); (47, Tr 10); (59, Tr 7); (61, Tr 7);
      (63, Tr 11); (64, Tr 7); (95, Tr 7); (126, Tr 7); (606, Tr 7); (635, Tr 7); (637, Tr 7)]
      (if w <? 65 then (if between 36 w 57 then Tr 7 else St 0) else if 90 <? w then (if
      between 97 w 122 then Tr 12 else St 0) else Tr 12))]
  [(0, ([Mark], 2)); (4, ([RequestMethod], 3)); (6, ([Mark; RequestPath; RequestUri], 4));
   (37, ([RequestPath; RequestUri], 4)); (43, ([Mark; Fragment], 4)); (46, ([Fragment], 4));
   (53, ([StartQuery; QueryString; RequestUri], 4))].

(** [src/src/http/http_request_parser.cpp:229-376] http_request_parser_execute, cases 4 to 13 and the transitions tr57 to tr23 *)
Definition request_part_2 : part RequestAction := mkPart
  [(4, λ r x, if x =? 72 then Tr 13 else St 0);
   (5, λ r x, if x =? 84 then St 6 else St 0);
   (6, λ r x, if x =? 84 then St 7 else St 0);
   (7, λ r x, if x =? 80 then St 8 else St 0);
   (8, λ r x, if x =? 47 then St 9 else St 0);
   (9, λ r x, if x =? 49 then St 10 else St 0);
   (10, λ r x, if x =? 46 then St 11 else St 0);
   (11, λ r x, if between 48 x 49 then St 12 else St 0);
   (12, λ r x, sw x [(10, Tr 21); (13, Tr 22)] (St 0));
   (13, λ r x, sw x [(10, Tr 24); (13, Tr 25); (33, Tr 23); (124, Tr 23); (126, Tr 23)]
      (if x <? 42 then (if x <? 11 then (if between 1 x 8 then Tr 23 else St 0) else if 31 <? x then
      (if between 35 x 39 then Tr 23 else St 0) else Tr 23) else if 43 <? x then (if x <? 48 then
      (if between 45 x 46 then Tr 23 else St 0) else if 57 <? x then (if 90 <? x then (if
      between 94 x 122 then Tr 23 else St 0) else if 65 <=? x then Tr 23 else St 0) else Tr 23) else
      Tr 23))]
  [(57, ([QueryString; RequestUri], 4)); (13, ([Mark], 5)); (21, ([HttpVersion], 13));
   (30, ([StartValue; WriteValue], 13)); (33, ([WriteValue], 13)); (23, ([StartField], 14))].

(** [src/src/http/http_request_parser.cpp:377-523] http_request_parser_execute, cases 14 to 17 and the transitions tr27 to tr36 *)
Definition request_part_3 : part RequestAction := mkPart
  [(14, λ r x, sw x [(33, St 14); (58, Tr 27); (124, St 14); (126, St 14)]
      (if x <? 42 then (if x <? 10 then (if between 1 x 8 then St 14 else St 0) else if 31 <? x then
      (if between 35 x 39 then St 14 else St 0) else St 14) else if 43 <? x then (if x <? 48 then
      (if between 45 x 46 then St 14 else St 0) else if 57 <? x then (if 90 <? x then (if
      between 94 x 122 then St 14 else St 0) else if 65 <=? x then St 14 else St 0) else St 14) else
      St 14));
   (15, λ r x, sw x [(0, St 0); (9, Tr 29); (10, Tr 30); (13, Tr 31); (32, Tr 29); (127, St 0)]
      (Tr 28));
   (16, λ r x, sw x [(0, St 0); (10, Tr 33); (13, Tr 34); (127, St 0)] (St 16));
   (17, λ r x, if x =? 10 then St 13 else St 0)]
  [(27, ([WriteField], 15)); (29, ([StartValue], 15)); (28, ([StartValue], 16));
   (22, ([HttpVersion], 17)); (31, ([StartValue; WriteValue], 17)); (34, ([WriteValue], 17));
   (24, ([StartField; Done], 348)); (36, ([Done], 348))].

(** [src/src/http/http_request_parser.cpp:524-663] http_request_parser_execute, cases 348 to 19 and the transitions tr25 to tr8 *)
Definition request_part_4 : part RequestAction := mkPart
  [(348, λ r x, sw x [(33, St 14); (58, Tr 27); (124, St 14); (126, St 14)]
      (if x <? 42 then (if x <? 10 then (if between 1 x 8 then St 14 else St 0) else if 31 <? x then
      (if between 35 x 39 then St 14 else St 0) else St 14) else if 43 <? x then (if x <? 48 then
      (if between 45 x 46 then St 14 else St 0) else if 57 <? x then (if 90 <? x then (if
      between 94 x 122 then St 14 else St 0) else if 65 <=? x then St 14 else St 0) else St 14) else
      St 14));
   (18, λ r x, sw x [(10, Tr 36); (33, St 14); (58, Tr 27); (124, St 14); (126, St 14)]
      (if x <? 42 then (if x <? 11 then (if between 1 x 8 then St 14 else St 0) else if 31 <? x then
      (if between 35 x 39 then St 14 else St 0) else St 14) else if 43 <? x then (if x <? 48 then
      (if between 45 x 46 then St 14 else St 0) else if 57 <? x then (if 90 <? x then (if
      between 94 x 122 then St 14 else St 0) else if 65 <=? x then St 14 else St 0) else St 14) else
      St 14));
   (19, λ r x, let w := widec r x in
      sw w [(32, Tr 37); (33, St 19); (35, Tr 39); (37, St 24); (47, St 26); (59, St 19);
      (61, St 19); (63, Tr 42); (95, St 19); (126, St 19); (606, St 19); (635, St 19); (637, St 19)]
      (if w <? 64 then (if between 36 w 57 then St 19 else St 0) else if 90 <? w then (if
      between 97 w 122 then St 19 else St 0) else St 19))]
  [(25, ([StartField], 18)); (7, ([Mark], 19)); (8, ([Mark; RequestPath; RequestUri], 20))].

(** [src/src/http/http_request_parser.cpp:664-804] http_request_parser_execute, cases 20 to 21 and the transitions tr39 to tr45 *)
Definition request_part_5 : part RequestAction := mkPart
  [(20, λ r x, let w := widec r x in
      sw w [(32, Tr 43); (33, Tr 44); (37, Tr 45); (61, Tr 44); (95, Tr 44); (126, Tr 44);
      (606, Tr 44); (635, Tr 44); (637, Tr 44)]
      (if w <? 63 then (if between 36 w 59 then Tr 44 else St 0) else if 90 <? w then (if
      between 97 w 122 then Tr 44 else St 0) else Tr 44));
   (21, λ r x, let w := widec r x in
      sw w [(32, Tr 46); (33, St 21); (37, St 22); (61, St 21); (95, St 21); (126, St 21);
      (606, St 21); (635, St 21); (637, St 21)]
      (if w <? 63 then (if between 36 w 59 then St 21 else St 0) else if 90 <? w then (if
      between 97 w 122 then St 21 else St 0) else St 21))]
  [(39, ([RequestPath; RequestUri], 20)); (55, ([StartQuery; QueryString; RequestUri], 20));
   (59, ([QueryString; RequestUri], 20)); (44, ([Mark], 21)); (45, ([Mark], 22))].

(** [src/src/http/http_request_parser.cpp:805-951] http_request_parser_execute, cases 22 to 28 and the transitions tr9 to tr11 *)
Definition request_part_6 : part RequestAction := mkPart
  [(22, λ r x, if x <? 65 then (if between 48 x 57 then St 23 else St 0) else if 70 <? x then (if
      between 97 x 102 then St 23 else St 0) else St 23);
   (23, λ r x, if x <? 65 then (if between 48 x 57 then St 21 else St 0) else if 70 <? x then (if
      between 97 x 102 then St 21 else St 0) else St 21);
   (24, λ r x, if x <? 65 then (if between 48 x 57 then St 25 else St 0) else if 70 <? x then (if
      between 97 x 102 then St 25 else St 0) else St 25);
   (25, λ r x, if x <? 65 then (if between 48 x 57 then St 19 else St 0) else if 70 <? x then (if
      between 97 x 102 then St 19 else St 0) else St 19);
   (26, λ r x, let w := widec r x in
      sw w [(32, Tr 37); (33, St 26); (35, Tr 39); (37, St 27); (61, St 26); (63, Tr 42);
      (95, St 26); (126, St 26); (606, St 26); (635, St 26); (637, St 26)]
      (if w <? 64 then (if between 36 w 59 then St 26 else St 0) else if 90 <? w then (if
      between 97 w 122 then St 26 else St 0) else St 26));
   (27, λ r x, if x <? 65 then (if between 48 x 57 then St 28 else St 0) else if 70 <? x then (if
      between 97 x 102 then St 28 else St 0) else St 28);
   (28, λ r x, if x <? 65 then (if between 48 x 57 then St 26 else St 0) else if 70 <? x then (if
      between 97 x 102 then St 26 else St 0) else St 26)]
  [(9, ([Mark], 24)); (203, ([Mark], 26)); (204, ([Mark], 27)); (11, ([Mark; RequestPath], 29))].

(** [src/src/http/http_request_parser.cpp:952-1094] http_request_parser_execute, cases 29 to 32 and the transitions tr42 to tr10 *)
Definition request_part_7 : part RequestAction := mkPart
  [(29, λ r x, let w := widec r x in
      sw w [(32, Tr 53); (33, Tr 54); (35, Tr 55); (37, Tr 56); (61, Tr 54); (95, Tr 54);
      (126, Tr 54); (606, Tr 54); (635, Tr 54); (637, Tr 54)]
      (if w <? 63 then (if between 36 w 59 then Tr 54 else St 0) else if 90 <? w then (if
      between 97 w 122 then Tr 54 else St 0) else Tr 54));
   (30, λ r x, let w := widec r x in
      sw w [(32, Tr 57); (33, St 30); (35, Tr 59); (37, St 31); (61, St 30); (95, St 30);
      (126, St 30); (606, St 30); (635, St 30); (637, St 30)]
      (if w <? 63 then (if between 36 w 59 then St 30 else St 0) else if 90 <? w then (if
      between 97 w 122 then St 30 else St 0) else St 30));
   (31, λ r x, if x <? 65 then (if between 48 x 57 then St 32 else St 0) else if 70 <? x then (if
      between 97 x 102 then St 32 else St 0) else St 32);
   (32, λ r x, if x <? 65 then (if between 48 x 57 then St 30 else St 0) else if 70 <? x then (if
      between 97 x 102 then St 30 else St 0) else St 30)]
  [(42, ([RequestPath], 29)); (54, ([StartQuery], 30)); (56, ([StartQuery], 31)); (10, ([Mark], 33))].

(** [src/src/http/http_request_parser.cpp:1095-1244] http_request_parser_execute, cases 33 to 35 *)
Definition request_part_8 : part RequestAction := mkPart
  [(33, λ r x, let w := widec r x in
      sw w [(32, Tr 37); (33, St 26); (35, Tr 39); (37, St 27); (47, St 34); (61, St 26);
      (63, Tr 42); (95, St 26); (126, St 26); (606, St 26); (635, St 26); (637, St 26)]
      (if w <? 64 then (if between 36 w 59 then St 26 else St 0) else if 90 <? w then (if
      between 97 w 122 then St 26 else St 0) else St 26));
   (34, λ r x, let w := widec r x in
      sw w [(32, Tr 37); (33, St 35); (35, Tr 39); (37, St 36); (47, St 26); (58, St 38);
      (61, St 35); (63, Tr 42); (64, St 42); (91, St 47); (95, St 35); (126, St 35); (606, St 35);
      (635, St 35); (637, St 35)]
      (if w <? 65 then (if between 36 w 59 then St 35 else St 0) else if 90 <? w then (if
      between 97 w 122 then St 35 else St 0) else St 35));
   (35, λ r x, let w := widec r x in
      sw w [(32, Tr 37); (33, St 35); (35, Tr 39); (37, St 36); (47, St 26); (58, St 38);
      (61, St 35); (63, Tr 42); (64, St 42); (95, St 35); (126, St 35); (606, St 35); (635, St 35);
      (637, St 35)]
      (if w <? 65 then (if between 36 w 59 then St 35 else St 0) else if 90 <? w then (if
      between 97 w 122 then St 35 else St 0) else St 35))]
  [].

(** [src/src/http/http_request_parser.cpp:1245-1386] http_request_parser_execute, cases 36 to 40 *)
Definition request_part_9 : part RequestAction := mkPart
  [(36, λ r x, if x <? 65 then (if between 48 x 57 then St 37 else St 0) else if 70 <? x then (if
      between 97 x 102 then St 37 else St 0) else St 37);
   (37, λ r x, if x <? 65 then (if between 48 x 57 then St 35 else St 0) else if 70 <? x then (if
      between 97 x 102 then St 35 else St 0) else St 35);
   (38, λ r x, let w := widec r x in
      sw w [(32, Tr 37); (33, St 39); (35, Tr 39); (37, St 40); (47, St 26); (61, St 39);
      (63, Tr 42); (64, St 42); (95, St 39); (126, St 39); (606, St 39); (635, St 39); (637, St 39)]
      (if w <? 58 then (if 46 <? w then (if between 48 w 57 then St 38 else St 0) else if 36 <=? w
      then St 39 else St 0) else if 59 <? w then (if 90 <? w then (if between 97 w 122 then St 39
      else St 0) else if 65 <=? w then St 39 else St 0) else St 39));
   (39, λ r x, let w := widec r x in
      sw w [(33, St 39); (37, St 40); (61, St 39); (64, St 42); (95, St 39); (126, St 39);
      (606, St 39); (635, St 39); (637, St 39)]
      (if w <? 48 then (if between 36 w 46 then St 39 else St 0) else if 59 <? w then (if 90 <? w
      then (if between 97 w 122 then St 39 else St 0) else if 65 <=? w then St 39 else St 0) else
      St 39));
   (40, λ r x, if x <? 65 then (if between 48 x 57 then St 41 else St 0) else if 70 <? x then (if
      between 97 x 102 then St 41 else St 0) else St 41)]
  [].

(** [src/src/http/http_request_parser.cpp:1387-1534] http_request_parser_execute, cases 41 to 46 *)
Definition request_part_10 : part RequestAction := mkPart
  [(41, λ r x, if x <? 65 then (if between 48 x 57 then St 39 else St 0) else if 70 <? x then (if
      between 97 x 102 then St 39 else St 0) else St 39);
   (42, λ r x, let w := widec r x in
      sw w [(32, Tr 37); (33, St 43); (35, Tr 39); (37, St 44); (47, St 26); (58, St 46);
      (61, St 43); (63, Tr 42); (91, St 47); (95, St 43); (126, St 43); (606, St 43); (635, St 43);
      (637, St 43)]
      (if w <? 65 then (if between 36 w 59 then St 43 else St 0) else if 90 <? w then (if
      between 97 w 122 then St 43 else St 0) else St 43));
   (43, λ r x, let w := widec r x in
      sw w [(32, Tr 37); (33, St 43); (35, Tr 39); (37, St 44); (47, St 26); (58, St 46);
      (61, St 43); (63, Tr 42); (95, St 43); (126, St 43); (606, St 43); (635, St 43); (637, St 43)]
      (if w <? 65 then (if between 36 w 59 then St 43 else St 0) else if 90 <? w then (if
      between 97 w 122 then St 43 else St 0) else St 43));
   (44, λ r x, if x <? 65 then (if between 48 x 57 then St 45 else St 0) else if 70 <? x then (if
      between 97 x 102 then St 45 else St 0) else St 45);
   (45, λ r x, if x <? 65 then (if between 48 x 57 then St 43 else St 0) else if 70 <? x then (if
      between 97 x 102 then St 43 else St 0) else St 43);
   (46, λ r x, sw x [(32, Tr 37); (35, Tr 39); (47, St 26); (63, Tr 42)]
      (if between 48 x 57 then St 46 else St 0))]
  [].

(** [src/src/http/http_request_parser.cpp:1535-1683] http_request_parser_execute, cases 47 to 57 *)
Definition request_part_11 : part RequestAction := mkPart
  [(47, λ r x, sw x [(6, St 48); (58, St 167); (118, St 169)]
      (if x <? 65 then (if between 48 x 57 then St 91 else St 0) else if 70 <? x then (if
      between 97 x 102 then St 91 else St 0) else St 91));
   (48, λ r x, if x <? 65 then (if between 48 x 57 then St 49 else St 0) else if 70 <? x then (if
      between 97 x 102 then St 49 else St 0) else St 49);
   (49, λ r x, if x =? 58 then St 53 else if x <? 65 then (if between 48 x 57 then St 50 else St 0)
      else if 70 <? x then (if between 97 x 102 then St 50 else St 0) else St 50);
   (50, λ r x, if x =? 58 then St 53 else if x <? 65 then (if between 48 x 57 then St 51 else St 0)
      else if 70 <? x then (if between 97 x 102 then St 51 else St 0) else St 51);
   (51, λ r x, if x =? 58 then St 53 else if x <? 65 then (if between 48 x 57 then St 52 else St 0)
      else if 70 <? x then (if between 97 x 102 then St 52 else St 0) else St 52);
   (52, λ r x, if x =? 58 then St 53 else St 0);
   (53, λ r x, sw x [(49, St 84); (50, St 87)]
      (if x <? 65 then (if between 48 x 57 then St 54 else St 0) else if 70 <? x then (if
      between 97 x 102 then St 90 else St 0) else St 90));
   (54, λ r x, sw x [(46, St 55); (58, St 80)]
      (if x <? 65 then (if between 48 x 57 then St 77 else St 0) else if 70 <? x then (if
      between 97 x 102 then St 77 else St 0) else St 77));
   (55, λ r x, sw x [(49, St 72); (50, St 74)]
      (if between 48 x 57 then St 56 else St 0));
   (56, λ r x, if x =? 46 then St 57 else St 0);
   (57, λ r x, sw x [(49, St 67); (50, St 69)]
      (if between 48 x 57 then St 58 else St 0))]
  [].

(** [src/src/http/http_request_parser.cpp:1684-1832] http_request_parser_execute, cases 58 to 74 *)
Definition request_part_12 : part RequestAction := mkPart
  [(58, λ r x, if x =? 46 then St 59 else St 0);
   (59, λ r x, sw x [(49, St 62); (50, St 64)]
      (if between 48 x 57 then St 60 else St 0));
   (60, λ r x, if x =? 93 then St 61 else St 0);
   (61, λ r x, sw x [(32, Tr 37); (35, Tr 39); (47, St 26); (58, St 46); (63, Tr 42)]
      (St 0));
   (62, λ r x, if x =? 93 then St 61 else if between 48 x 57 then St 63 else St 0);
   (63, λ r x, if x =? 93 then St 61 else if between 48 x 57 then St 60 else St 0);
   (64, λ r x, sw x [(48, St 65); (53, St 66); (93, St 61)] (St 0));
   (65, λ r x, if between 48 x 57 then St 60 else St 0);
   (66, λ r x, if x =? 48 then St 60 else St 0);
   (67, λ r x, if x =? 46 then St 59 else if between 48 x 57 then St 68 else St 0);
   (68, λ r x, if x =? 46 then St 59 else if between 48 x 57 then St 58 else St 0);
   (69, λ r x, sw x [(46, St 59); (48, St 70); (53, St 71)] (St 0));
   (70, λ r x, if between 48 x 57 then St 58 else St 0);
   (71, λ r x, if x =? 48 then St 58 else St 0);
   (72, λ r x, if x =? 46 then St 57 else if between 48 x 57 then St 73 else St 0);
   (73, λ r x, if x =? 46 then St 57 else if between 48 x 57 then St 56 else St 0);
   (74, λ r x, sw x [(46, St 57); (48, St 75); (53, St 76)] (St 0))]
  [].

(** [src/src/http/http_request_parser.cpp:1833-1975] http_request_parser_execute, cases 75 to 85 *)
Definition request_part_13 : part RequestAction := mkPart
  [(75, λ r x, if between 48 x 57 then St 56 else St 0);
   (76, λ r x, if x =? 48 then St 56 else St 0);
   (77, λ r x, if x =? 58 then St 80 else if x <? 65 then (if between 48 x 57 then St 78 else St 0)
      else if 70 <? x then (if between 97 x 102 then St 78 else St 0) else St 78);
   (78, λ r x, if x =? 58 then St 80 else if x <? 65 then (if between 48 x 57 then St 79 else St 0)
      else if 70 <? x then (if between 97 x 102 then St 79 else St 0) else St 79);
   (79, λ r x, if x =? 58 then St 80 else St 0);
   (80, λ r x, if x <? 65 then (if between 48 x 57 then St 81 else St 0) else if 70 <? x then (if
      between 97 x 102 then St 81 else St 0) else St 81);
   (81, λ r x, if x =? 93 then St 61 else if x <? 65 then (if between 48 x 57 then St 82 else St 0)
      else if 70 <? x then (if between 97 x 102 then St 82 else St 0) else St 82);
   (82, λ r x, if x =? 93 then St 61 else if x <? 65 then (if between 48 x 57 then St 83 else St 0)
      else if 70 <? x then (if between 97 x 102 then St 83 else St 0) else St 83);
   (83, λ r x, if x =? 93 then St 61 else if x <? 65 then (if between 48 x 57 then St 60 else St 0)
      else if 70 <? x then (if between 97 x 102 then St 60 else St 0) else St 60);
   (84, λ r x, sw x [(46, St 55); (58, St 80)]
      (if x <? 65 then (if between 48 x 57 then St 85 else St 0) else if 70 <? x then (if
      between 97 x 102 then St 77 else St 0) else St 77));
   (85, λ r x, sw x [(46, St 55); (58, St 80)]
      (if x <? 65 then (if between 48 x 57 then St 86 else St 0) else if 70 <? x then (if
      between 97 x 102 then St 78 else St 0) else St 78))]
  [].

(** [src/src/http/http_request_parser.cpp:1976-2125] http_request_parser_execute, cases 86 to 95 *)
Definition request_part_14 : part RequestAction := mkPart
  [(86, λ r x, sw x [(46, St 55); (58, St 80)]
      (if x <? 65 then (if between 48 x 57 then St 79 else St 0) else if 70 <? x then (if
      between 97 x 102 then St 79 else St 0) else St 79));
   (87, λ r x, sw x [(46, St 55); (48, St 88); (53, St 89); (58, St 80)]
      (if x <? 65 then (if between 49 x 57 then St 77 else St 0) else if 70 <? x then (if
      between 97 x 102 then St 77 else St 0) else St 77));
   (88, λ r x, if x =? 58 then St 80 else if x <? 65 then (if between 48 x 57 then St 86 else St 0)
      else if 70 <? x then (if between 97 x 102 then St 78 else St 0) else St 78);
   (89, λ r x, sw x [(48, St 86); (58, St 80)]
      (if x <? 65 then (if between 49 x 57 then St 78 else St 0) else if 70 <? x then (if
      between 97 x 102 then St 78 else St 0) else St 78));
   (90, λ r x, if x =? 58 then St 80 else if x <? 65 then (if between 48 x 57 then St 77 else St 0)
      else if 70 <? x then (if between 97 x 102 then St 77 else St 0) else St 77);
   (91, λ r x, if x =? 58 then St 95 else if x <? 65 then (if between 48 x 57 then St 92 else St 0)
      else if 70 <? x then (if between 97 x 102 then St 92 else St 0) else St 92);
   (92, λ r x, if x =? 58 then St 95 else if x <? 65 then (if between 48 x 57 then St 93 else St 0)
      else if 70 <? x then (if between 97 x 102 then St 93 else St 0) else St 93);
   (93, λ r x, if x =? 58 then St 95 else if x <? 65 then (if between 48 x 57 then St 94 else St 0)
      else if 70 <? x then (if between 97 x 102 then St 94 else St 0) else St 94);
   (94, λ r x, if x =? 58 then St 95 else St 0);
   (95, λ r x, if x =? 58 then St 166 else if x <? 65 then (if between 48 x 57 then St 96 else St 0)
      else if 70 <? x then (if between 97 x 102 then St 96 else St 0) else St 96)]
  [].

(** [src/src/http/http_request_parser.cpp:2126-2274] http_request_parser_execute, cases 96 to 106 *)
Definition request_part_15 : part RequestAction := mkPart
  [(96, λ r x, if x =? 58 then St 100 else if x <? 65 then (if between 48 x 57 then St 97 else St 0)
      else if 70 <? x then (if between 97 x 102 then St 97 else St 0) else St 97);
   (97, λ r x, if x =? 58 then St 100 else if x <? 65 then (if between 48 x 57 then St 98 else St 0)
      else if 70 <? x then (if between 97 x 102 then St 98 else St 0) else St 98);
   (98, λ r x, if x =? 58 then St 100 else if x <? 65 then (if between 48 x 57 then St 99 else St 0)
      else if 70 <? x then (if between 97 x 102 then St 99 else St 0) else St 99);
   (99, λ r x, if x =? 58 then St 100 else St 0);
   (100, λ r x, if x =? 58 then St 165 else if x <? 65 then (if between 48 x 57 then St 101 else St 0)
      else if 70 <? x then (if between 97 x 102 then St 101 else St 0) else St 101);
   (101, λ r x, if x =? 58 then St 105 else if x <? 65 then (if between 48 x 57 then St 102 else St 0)
      else if 70 <? x then (if between 97 x 102 then St 102 else St 0) else St 102);
   (102, λ r x, if x =? 58 then St 105 else if x <? 65 then (if between 48 x 57 then St 103 else St 0)
      else if 70 <? x then (if between 97 x 102 then St 103 else St 0) else St 103);
   (103, λ r x, if x =? 58 then St 105 else if x <? 65 then (if between 48 x 57 then St 104 else St 0)
      else if 70 <? x then (if between 97 x 102 then St 104 else St 0) else St 104);
   (104, λ r x, if x =? 58 then St 105 else St 0);
   (105, λ r x, if x =? 58 then St 164 else if x <? 65 then (if between 48 x 57 then St 106 else St 0)
      else if 70 <? x then (if between 97 x 102 then St 106 else St 0) else St 106);
   (106, λ r x, if x =? 58 then St 110 else if x <? 65 then (if between 48 x 57 then St 107 else St 0)
      else if 70 <? x then (if between 97 x 102 then St 107 else St 0) else St 107)]
  [].

(** [src/src/http/http_request_parser.cpp:2275-2423] http_request_parser_execute, cases 107 to 117 *)
Definition request_part_16 : part RequestAction := mkPart
  [(107, λ r x, if x =? 58 then St 110 else if x <? 65 then (if between 48 x 57 then St 108 else St 0)
      else if 70 <? x then (if between 97 x 102 then St 108 else St 0) else St 108);
   (108, λ r x, if x =? 58 then St 110 else if x <? 65 then (if between 48 x 57 then St 109 else St 0)
      else if 70 <? x then (if between 97 x 102 then St 109 else St 0) else St 109);
   (109, λ r x, if x =? 58 then St 110 else St 0);
   (110, λ r x, if x =? 58 then St 163 else if x <? 65 then (if between 48 x 57 then St 111 else St 0)
      else if 70 <? x then (if between 97 x 102 then St 111 else St 0) else St 111);
   (111, λ r x, if x =? 58 then St 115 else if x <? 65 then (if between 48 x 57 then St 112 else St 0)
      else if 70 <? x then (if between 97 x 102 then St 112 else St 0) else St 112);
   (112, λ r x, if x =? 58 then St 115 else if x <? 65 then (if between 48 x 57 then St 113 else St 0)
      else if 70 <? x then (if between 97 x 102 then St 113 else St 0) else St 113);
   (113, λ r x, if x =? 58 then St 115 else if x <? 65 then (if between 48 x 57 then St 114 else St 0)
      else if 70 <? x then (if between 97 x 102 then St 114 else St 0) else St 114);
   (114, λ r x, if x =? 58 then St 115 else St 0);
   (115, λ r x, if x =? 58 then St 151 else if x <? 65 then (if between 48 x 57 then St 116 else St 0)
      else if 70 <? x then (if between 97 x 102 then St 116 else St 0) else St 116);
   (116, λ r x, if x =? 58 then St 120 else if x <? 65 then (if between 48 x 57 then St 117 else St 0)
      else if 70 <? x then (if between 97 x 102 then St 117 else St 0) else St 117);
   (117, λ r x, if x =? 58 then St 120 else if x <? 65 then (if between 48 x 57 then St 118 else St 0)
      else if 70 <? x then (if between 97 x 102 then St 118 else St 0) else St 118)]
  [].

(** [src/src/http/http_request_parser.cpp:2424-2566] http_request_parser_execute, cases 118 to 127 *)
Definition request_part_17 : part RequestAction := mkPart
  [(118, λ r x, if x =? 58 then St 120 else if x <? 65 then (if between 48 x 57 then St 119 else St 0)
      else if 70 <? x then (if between 97 x 102 then St 119 else St 0) else St 119);
   (119, λ r x, if x =? 58 then St 120 else St 0);
   (120, λ r x, if x =? 58 then St 150 else if x <? 65 then (if between 48 x 57 then St 121 else St 0)
      else if 70 <? x then (if between 97 x 102 then St 121 else St 0) else St 121);
   (121, λ r x, if x =? 58 then St 125 else if x <? 65 then (if between 48 x 57 then St 122 else St 0)
      else if 70 <? x then (if between 97 x 102 then St 122 else St 0) else St 122);
   (122, λ r x, if x =? 58 then St 125 else if x <? 65 then (if between 48 x 57 then St 123 else St 0)
      else if 70 <? x then (if between 97 x 102 then St 123 else St 0) else St 123);
   (123, λ r x, if x =? 58 then St 125 else if x <? 65 then (if between 48 x 57 then St 124 else St 0)
      else if 70 <? x then (if between 97 x 102 then St 124 else St 0) else St 124);
   (124, λ r x, if x =? 58 then St 125 else St 0);
   (125, λ r x, if x =? 58 then St 126 else if x <? 65 then (if between 48 x 57 then St 121 else St 0)
      else if 70 <? x then (if between 97 x 102 then St 121 else St 0) else St 121);
   (126, λ r x, sw x [(49, St 143); (50, St 146); (93, St 61)]
      (if x <? 48 then (if between 2 x 3 then St 48 else St 0) else if 57 <? x then (if 70 <? x then
      (if between 97 x 102 then St 149 else St 0) else if 65 <=? x then St 149 else St 0) else
      St 127));
   (127, λ r x, sw x [(46, St 55); (58, St 131); (93, St 61)]
      (if x <? 65 then (if between 48 x 57 then St 128 else St 0) else if 70 <? x then (if
      between 97 x 102 then St 128 else St 0) else St 128))]
  [].

(** [src/src/http/http_request_parser.cpp:2567-2705] http_request_parser_execute, cases 128 to 136 *)
Definition request_part_18 : part RequestAction := mkPart
  [(128, λ r x, sw x [(58, St 131); (93, St 61)]
      (if x <? 65 then (if between 48 x 57 then St 129 else St 0) else if 70 <? x then (if
      between 97 x 102 then St 129 else St 0) else St 129));
   (129, λ r x, sw x [(58, St 131); (93, St 61)]
      (if x <? 65 then (if between 48 x 57 then St 130 else St 0) else if 70 <? x then (if
      between 97 x 102 then St 130 else St 0) else St 130));
   (130, λ r x, sw x [(58, St 131); (93, St 61)] (St 0));
   (131, λ r x, sw x [(49, St 136); (50, St 139)]
      (if x <? 65 then (if between 48 x 57 then St 132 else St 0) else if 70 <? x then (if
      between 97 x 102 then St 142 else St 0) else St 142));
   (132, λ r x, sw x [(46, St 55); (58, St 80); (93, St 61)]
      (if x <? 65 then (if between 48 x 57 then St 133 else St 0) else if 70 <? x then (if
      between 97 x 102 then St 133 else St 0) else St 133));
   (133, λ r x, sw x [(58, St 80); (93, St 61)]
      (if x <? 65 then (if between 48 x 57 then St 134 else St 0) else if 70 <? x then (if
      between 97 x 102 then St 134 else St 0) else St 134));
   (134, λ r x, sw x [(58, St 80); (93, St 61)]
      (if x <? 65 then (if between 48 x 57 then St 135 else St 0) else if 70 <? x then (if
      between 97 x 102 then St 135 else St 0) else St 135));
   (135, λ r x, sw x [(58, St 80); (93, St 61)] (St 0));
   (136, λ r x, sw x [(46, St 55); (58, St 80); (93, St 61)]
      (if x <? 65 then (if between 48 x 57 then St 137 else St 0) else if 70 <? x then (if
      between 97 x 102 then St 133 else St 0) else St 133))]
  [].

(** [src/src/http/http_request_parser.cpp:2706-2849] http_request_parser_execute, cases 137 to 144 *)
Definition request_part_19 : part RequestAction := mkPart
  [(137, λ r x, sw x [(46, St 55); (58, St 80); (93, St 61)]
      (if x <? 65 then (if between 48 x 57 then St 138 else St 0) else if 70 <? x then (if
      between 97 x 102 then St 134 else St 0) else St 134));
   (138, λ r x, sw x [(46, St 55); (58, St 80); (93, St 61)]
      (if x <? 65 then (if between 48 x 57 then St 135 else St 0) else if 70 <? x then (if
      between 97 x 102 then St 135 else St 0) else St 135));
   (139, λ r x, sw x [(46, St 55); (48, St 140); (53, St 141); (58, St 80); (93, St 61)]
      (if x <? 65 then (if between 49 x 57 then St 133 else St 0) else if 70 <? x then (if
      between 97 x 102 then St 133 else St 0) else St 133));
   (140, λ r x, sw x [(58, St 80); (93, St 61)]
      (if x <? 65 then (if between 48 x 57 then St 138 else St 0) else if 70 <? x then (if
      between 97 x 102 then St 134 else St 0) else St 134));
   (141, λ r x, sw x [(48, St 138); (58, St 80); (93, St 61)]
      (if x <? 65 then (if between 49 x 57 then St 134 else St 0) else if 70 <? x then (if
      between 97 x 102 then St 134 else St 0) else St 134));
   (142, λ r x, sw x [(58, St 80); (93, St 61)]
      (if x <? 65 then (if between 48 x 57 then St 133 else St 0) else if 70 <? x then (if
      between 97 x 102 then St 133 else St 0) else St 133));
   (143, λ r x, sw x [(46, St 55); (58, St 131); (93, St 61)]
      (if x <? 65 then (if between 48 x 57 then St 144 else St 0) else if 70 <? x then (if
      between 97 x 102 then St 128 else St 0) else St 128));
   (144, λ r x, sw x [(46, St 55); (58, St 131); (93, St 61)]
      (if x <? 65 then (if between 48 x 57 then St 145 else St 0) else if 70 <? x then (if
      between 97 x 102 then St 129 else St 0) else St 129))]
  [].

(** [src/src/http/http_request_parser.cpp:2850-2996] http_request_parser_execute, cases 145 to 152 *)
Definition request_part_20 : part RequestAction := mkPart
  [(145, λ r x, sw x [(46, St 55); (58, St 131); (93, St 61)]
      (if x <? 65 then (if between 48 x 57 then St 130 else St 0) else if 70 <? x then (if
      between 97 x 102 then St 130 else St 0) else St 130));
   (146, λ r x, sw x [(46, St 55); (48, St 147); (53, St 148); (58, St 131); (93, St 61)]
      (if x <? 65 then (if between 49 x 57 then St 128 else St 0) else if 70 <? x then (if
      between 97 x 102 then St 128 else St 0) else St 128));
   (147, λ r x, sw x [(58, St 131); (93, St 61)]
      (if x <? 65 then (if between 48 x 57 then St 145 else St 0) else if 70 <? x then (if
      between 97 x 102 then St 129 else St 0) else St 129));
   (148, λ r x, sw x [(48, St 145); (58, St 131); (93, St 61)]
      (if x <? 65 then (if between 49 x 57 then St 129 else St 0) else if 70 <? x then (if
      between 97 x 102 then St 129 else St 0) else St 129));
   (149, λ r x, sw x [(58, St 131); (93, St 61)]
      (if x <? 65 then (if between 48 x 57 then St 128 else St 0) else if 70 <? x then (if
      between 97 x 102 then St 128 else St 0) else St 128));
   (150, λ r x, sw x [(49, St 143); (50, St 146)]
      (if x <? 48 then (if between 2 x 3 then St 48 else St 0) else if 57 <? x then (if 70 <? x then
      (if between 97 x 102 then St 149 else St 0) else if 65 <=? x then St 149 else St 0) else
      St 127));
   (151, λ r x, sw x [(49, St 156); (50, St 159)]
      (if x <? 48 then (if between 2 x 3 then St 48 else St 0) else if 57 <? x then (if 70 <? x then
      (if between 97 x 102 then St 162 else St 0) else if 65 <=? x then St 162 else St 0) else
      St 152));
   (152, λ r x, sw x [(46, St 55); (58, St 131)]
      (if x <? 65 then (if between 48 x 57 then St 153 else St 0) else if 70 <? x then (if
      between 97 x 102 then St 153 else St 0) else St 153))]
  [].

(** [src/src/http/http_request_parser.cpp:2997-3135] http_request_parser_execute, cases 153 to 161 *)
Definition request_part_21 : part RequestAction := mkPart
  [(153, λ r x, if x =? 58 then St 131 else if x <? 65 then (if between 48 x 57 then St 154 else St 0)
      else if 70 <? x then (if between 97 x 102 then St 154 else St 0) else St 154);
   (154, λ r x, if x =? 58 then St 131 else if x <? 65 then (if between 48 x 57 then St 155 else St 0)
      else if 70 <? x then (if between 97 x 102 then St 155 else St 0) else St 155);
   (155, λ r x, if x =? 58 then St 131 else St 0);
   (156, λ r x, sw x [(46, St 55); (58, St 131)]
      (if x <? 65 then (if between 48 x 57 then St 157 else St 0) else if 70 <? x then (if
      between 97 x 102 then St 153 else St 0) else St 153));
   (157, λ r x, sw x [(46, St 55); (58, St 131)]
      (if x <? 65 then (if between 48 x 57 then St 158 else St 0) else if 70 <? x then (if
      between 97 x 102 then St 154 else St 0) else St 154));
   (158, λ r x, sw x [(46, St 55); (58, St 131)]
      (if x <? 65 then (if between 48 x 57 then St 155 else St 0) else if 70 <? x then (if
      between 97 x 102 then St 155 else St 0) else St 155));
   (159, λ r x, sw x [(46, St 55); (48, St 160); (53, St 161); (58, St 131)]
      (if x <? 65 then (if between 49 x 57 then St 153 else St 0) else if 70 <? x then (if
      between 97 x 102 then St 153 else St 0) else St 153));
   (160, λ r x, if x =? 58 then St 131 else if x <? 65 then (if between 48 x 57 then St 158 else St 0)
      else if 70 <? x then (if between 97 x 102 then St 154 else St 0) else St 154);
   (161, λ r x, sw x [(48, St 158); (58, St 131)]
      (if x <? 65 then (if between 49 x 57 then St 154 else St 0) else if 70 <? x then (if
      between 97 x 102 then St 154 else St 0) else St 154))]
  [].

(** [src/src/http/http_request_parser.cpp:3136-3243] http_request_parser_execute, cases 162 to 170 *)
Definition request_part_22 : part RequestAction := mkPart
  [(162, λ r x, if x =? 58 then St 131 else if x <? 65 then (if between 48 x 57 then St 153 else St 0)
      else if 70 <? x then (if between 97 x 102 then St 153 else St 0) else St 153);
   (163, λ r x, if x <? 48 then (if between 2 x 3 then St 48 else St 0) else if 57 <? x then (if
      70 <? x then (if between 97 x 102 then St 49 else St 0) else if 65 <=? x then St 49 else St 0)
      else St 49);
   (164, λ r x, if between 2 x 3 then St 48 else St 0);
   (165, λ r x, if x =? 3 then St 48 else St 0);
   (166, λ r x, if x =? 4 then St 48 else St 0);
   (167, λ r x, if x =? 58 then St 168 else St 0);
   (168, λ r x, sw x [(49, St 143); (50, St 146); (93, St 61)]
      (if x <? 48 then (if between 2 x 5 then St 48 else St 0) else if 57 <? x then (if 70 <? x then
      (if between 97 x 102 then St 149 else St 0) else if 65 <=? x then St 149 else St 0) else
      St 127));
   (169, λ r x, if x <? 65 then (if between 48 x 57 then St 170 else St 0) else if 70 <? x then (if
      between 97 x 102 then St 170 else St 0) else St 170);
   (170, λ r x, if x =? 46 then St 171 else if x <? 65 then (if between 48 x 57 then St 170 else St 0)
      else if 70 <? x then (if between 97 x 102 then St 170 else St 0) else St 170)]
  [].

(** [src/src/http/http_request_parser.cpp:3244-3342] http_request_parser_execute, cases 171 to 172 and the transition tr12 *)
Definition request_part_23 : part RequestAction := mkPart
  [(171, λ r x, let w := widec r x in
      sw w [(33, St 172); (36, St 172); (61, St 172); (95, St 172); (126, St 172); (606, St 172);
      (635, St 172); (637, St 172)]
      (if w <? 48 then (if between 38 w 46 then St 172 else St 0) else if 59 <? w then (if 90 <? w
      then (if between 97 w 122 then St 172 else St 0) else if 65 <=? w then St 172 else St 0) else
      St 172));
   (172, λ r x, let w := widec r x in
      sw w [(33, St 172); (36, St 172); (61, St 172); (93, St 61); (95, St 172); (126, St 172);
      (606, St 172); (635, St 172); (637, St 172)]
      (if w <? 48 then (if between 38 w 46 then St 172 else St 0) else if 59 <? w then (if 90 <? w
      then (if between 97 w 122 then St 172 else St 0) else if 65 <=? w then St 172 else St 0) else
      St 172))]
  [(12, ([Mark], 173))].

(** [src/src/http/http_request_parser.cpp:3343-3491] http_request_parser_execute, cases 173 to 178 *)
Definition request_part_24 : part RequestAction := mkPart
  [(173, λ r x, let w := widec r x in
      sw w [(32, Tr 37); (33, St 19); (35, Tr 39); (37, St 24); (43, St 173); (47, St 26);
      (58, St 174); (59, St 19); (61, St 19); (63, Tr 42); (64, St 19); (95, St 19); (126, St 19);
      (606, St 19); (635, St 19); (637, St 19)]
      (if w <? 45 then (if between 36 w 44 then St 19 else St 0) else if 57 <? w then (if 90 <? w
      then (if between 97 w 122 then St 173 else St 0) else if 65 <=? w then St 173 else St 0) else
      St 173));
   (174, λ r x, let w := widec r x in
      sw w [(32, Tr 6); (33, Tr 203); (35, Tr 8); (37, Tr 204); (47, Tr 10); (61, Tr 203);
      (63, Tr 11); (95, Tr 203); (126, Tr 203); (606, Tr 203); (635, Tr 203); (637, Tr 203)]
      (if w <? 64 then (if between 36 w 59 then Tr 203 else St 0) else if 90 <? w then (if
      between 97 w 122 then Tr 203 else St 0) else Tr 203));
   (175, λ r x, if x =? 32 then Tr 4 else if 57 <? x then (if between 65 x 90 then St 176 else St 0)
      else if 48 <=? x then St 176 else St 0);
   (176, λ r x, if x =? 32 then Tr 4 else if 57 <? x then (if between 65 x 90 then St 177 else St 0)
      else if 48 <=? x then St 177 else St 0);
   (177, λ r x, if x =? 32 then Tr 4 else if 57 <? x then (if between 65 x 90 then St 178 else St 0)
      else if 48 <=? x then St 178 else St 0);
   (178, λ r x, if x =? 32 then Tr 4 else if 57 <? x then (if between 65 x 90 then St 179 else St 0)
      else if 48 <=? x then St 179 else St 0)]
  [].

(** [src/src/http/http_request_parser.cpp:3492-3638] http_request_parser_execute, cases 179 to 190 *)
Definition request_part_25 : part RequestAction := mkPart
  [(179, λ r x, if x =? 32 then Tr 4 else if 57 <? x then (if between 65 x 90 then St 180 else St 0)
      else if 48 <=? x then St 180 else St 0);
   (180, λ r x, if x =? 32 then Tr 4 else if 57 <? x then (if between 65 x 90 then St 181 else St 0)
      else if 48 <=? x then St 181 else St 0);
   (181, λ r x, if x =? 32 then Tr 4 else if 57 <? x then (if between 65 x 90 then St 182 else St 0)
      else if 48 <=? x then St 182 else St 0);
   (182, λ r x, if x =? 32 then Tr 4 else if 57 <? x then (if between 65 x 90 then St 183 else St 0)
      else if 48 <=? x then St 183 else St 0);
   (183, λ r x, if x =? 32 then Tr 4 else if 57 <? x then (if between 65 x 90 then St 184 else St 0)
      else if 48 <=? x then St 184 else St 0);
   (184, λ r x, if x =? 32 then Tr 4 else if 57 <? x then (if between 65 x 90 then St 185 else St 0)
      else if 48 <=? x then St 185 else St 0);
   (185, λ r x, if x =? 32 then Tr 4 else if 57 <? x then (if between 65 x 90 then St 186 else St 0)
      else if 48 <=? x then St 186 else St 0);
   (186, λ r x, if x =? 32 then Tr 4 else if 57 <? x then (if between 65 x 90 then St 187 else St 0)
      else if 48 <=? x then St 187 else St 0);
   (187, λ r x, if x =? 32 then Tr 4 else if 57 <? x then (if between 65 x 90 then St 188 else St 0)
      else if 48 <=? x then St 188 else St 0);
   (188, λ r x, if x =? 32 then Tr 4 else if 57 <? x then (if between 65 x 90 then St 189 else St 0)
      else if 48 <=? x then St 189 else St 0);
   (189, λ r x, if x =? 32 then Tr 4 else if 57 <? x then (if between 65 x 90 then St 190 else St 0)
      else if 48 <=? x then St 190 else St 0);
   (190, λ r x, if x =? 32 then Tr 4 else if 57 <? x then (if between 65 x 90 then St 191 else St 0)
      else if 48 <=? x then St 191 else St 0)]
  [].

(** [src/src/http/http_request_parser.cpp:3639-3787] http_request_parser_execute, cases 191 to 349 and the transitions tr2 to tr3 *)
Definition request_part_26 : part RequestAction := mkPart
  [(191, λ r x, if x =? 32 then Tr 4 else if 57 <? x then (if between 65 x 90 then St 192 else St 0)
      else if 48 <=? x then St 192 else St 0);
   (192, λ r x, if x =? 32 then Tr 4 else if 57 <? x then (if between 65 x 90 then St 193 else St 0)
      else if 48 <=? x then St 193 else St 0);
   (193, λ r x, if x =? 32 then Tr 4 else St 0);
   (194, λ r x, if x <? 48 then (if between 45 x 46 then St 195 else St 0) else if 57 <? x then (if
      90 <? x then (if between 97 x 122 then St 195 else St 0) else if 65 <=? x then St 195 else
      St 0) else St 195);
   (195, λ r x, sw x [(32, Tr 224); (47, Tr 224); (62, Tr 224)]
      (if x <? 45 then (if between 9 x 13 then Tr 224 else St 0) else if 57 <? x then (if 90 <? x
      then (if between 97 x 122 then St 195 else St 0) else if 65 <=? x then St 195 else St 0) else
      St 195));
   (196, λ r x, if x =? 62 then St 197 else St 196);
   (197, λ r x, sw x [(0, Tr 227); (62, St 197)] (St 196));
   (349, λ r x, St 0)]
  [(2, ([Mark], 194)); (224, ([RequestPath], 196)); (227, ([Xml; Done], 349));
   (235, ([Json; Done], 349)); (3, ([Mark], 198))].

(** [src/src/http/http_request_parser.cpp:3788-3931] http_request_parser_execute, cases 198 to 203 and the transitions tr228 to tr232 *)
Definition request_part_27 : part RequestAction := mkPart
  [(198, λ r x, let w := widec r x in
      sw w [(32, Tr 228); (33, St 202); (37, St 203); (47, St 208); (59, St 202); (61, St 202);
      (95, St 202); (126, St 202); (606, St 202); (635, St 202); (637, St 202)]
      (if w <? 64 then (if between 36 w 57 then St 202 else St 0) else if 90 <? w then (if
      between 97 w 122 then St 202 else St 0) else St 202));
   (199, λ r x, if x =? 123 then Tr 232 else St 0);
   (200, λ r x, if x =? 125 then St 201 else St 200);
   (201, λ r x, sw x [(0, Tr 235); (125, St 201)] (St 200));
   (202, λ r x, let w := widec r x in
      sw w [(32, Tr 228); (33, St 202); (37, St 203); (47, St 205); (59, St 202); (61, St 202);
      (95, St 202); (126, St 202); (606, St 202); (635, St 202); (637, St 202)]
      (if w <? 64 then (if between 36 w 57 then St 202 else St 0) else if 90 <? w then (if
      between 97 w 122 then St 202 else St 0) else St 202));
   (203, λ r x, if x <? 65 then (if between 48 x 57 then St 204 else St 0) else if 70 <? x then (if
      between 97 x 102 then St 204 else St 0) else St 204)]
  [(228, ([RequestPath], 199)); (232, ([Mark], 200))].

(** [src/src/http/http_request_parser.cpp:3932-4061] http_request_parser_execute, cases 204 to 208 *)
Definition request_part_28 : part RequestAction := mkPart
  [(204, λ r x, if x <? 65 then (if between 48 x 57 then St 202 else St 0) else if 70 <? x then (if
      between 97 x 102 then St 202 else St 0) else St 202);
   (205, λ r x, let w := widec r x in
      sw w [(32, Tr 228); (33, St 205); (37, St 206); (61, St 205); (95, St 205); (126, St 205);
      (606, St 205); (635, St 205); (637, St 205)]
      (if w <? 64 then (if between 36 w 59 then St 205 else St 0) else if 90 <? w then (if
      between 97 w 122 then St 205 else St 0) else St 205));
   (206, λ r x, if x <? 65 then (if between 48 x 57 then St 207 else St 0) else if 70 <? x then (if
      between 97 x 102 then St 207 else St 0) else St 207);
   (207, λ r x, if x <? 65 then (if between 48 x 57 then St 205 else St 0) else if 70 <? x then (if
      between 97 x 102 then St 205 else St 0) else St 205);
   (208, λ r x, let w := widec r x in
      sw w [(32, Tr 228); (33, St 205); (37, St 206); (47, St 209); (61, St 205); (95, St 205);
      (126, St 205); (606, St 205); (635, St 205); (637, St 205)]
      (if w <? 64 then (if between 36 w 59 then St 205 else St 0) else if 90 <? w then (if
      between 97 w 122 then St 205 else St 0) else St 205))]
  [].

(** [src/src/http/http_request_parser.cpp:4062-4184] http_request_parser_execute, cases 209 to 212 *)
Definition request_part_29 : part RequestAction := mkPart
  [(209, λ r x, let w := widec r x in
      sw w [(32, Tr 228); (33, St 210); (37, St 211); (47, St 205); (58, St 213); (61, St 210);
      (64, St 217); (91, St 222); (95, St 210); (126, St 210); (606, St 210); (635, St 210);
      (637, St 210)]
      (if w <? 65 then (if between 36 w 59 then St 210 else St 0) else if 90 <? w then (if
      between 97 w 122 then St 210 else St 0) else St 210));
   (210, λ r x, let w := widec r x in
      sw w [(32, Tr 228); (33, St 210); (37, St 211); (47, St 205); (58, St 213); (61, St 210);
      (64, St 217); (95, St 210); (126, St 210); (606, St 210); (635, St 210); (637, St 210)]
      (if w <? 65 then (if between 36 w 59 then St 210 else St 0) else if 90 <? w then (if
      between 97 w 122 then St 210 else St 0) else St 210));
   (211, λ r x, if x <? 65 then (if between 48 x 57 then St 212 else St 0) else if 70 <? x then (if
      between 97 x 102 then St 212 else St 0) else St 212);
   (212, λ r x, if x <? 65 then (if between 48 x 57 then St 210 else St 0) else if 70 <? x then (if
      between 97 x 102 then St 210 else St 0) else St 210)]
  [].

(** [src/src/http/http_request_parser.cpp:4185-4311] http_request_parser_execute, cases 213 to 216 *)
Definition request_part_30 : part RequestAction := mkPart
  [(213, λ r x, let w := widec r x in
      sw w [(32, Tr 228); (33, St 214); (37, St 215); (47, St 205); (61, St 214); (64, St 217);
      (95, St 214); (126, St 214); (606, St 214); (635, St 214); (637, St 214)]
      (if w <? 58 then (if 46 <? w then (if between 48 w 57 then St 213 else St 0) else if 36 <=? w
      then St 214 else St 0) else if 59 <? w then (if 90 <? w then (if between 97 w 122 then St 214
      else St 0) else if 65 <=? w then St 214 else St 0) else St 214));
   (214, λ r x, let w := widec r x in
      sw w [(33, St 214); (37, St 215); (61, St 214); (64, St 217); (95, St 214); (126, St 214);
      (606, St 214); (635, St 214); (637, St 214)]
      (if w <? 48 then (if between 36 w 46 then St 214 else St 0) else if 59 <? w then (if 90 <? w
      then (if between 97 w 122 then St 214 else St 0) else if 65 <=? w then St 214 else St 0) else
      St 214));
   (215, λ r x, if x <? 65 then (if between 48 x 57 then St 216 else St 0) else if 70 <? x then (if
      between 97 x 102 then St 216 else St 0) else St 216);
   (216, λ r x, if x <? 65 then (if between 48 x 57 then St 214 else St 0) else if 70 <? x then (if
      between 97 x 102 then St 214 else St 0) else St 214)]
  [].

(** [src/src/http/http_request_parser.cpp:4312-4461] http_request_parser_execute, cases 217 to 222 *)
Definition request_part_31 : part RequestAction := mkPart
  [(217, λ r x, let w := widec r x in
      sw w [(32, Tr 228); (33, St 218); (37, St 219); (47, St 205); (58, St 221); (61, St 218);
      (91, St 222); (95, St 218); (126, St 218); (606, St 218); (635, St 218); (637, St 218)]
      (if w <? 65 then (if between 36 w 59 then St 218 else St 0) else if 90 <? w then (if
      between 97 w 122 then St 218 else St 0) else St 218));
   (218, λ r x, let w := widec r x in
      sw w [(32, Tr 228); (33, St 218); (37, St 219); (47, St 205); (58, St 221); (61, St 218);
      (95, St 218); (126, St 218); (606, St 218); (635, St 218); (637, St 218)]
      (if w <? 65 then (if between 36 w 59 then St 218 else St 0) else if 90 <? w then (if
      between 97 w 122 then St 218 else St 0) else St 218));
   (219, λ r x, if x <? 65 then (if between 48 x 57 then St 220 else St 0) else if 70 <? x then (if
      between 97 x 102 then St 220 else St 0) else St 220);
   (220, λ r x, if x <? 65 then (if between 48 x 57 then St 218 else St 0) else if 70 <? x then (if
      between 97 x 102 then St 218 else St 0) else St 218);
   (221, λ r x, sw x [(32, Tr 228); (47, St 205)]
      (if between 48 x 57 then St 221 else St 0));
   (222, λ r x, sw x [(6, St 223); (58, St 342); (118, St 344)]
      (if x <? 65 then (if between 48 x 57 then St 266 else St 0) else if 70 <? x then (if
      between 97 x 102 then St 266 else St 0) else St 266))]
  [].

(** [src/src/http/http_request_parser.cpp:4462-4611] http_request_parser_execute, cases 223 to 235 *)
Definition request_part_32 : part RequestAction := mkPart
  [(223, λ r x, if x <? 65 then (if between 48 x 57 then St 224 else St 0) else if 70 <? x then (if
      between 97 x 102 then St 224 else St 0) else St 224);
   (224, λ r x, if x =? 58 then St 228 else if x <? 65 then (if between 48 x 57 then St 225 else St 0)
      else if 70 <? x then (if between 97 x 102 then St 225 else St 0) else St 225);
   (225, λ r x, if x =? 58 then St 228 else if x <? 65 then (if between 48 x 57 then St 226 else St 0)
      else if 70 <? x then (if between 97 x 102 then St 226 else St 0) else St 226);
   (226, λ r x, if x =? 58 then St 228 else if x <? 65 then (if between 48 x 57 then St 227 else St 0)
      else if 70 <? x then (if between 97 x 102 then St 227 else St 0) else St 227);
   (227, λ r x, if x =? 58 then St 228 else St 0);
   (228, λ r x, sw x [(49, St 259); (50, St 262)]
      (if x <? 65 then (if between 48 x 57 then St 229 else St 0) else if 70 <? x then (if
      between 97 x 102 then St 265 else St 0) else St 265));
   (229, λ r x, sw x [(46, St 230); (58, St 255)]
      (if x <? 65 then (if between 48 x 57 then St 252 else St 0) else if 70 <? x then (if
      between 97 x 102 then St 252 else St 0) else St 252));
   (230, λ r x, sw x [(49, St 247); (50, St 249)]
      (if between 48 x 57 then St 231 else St 0));
   (231, λ r x, if x =? 46 then St 232 else St 0);
   (232, λ r x, sw x [(49, St 242); (50, St 244)]
      (if between 48 x 57 then St 233 else St 0));
   (233, λ r x, if x =? 46 then St 234 else St 0);
   (234, λ r x, sw x [(49, St 237); (50, St 239)]
      (if between 48 x 57 then St 235 else St 0));
   (235, λ r x, if x =? 93 then St 236 else St 0)]
  [].

(** [src/src/http/http_request_parser.cpp:4612-4750] http_request_parser_execute, cases 236 to 251 *)
Definition request_part_33 : part RequestAction := mkPart
  [(236, λ r x, sw x [(32, Tr 228); (47, St 205); (58, St 221)] (St 0));
   (237, λ r x, if x =? 93 then St 236 else if between 48 x 57 then St 238 else St 0);
   (238, λ r x, if x =? 93 then St 236 else if between 48 x 57 then St 235 else St 0);
   (239, λ r x, sw x [(48, St 240); (53, St 241); (93, St 236)] (St 0));
   (240, λ r x, if between 48 x 57 then St 235 else St 0);
   (241, λ r x, if x =? 48 then St 235 else St 0);
   (242, λ r x, if x =? 46 then St 234 else if between 48 x 57 then St 243 else St 0);
   (243, λ r x, if x =? 46 then St 234 else if between 48 x 57 then St 233 else St 0);
   (244, λ r x, sw x [(46, St 234); (48, St 245); (53, St 246)] (St 0));
   (245, λ r x, if between 48 x 57 then St 233 else St 0);
   (246, λ r x, if x =? 48 then St 233 else St 0);
   (247, λ r x, if x =? 46 then St 232 else if between 48 x 57 then St 248 else St 0);
   (248, λ r x, if x =? 46 then St 232 else if between 48 x 57 then St 231 else St 0);
   (249, λ r x, sw x [(46, St 232); (48, St 250); (53, St 251)] (St 0));
   (250, λ r x, if between 48 x 57 then St 231 else St 0);
   (251, λ r x, if x =? 48 then St 231 else St 0)]
  [].

(** [src/src/http/http_request_parser.cpp:4751-4896] http_request_parser_execute, cases 252 to 261 *)
Definition request_part_34 : part RequestAction := mkPart
  [(252, λ r x, if x =? 58 then St 255 else if x <? 65 then (if between 48 x 57 then St 253 else St 0)
      else if 70 <? x then (if between 97 x 102 then St 253 else St 0) else St 253);
   (253, λ r x, if x =? 58 then St 255 else if x <? 65 then (if between 48 x 57 then St 254 else St 0)
      else if 70 <? x then (if between 97 x 102 then St 254 else St 0) else St 254);
   (254, λ r x, if x =? 58 then St 255 else St 0);
   (255, λ r x, if x <? 65 then (if between 48 x 57 then St 256 else St 0) else if 70 <? x then (if
      between 97 x 102 then St 256 else St 0) else St 256);
   (256, λ r x, if x =? 93 then St 236 else if x <? 65 then (if between 48 x 57 then St 257 else St 0)
      else if 70 <? x then (if between 97 x 102 then St 257 else St 0) else St 257);
   (257, λ r x, if x =? 93 then St 236 else if x <? 65 then (if between 48 x 57 then St 258 else St 0)
      else if 70 <? x then (if between 97 x 102 then St 258 else St 0) else St 258);
   (258, λ r x, if x =? 93 then St 236 else if x <? 65 then (if between 48 x 57 then St 235 else St 0)
      else if 70 <? x then (if between 97 x 102 then St 235 else St 0) else St 235);
   (259, λ r x, sw x [(46, St 230); (58, St 255)]
      (if x <? 65 then (if between 48 x 57 then St 260 else St 0) else if 70 <? x then (if
      between 97 x 102 then St 252 else St 0) else St 252));
   (260, λ r x, sw x [(46, St 230); (58, St 255)]
      (if x <? 65 then (if between 48 x 57 then St 261 else St 0) else if 70 <? x then (if
      between 97 x 102 then St 253 else St 0) else St 253));
   (261, λ r x, sw x [(46, St 230); (58, St 255)]
      (if x <? 65 then (if between 48 x 57 then St 254 else St 0) else if 70 <? x then (if
      between 97 x 102 then St 254 else St 0) else St 254))]
  [].

(** [src/src/http/http_request_parser.cpp:4897-5044] http_request_parser_execute, cases 262 to 271 *)
Definition request_part_35 : part RequestAction := mkPart
  [(262, λ r x, sw x [(46, St 230); (48, St 263); (53, St 264); (58, St 255)]
      (if x <? 65 then (if between 49 x 57 then St 252 else St 0) else if 70 <? x then (if
      between 97 x 102 then St 252 else St 0) else St 252));
   (263, λ r x, if x =? 58 then St 255 else if x <? 65 then (if between 48 x 57 then St 261 else St 0)
      else if 70 <? x then (if between 97 x 102 then St 253 else St 0) else St 253);
   (264, λ r x, sw x [(48, St 261); (58, St 255)]
      (if x <? 65 then (if between 49 x 57 then St 253 else St 0) else if 70 <? x then (if
      between 97 x 102 then St 253 else St 0) else St 253));
   (265, λ r x, if x =? 58 then St 255 else if x <? 65 then (if between 48 x 57 then St 252 else St 0)
      else if 70 <? x then (if between 97 x 102 then St 252 else St 0) else St 252);
   (266, λ r x, if x =? 58 then St 270 else if x <? 65 then (if between 48 x 57 then St 267 else St 0)
      else if 70 <? x then (if between 97 x 102 then St 267 else St 0) else St 267);
   (267, λ r x, if x =? 58 then St 270 else if x <? 65 then (if between 48 x 57 then St 268 else St 0)
      else if 70 <? x then (if between 97 x 102 then St 268 else St 0) else St 268);
   (268, λ r x, if x =? 58 then St 270 else if x <? 65 then (if between 48 x 57 then St 269 else St 0)
      else if 70 <? x then (if between 97 x 102 then St 269 else St 0) else St 269);
   (269, λ r x, if x =? 58 then St 270 else St 0);
   (270, λ r x, if x =? 58 then St 341 else if x <? 65 then (if between 48 x 57 then St 271 else St 0)
      else if 70 <? x then (if between 97 x 102 then St 271 else St 0) else St 271);
   (271, λ r x, if x =? 58 then St 275 else if x <? 65 then (if between 48 x 57 then St 272 else St 0)
      else if 70 <? x then (if between 97 x 102 then St 272 else St 0) else St 272)]
  [].

(** [src/src/http/http_request_parser.cpp:5045-5193] http_request_parser_execute, cases 272 to 282 *)
Definition request_part_36 : part RequestAction := mkPart
  [(272, λ r x, if x =? 58 then St 275 else if x <? 65 then (if between 48 x 57 then St 273 else St 0)
      else if 70 <? x then (if between 97 x 102 then St 273 else St 0) else St 273);
   (273, λ r x, if x =? 58 then St 275 else if x <? 65 then (if between 48 x 57 then St 274 else St 0)
      else if 70 <? x then (if between 97 x 102 then St 274 else St 0) else St 274);
   (274, λ r x, if x =? 58 then St 275 else St 0);
   (275, λ r x, if x =? 58 then St 340 else if x <? 65 then (if between 48 x 57 then St 276 else St 0)
      else if 70 <? x then (if between 97 x 102 then St 276 else St 0) else St 276);
   (276, λ r x, if x =? 58 then St 280 else if x <? 65 then (if between 48 x 57 then St 277 else St 0)
      else if 70 <? x then (if between 97 x 102 then St 277 else St 0) else St 277);
   (277, λ r x, if x =? 58 then St 280 else if x <? 65 then (if between 48 x 57 then St 278 else St 0)
      else if 70 <? x then (if between 97 x 102 then St 278 else St 0) else St 278);
   (278, λ r x, if x =? 58 then St 280 else if x <? 65 then (if between 48 x 57 then St 279 else St 0)
      else if 70 <? x then (if between 97 x 102 then St 279 else St 0) else St 279);
   (279, λ r x, if x =? 58 then St 280 else St 0);
   (280, λ r x, if x =? 58 then St 339 else if x <? 65 then (if between 48 x 57 then St 281 else St 0)
      else if 70 <? x then (if between 97 x 102 then St 281 else St 0) else St 281);
   (281, λ r x, if x =? 58 then St 285 else if x <? 65 then (if between 48 x 57 then St 282 else St 0)
      else if 70 <? x then (if between 97 x 102 then St 282 else St 0) else St 282);
   (282, λ r x, if x =? 58 then St 285 else if x <? 65 then (if between 48 x 57 then St 283 else St 0)
      else if 70 <? x then (if between 97 x 102 then St 283 else St 0) else St 283)]
  [].

(** [src/src/http/http_request_parser.cpp:5194-5342] http_request_parser_execute, cases 283 to 293 *)
Definition request_part_37 : part RequestAction := mkPart
  [(283, λ r x, if x =? 58 then St 285 else if x <? 65 then (if between 48 x 57 then St 284 else St 0)
      else if 70 <? x then (if between 97 x 102 then St 284 else St 0) else St 284);
   (284, λ r x, if x =? 58 then St 285 else St 0);
   (285, λ r x, if x =? 58 then St 338 else if x <? 65 then (if between 48 x 57 then St 286 else St 0)
      else if 70 <? x then (if between 97 x 102 then St 286 else St 0) else St 286);
   (286, λ r x, if x =? 58 then St 290 else if x <? 65 then (if between 48 x 57 then St 287 else St 0)
      else if 70 <? x then (if between 97 x 102 then St 287 else St 0) else St 287);
   (287, λ r x, if x =? 58 then St 290 else if x <? 65 then (if between 48 x 57 then St 288 else St 0)
      else if 70 <? x then (if between 97 x 102 then St 288 else St 0) else St 288);
   (288, λ r x, if x =? 58 then St 290 else if x <? 65 then (if between 48 x 57 then St 289 else St 0)
      else if 70 <? x then (if between 97 x 102 then St 289 else St 0) else St 289);
   (289, λ r x, if x =? 58 then St 290 else St 0);
   (290, λ r x, if x =? 58 then St 326 else if x <? 65 then (if between 48 x 57 then St 291 else St 0)
      else if 70 <? x then (if between 97 x 102 then St 291 else St 0) else St 291);
   (291, λ r x, if x =? 58 then St 295 else if x <? 65 then (if between 48 x 57 then St 292 else St 0)
      else if 70 <? x then (if between 97 x 102 then St 292 else St 0) else St 292);
   (292, λ r x, if x =? 58 then St 295 else if x <? 65 then (if between 48 x 57 then St 293 else St 0)
      else if 70 <? x then (if between 97 x 102 then St 293 else St 0) else St 293);
   (293, λ r x, if x =? 58 then St 295 else if x <? 65 then (if between 48 x 57 then St 294 else St 0)
      else if 70 <? x then (if between 97 x 102 then St 294 else St 0) else St 294)]
  [].

(** [src/src/http/http_request_parser.cpp:5343-5487] http_request_parser_execute, cases 294 to 303 *)
Definition request_part_38 : part RequestAction := mkPart
  [(294, λ r x, if x =? 58 then St 295 else St 0);
   (295, λ r x, if x =? 58 then St 325 else if x <? 65 then (if between 48 x 57 then St 296 else St 0)
      else if 70 <? x then (if between 97 x 102 then St 296 else St 0) else St 296);
   (296, λ r x, if x =? 58 then St 300 else if x <? 65 then (if between 48 x 57 then St 297 else St 0)
      else if 70 <? x then (if between 97 x 102 then St 297 else St 0) else St 297);
   (297, λ r x, if x =? 58 then St 300 else if x <? 65 then (if between 48 x 57 then St 298 else St 0)
      else if 70 <? x then (if between 97 x 102 then St 298 else St 0) else St 298);
   (298, λ r x, if x =? 58 then St 300 else if x <? 65 then (if between 48 x 57 then St 299 else St 0)
      else if 70 <? x then (if between 97 x 102 then St 299 else St 0) else St 299);
   (299, λ r x, if x =? 58 then St 300 else St 0);
   (300, λ r x, if x =? 58 then St 301 else if x <? 65 then (if between 48 x 57 then St 296 else St 0)
      else if 70 <? x then (if between 97 x 102 then St 296 else St 0) else St 296);
   (301, λ r x, sw x [(49, St 318); (50, St 321); (93, St 236)]
      (if x <? 48 then (if between 2 x 3 then St 223 else St 0) else if 57 <? x then (if 70 <? x
      then (if between 97 x 102 then St 324 else St 0) else if 65 <=? x then St 324 else St 0) else
      St 302));
   (302, λ r x, sw x [(46, St 230); (58, St 306); (93, St 236)]
      (if x <? 65 then (if between 48 x 57 then St 303 else St 0) else if 70 <? x then (if
      between 97 x 102 then St 303 else St 0) else St 303));
   (303, λ r x, sw x [(58, St 306); (93, St 236)]
      (if x <? 65 then (if between 48 x 57 then St 304 else St 0) else if 70 <? x then (if
      between 97 x 102 then St 304 else St 0) else St 304))]
  [].

(** [src/src/http/http_request_parser.cpp:5488-5627] http_request_parser_execute, cases 304 to 312 *)
Definition request_part_39 : part RequestAction := mkPart
  [(304, λ r x, sw x [(58, St 306); (93, St 236)]
      (if x <? 65 then (if between 48 x 57 then St 305 else St 0) else if 70 <? x then (if
      between 97 x 102 then St 305 else St 0) else St 305));
   (305, λ r x, sw x [(58, St 306); (93, St 236)] (St 0));
   (306, λ r x, sw x [(49, St 311); (50, St 314)]
      (if x <? 65 then (if between 48 x 57 then St 307 else St 0) else if 70 <? x then (if
      between 97 x 102 then St 317 else St 0) else St 317));
   (307, λ r x, sw x [(46, St 230); (58, St 255); (93, St 236)]
      (if x <? 65 then (if between 48 x 57 then St 308 else St 0) else if 70 <? x then (if
      between 97 x 102 then St 308 else St 0) else St 308));
   (308, λ r x, sw x [(58, St 255); (93, St 236)]
      (if x <? 65 then (if between 48 x 57 then St 309 else St 0) else if 70 <? x then (if
      between 97 x 102 then St 309 else St 0) else St 309));
   (309, λ r x, sw x [(58, St 255); (93, St 236)]
      (if x <? 65 then (if between 48 x 57 then St 310 else St 0) else if 70 <? x then (if
      between 97 x 102 then St 310 else St 0) else St 310));
   (310, λ r x, sw x [(58, St 255); (93, St 236)] (St 0));
   (311, λ r x, sw x [(46, St 230); (58, St 255); (93, St 236)]
      (if x <? 65 then (if between 48 x 57 then St 312 else St 0) else if 70 <? x then (if
      between 97 x 102 then St 308 else St 0) else St 308));
   (312, λ r x, sw x [(46, St 230); (58, St 255); (93, St 236)]
      (if x <? 65 then (if between 48 x 57 then St 313 else St 0) else if 70 <? x then (if
      between 97 x 102 then St 309 else St 0) else St 309))]
  [].

(** [src/src/http/http_request_parser.cpp:5628-5771] http_request_parser_execute, cases 313 to 320 *)
Definition request_part_40 : part RequestAction := mkPart
  [(313, λ r x, sw x [(46, St 230); (58, St 255); (93, St 236)]
      (if x <? 65 then (if between 48 x 57 then St 310 else St 0) else if 70 <? x then (if
      between 97 x 102 then St 310 else St 0) else St 310));
   (314, λ r x, sw x [(46, St 230); (48, St 315); (53, St 316); (58, St 255); (93, St 236)]
      (if x <? 65 then (if between 49 x 57 then St 308 else St 0) else if 70 <? x then (if
      between 97 x 102 then St 308 else St 0) else St 308));
   (315, λ r x, sw x [(58, St 255); (93, St 236)]
      (if x <? 65 then (if between 48 x 57 then St 313 else St 0) else if 70 <? x then (if
      between 97 x 102 then St 309 else St 0) else St 309));
   (316, λ r x, sw x [(48, St 313); (58, St 255); (93, St 236)]
      (if x <? 65 then (if between 49 x 57 then St 309 else St 0) else if 70 <? x then (if
      between 97 x 102 then St 309 else St 0) else St 309));
   (317, λ r x, sw x [(58, St 255); (93, St 236)]
      (if x <? 65 then (if between 48 x 57 then St 308 else St 0) else if 70 <? x then (if
      between 97 x 102 then St 308 else St 0) else St 308));
   (318, λ r x, sw x [(46, St 230); (58, St 306); (93, St 236)]
      (if x <? 65 then (if between 48 x 57 then St 319 else St 0) else if 70 <? x then (if
      between 97 x 102 then St 303 else St 0) else St 303));
   (319, λ r x, sw x [(46, St 230); (58, St 306); (93, St 236)]
      (if x <? 65 then (if between 48 x 57 then St 320 else St 0) else if 70 <? x then (if
      between 97 x 102 then St 304 else St 0) else St 304));
   (320, λ r x, sw x [(46, St 230); (58, St 306); (93, St 236)]
      (if x <? 65 then (if between 48 x 57 then St 305 else St 0) else if 70 <? x then (if
      between 97 x 102 then St 305 else St 0) else St 305))]
  [].

(** [src/src/http/http_request_parser.cpp:5772-5915] http_request_parser_execute, cases 321 to 328 *)
Definition request_part_41 : part RequestAction := mkPart
  [(321, λ r x, sw x [(46, St 230); (48, St 322); (53, St 323); (58, St 306); (93, St 236)]
      (if x <? 65 then (if between 49 x 57 then St 303 else St 0) else if 70 <? x then (if
      between 97 x 102 then St 303 else St 0) else St 303));
   (322, λ r x, sw x [(58, St 306); (93, St 236)]
      (if x <? 65 then (if between 48 x 57 then St 320 else St 0) else if 70 <? x then (if
      between 97 x 102 then St 304 else St 0) else St 304));
   (323, λ r x, sw x [(48, St 320); (58, St 306); (93, St 236)]
      (if x <? 65 then (if between 49 x 57 then St 304 else St 0) else if 70 <? x then (if
      between 97 x 102 then St 304 else St 0) else St 304));
   (324, λ r x, sw x [(58, St 306); (93, St 236)]
      (if x <? 65 then (if between 48 x 57 then St 303 else St 0) else if 70 <? x then (if
      between 97 x 102 then St 303 else St 0) else St 303));
   (325, λ r x, sw x [(49, St 318); (50, St 321)]
      (if x <? 48 then (if between 2 x 3 then St 223 else St 0) else if 57 <? x then (if 70 <? x
      then (if between 97 x 102 then St 324 else St 0) else if 65 <=? x then St 324 else St 0) else
      St 302));
   (326, λ r x, sw x [(49, St 331); (50, St 334)]
      (if x <? 48 then (if between 2 x 3 then St 223 else St 0) else if 57 <? x then (if 70 <? x
      then (if between 97 x 102 then St 337 else St 0) else if 65 <=? x then St 337 else St 0) else
      St 327));
   (327, λ r x, sw x [(46, St 230); (58, St 306)]
      (if x <? 65 then (if between 48 x 57 then St 328 else St 0) else if 70 <? x then (if
      between 97 x 102 then St 328 else St 0) else St 328));
   (328, λ r x, if x =? 58 then St 306 else if x <? 65 then (if between 48 x 57 then St 329 else St 0)
      else if 70 <? x then (if between 97 x 102 then St 329 else St 0) else St 329)]
  [].

(** [src/src/http/http_request_parser.cpp:5916-6054] http_request_parser_execute, cases 329 to 337 *)
Definition request_part_42 : part RequestAction := mkPart
  [(329, λ r x, if x =? 58 then St 306 else if x <? 65 then (if between 48 x 57 then St 330 else St 0)
      else if 70 <? x then (if between 97 x 102 then St 330 else St 0) else St 330);
   (330, λ r x, if x =? 58 then St 306 else St 0);
   (331, λ r x, sw x [(46, St 230); (58, St 306)]
      (if x <? 65 then (if between 48 x 57 then St 332 else St 0) else if 70 <? x then (if
      between 97 x 102 then St 328 else St 0) else St 328));
   (332, λ r x, sw x [(46, St 230); (58, St 306)]
      (if x <? 65 then (if between 48 x 57 then St 333 else St 0) else if 70 <? x then (if
      between 97 x 102 then St 329 else St 0) else St 329));
   (333, λ r x, sw x [(46, St 230); (58, St 306)]
      (if x <? 65 then (if between 48 x 57 then St 330 else St 0) else if 70 <? x then (if
      between 97 x 102 then St 330 else St 0) else St 330));
   (334, λ r x, sw x [(46, St 230); (48, St 335); (53, St 336); (58, St 306)]
      (if x <? 65 then (if between 49 x 57 then St 328 else St 0) else if 70 <? x then (if
      between 97 x 102 then St 328 else St 0) else St 328));
   (335, λ r x, if x =? 58 then St 306 else if x <? 65 then (if between 48 x 57 then St 333 else St 0)
      else if 70 <? x then (if between 97 x 102 then St 329 else St 0) else St 329);
   (336, λ r x, sw x [(48, St 333); (58, St 306)]
      (if x <? 65 then (if between 49 x 57 then St 329 else St 0) else if 70 <? x then (if
      between 97 x 102 then St 329 else St 0) else St 329));
   (337, λ r x, if x =? 58 then St 306 else if x <? 65 then (if between 48 x 57 then St 328 else St 0)
      else if 70 <? x then (if between 97 x 102 then St 328 else St 0) else St 328)]
  [].

(** [src/src/http/http_request_parser.cpp:6055-6194] http_request_parser_execute, cases 338 to 346 *)
Definition request_part_43 : part RequestAction := mkPart
  [(338, λ r x, if x <? 48 then (if between 2 x 3 then St 223 else St 0) else if 57 <? x then (if
      70 <? x then (if between 97 x 102 then St 224 else St 0) else if 65 <=? x then St 224 else
      St 0) else St 224);
   (339, λ r x, if between 2 x 3 then St 223 else St 0);
   (340, λ r x, if x =? 3 then St 223 else St 0);
   (341, λ r x, if x =? 4 then St 223 else St 0);
   (342, λ r x, if x =? 58 then St 343 else St 0);
   (343, λ r x, sw x [(49, St 318); (50, St 321); (93, St 236)]
      (if x <? 48 then (if between 2 x 5 then St 223 else St 0) else if 57 <? x then (if 70 <? x
      then (if between 97 x 102 then St 324 else St 0) else if 65 <=? x then St 324 else St 0) else
      St 302));
   (344, λ r x, if x <? 65 then (if between 48 x 57 then St 345 else St 0) else if 70 <? x then (if
      between 97 x 102 then St 345 else St 0) else St 345);
   (345, λ r x, if x =? 46 then St 346 else if x <? 65 then (if between 48 x 57 then St 345 else St 0)
      else if 70 <? x then (if between 97 x 102 then St 345 else St 0) else St 345);
   (346, λ r x, let w := widec r x in
      sw w [(33, St 347); (36, St 347); (61, St 347); (95, St 347); (126, St 347); (606, St 347);
      (635, St 347); (637, St 347)]
      (if w <? 48 then (if between 38 w 46 then St 347 else St 0) else if 59 <? w then (if 90 <? w
      then (if between 97 w 122 then St 347 else St 0) else if 65 <=? w then St 347 else St 0) else
      St 347))]
  [].

(** [src/src/http/http_request_parser.cpp:6195-6240] http_request_parser_execute, case 347 *)
Definition request_part_44 : part RequestAction := mkPart
  [(347, λ r x, let w := widec r x in
      sw w [(33, St 347); (36, St 347); (61, St 347); (93, St 236); (95, St 347); (126, St 347);
      (606, St 347); (635, St 347); (637, St 347)]
      (if w <? 48 then (if between 38 w 46 then St 347 else St 0) else if 59 <? w then (if 90 <? w
      then (if between 97 w 122 then St 347 else St 0) else if 65 <=? w then St 347 else St 0) else
      St 347))]
  [].

Definition request_parts : list (part RequestAction) :=
  [request_part_1; request_part_2; request_part_3; request_part_4; request_part_5; request_part_6;
   request_part_7; request_part_8; request_part_9; request_part_10; request_part_11;
   request_part_12; request_part_13; request_part_14; request_part_15; request_part_16;
   request_part_17; request_part_18; request_part_19; request_part_20; request_part_21;
   request_part_22; request_part_23; request_part_24; request_part_25; request_part_26;
   request_part_27; request_part_28; request_part_29; request_part_30; request_part_31;
   request_part_32; request_part_33; request_part_34; request_part_35; request_part_36;
   request_part_37; request_part_38; request_part_39; request_part_40; request_part_41;
   request_part_42; request_part_43; request_part_44].
