(* ===== verification/ResponseTable.v ===== *)
(** * The response automaton: src/src/http/http_response_parser.cpp, lines 89 to 3130

    The generated [switch] of [http_response_parser_execute], as in
    RequestTable.v.  No state of it looks at the flag of the request parser. *)

From S2P Require Import Prelude Util Ragel.

(** The actions that the transitions run, with the names of the grammar. *)
Inductive ResponseAction :=
| Mark | StartField | WriteField | StartValue | WriteContentLen | WriteConnectionClose | WriteValue
| ReasonPhrase | StatusCode | HttpVersion | ChunkSize | TransChunked | Done.

#[export] Instance ResponseAction_eq_dec : EqDecision ResponseAction.
Proof. solve_decision. Defined.

(** [src/src/http/http_response_parser.cpp:88-224] http_response_parser_execute, cases 1 to 120 and the transitions tr0 to tr4 *)
Definition response_part_1 : part ResponseAction := mkPart
  [(1, λ r x, if x =? 72 then Tr 2 else if x <? 65 then (if between 48 x 57 then Tr 0 else St 0) else
      if 70 <? x then (if between 97 x 102 then Tr 0 else St 0) else Tr 0);
   (2, λ r x, sw x [(10, Tr 3); (13, Tr 4); (59, Tr 6)]
      (if x <? 65 then (if between 48 x 57 then St 2 else St 0) else if 70 <? x then (if
      between 97 x 102 then St 2 else St 0) else St 2));
   (120, λ r x, St 0)]
  [(0, ([Mark], 2)); (3, ([ChunkSize; Done], 120)); (7, ([Done], 120));
   (9, ([WriteField; StartValue; WriteValue; Done], 120)); (15, ([WriteValue; Done], 120));
   (74, ([WriteConnectionClose; Done], 120)); (4, ([ChunkSize], 3))].

(** [src/src/http/http_response_parser.cpp:225-371] http_response_parser_execute, cases 3 to 5 and the transitions tr10 to tr13 *)
Definition response_part_2 : part ResponseAction := mkPart
  [(3, λ r x, if x =? 10 then Tr 7 else St 0);
   (4, λ r x, sw x [(33, Tr 8); (124, Tr 8); (126, Tr 8)]
      (if x <? 45 then (if 39 <? x then (if between 42 x 43 then Tr 8 else St 0) else if 35 <=? x
      then Tr 8 else St 0) else if 46 <? x then (if x <? 65 then (if between 48 x 57 then Tr 8 else
      St 0) else if 90 <? x then (if between 94 x 122 then Tr 8 else St 0) else Tr 8) else Tr 8));
   (5, λ r x, sw x [(10, Tr 9); (13, Tr 10); (33, St 5); (59, Tr 12); (61, Tr 13); (124, St 5);
      (126, St 5)]
      (if x <? 45 then (if 39 <? x then (if between 42 x 43 then St 5 else St 0) else if 35 <=? x
      then St 5 else St 0) else if 46 <? x then (if x <? 65 then (if between 48 x 57 then St 5 else
      St 0) else if 90 <? x then (if between 94 x 122 then St 5 else St 0) else St 5) else St 5))]
  [(10, ([WriteField; StartValue; WriteValue], 3)); (16, ([WriteValue], 3));
   (75, ([WriteConnectionClose], 3)); (6, ([ChunkSize], 4));
   (12, ([WriteField; StartValue; WriteValue], 4)); (18, ([WriteValue], 4)); (8, ([StartField], 5));
   (13, ([WriteField; StartValue], 6))].

(** [src/src/http/http_response_parser.cpp:372-518] http_response_parser_execute, cases 6 to 16 and the transitions tr14 to tr27 *)
Definition response_part_3 : part ResponseAction := mkPart
  [(6, λ r x, sw x [(33, Tr 14); (124, Tr 14); (126, Tr 14)]
      (if x <? 45 then (if 39 <? x then (if between 42 x 43 then Tr 14 else St 0) else if 35 <=? x
      then Tr 14 else St 0) else if 46 <? x then (if x <? 65 then (if between 48 x 57 then Tr 14
      else St 0) else if 90 <? x then (if between 94 x 122 then Tr 14 else St 0) else Tr 14) else
      Tr 14));
   (7, λ r x, sw x [(10, Tr 15); (13, Tr 16); (33, St 7); (59, Tr 18); (124, St 7); (126, St 7)]
      (if x <? 45 then (if 39 <? x then (if between 42 x 43 then St 7 else St 0) else if 35 <=? x
      then St 7 else St 0) else if 46 <? x then (if x <? 65 then (if between 48 x 57 then St 7 else
      St 0) else if 90 <? x then (if between 94 x 122 then St 7 else St 0) else St 7) else St 7));
   (8, λ r x, if x =? 84 then St 9 else St 0);
   (9, λ r x, if x =? 84 then St 10 else St 0);
   (10, λ r x, if x =? 80 then St 11 else St 0);
   (11, λ r x, if x =? 47 then St 12 else St 0);
   (12, λ r x, if between 48 x 57 then St 13 else St 0);
   (13, λ r x, if x =? 46 then St 14 else if between 48 x 57 then St 13 else St 0);
   (14, λ r x, if between 48 x 57 then St 15 else St 0);
   (15, λ r x, if x =? 32 then Tr 26 else if between 48 x 57 then St 15 else St 0);
   (16, λ r x, if between 48 x 57 then Tr 27 else St 0)]
  [(14, ([StartValue], 7)); (2, ([Mark], 8)); (26, ([HttpVersion], 16)); (27, ([Mark], 17))].

(** [src/src/http/http_response_parser.cpp:519-660] http_response_parser_execute, cases 17 to 20 and the transitions tr28 to tr76 *)
Definition response_part_4 : part ResponseAction := mkPart
  [(17, λ r x, if x =? 32 then Tr 28 else if between 48 x 57 then St 17 else St 0);
   (18, λ r x, if x =? 10 then St 0 else Tr 30);
   (19, λ r x, sw x [(10, Tr 32); (13, Tr 33)] (St 19));
   (20, λ r x, sw x [(10, Tr 7); (13, St 3); (33, Tr 35); (67, Tr 36); (84, Tr 37); (99, Tr 36);
      (116, Tr 37); (124, Tr 35); (126, Tr 35)]
      (if x <? 45 then (if 39 <? x then (if between 42 x 43 then Tr 35 else St 0) else if 35 <=? x
      then Tr 35 else St 0) else if 46 <? x then (if x <? 65 then (if between 48 x 57 then Tr 35
      else St 0) else if 90 <? x then (if between 94 x 122 then Tr 35 else St 0) else Tr 35) else
      Tr 35))]
  [(28, ([StatusCode], 18)); (30, ([Mark], 19)); (45, ([WriteValue], 20)); (32, ([ReasonPhrase], 20));
   (42, ([StartValue; WriteValue], 20)); (111, ([WriteValue; TransChunked], 20));
   (113, ([TransChunked], 20)); (158, ([WriteContentLen; WriteValue], 20));
   (35, ([StartField], 21)); (76, ([WriteConnectionClose; StartField], 21))].

(** [src/src/http/http_response_parser.cpp:661-783] http_response_parser_execute, cases 21 to 24 and the transitions tr41 to tr77 *)
Definition response_part_5 : part ResponseAction := mkPart
  [(21, λ r x, sw x [(33, St 21); (58, Tr 39); (124, St 21); (126, St 21)]
      (if x <? 45 then (if 39 <? x then (if between 42 x 43 then St 21 else St 0) else if 35 <=? x
      then St 21 else St 0) else if 46 <? x then (if x <? 65 then (if between 48 x 57 then St 21
      else St 0) else if 90 <? x then (if between 94 x 122 then St 21 else St 0) else St 21) else
      St 21));
   (22, λ r x, sw x [(10, Tr 42); (13, Tr 43); (32, Tr 41)]
      (if between 9 x 12 then Tr 41 else Tr 40));
   (23, λ r x, sw x [(10, Tr 45); (13, Tr 46)] (St 23));
   (24, λ r x, if x =? 10 then St 20 else St 0)]
  [(41, ([StartValue], 22)); (39, ([WriteField], 22)); (40, ([StartValue], 23));
   (46, ([WriteValue], 24)); (33, ([ReasonPhrase], 24)); (43, ([StartValue; WriteValue], 24));
   (159, ([WriteContentLen; WriteValue], 24)); (36, ([StartField], 25));
   (77, ([WriteConnectionClose; StartField], 25))].

(** [src/src/http/http_response_parser.cpp:784-933] http_response_parser_execute, cases 25 to 29 *)
Definition response_part_6 : part ResponseAction := mkPart
  [(25, λ r x, sw x [(33, St 21); (58, Tr 39); (79, St 26); (111, St 26); (124, St 21); (126, St 21)]
      (if x <? 45 then (if 39 <? x then (if between 42 x 43 then St 21 else St 0) else if 35 <=? x
      then St 21 else St 0) else if 46 <? x then (if x <? 65 then (if between 48 x 57 then St 21
      else St 0) else if 90 <? x then (if between 94 x 122 then St 21 else St 0) else St 21) else
      St 21));
   (26, λ r x, sw x [(33, St 21); (58, Tr 39); (78, St 27); (110, St 27); (124, St 21); (126, St 21)]
      (if x <? 45 then (if 39 <? x then (if between 42 x 43 then St 21 else St 0) else if 35 <=? x
      then St 21 else St 0) else if 46 <? x then (if x <? 65 then (if between 48 x 57 then St 21
      else St 0) else if 90 <? x then (if between 94 x 122 then St 21 else St 0) else St 21) else
      St 21));
   (27, λ r x, sw x [(33, St 21); (58, Tr 39); (78, St 28); (84, St 101); (110, St 28); (116, St 101);
      (124, St 21); (126, St 21)]
      (if x <? 45 then (if 39 <? x then (if between 42 x 43 then St 21 else St 0) else if 35 <=? x
      then St 21 else St 0) else if 46 <? x then (if x <? 65 then (if between 48 x 57 then St 21
      else St 0) else if 90 <? x then (if between 94 x 122 then St 21 else St 0) else St 21) else
      St 21));
   (28, λ r x, sw x [(33, St 21); (58, Tr 39); (69, St 29); (101, St 29); (124, St 21); (126, St 21)]
      (if x <? 45 then (if 39 <? x then (if between 42 x 43 then St 21 else St 0) else if 35 <=? x
      then St 21 else St 0) else if 46 <? x then (if x <? 65 then (if between 48 x 57 then St 21
      else St 0) else if 90 <? x then (if between 94 x 122 then St 21 else St 0) else St 21) else
      St 21));
   (29, λ r x, sw x [(33, St 21); (58, Tr 39); (67, St 30); (99, St 30); (124, St 21); (126, St 21)]
      (if x <? 45 then (if 39 <? x then (if between 42 x 43 then St 21 else St 0) else if 35 <=? x
      then St 21 else St 0) else if 46 <? x then (if x <? 65 then (if between 48 x 57 then St 21
      else St 0) else if 90 <? x then (if between 94 x 122 then St 21 else St 0) else St 21) else
      St 21))]
  [].

(** [src/src/http/http_response_parser.cpp:934-1081] http_response_parser_execute, cases 30 to 34 *)
Definition response_part_7 : part ResponseAction := mkPart
  [(30, λ r x, sw x [(33, St 21); (58, Tr 39); (84, St 31); (116, St 31); (124, St 21); (126, St 21)]
      (if x <? 45 then (if 39 <? x then (if between 42 x 43 then St 21 else St 0) else if 35 <=? x
      then St 21 else St 0) else if 46 <? x then (if x <? 65 then (if between 48 x 57 then St 21
      else St 0) else if 90 <? x then (if between 94 x 122 then St 21 else St 0) else St 21) else
      St 21));
   (31, λ r x, sw x [(33, St 21); (58, Tr 39); (73, St 32); (105, St 32); (124, St 21); (126, St 21)]
      (if x <? 45 then (if 39 <? x then (if between 42 x 43 then St 21 else St 0) else if 35 <=? x
      then St 21 else St 0) else if 46 <? x then (if x <? 65 then (if between 48 x 57 then St 21
      else St 0) else if 90 <? x then (if between 94 x 122 then St 21 else St 0) else St 21) else
      St 21));
   (32, λ r x, sw x [(33, St 21); (58, Tr 39); (79, St 33); (111, St 33); (124, St 21); (126, St 21)]
      (if x <? 45 then (if 39 <? x then (if between 42 x 43 then St 21 else St 0) else if 35 <=? x
      then St 21 else St 0) else if 46 <? x then (if x <? 65 then (if between 48 x 57 then St 21
      else St 0) else if 90 <? x then (if between 94 x 122 then St 21 else St 0) else St 21) else
      St 21));
   (33, λ r x, sw x [(33, St 21); (58, Tr 39); (78, St 34); (110, St 34); (124, St 21); (126, St 21)]
      (if x <? 45 then (if 39 <? x then (if between 42 x 43 then St 21 else St 0) else if 35 <=? x
      then St 21 else St 0) else if 46 <? x then (if x <? 65 then (if between 48 x 57 then St 21
      else St 0) else if 90 <? x then (if between 94 x 122 then St 21 else St 0) else St 21) else
      St 21));
   (34, λ r x, sw x [(33, St 21); (58, Tr 58); (124, St 21); (126, St 21)]
      (if x <? 45 then (if 39 <? x then (if between 42 x 43 then St 21 else St 0) else if 35 <=? x
      then St 21 else St 0) else if 46 <? x then (if x <? 65 then (if between 48 x 57 then St 21
      else St 0) else if 90 <? x then (if between 94 x 122 then St 21 else St 0) else St 21) else
      St 21))]
  [].

(** [src/src/http/http_response_parser.cpp:1082-1222] http_response_parser_execute, cases 35 to 42 and the transitions tr59 to tr136 *)
Definition response_part_8 : part ResponseAction := mkPart
  [(35, λ r x, sw x [(10, Tr 60); (13, Tr 61); (32, Tr 59); (67, Tr 62); (99, Tr 62)]
      (if between 9 x 12 then Tr 59 else Tr 40));
   (36, λ r x, sw x [(10, Tr 64); (13, St 89); (32, St 37); (33, Tr 35); (67, Tr 66); (84, Tr 37);
      (99, Tr 66); (116, Tr 37); (124, Tr 35); (126, Tr 35)]
      (if x <? 45 then (if x <? 35 then (if between 9 x 12 then St 37 else St 0) else if 39 <? x
      then (if between 42 x 43 then Tr 35 else St 0) else Tr 35) else if 46 <? x then (if x <? 65
      then (if between 48 x 57 then Tr 35 else St 0) else if 90 <? x then (if between 94 x 122 then
      Tr 35 else St 0) else Tr 35) else Tr 35));
   (37, λ r x, sw x [(32, St 37); (67, St 38); (99, St 38)]
      (if between 9 x 13 then St 37 else St 0));
   (38, λ r x, sw x [(76, St 39); (108, St 39)] (St 0));
   (39, λ r x, sw x [(79, St 40); (111, St 40)] (St 0));
   (40, λ r x, sw x [(83, St 41); (115, St 41)] (St 0));
   (41, λ r x, sw x [(69, St 42); (101, St 42)] (St 0));
   (42, λ r x, sw x [(10, St 43); (13, St 88)] (St 0))]
  [(59, ([StartValue], 35)); (58, ([WriteField], 35)); (60, ([StartValue; WriteValue], 36));
   (136, ([WriteValue], 43))].

(** [src/src/http/http_response_parser.cpp:1223-1359] http_response_parser_execute, cases 43 to 46 and the transitions tr37 to tr78 *)
Definition response_part_9 : part ResponseAction := mkPart
  [(43, λ r x, sw x [(10, Tr 74); (13, Tr 75); (33, Tr 76); (67, Tr 77); (84, Tr 78); (99, Tr 77);
      (116, Tr 78); (124, Tr 76); (126, Tr 76)]
      (if x <? 45 then (if 39 <? x then (if between 42 x 43 then Tr 76 else St 0) else if 35 <=? x
      then Tr 76 else St 0) else if 46 <? x then (if x <? 65 then (if between 48 x 57 then Tr 76
      else St 0) else if 90 <? x then (if between 94 x 122 then Tr 76 else St 0) else Tr 76) else
      Tr 76));
   (44, λ r x, sw x [(33, St 21); (58, Tr 39); (82, St 45); (114, St 45); (124, St 21); (126, St 21)]
      (if x <? 45 then (if 39 <? x then (if between 42 x 43 then St 21 else St 0) else if 35 <=? x
      then St 21 else St 0) else if 46 <? x then (if x <? 65 then (if between 48 x 57 then St 21
      else St 0) else if 90 <? x then (if between 94 x 122 then St 21 else St 0) else St 21) else
      St 21));
   (45, λ r x, sw x [(33, St 21); (58, Tr 39); (65, St 46); (97, St 46); (124, St 21); (126, St 21)]
      (if x <? 45 then (if 39 <? x then (if between 42 x 43 then St 21 else St 0) else if 35 <=? x
      then St 21 else St 0) else if 46 <? x then (if x <? 66 then (if between 48 x 57 then St 21
      else St 0) else if 90 <? x then (if between 94 x 122 then St 21 else St 0) else St 21) else
      St 21));
   (46, λ r x, sw x [(33, St 21); (58, Tr 39); (78, St 47); (110, St 47); (124, St 21); (126, St 21)]
      (if x <? 45 then (if 39 <? x then (if between 42 x 43 then St 21 else St 0) else if 35 <=? x
      then St 21 else St 0) else if 46 <? x then (if x <? 65 then (if between 48 x 57 then St 21
      else St 0) else if 90 <? x then (if between 94 x 122 then St 21 else St 0) else St 21) else
      St 21))]
  [(37, ([StartField], 44)); (78, ([WriteConnectionClose; StartField], 44))].

(** [src/src/http/http_response_parser.cpp:1360-1506] http_response_parser_execute, cases 47 to 51 *)
Definition response_part_10 : part ResponseAction := mkPart
  [(47, λ r x, sw x [(33, St 21); (58, Tr 39); (83, St 48); (115, St 48); (124, St 21); (126, St 21)]
      (if x <? 45 then (if 39 <? x then (if between 42 x 43 then St 21 else St 0) else if 35 <=? x
      then St 21 else St 0) else if 46 <? x then (if x <? 65 then (if between 48 x 57 then St 21
      else St 0) else if 90 <? x then (if between 94 x 122 then St 21 else St 0) else St 21) else
      St 21));
   (48, λ r x, sw x [(33, St 21); (58, Tr 39); (70, St 49); (102, St 49); (124, St 21); (126, St 21)]
      (if x <? 45 then (if 39 <? x then (if between 42 x 43 then St 21 else St 0) else if 35 <=? x
      then St 21 else St 0) else if 46 <? x then (if x <? 65 then (if between 48 x 57 then St 21
      else St 0) else if 90 <? x then (if between 94 x 122 then St 21 else St 0) else St 21) else
      St 21));
   (49, λ r x, sw x [(33, St 21); (58, Tr 39); (69, St 50); (101, St 50); (124, St 21); (126, St 21)]
      (if x <? 45 then (if 39 <? x then (if between 42 x 43 then St 21 else St 0) else if 35 <=? x
      then St 21 else St 0) else if 46 <? x then (if x <? 65 then (if between 48 x 57 then St 21
      else St 0) else if 90 <? x then (if between 94 x 122 then St 21 else St 0) else St 21) else
      St 21));
   (50, λ r x, sw x [(33, St 21); (58, Tr 39); (82, St 51); (114, St 51); (124, St 21); (126, St 21)]
      (if x <? 45 then (if 39 <? x then (if between 42 x 43 then St 21 else St 0) else if 35 <=? x
      then St 21 else St 0) else if 46 <? x then (if x <? 65 then (if between 48 x 57 then St 21
      else St 0) else if 90 <? x then (if between 94 x 122 then St 21 else St 0) else St 21) else
      St 21));
   (51, λ r x, sw x [(33, St 21); (45, St 52); (46, St 21); (58, Tr 39); (124, St 21); (126, St 21)]
      (if x <? 48 then (if 39 <? x then (if between 42 x 43 then St 21 else St 0) else if 35 <=? x
      then St 21 else St 0) else if 57 <? x then (if 90 <? x then (if between 94 x 122 then St 21
      else St 0) else if 65 <=? x then St 21 else St 0) else St 21))]
  [].

(** [src/src/http/http_response_parser.cpp:1507-1656] http_response_parser_execute, cases 52 to 56 *)
Definition response_part_11 : part ResponseAction := mkPart
  [(52, λ r x, sw x [(33, St 21); (58, Tr 39); (69, St 53); (101, St 53); (124, St 21); (126, St 21)]
      (if x <? 45 then (if 39 <? x then (if between 42 x 43 then St 21 else St 0) else if 35 <=? x
      then St 21 else St 0) else if 46 <? x then (if x <? 65 then (if between 48 x 57 then St 21
      else St 0) else if 90 <? x then (if between 94 x 122 then St 21 else St 0) else St 21) else
      St 21));
   (53, λ r x, sw x [(33, St 21); (58, Tr 39); (78, St 54); (110, St 54); (124, St 21); (126, St 21)]
      (if x <? 45 then (if 39 <? x then (if between 42 x 43 then St 21 else St 0) else if 35 <=? x
      then St 21 else St 0) else if 46 <? x then (if x <? 65 then (if between 48 x 57 then St 21
      else St 0) else if 90 <? x then (if between 94 x 122 then St 21 else St 0) else St 21) else
      St 21));
   (54, λ r x, sw x [(33, St 21); (58, Tr 39); (67, St 55); (99, St 55); (124, St 21); (126, St 21)]
      (if x <? 45 then (if 39 <? x then (if between 42 x 43 then St 21 else St 0) else if 35 <=? x
      then St 21 else St 0) else if 46 <? x then (if x <? 65 then (if between 48 x 57 then St 21
      else St 0) else if 90 <? x then (if between 94 x 122 then St 21 else St 0) else St 21) else
      St 21));
   (55, λ r x, sw x [(33, St 21); (58, Tr 39); (79, St 56); (111, St 56); (124, St 21); (126, St 21)]
      (if x <? 45 then (if 39 <? x then (if between 42 x 43 then St 21 else St 0) else if 35 <=? x
      then St 21 else St 0) else if 46 <? x then (if x <? 65 then (if between 48 x 57 then St 21
      else St 0) else if 90 <? x then (if between 94 x 122 then St 21 else St 0) else St 21) else
      St 21));
   (56, λ r x, sw x [(33, St 21); (58, Tr 39); (68, St 57); (100, St 57); (124, St 21); (126, St 21)]
      (if x <? 45 then (if 39 <? x then (if between 42 x 43 then St 21 else St 0) else if 35 <=? x
      then St 21 else St 0) else if 46 <? x then (if x <? 65 then (if between 48 x 57 then St 21
      else St 0) else if 90 <? x then (if between 94 x 122 then St 21 else St 0) else St 21) else
      St 21))]
  [].

(** [src/src/http/http_response_parser.cpp:1657-1806] http_response_parser_execute, cases 57 to 61 and the transitions tr96 to tr97 *)
Definition response_part_12 : part ResponseAction := mkPart
  [(57, λ r x, sw x [(33, St 21); (58, Tr 39); (73, St 58); (105, St 58); (124, St 21); (126, St 21)]
      (if x <? 45 then (if 39 <? x then (if between 42 x 43 then St 21 else St 0) else if 35 <=? x
      then St 21 else St 0) else if 46 <? x then (if x <? 65 then (if between 48 x 57 then St 21
      else St 0) else if 90 <? x then (if between 94 x 122 then St 21 else St 0) else St 21) else
      St 21));
   (58, λ r x, sw x [(33, St 21); (58, Tr 39); (78, St 59); (110, St 59); (124, St 21); (126, St 21)]
      (if x <? 45 then (if 39 <? x then (if between 42 x 43 then St 21 else St 0) else if 35 <=? x
      then St 21 else St 0) else if 46 <? x then (if x <? 65 then (if between 48 x 57 then St 21
      else St 0) else if 90 <? x then (if between 94 x 122 then St 21 else St 0) else St 21) else
      St 21));
   (59, λ r x, sw x [(33, St 21); (58, Tr 39); (71, St 60); (103, St 60); (124, St 21); (126, St 21)]
      (if x <? 45 then (if 39 <? x then (if between 42 x 43 then St 21 else St 0) else if 35 <=? x
      then St 21 else St 0) else if 46 <? x then (if x <? 65 then (if between 48 x 57 then St 21
      else St 0) else if 90 <? x then (if between 94 x 122 then St 21 else St 0) else St 21) else
      St 21));
   (60, λ r x, sw x [(33, St 21); (58, Tr 95); (124, St 21); (126, St 21)]
      (if x <? 45 then (if 39 <? x then (if between 42 x 43 then St 21 else St 0) else if 35 <=? x
      then St 21 else St 0) else if 46 <? x then (if x <? 65 then (if between 48 x 57 then St 21
      else St 0) else if 90 <? x then (if between 94 x 122 then St 21 else St 0) else St 21) else
      St 21));
   (61, λ r x, sw x [(10, Tr 97); (13, Tr 98); (32, Tr 96); (67, Tr 99); (99, Tr 99)]
      (if between 9 x 12 then Tr 96 else Tr 40))]
  [(96, ([StartValue], 61)); (95, ([WriteField], 61)); (97, ([StartValue; WriteValue], 62))].

(** [src/src/http/http_response_parser.cpp:1807-1952] http_response_parser_execute, cases 62 to 71 and the transitions tr104 to tr101 *)
Definition response_part_13 : part ResponseAction := mkPart
  [(62, λ r x, sw x [(10, Tr 101); (13, St 72); (32, St 63); (33, Tr 35); (67, Tr 103); (84, Tr 37);
      (99, Tr 103); (116, Tr 37); (124, Tr 35); (126, Tr 35)]
      (if x <? 45 then (if x <? 35 then (if between 9 x 12 then St 63 else St 0) else if 39 <? x
      then (if between 42 x 43 then Tr 35 else St 0) else Tr 35) else if 46 <? x then (if x <? 65
      then (if between 48 x 57 then Tr 35 else St 0) else if 90 <? x then (if between 94 x 122 then
      Tr 35 else St 0) else Tr 35) else Tr 35));
   (63, λ r x, sw x [(32, St 63); (67, Tr 104); (99, Tr 104)]
      (if between 9 x 13 then St 63 else St 0));
   (64, λ r x, sw x [(72, St 65); (104, St 65)] (St 0));
   (65, λ r x, sw x [(85, St 66); (117, St 66)] (St 0));
   (66, λ r x, sw x [(78, St 67); (110, St 67)] (St 0));
   (67, λ r x, sw x [(75, St 68); (107, St 68)] (St 0));
   (68, λ r x, sw x [(69, St 69); (101, St 69)] (St 0));
   (69, λ r x, sw x [(68, St 70); (100, St 70)] (St 0));
   (70, λ r x, sw x [(10, Tr 111); (13, Tr 112)] (St 0));
   (71, λ r x, if x =? 10 then Tr 113 else St 0)]
  [(104, ([StartValue], 64)); (112, ([WriteValue], 71)); (101, ([Done], 121))].

(** [src/src/http/http_response_parser.cpp:1953-2077] http_response_parser_execute, cases 121 to 75 and the transition tr103 *)
Definition response_part_14 : part ResponseAction := mkPart
  [(121, λ r x, sw x [(32, St 63); (67, Tr 104); (99, Tr 104)]
      (if between 9 x 13 then St 63 else St 0));
   (72, λ r x, sw x [(10, Tr 101); (32, St 63); (67, Tr 104); (99, Tr 104)]
      (if between 9 x 13 then St 63 else St 0));
   (73, λ r x, sw x [(33, St 21); (58, Tr 39); (72, St 74); (79, St 26); (104, St 74); (111, St 26);
      (124, St 21); (126, St 21)]
      (if x <? 45 then (if 39 <? x then (if between 42 x 43 then St 21 else St 0) else if 35 <=? x
      then St 21 else St 0) else if 46 <? x then (if x <? 65 then (if between 48 x 57 then St 21
      else St 0) else if 90 <? x then (if between 94 x 122 then St 21 else St 0) else St 21) else
      St 21));
   (74, λ r x, sw x [(33, St 21); (58, Tr 39); (85, St 75); (117, St 75); (124, St 21); (126, St 21)]
      (if x <? 45 then (if 39 <? x then (if between 42 x 43 then St 21 else St 0) else if 35 <=? x
      then St 21 else St 0) else if 46 <? x then (if x <? 65 then (if between 48 x 57 then St 21
      else St 0) else if 90 <? x then (if between 94 x 122 then St 21 else St 0) else St 21) else
      St 21));
   (75, λ r x, sw x [(33, St 21); (58, Tr 39); (78, St 76); (110, St 76); (124, St 21); (126, St 21)]
      (if x <? 45 then (if 39 <? x then (if between 42 x 43 then St 21 else St 0) else if 35 <=? x
      then St 21 else St 0) else if 46 <? x then (if x <? 65 then (if between 48 x 57 then St 21
      else St 0) else if 90 <? x then (if between 94 x 122 then St 21 else St 0) else St 21) else
      St 21))]
  [(103, ([StartValue; StartField], 73))].

(** [src/src/http/http_response_parser.cpp:2078-2225] http_response_parser_execute, cases 76 to 80 and the transitions tr98 to tr99 *)
Definition response_part_15 : part ResponseAction := mkPart
  [(76, λ r x, sw x [(33, St 21); (58, Tr 39); (75, St 77); (107, St 77); (124, St 21); (126, St 21)]
      (if x <? 45 then (if 39 <? x then (if between 42 x 43 then St 21 else St 0) else if 35 <=? x
      then St 21 else St 0) else if 46 <? x then (if x <? 65 then (if between 48 x 57 then St 21
      else St 0) else if 90 <? x then (if between 94 x 122 then St 21 else St 0) else St 21) else
      St 21));
   (77, λ r x, sw x [(33, St 21); (58, Tr 39); (69, St 78); (101, St 78); (124, St 21); (126, St 21)]
      (if x <? 45 then (if 39 <? x then (if between 42 x 43 then St 21 else St 0) else if 35 <=? x
      then St 21 else St 0) else if 46 <? x then (if x <? 65 then (if between 48 x 57 then St 21
      else St 0) else if 90 <? x then (if between 94 x 122 then St 21 else St 0) else St 21) else
      St 21));
   (78, λ r x, sw x [(33, St 21); (58, Tr 39); (68, St 79); (100, St 79); (124, St 21); (126, St 21)]
      (if x <? 45 then (if 39 <? x then (if between 42 x 43 then St 21 else St 0) else if 35 <=? x
      then St 21 else St 0) else if 46 <? x then (if x <? 65 then (if between 48 x 57 then St 21
      else St 0) else if 90 <? x then (if between 94 x 122 then St 21 else St 0) else St 21) else
      St 21));
   (79, λ r x, sw x [(10, Tr 111); (13, Tr 112); (33, St 21); (58, Tr 39); (124, St 21); (126, St 21)]
      (if x <? 45 then (if 39 <? x then (if between 42 x 43 then St 21 else St 0) else if 35 <=? x
      then St 21 else St 0) else if 46 <? x then (if x <? 65 then (if between 48 x 57 then St 21
      else St 0) else if 90 <? x then (if between 94 x 122 then St 21 else St 0) else St 21) else
      St 21));
   (80, λ r x, sw x [(10, St 62); (32, St 63); (67, Tr 104); (99, Tr 104)]
      (if between 9 x 13 then St 63 else St 0))]
  [(98, ([StartValue; WriteValue], 80)); (99, ([StartValue], 81))].

(** [src/src/http/http_response_parser.cpp:2226-2356] http_response_parser_execute, cases 81 to 89 and the transitions tr137 to tr66 *)
Definition response_part_16 : part ResponseAction := mkPart
  [(81, λ r x, sw x [(10, Tr 45); (13, Tr 46); (72, St 82); (104, St 82)] (St 23));
   (82, λ r x, sw x [(10, Tr 45); (13, Tr 46); (85, St 83); (117, St 83)] (St 23));
   (83, λ r x, sw x [(10, Tr 45); (13, Tr 46); (78, St 84); (110, St 84)] (St 23));
   (84, λ r x, sw x [(10, Tr 45); (13, Tr 46); (75, St 85); (107, St 85)] (St 23));
   (85, λ r x, sw x [(10, Tr 45); (13, Tr 46); (69, St 86); (101, St 86)] (St 23));
   (86, λ r x, sw x [(10, Tr 45); (13, Tr 46); (68, St 87); (100, St 87)] (St 23));
   (87, λ r x, sw x [(10, Tr 111); (13, Tr 112)] (St 23));
   (88, λ r x, if x =? 10 then St 43 else St 0);
   (122, λ r x, sw x [(32, St 37); (67, St 38); (99, St 38)]
      (if between 9 x 13 then St 37 else St 0));
   (89, λ r x, sw x [(10, Tr 64); (32, St 37); (67, St 38); (99, St 38)]
      (if between 9 x 13 then St 37 else St 0))]
  [(137, ([WriteValue], 88)); (64, ([Done], 122)); (66, ([StartField], 90))].

(** [src/src/http/http_response_parser.cpp:2357-2506] http_response_parser_execute, cases 90 to 94 *)
Definition response_part_17 : part ResponseAction := mkPart
  [(90, λ r x, sw x [(33, St 21); (58, Tr 39); (76, St 91); (79, St 26); (108, St 91); (111, St 26);
      (124, St 21); (126, St 21)]
      (if x <? 45 then (if 39 <? x then (if between 42 x 43 then St 21 else St 0) else if 35 <=? x
      then St 21 else St 0) else if 46 <? x then (if x <? 65 then (if between 48 x 57 then St 21
      else St 0) else if 90 <? x then (if between 94 x 122 then St 21 else St 0) else St 21) else
      St 21));
   (91, λ r x, sw x [(33, St 21); (58, Tr 39); (79, St 92); (111, St 92); (124, St 21); (126, St 21)]
      (if x <? 45 then (if 39 <? x then (if between 42 x 43 then St 21 else St 0) else if 35 <=? x
      then St 21 else St 0) else if 46 <? x then (if x <? 65 then (if between 48 x 57 then St 21
      else St 0) else if 90 <? x then (if between 94 x 122 then St 21 else St 0) else St 21) else
      St 21));
   (92, λ r x, sw x [(33, St 21); (58, Tr 39); (83, St 93); (115, St 93); (124, St 21); (126, St 21)]
      (if x <? 45 then (if 39 <? x then (if between 42 x 43 then St 21 else St 0) else if 35 <=? x
      then St 21 else St 0) else if 46 <? x then (if x <? 65 then (if between 48 x 57 then St 21
      else St 0) else if 90 <? x then (if between 94 x 122 then St 21 else St 0) else St 21) else
      St 21));
   (93, λ r x, sw x [(33, St 21); (58, Tr 39); (69, St 94); (101, St 94); (124, St 21); (126, St 21)]
      (if x <? 45 then (if 39 <? x then (if between 42 x 43 then St 21 else St 0) else if 35 <=? x
      then St 21 else St 0) else if 46 <? x then (if x <? 65 then (if between 48 x 57 then St 21
      else St 0) else if 90 <? x then (if between 94 x 122 then St 21 else St 0) else St 21) else
      St 21));
   (94, λ r x, sw x [(10, St 43); (13, St 88); (33, St 21); (58, Tr 39); (124, St 21); (126, St 21)]
      (if x <? 45 then (if 39 <? x then (if between 42 x 43 then St 21 else St 0) else if 35 <=? x
      then St 21 else St 0) else if 46 <? x then (if x <? 65 then (if between 48 x 57 then St 21
      else St 0) else if 90 <? x then (if between 94 x 122 then St 21 else St 0) else St 21) else
      St 21))]
  [].

(** [src/src/http/http_response_parser.cpp:2507-2651] http_response_parser_execute, cases 95 to 102 and the transitions tr61 to tr62 *)
Definition response_part_18 : part ResponseAction := mkPart
  [(95, λ r x, sw x [(10, St 36); (32, St 37); (67, St 38); (99, St 38)]
      (if between 9 x 13 then St 37 else St 0));
   (96, λ r x, sw x [(10, Tr 45); (13, Tr 46); (76, St 97); (108, St 97)] (St 23));
   (97, λ r x, sw x [(10, Tr 45); (13, Tr 46); (79, St 98); (111, St 98)] (St 23));
   (98, λ r x, sw x [(10, Tr 45); (13, Tr 46); (83, St 99); (115, St 99)] (St 23));
   (99, λ r x, sw x [(10, Tr 45); (13, Tr 46); (69, St 100); (101, St 100)] (St 23));
   (100, λ r x, sw x [(10, Tr 136); (13, Tr 137)] (St 23));
   (101, λ r x, sw x [(33, St 21); (58, Tr 39); (69, St 102); (101, St 102); (124, St 21);
      (126, St 21)]
      (if x <? 45 then (if 39 <? x then (if between 42 x 43 then St 21 else St 0) else if 35 <=? x
      then St 21 else St 0) else if 46 <? x then (if x <? 65 then (if between 48 x 57 then St 21
      else St 0) else if 90 <? x then (if between 94 x 122 then St 21 else St 0) else St 21) else
      St 21));
   (102, λ r x, sw x [(33, St 21); (58, Tr 39); (78, St 103); (110, St 103); (124, St 21);
      (126, St 21)]
      (if x <? 45 then (if 39 <? x then (if between 42 x 43 then St 21 else St 0) else if 35 <=? x
      then St 21 else St 0) else if 46 <? x then (if x <? 65 then (if between 48 x 57 then St 21
      else St 0) else if 90 <? x then (if between 94 x 122 then St 21 else St 0) else St 21) else
      St 21))]
  [(61, ([StartValue; WriteValue], 95)); (62, ([StartValue], 96))].

(** [src/src/http/http_response_parser.cpp:2652-2798] http_response_parser_execute, cases 103 to 107 *)
Definition response_part_19 : part ResponseAction := mkPart
  [(103, λ r x, sw x [(33, St 21); (58, Tr 39); (84, St 104); (116, St 104); (124, St 21);
      (126, St 21)]
      (if x <? 45 then (if 39 <? x then (if between 42 x 43 then St 21 else St 0) else if 35 <=? x
      then St 21 else St 0) else if 46 <? x then (if x <? 65 then (if between 48 x 57 then St 21
      else St 0) else if 90 <? x then (if between 94 x 122 then St 21 else St 0) else St 21) else
      St 21));
   (104, λ r x, sw x [(33, St 21); (45, St 105); (46, St 21); (58, Tr 39); (124, St 21); (126, St 21)]
      (if x <? 48 then (if 39 <? x then (if between 42 x 43 then St 21 else St 0) else if 35 <=? x
      then St 21 else St 0) else if 57 <? x then (if 90 <? x then (if between 94 x 122 then St 21
      else St 0) else if 65 <=? x then St 21 else St 0) else St 21));
   (105, λ r x, sw x [(33, St 21); (58, Tr 39); (76, St 106); (108, St 106); (124, St 21);
      (126, St 21)]
      (if x <? 45 then (if 39 <? x then (if between 42 x 43 then St 21 else St 0) else if 35 <=? x
      then St 21 else St 0) else if 46 <? x then (if x <? 65 then (if between 48 x 57 then St 21
      else St 0) else if 90 <? x then (if between 94 x 122 then St 21 else St 0) else St 21) else
      St 21));
   (106, λ r x, sw x [(33, St 21); (58, Tr 39); (69, St 107); (101, St 107); (124, St 21);
      (126, St 21)]
      (if x <? 45 then (if 39 <? x then (if between 42 x 43 then St 21 else St 0) else if 35 <=? x
      then St 21 else St 0) else if 46 <? x then (if x <? 65 then (if between 48 x 57 then St 21
      else St 0) else if 90 <? x then (if between 94 x 122 then St 21 else St 0) else St 21) else
      St 21));
   (107, λ r x, sw x [(33, St 21); (58, Tr 39); (78, St 108); (110, St 108); (124, St 21);
      (126, St 21)]
      (if x <? 45 then (if 39 <? x then (if between 42 x 43 then St 21 else St 0) else if 35 <=? x
      then St 21 else St 0) else if 46 <? x then (if x <? 65 then (if between 48 x 57 then St 21
      else St 0) else if 90 <? x then (if between 94 x 122 then St 21 else St 0) else St 21) else
      St 21))]
  [].

(** [src/src/http/http_response_parser.cpp:2799-2939] http_response_parser_execute, cases 108 to 112 and the transitions tr149 to tr148 *)
Definition response_part_20 : part ResponseAction := mkPart
  [(108, λ r x, sw x [(33, St 21); (58, Tr 39); (71, St 109); (103, St 109); (124, St 21);
      (126, St 21)]
      (if x <? 45 then (if 39 <? x then (if between 42 x 43 then St 21 else St 0) else if 35 <=? x
      then St 21 else St 0) else if 46 <? x then (if x <? 65 then (if between 48 x 57 then St 21
      else St 0) else if 90 <? x then (if between 94 x 122 then St 21 else St 0) else St 21) else
      St 21));
   (109, λ r x, sw x [(33, St 21); (58, Tr 39); (84, St 110); (116, St 110); (124, St 21);
      (126, St 21)]
      (if x <? 45 then (if 39 <? x then (if between 42 x 43 then St 21 else St 0) else if 35 <=? x
      then St 21 else St 0) else if 46 <? x then (if x <? 65 then (if between 48 x 57 then St 21
      else St 0) else if 90 <? x then (if between 94 x 122 then St 21 else St 0) else St 21) else
      St 21));
   (110, λ r x, sw x [(33, St 21); (58, Tr 39); (72, St 111); (104, St 111); (124, St 21);
      (126, St 21)]
      (if x <? 45 then (if 39 <? x then (if between 42 x 43 then St 21 else St 0) else if 35 <=? x
      then St 21 else St 0) else if 46 <? x then (if x <? 65 then (if between 48 x 57 then St 21
      else St 0) else if 90 <? x then (if between 94 x 122 then St 21 else St 0) else St 21) else
      St 21));
   (111, λ r x, sw x [(33, St 21); (58, Tr 148); (124, St 21); (126, St 21)]
      (if x <? 45 then (if 39 <? x then (if between 42 x 43 then St 21 else St 0) else if 35 <=? x
      then St 21 else St 0) else if 46 <? x then (if x <? 65 then (if between 48 x 57 then St 21
      else St 0) else if 90 <? x then (if between 94 x 122 then St 21 else St 0) else St 21) else
      St 21));
   (112, λ r x, sw x [(10, Tr 150); (13, Tr 151); (32, Tr 149)]
      (if 12 <? x then (if between 48 x 57 then Tr 152 else Tr 40) else if 9 <=? x then Tr 149 else
      Tr 40))]
  [(149, ([StartValue], 112)); (148, ([WriteField], 112))].

(** [src/src/http/http_response_parser.cpp:2940-3088] http_response_parser_execute, cases 113 to 117 and the transitions tr150 to tr156 *)
Definition response_part_21 : part ResponseAction := mkPart
  [(113, λ r x, sw x [(10, Tr 154); (13, St 116); (32, St 114); (33, Tr 35); (67, Tr 36); (84, Tr 37);
      (99, Tr 36); (116, Tr 37); (124, Tr 35); (126, Tr 35)]
      (if x <? 45 then (if x <? 35 then (if between 9 x 12 then St 114 else St 0) else if 39 <? x
      then (if between 42 x 43 then Tr 35 else St 0) else Tr 35) else if 46 <? x then (if x <? 65
      then (if between 48 x 57 then Tr 156 else St 0) else if 90 <? x then (if between 94 x 122 then
      Tr 35 else St 0) else Tr 35) else Tr 35));
   (114, λ r x, if x =? 32 then St 114 else if 13 <? x then (if between 48 x 57 then Tr 157 else St 0)
      else if 9 <=? x then St 114 else St 0);
   (115, λ r x, sw x [(10, Tr 158); (13, Tr 159)]
      (if between 48 x 57 then St 115 else St 0));
   (123, λ r x, if x =? 32 then St 114 else if 13 <? x then (if between 48 x 57 then Tr 157 else St 0)
      else if 9 <=? x then St 114 else St 0);
   (116, λ r x, sw x [(10, Tr 154); (32, St 114)]
      (if 13 <? x then (if between 48 x 57 then Tr 157 else St 0) else if 9 <=? x then St 114 else
      St 0));
   (117, λ r x, sw x [(10, Tr 158); (13, Tr 159); (33, St 21); (58, Tr 39); (124, St 21); (126, St 21)]
      (if x <? 45 then (if 39 <? x then (if between 42 x 43 then St 21 else St 0) else if 35 <=? x
      then St 21 else St 0) else if 46 <? x then (if x <? 65 then (if between 48 x 57 then St 117
      else St 0) else if 90 <? x then (if between 94 x 122 then St 21 else St 0) else St 21) else
      St 21))]
  [(150, ([StartValue; WriteValue], 113)); (157, ([StartValue], 115)); (154, ([Done], 123));
   (156, ([StartValue; StartField], 117))].

(** [src/src/http/http_response_parser.cpp:3089-3130] http_response_parser_execute, cases 118 to 119 and the transitions tr151 to tr152 *)
Definition response_part_22 : part ResponseAction := mkPart
  [(118, λ r x, sw x [(10, St 113); (32, St 114)]
      (if 13 <? x then (if between 48 x 57 then Tr 157 else St 0) else if 9 <=? x then St 114 else
      St 0));
   (119, λ r x, sw x [(10, Tr 158); (13, Tr 159)]
      (if between 48 x 57 then St 119 else St 23))]
  [(151, ([StartValue; WriteValue], 118)); (152, ([StartValue], 119))].

Definition response_parts : list (part ResponseAction) :=
  [response_part_1; response_part_2; response_part_3; response_part_4; response_part_5;
   response_part_6; response_part_7; response_part_8; response_part_9; response_part_10;
   response_part_11; response_part_12; response_part_13; response_part_14; response_part_15;
   response_part_16; response_part_17; response_part_18; response_part_19; response_part_20;
   response_part_21; response_part_22].
