(* ===== verification/RequestParser.v ===== *)
(** * The request parser: src/src/http/http_request_parser.h, src/src/http/http_request_parser.cpp

    The struct [http_request_parser], its initialisation, the actions of the
    automaton of RequestTable.v and the function that runs it on a buffer.
    Positions are offsets in the buffer; what a callback gets as a [char *] is
    the text from there to the end of the data.  The callbacks, which the
    struct holds as pointers with [data], are one function [on] on the state
    [D] behind [data]. *)

From Stdlib Require Import Ascii.
From S2P Require Import Prelude Util Http Ragel RequestTable.

(** A call of a callback: the pointer, as the text it points to, and a length. *)
Inductive ParserEvent :=
| EvMethod (at_ : txt) (length : Z)
| EvUri (at_ : txt) (length : Z)
| EvFragment (at_ : txt) (length : Z)
| EvPath (at_ : txt) (length : Z)
| EvQuery (at_ : txt) (length : Z)
| EvVersion (at_ : txt) (length : Z)
| EvHeaderDone (at_ : txt) (length : Z)
| EvField (field : txt) (flen : Z) (value : txt) (vlen : Z).

(** [src/src/http/http_request_parser.h:13-37] http_request_parser, without the callbacks *)
Record http_request_parser := mkReqP {
  rq_cs : Z;
  rq_body_start : Z;
  rq_content_len : Z;
  rq_nread : Z;
  rq_mark : Z;
  rq_field_start : Z;
  rq_field_len : Z;
  rq_query_start : Z;
  rq_xml_sent : Z;
  rq_json_sent : Z;
  rq_uri_relaxed : Z
}.

Definition rq_set_cs (v : Z) (s : http_request_parser) : http_request_parser :=
  mkReqP v (rq_body_start s) (rq_content_len s) (rq_nread s) (rq_mark s) (rq_field_start s)
    (rq_field_len s) (rq_query_start s) (rq_xml_sent s) (rq_json_sent s) (rq_uri_relaxed s).
Definition rq_set_body (start len : Z) (s : http_request_parser) : http_request_parser :=
  mkReqP (rq_cs s) start len (rq_nread s) (rq_mark s) (rq_field_start s)
    (rq_field_len s) (rq_query_start s) (rq_xml_sent s) (rq_json_sent s) (rq_uri_relaxed s).
Definition rq_set_nread (v : Z) (s : http_request_parser) : http_request_parser :=
  mkReqP (rq_cs s) (rq_body_start s) (rq_content_len s) v (rq_mark s) (rq_field_start s)
    (rq_field_len s) (rq_query_start s) (rq_xml_sent s) (rq_json_sent s) (rq_uri_relaxed s).
Definition rq_set_mark (v : Z) (s : http_request_parser) : http_request_parser :=
  mkReqP (rq_cs s) (rq_body_start s) (rq_content_len s) (rq_nread s) v (rq_field_start s)
    (rq_field_len s) (rq_query_start s) (rq_xml_sent s) (rq_json_sent s) (rq_uri_relaxed s).
Definition rq_set_field (start len : Z) (s : http_request_parser) : http_request_parser :=
  mkReqP (rq_cs s) (rq_body_start s) (rq_content_len s) (rq_nread s) (rq_mark s) start
    len (rq_query_start s) (rq_xml_sent s) (rq_json_sent s) (rq_uri_relaxed s).
Definition rq_set_query (v : Z) (s : http_request_parser) : http_request_parser :=
  mkReqP (rq_cs s) (rq_body_start s) (rq_content_len s) (rq_nread s) (rq_mark s)
    (rq_field_start s) (rq_field_len s) v (rq_xml_sent s) (rq_json_sent s) (rq_uri_relaxed s).
Definition rq_set_sent (xml json : Z) (s : http_request_parser) : http_request_parser :=
  mkReqP (rq_cs s) (rq_body_start s) (rq_content_len s) (rq_nread s) (rq_mark s)
    (rq_field_start s) (rq_field_len s) (rq_query_start s) xml json (rq_uri_relaxed s).

Definition request_machine : machine RequestAction := link request_parts.

(** [src/src/http/http_request_parser.cpp:30-35] the constants of the automaton *)
Definition http_request_parser_start : Z := 1.
Definition http_request_parser_first_final : Z := 348.
Definition http_request_parser_error : Z := 0.

(** [src/src/http/http_request_parser.cpp:39-59] http_request_parser_init: [query_start] and [uri_relaxed] stay as they were *)
Definition http_request_parser_init (s : http_request_parser) : http_request_parser :=
  mkReqP http_request_parser_start 0 0 0 0 0 0 (rq_query_start s) 0 0 (rq_uri_relaxed s).

(** [src/src/http/http_request_parser.cpp:6623-6625] http_request_parser_has_error *)
Definition http_request_parser_has_error (s : http_request_parser) : bool :=
  rq_cs s =? http_request_parser_error.
(** [src/src/http/http_request_parser.cpp:6627-6629] http_request_parser_is_finished *)
Definition http_request_parser_is_finished (s : http_request_parser) : bool :=
  http_request_parser_first_final <=? rq_cs s.
(** [src/src/http/http_request_parser.cpp:6613-6621] http_request_parser_finish *)
Definition http_request_parser_finish (s : http_request_parser) : Z :=
  if http_request_parser_has_error s then -1
  else if http_request_parser_is_finished s then 1 else 0.

Section execute.
Context {D : Type} (on : ParserEvent → D → res D).

(** [PTR_TO] and [LEN]. *)
Definition ptr_to (buffer : txt) (m : Z) : txt := zdrop m buffer.
Definition len_to (m p : Z) : Z := u64 (p - m).

Definition called (ev : ParserEvent) (s : http_request_parser * D) : res (http_request_parser * D) :=
  d ← on ev (snd s); Ret (fst s, d).

(** [src/src/http/http_request_parser.cpp:108-220] http_request_parser_execute: the code of the actions, at the position [p]; the same code stands at every transition that runs the action ([Done] at line 488, [WriteField] at 407, [Xml] and [Json] at 3737 and 3758) *)
Definition request_act (buffer : txt) (a : RequestAction) (p : Z) (s : http_request_parser * D)
    : res (http_request_parser * D) :=
  let '(ps, d) := s in
  match a with
  | Mark => Ret (rq_set_mark p ps, d)
  | StartField => Ret (rq_set_field p (rq_field_len ps) ps, d)
  | WriteField => Ret (rq_set_field (rq_field_start ps) (len_to (rq_field_start ps) p) ps, d)
  | StartValue => Ret (rq_set_mark p ps, d)
  | WriteValue =>
      called (EvField (ptr_to buffer (rq_field_start ps)) (rq_field_len ps)
                (ptr_to buffer (rq_mark ps)) (len_to (rq_mark ps) p)) s
  | RequestMethod => called (EvMethod (ptr_to buffer (rq_mark ps)) (len_to (rq_mark ps) p)) s
  | RequestUri => called (EvUri (ptr_to buffer (rq_mark ps)) (len_to (rq_mark ps) p)) s
  | Fragment => called (EvFragment (ptr_to buffer (rq_mark ps)) (len_to (rq_mark ps) p)) s
  | StartQuery => Ret (rq_set_query p ps, d)
  | QueryString =>
      called (EvQuery (ptr_to buffer (rq_query_start ps)) (len_to (rq_query_start ps) p)) s
  | HttpVersion => called (EvVersion (ptr_to buffer (rq_mark ps)) (len_to (rq_mark ps) p)) s
  | RequestPath => called (EvPath (ptr_to buffer (rq_mark ps)) (len_to (rq_mark ps) p)) s
  | Done =>
      if negb (rq_xml_sent ps =? 0) || negb (rq_json_sent ps =? 0)
      then Ret (rq_set_body (rq_mark ps) (s32 (p - rq_mark ps + 1)) ps, d)
      else called (EvHeaderDone (ptr_to buffer (p + 1)) (u64 (zlen buffer - p - 1)))
             (rq_set_body (p + 1) (rq_content_len ps) ps, d)
  | Xml => Ret (rq_set_sent 1 (rq_json_sent ps) ps, d)
  | Json => Ret (rq_set_sent (rq_xml_sent ps) 1 ps, d)
  end.

(** [fbreak]. *)
Definition request_breaks (a : RequestAction) : bool :=
  match a with Done => true | _ => false end.

(** [src/src/http/http_request_parser.cpp:6594-6611] http_request_parser_execute, after the automaton has left with the state [cs] at the position [p] *)
Definition request_leave (parser : http_request_parser) (len off cs p : Z)
    : res (http_request_parser * Z) :=
  _ ← check (p <=? len) "Buffer overflow after parsing.";
  let parser := if negb (http_request_parser_has_error parser) then rq_set_cs cs parser else parser in
  let parser := rq_set_nread (u64 (rq_nread parser + (p - off))) parser in
  _ ← check (rq_nread parser <=? len) "nread longer than length";
  _ ← check (rq_body_start parser <=? len) "body starts after buffer end";
  _ ← check (rq_mark parser <? len) "mark is after buffer end";
  _ ← check (rq_field_len parser <=? len) "field has length longer than whole buffer";
  _ ← check (rq_field_start parser <? len) "field starts after buffer end";
  Ret (parser, rq_nread parser).

(** [src/src/http/http_request_parser.cpp:63-83] http_request_parser_execute: the parser, what the callbacks did, and the result *)
Definition http_request_parser_execute (parser : http_request_parser) (buffer : txt) (off : Z) (d : D)
    : res (http_request_parser * D * Z) :=
  let len := zlen buffer in
  if len =? 0 then Ret (parser, d, 0)
  else
    _ ← check (off <=? len) "offset past end of buffer";
    _ ← check (len - off =? s32 len - s32 off) "pointers aren't same distance";
    '(cs, p, s) ← run request_machine (negb (rq_uri_relaxed parser =? 0)) (request_act buffer)
                    request_breaks (zdrop off buffer) (rq_cs parser) off (parser, d);
    '(parser, nread) ← request_leave (fst s) len off cs p;
    Ret (parser, snd s, nread).
End execute.
