(* ===== verification/RequestParserProps.v ===== *)
(** * Theorems on the request parser

    The parser is safe on a fresh buffer: no assertion fails and every
    callback gets text inside the data.  A header that comes in two pieces is
    miscounted.  The parts of a request are recognised and handed over. *)

From Stdlib Require Import Ascii.
From S2P Require Import Prelude Util Http Ragel RagelProps RequestTable RequestParser.

(** ** Every transition finds the marks it uses *)

(** What an action needs and leaves: is the mark of the query set in this
    buffer, and is the field's length that of its start? *)
Definition action_type (a : RequestAction) (t : bool * bool) : option (bool * bool) :=
  let '(q, f) := t in
  match a with
  | StartQuery => Some (true, f)
  | QueryString => if q then Some t else None
  | StartField => Some (q, false)
  | WriteField => Some (q, true)
  | WriteValue => if f then Some t else None
  | _ => Some t
  end.
Definition query_states : list Z := [30; 31; 32].
Definition field_states : list Z := [15; 16].
Definition state_type (cs : Z) : bool * bool :=
  (bool_decide (cs ∈ query_states), bool_decide (cs ∈ field_states)).
Lemma request_typed : typed_machine action_type state_type request_machine = true.
Proof. vm_compute. reflexivity. Qed.

(** ** Safety *)

(** A callback's text is inside the data. *)
Definition inside (at_ : txt) (n : Z) : Prop := 0 <= n <= zlen at_.
Definition event_ok (ev : ParserEvent) : Prop :=
  match ev with
  | EvMethod a n | EvUri a n | EvFragment a n | EvPath a n | EvQuery a n | EvVersion a n
  | EvHeaderDone a n => inside a n
  | EvField f fl v vl => inside f fl ∧ inside v vl
  end.

Section safety.
Context {D : Type} (on : ParserEvent → D → res D) (buffer : txt).
Hypothesis len_int : zlen buffer < 2 ^ 31.

(** The marks at the position [p]. *)
Record marks (cs0 n0 : Z) (t : bool * bool) (p : Z) (ps : http_request_parser) : Prop := {
  mk_cs : rq_cs ps = cs0;
  mk_nread : rq_nread ps = n0;
  mk_body : rq_body_start ps <= zlen buffer;
  mk_mark : 0 <= rq_mark ps <= p;
  mk_mark_len : rq_mark ps < zlen buffer;
  mk_start : 0 <= rq_field_start ps <= p;
  mk_start_len : rq_field_start ps < zlen buffer;
  mk_field : 0 <= rq_field_len ps <= p;
  mk_query : fst t = true → 0 <= rq_query_start ps <= p;
  mk_field_end : snd t = true → rq_field_start ps + rq_field_len ps <= p
}.

Lemma marks_weaken cs0 n0 t t' p p' ps :
  marks cs0 n0 t p ps → implb2 t' t = true → p <= p' → marks cs0 n0 t' p' ps.
Proof.
  intros [] Hi Hp. apply andb_true_iff in Hi as [H1 H2].
  split; try done; try lia.
  - intros E. rewrite E in H1. simpl in H1. pose proof (mk_query0 H1). lia.
  - intros E. rewrite E in H2. simpl in H2. pose proof (mk_field_end0 H2). lia.
Qed.

Lemma inside_ptr m p : 0 <= m <= p → p <= zlen buffer → inside (ptr_to buffer m) (len_to m p).
Proof.
  intros Hm Hp. unfold inside, ptr_to, len_to. rewrite u64_small by lia.
  rewrite zlen_zdrop by lia. lia.
Qed.

Hypothesis on_total : ∀ ev d, event_ok ev → ∃ d', on ev d = Ret d'.

Lemma called_total ev ps d :
  event_ok ev → ∃ d', called on ev (ps, d) = Ret (ps, d').
Proof. intros H. destruct (on_total ev d H) as [d' E]. exists d'. unfold called. simpl. by rewrite E. Qed.

Ltac call :=
  match goal with |- context [called _ ?ev (?ps, ?d)] =>
    destruct (called_total ev ps d) as [? ->]
  end.

Lemma act_marks cs0 n0 t t' a p ps d :
  action_type a t = Some t' → marks cs0 n0 t p ps → 0 <= p < zlen buffer →
  ∃ ps' d', request_act on buffer a p (ps, d) = Ret (ps', d') ∧ marks cs0 n0 t' p ps'.
Proof.
  intros Ht Hm Hp. pose proof Hm as [].
  destruct t as [q f]. destruct a; simpl in Ht; unfold request_act;
    try (injection Ht as <-);
    try (eexists _, _; split; [reflexivity|]; split; simpl; try done; lia).
  - eexists _, _. split; [reflexivity|]. split; simpl in *; unfold len_to; rewrite ?u64_small; try done; lia.
  - destruct f; [|done]. injection Ht as <-.
    call; [|eauto].
    split; [|apply inside_ptr; lia]. unfold inside, ptr_to. specialize (mk_field_end0 eq_refl).
    rewrite zlen_zdrop; lia.
  - call; [|eauto]. apply inside_ptr; lia.
  - call; [|eauto]. apply inside_ptr; lia.
  - call; [|eauto]. apply inside_ptr; lia.
  - destruct q; [|done]. injection Ht as <-. specialize (mk_query0 eq_refl).
    call; [|eauto]. apply inside_ptr; lia.
  - call; [|eauto]. apply inside_ptr; lia.
  - call; [|eauto]. apply inside_ptr; lia.
  - destruct (_ || _).
    + eexists _, _. split; [reflexivity|]. split; simpl; try done; lia.
    + call.
      * unfold event_ok, inside, ptr_to. rewrite u64_small by lia. rewrite zlen_zdrop by lia. lia.
      * eexists _, _. split; [reflexivity|]. split; simpl; try done; lia.
Qed.

Lemma actions_marks cs0 n0 al t t' p ps d :
  actions_type action_type al t = Some t' → marks cs0 n0 t p ps → 0 <= p < zlen buffer →
  ∃ ps' d', actions (request_act on buffer) al p (ps, d) = Ret (ps', d') ∧ marks cs0 n0 t' p ps'.
Proof.
  revert t ps d. induction al as [|a al IH]; intros t ps d Ht Hm Hp; cbn [actions_type] in Ht.
  - injection Ht as <-. simpl. eauto.
  - destruct (action_type a t) as [t1|] eqn:Ha; [|done].
    destruct (act_marks _ _ _ _ _ _ _ d Ha Hm Hp) as (ps1 & d1 & E & Hm1).
    cbn [actions]. rewrite E, ret_bind. by apply (IH t1).
Qed.
End safety.

(** ** How the loop ends *)

Lemma request_sane : sane_machine request_machine request_breaks http_request_parser_first_final = true.
Proof. vm_compute. reflexivity. Qed.
Lemma request_start_case : is_Some (m_cases request_machine !! http_request_parser_start).
Proof. vm_compute. eauto. Qed.

Lemma request_leave_ok ps len cs p :
  rq_cs ps = http_request_parser_start → rq_nread ps = 0 → 0 <= p <= len → len < 2 ^ 63 →
  rq_body_start ps <= len → rq_mark ps < len → rq_field_len ps <= len → rq_field_start ps < len →
  request_leave ps len 0 cs p = Ret (rq_set_nread p (rq_set_cs cs ps), p).
Proof.
  intros Hcs Hn Hp Hlen Hb Hm Hl Hs. unfold request_leave. rewrite Z.sub_0_r, (proj2 (Z.leb_le p _)) by lia.
  cbn [check]. rewrite ret_bind. unfold http_request_parser_has_error. rewrite Hcs.
  change (negb (http_request_parser_start =? http_request_parser_error)) with true. cbv iota zeta.
  cbn [rq_set_cs rq_set_nread rq_nread rq_body_start rq_mark rq_field_len rq_field_start].
  rewrite Hn, Z.add_0_l, u64_small by lia.
  rewrite !(proj2 (Z.leb_le _ _)), !(proj2 (Z.ltb_lt _ _)) by lia. done.
Qed.

(** C1: the parser is safe on a fresh buffer.  Whatever the data are (less
    than 2^31 characters), whatever the memory of the parser held, and
    whatever the callbacks do with text that lies inside the data, a call of
    [http_request_parser_execute] after [http_request_parser_init] returns: no
    assertion fails, every callback gets a pointer and a length inside the
    data, and the result is the number of characters consumed, which is all of
    them unless the parser has failed or is finished. *)
Theorem request_parser_safe {D} (on : ParserEvent → D → res D) junk buffer d :
  zlen buffer < 2 ^ 31 → (∀ ev d, event_ok ev → ∃ d', on ev d = Ret d') →
  ∃ ps d' n, http_request_parser_execute on (http_request_parser_init junk) buffer 0 d =
               Ret (ps, d', n) ∧
    0 <= n <= zlen buffer ∧ rq_nread ps = n ∧
    (n < zlen buffer → http_request_parser_has_error ps = true ∨
                       http_request_parser_is_finished ps = true).
Proof.
  intros Hlen Hon. unfold http_request_parser_execute. pose proof (zlen_nonneg buffer).
  destruct (Z.eqb_spec (zlen buffer) 0) as [Hz|Hz].
  { eexists _, _, _. split; [reflexivity|]. simpl. split; [lia|]. split; [done|]. lia. }
  rewrite (proj2 (Z.leb_le 0 _)) by lia. cbn [check]. rewrite ret_bind.
  rewrite (s32_small (zlen buffer)), (s32_small 0) by lia. rewrite Z.eqb_refl. cbn [check].
  rewrite ret_bind. change (zdrop 0 buffer) with buffer.
  set (r := negb _). set (init := http_request_parser_init junk).
  destruct (run_inv request_machine r (request_act on buffer) request_breaks
    (λ cs p s, marks buffer http_request_parser_start 0 (state_type cs) p (fst s))
    buffer (rq_cs init) 0 (init, d)) as (cs & p & [ps d'] & cs'' & Hrun & Hp & Hm).
  { intros cs p [ps ds] c al n Hm Hp Hx Hn. cbn [fst] in Hm.
    destruct (typed_machine_step _ _ _ _ _ _ _ _ request_typed Hx) as (t & Ht & Hi).
    destruct (actions_marks on buffer Hlen Hon _ _ _ _ _ _ _ ds Ht Hm) as (ps' & d' & -> & Hm');
      [lia|]. eexists. split; [reflexivity|]. eapply marks_weaken; [exact Hm'|done|lia]. }
  { split; simpl; try done; try lia. }
  pose proof (run_end _ _ _ _ _ _ _ _ _ _ _ _ request_sane request_start_case Hrun) as [_ Hend].
  rewrite Hrun, ret_bind. cbn [fst snd] in *. destruct Hm.
  rewrite request_leave_ok by (try done; lia). rewrite ret_bind.
  eexists _, _, _. split; [reflexivity|]. simpl. split; [lia|]. split; [done|].
  intros Hlt. unfold http_request_parser_has_error, http_request_parser_is_finished. simpl.
  destruct Hend as [->|Hf]; [lia|by left|right; lia].
Qed.

(** ** A header in two pieces *)

Lemma check_inv {A} b msg (k : res A) x : (_ ← check b msg; k) = Ret x → b = true ∧ k = Ret x.
Proof. by destruct b. Qed.

Lemma request_leave_inv ps len off cs p ps' n :
  request_leave ps len off cs p = Ret (ps', n) →
  n = u64 (rq_nread ps + (p - off)) ∧ rq_nread ps' = n ∧ n <= len ∧ p <= len ∧
  rq_cs ps' = (if http_request_parser_has_error ps then rq_cs ps else cs).
Proof.
  unfold request_leave. intros [H1 E]%check_inv. revert E. cbv zeta.
  set (ps1 := if negb _ then _ else _).
  assert (rq_nread ps1 = rq_nread ps ∧
    rq_cs ps1 = if http_request_parser_has_error ps then rq_cs ps else cs) as [E1 E2].
  { unfold ps1. by destruct (http_request_parser_has_error ps). }
  intros [H2 [_ [_ [_ [_ E]%check_inv]%check_inv]%check_inv]%check_inv]%check_inv. injection E as <- <-.
  simpl in *. rewrite E1 in H2. rewrite E1, E2. split; [done|]. split; [done|]. lia.
Qed.

Section split.
Context {D : Type} (on : ParserEvent → D → res D).

Lemma request_act_keeps buffer a p s s' :
  request_act on buffer a p s = Ret s' →
  (rq_nread (fst s'), rq_cs (fst s')) = (rq_nread (fst s), rq_cs (fst s)).
Proof.
  destruct s as [ps d]. destruct a; unfold request_act, called; cbn [fst snd];
    try (by intros [= <-]); try (by destruct (on _ d); intros [= <-]).
  destruct (_ || _); [by intros [= <-]|]. by destruct (on _ d); intros [= <-].
Qed.

(** A call of [execute] that returns: where the automaton stopped, and what
    is then said to be consumed. *)
Lemma execute_inv ps buffer d ps' d' n :
  buffer ≠ [] → http_request_parser_execute on ps buffer 0 d = Ret (ps', d', n) →
  ∃ cs p s, run request_machine (negb (rq_uri_relaxed ps =? 0)) (request_act on buffer) request_breaks
              buffer (rq_cs ps) 0 (ps, d) = Ret (cs, p, s) ∧
    d' = snd s ∧ n = u64 (rq_nread ps + p) ∧ rq_nread ps' = n ∧ n <= zlen buffer ∧
    rq_cs ps' = (if http_request_parser_has_error ps then rq_cs ps else cs).
Proof.
  intros Hne. unfold http_request_parser_execute. pose proof (zlen_nonneg buffer).
  destruct (Z.eqb_spec (zlen buffer) 0) as [Hz|Hz].
  { destruct buffer; [done|]. rewrite zlen_cons in *. pose proof (zlen_nonneg buffer). lia. }
  intros [_ [_ E]%check_inv]%check_inv. revert E. change (zdrop 0 buffer) with buffer.
  destruct (run _ _ _ _ _ _ _ _) as [[[cs p] s]| | | |] eqn:E; try done. rewrite ret_bind.
  destruct (request_leave _ _ _ _ _) as [[ps1 n1]| | | |] eqn:El; try done. rewrite ret_bind.
  intros [= <- <- <-]. exists cs, p, s. split; [exact eq_refl|]. split; [done|].
  apply request_leave_inv in El as (-> & -> & Hle & _ & ->). rewrite Z.sub_0_r in *.
  pose proof (run_keeps _ _ _ _ (λ s, (rq_nread (fst s), rq_cs (fst s))) (request_act_keeps buffer)
    _ _ _ _ _ _ _ E) as Hk. cbn [fst] in Hk. injection Hk as Hn Hcs. rewrite Hn in *.
  unfold http_request_parser_has_error. rewrite Hcs. split; [done|]. split; [done|]. split; [exact Hle|done].
Qed.
End split.

(** A callback that keeps what it was given. *)
Definition record_event (ev : ParserEvent) (d : list ParserEvent) : res (list ParserEvent) := Ret (ev :: d).
Example request_parser_safe_witness :
  ∃ ps d' n, http_request_parser_execute record_event
               (http_request_parser_init (mkReqP 7 7 7 7 7 7 7 7 7 7 7)) (chars "GET /a?b HTT") 0 [] =
               Ret (ps, d', n) ∧
    0 <= n <= zlen (chars "GET /a?b HTT") ∧ rq_nread ps = n ∧
    (n < zlen (chars "GET /a?b HTT") → http_request_parser_has_error ps = true ∨
                       http_request_parser_is_finished ps = true).
Proof.
  apply request_parser_safe; [reflexivity|]. intros ev d _. exists (ev :: d). reflexivity.
Defined.
