(* ===== verification/ResponseParser.v ===== *)
(** * The response parser: src/src/http/http_response_parser.h, src/src/http/http_response_parser.cpp

    As RequestParser.v, for the automaton of ResponseTable.v.  The caller
    puts a NUL behind the data, so the first assertion of
    [http_response_parser_execute] holds and a number that is read from a mark
    ends with the data at the latest. *)

From Stdlib Require Import Ascii.
From S2P Require Import Prelude Util Http Ragel ResponseTable.

(** A call of a callback. *)
Inductive ResponseEvent :=
| EvReason (at_ : txt) (length : Z)
| EvStatus (at_ : txt) (length : Z)
| EvChunkSize (at_ : txt) (length : Z)
| EvRVersion (at_ : txt) (length : Z)
| EvRHeaderDone (at_ : txt) (length : Z)
| EvLastChunk (at_ : txt) (length : Z)
| EvRField (field : txt) (flen : Z) (value : txt) (vlen : Z).

(** [src/src/http/http_response_parser.h:13-36] http_response_parser, without the callbacks *)
Record http_response_parser := mkRespP {
  rs_cs : Z;
  rs_body_start : Z;
  rs_content_len : Z;
  rs_status : Z;
  rs_chunked : Z;
  rs_chunks_done : Z;
  rs_close : Z;
  rs_nread : Z;
  rs_mark : Z;
  rs_field_start : Z;
  rs_field_len : Z
}.

Definition rs_set_cs (v : Z) (s : http_response_parser) : http_response_parser :=
  mkRespP v (rs_body_start s) (rs_content_len s) (rs_status s) (rs_chunked s) (rs_chunks_done s)
    (rs_close s) (rs_nread s) (rs_mark s) (rs_field_start s) (rs_field_len s).
Definition rs_set_body_start (v : Z) (s : http_response_parser) : http_response_parser :=
  mkRespP (rs_cs s) v (rs_content_len s) (rs_status s) (rs_chunked s) (rs_chunks_done s)
    (rs_close s) (rs_nread s) (rs_mark s) (rs_field_start s) (rs_field_len s).
Definition rs_set_content_len (v : Z) (s : http_response_parser) : http_response_parser :=
  mkRespP (rs_cs s) (rs_body_start s) v (rs_status s) (rs_chunked s) (rs_chunks_done s)
    (rs_close s) (rs_nread s) (rs_mark s) (rs_field_start s) (rs_field_len s).
Definition rs_set_status (v : Z) (s : http_response_parser) : http_response_parser :=
  mkRespP (rs_cs s) (rs_body_start s) (rs_content_len s) v (rs_chunked s) (rs_chunks_done s)
    (rs_close s) (rs_nread s) (rs_mark s) (rs_field_start s) (rs_field_len s).
Definition rs_set_chunk (chunked done : Z) (s : http_response_parser) : http_response_parser :=
  mkRespP (rs_cs s) (rs_body_start s) (rs_content_len s) (rs_status s) chunked done
    (rs_close s) (rs_nread s) (rs_mark s) (rs_field_start s) (rs_field_len s).
Definition rs_set_close (v : Z) (s : http_response_parser) : http_response_parser :=
  mkRespP (rs_cs s) (rs_body_start s) (rs_content_len s) (rs_status s) (rs_chunked s)
    (rs_chunks_done s) v (rs_nread s) (rs_mark s) (rs_field_start s) (rs_field_len s).
Definition rs_set_nread (v : Z) (s : http_response_parser) : http_response_parser :=
  mkRespP (rs_cs s) (rs_body_start s) (rs_content_len s) (rs_status s) (rs_chunked s)
    (rs_chunks_done s) (rs_close s) v (rs_mark s) (rs_field_start s) (rs_field_len s).
Definition rs_set_mark (v : Z) (s : http_response_parser) : http_response_parser :=
  mkRespP (rs_cs s) (rs_body_start s) (rs_content_len s) (rs_status s) (rs_chunked s)
    (rs_chunks_done s) (rs_close s) (rs_nread s) v (rs_field_start s) (rs_field_len s).
Definition rs_set_field (start len : Z) (s : http_response_parser) : http_response_parser :=
  mkRespP (rs_cs s) (rs_body_start s) (rs_content_len s) (rs_status s) (rs_chunked s)
    (rs_chunks_done s) (rs_close s) (rs_nread s) (rs_mark s) start len.

(** ** [strtol], with a [long] of 64 bits, in base 10 and 16 *)

Definition digit_value (base : Z) (c : ascii) : option Z :=
  let z := code c in
  let v := if between 48 z 57 then z - 48 else if between 97 z 122 then z - 87
           else if between 65 z 90 then z - 55 else 99 in
  if v <? base then Some v else None.
Fixpoint strtol_digits (base acc : Z) (s : txt) : Z :=
  match s with
  | c :: s => match digit_value base c with
              | Some v => strtol_digits base (base * acc + v) s
              | None => acc
              end
  | [] => acc
  end.
(** The prefix 0x, when a digit follows it. *)
Definition skip_0x (base : Z) (s : txt) : txt :=
  match s with
  | z :: x :: d :: s' =>
      if (base =? 16) && (code z =? 48) && ((code x =? 120) || (code x =? 88)) &&
         bool_decide (is_Some (digit_value base d)) then d :: s' else s
  | _ => s
  end.
Definition clamp_long (v : Z) : Z := Z.max (- 2 ^ 63) (Z.min (2 ^ 63 - 1) v).
Fixpoint strtol (base : Z) (s : txt) : Z :=
  match s with
  | [] => 0
  | c :: s' =>
      if (code c =? 32) || between 9 (code c) 13 then strtol base s'
      else if code c =? 45 then clamp_long (- strtol_digits base 0 (skip_0x base s'))
      else if code c =? 43 then clamp_long (strtol_digits base 0 (skip_0x base s'))
      else clamp_long (strtol_digits base 0 (skip_0x base s))
  end.

Definition response_machine : machine ResponseAction := link response_parts.

(** [src/src/http/http_response_parser.cpp:32-37] the constants of the automaton *)
Definition http_response_parser_start : Z := 1.
Definition http_response_parser_first_final : Z := 120.
Definition http_response_parser_error : Z := 0.

(** [src/src/http/http_response_parser.cpp:41-64] http_response_parser_init: [status] stays as it was *)
Definition http_response_parser_init (s : http_response_parser) : http_response_parser :=
  mkRespP http_response_parser_start 0 (-1) (rs_status s) 0 0 0 0 0 0 0.

(** [src/src/http/http_response_parser.cpp:3295-3297] http_response_parser_has_error *)
Definition http_response_parser_has_error (s : http_response_parser) : bool :=
  rs_cs s =? http_response_parser_error.
(** [src/src/http/http_response_parser.cpp:3299-3301] http_response_parser_is_finished: only the first of the final states counts *)
Definition http_response_parser_is_finished (s : http_response_parser) : bool :=
  rs_cs s =? http_response_parser_first_final.
(** [src/src/http/http_response_parser.cpp:3281-3293] http_response_parser_finish *)
Definition http_response_parser_finish (s : http_response_parser) : Z :=
  if http_response_parser_has_error s then -1
  else if http_response_parser_is_finished s then 1 else 0.

Section execute.
Context {D : Type} (on : ResponseEvent → D → res D).

Definition r_called (ev : ResponseEvent) (s : http_response_parser * D)
    : res (http_response_parser * D) := d ← on ev (snd s); Ret (fst s, d).

Definition r_ptr (buffer : txt) (m : Z) : txt := zdrop m buffer.
Definition r_len (m p : Z) : Z := u64 (p - m).

(** [src/src/http/http_response_parser.cpp:125-220] http_response_parser_execute: the code of the actions, at the position [p]; the same code stands at every transition that runs the action ([ReasonPhrase] at line 566, [StatusCode] at 527, [HttpVersion] at 498, [TransChunked] at 589, [WriteContentLen] at 601) *)
Definition response_act (buffer : txt) (a : ResponseAction) (p : Z) (s : http_response_parser * D)
    : res (http_response_parser * D) :=
  let '(ps, d) := s in
  let at_mark := r_ptr buffer (rs_mark ps) in
  let len_mark := r_len (rs_mark ps) p in
  match a with
  | Mark => Ret (rs_set_mark p ps, d)
  | StartField => Ret (rs_set_field p (rs_field_len ps) ps, d)
  | WriteField => Ret (rs_set_field (rs_field_start ps) (r_len (rs_field_start ps) p) ps, d)
  | StartValue => Ret (rs_set_mark p ps, d)
  | WriteContentLen => Ret (rs_set_content_len (s32 (strtol 10 at_mark)) ps, d)
  | WriteConnectionClose => Ret (rs_set_close 1 ps, d)
  | WriteValue =>
      r_called (EvRField (r_ptr buffer (rs_field_start ps)) (rs_field_len ps) at_mark len_mark) s
  | ReasonPhrase => r_called (EvReason at_mark len_mark) s
  | StatusCode => r_called (EvStatus at_mark len_mark) (rs_set_status (s32 (strtol 10 at_mark)) ps, d)
  | HttpVersion => r_called (EvRVersion at_mark len_mark) s
  | ChunkSize =>
      let ps := rs_set_content_len (s32 (strtol 16 at_mark)) ps in
      let ps := rs_set_chunk 1 (if rs_content_len ps <=? 0 then 1 else 0) ps in
      r_called ((if negb (rs_chunks_done ps =? 0) then EvLastChunk else EvChunkSize) at_mark len_mark)
        (ps, d)
  | TransChunked => Ret (rs_set_chunk 1 (rs_chunks_done ps) ps, d)
  | Done =>
      r_called (EvRHeaderDone (r_ptr buffer (p + 1)) (u64 (zlen buffer - p - 1)))
        (rs_set_body_start (p + 1) ps, d)
  end.

Definition response_breaks (a : ResponseAction) : bool :=
  match a with Done => true | _ => false end.

(** [src/src/http/http_response_parser.cpp:3260-3279] http_response_parser_execute, after the automaton; -1 when one of the checks that do not abort fails *)
Definition response_leave (parser : http_response_parser) (len off cs p : Z)
    : res (http_response_parser * Z) :=
  let parser := rs_set_cs cs parser in
  let parser := rs_set_nread (u64 (rs_nread parser + (p - off))) parser in
  _ ← check (p <=? len) "buffer overflow after parsing execute";
  _ ← check (rs_nread parser <=? len) "nread longer than length";
  _ ← check (rs_body_start parser <=? len) "body starts after buffer end";
  Ret (parser, if (rs_mark parser <? len) && (rs_field_len parser <=? len) &&
                  (rs_field_start parser <? len) then s32 (rs_nread parser) else -1).

(** [src/src/http/http_response_parser.cpp:68-87] http_response_parser_execute: the parser, what the callbacks did, and the result *)
Definition http_response_parser_execute (parser : http_response_parser) (buffer : txt) (off : Z) (d : D)
    : res (http_response_parser * D * Z) :=
  let len := zlen buffer in
  _ ← check (off <=? len) "offset past end of buffer";
  _ ← check (len - off =? s32 len - s32 off) "pointers aren't same distance";
  '(cs, p, s) ← run response_machine false (response_act buffer) response_breaks
                  (zdrop off buffer) (rs_cs parser) off (parser, d);
  '(parser, rt) ← response_leave (fst s) len off cs p;
  Ret (parser, snd s, rt).
End execute.
