(* ===== verification/ResponseParserProps.v ===== *)
(** * Theorems on the response parser

    With callbacks that do not fail, a fresh parser consumes its data without
    a failed assertion.  What a callback gets is not always inside the data:
    see ResponseGrammar.v. *)

From Stdlib Require Import Ascii.
From S2P Require Import Prelude Util Http Ragel Regex RagelProps ResponseTable ResponseParser RequestParserProps.

Section safety.
Context {D : Type} (on : ResponseEvent → D → res D) (buffer : txt).
Hypothesis len_int : zlen buffer < 2 ^ 31.
Hypothesis on_total : ∀ ev d, ∃ d', on ev d = Ret d'.

(** The marks at the position [p]. *)
Record r_marks (n0 : Z) (p : Z) (ps : http_response_parser) : Prop := {
  rm_nread : rs_nread ps = n0;
  rm_body : rs_body_start ps <= zlen buffer;
  rm_mark : 0 <= rs_mark ps <= p;
  rm_mark_len : rs_mark ps < zlen buffer;
  rm_start : 0 <= rs_field_start ps <= p;
  rm_start_len : rs_field_start ps < zlen buffer;
  rm_field : 0 <= rs_field_len ps <= p
}.

Lemma r_called_total ev ps d : ∃ d', r_called on ev (ps, d) = Ret (ps, d').
Proof. destruct (on_total ev d) as [d' E]. exists d'. unfold r_called. simpl. by rewrite E. Qed.

Lemma r_act_marks n0 a p ps d :
  r_marks n0 p ps → 0 <= p < zlen buffer →
  ∃ ps' d', response_act on buffer a p (ps, d) = Ret (ps', d') ∧ r_marks n0 p ps'.
Proof.
  intros Hm Hp. pose proof Hm as []. destruct a; unfold response_act;
    try match goal with |- context [r_called _ ?ev (?ps, ?d)] =>
      destruct (r_called_total ev ps d) as [? ->] end;
    (eexists _, _; split; [reflexivity|]; try exact Hm; split; simpl; unfold r_len; rewrite ?u64_small;
     try done; lia).
Qed.

Lemma r_actions_marks n0 al p ps d :
  r_marks n0 p ps → 0 <= p < zlen buffer →
  ∃ ps' d', actions (response_act on buffer) al p (ps, d) = Ret (ps', d') ∧ r_marks n0 p ps'.
Proof.
  revert ps d. induction al as [|a al IH]; intros ps d Hm Hp; [simpl; eauto|].
  destruct (r_act_marks _ a _ _ d Hm Hp) as (ps1 & d1 & E & Hm1).
  cbn [actions]. rewrite E, ret_bind. by apply IH.
Qed.
End safety.

Lemma response_sane : sane_machine response_machine response_breaks http_response_parser_first_final = true.
Proof. vm_cast_no_check (eq_refl true). Qed.
Lemma response_start_case : is_Some (m_cases response_machine !! http_response_parser_start).
Proof. vm_compute. eauto. Qed.

Lemma response_leave_ok ps len cs p :
  rs_nread ps = 0 → 0 <= p <= len → len < 2 ^ 31 → rs_body_start ps <= len → rs_mark ps < len →
  rs_field_len ps <= len → rs_field_start ps < len →
  response_leave ps len 0 cs p = Ret (rs_set_nread p (rs_set_cs cs ps), p).
Proof.
  intros Hn Hp Hlen Hb Hm Hl Hs. unfold response_leave. change (rs_nread (rs_set_cs cs ps)) with (rs_nread ps).
  rewrite Hn, Z.add_0_l, Z.sub_0_r, u64_small by lia.
  cbn [rs_set_nread rs_set_cs rs_nread rs_body_start rs_mark rs_field_len rs_field_start].
  rewrite !(proj2 (Z.leb_le _ _)) by lia. cbn [check]. rewrite !ret_bind.
  rewrite !(proj2 (Z.ltb_lt _ _)) by lia. cbn [andb]. rewrite s32_small by lia. done.
Qed.

(** A call of [execute] on a fresh parser: where the automaton stopped, which
    is what the result says. *)
Lemma response_execute_fresh {D} (on : ResponseEvent → D → res D) junk buffer d :
  buffer ≠ [] → zlen buffer < 2 ^ 31 → (∀ ev d, ∃ d', on ev d = Ret d') →
  ∃ ps d' n s, http_response_parser_execute on (http_response_parser_init junk) buffer 0 d =
                 Ret (ps, d', n) ∧
    run response_machine false (response_act on buffer) response_breaks buffer http_response_parser_start 0
      (http_response_parser_init junk, d) = Ret (rs_cs ps, n, s) ∧ rs_nread ps = n ∧ 0 <= n <= zlen buffer.
Proof.
  intros Hne Hlen Hon. set (init := http_response_parser_init junk).
  assert (0 < zlen buffer) as Hpos.
  { destruct buffer; [done|]. rewrite zlen_cons. pose proof (zlen_nonneg buffer). lia. }
  destruct (run_inv response_machine false (response_act on buffer) response_breaks
    (λ cs p s, r_marks buffer 0 p (fst s)) buffer http_response_parser_start 0 (init, d))
    as (cs & p & [ps d'] & cs'' & Hrun & Hp & Hm).
  { intros cs p [ps ds] c al n Hm Hp _ _. cbn [fst] in Hm.
    destruct (r_actions_marks on buffer Hlen Hon 0 al p ps ds Hm) as (ps' & d' & -> & []); [lia|].
    eexists. split; [reflexivity|]. split; simpl; try done; lia. }
  { split; simpl; try done; lia. }
  rewrite Z.add_0_l in Hp. destruct Hm.
  exists (rs_set_nread p (rs_set_cs cs ps)), d', p, (ps, d').
  split; [|split; [exact Hrun|split; [done|exact Hp]]].
  unfold http_response_parser_execute. rewrite (proj2 (Z.leb_le 0 _)) by lia. cbn [check]. rewrite ret_bind.
  rewrite (s32_small (zlen buffer)), (s32_small 0), Z.eqb_refl by lia. cbn [check]. rewrite ret_bind.
  change (zdrop 0 buffer) with buffer. change (rs_cs init) with http_response_parser_start.
  rewrite Hrun, ret_bind. cbn [fst snd] in *. rewrite response_leave_ok by (try done; lia). done.
Qed.
