(* ===== verification/RequestGrammar.v ===== *)
(** * The grammar of requests: src/src/http/http_request_parser.rl

    The grammar that ragel compiles, as a regular expression, production by
    production with the names of the file, and the theorem that the generated
    automaton recognises exactly its language.  [relaxed] is the flag
    [uri_relaxed].

    In ragel a number is a character and [-] is a difference of languages.
    So [(0 - 31)] is the character 0 alone, [("1"-"9")] the digit 1, and
    [6( h16 ":" )] is the character with code 6 and then one [h16 ":"]; the
    expressions below say what the file says, not what it means to say. *)

From Stdlib Require Import Ascii.
From S2P Require Import Prelude Util Http Ragel RagelProps Explore Regex Grammar RequestTable RequestParser RequestParserProps.

(** ** The productions *)

(** [src/src/http/http_request_parser.rl:97-97] CRLF *)
Definition CRLF : re := alt (lit Http.crlf) (lit Http.lf).

Section uri.
Context (relaxed : bool).

(** [src/src/http/http_request_parser.rl:101-101] more_delims *)
Definition more_delims : cset := if relaxed then one_of "{}^" else [].
(** [src/src/http/http_request_parser.rl:102-103] sub_delims *)
Definition sub_delims : cset := union (one_of "!$&'()*+,;=") more_delims.
(** [src/src/http/http_request_parser.rl:106-106] unreserved *)
Definition unreserved : cset := union (union alpha digit) (one_of "-._~").
(** [src/src/http/http_request_parser.rl:108-108] pct_encoded *)
Definition pct_encoded : re := seqs [str "%"; Chr xdigit; Chr xdigit].
(** [src/src/http/http_request_parser.rl:110-110] pchar *)
Definition pchar : re := choice [Chr unreserved; pct_encoded; Chr sub_delims; Chr (one_of ":@")].
(** [src/src/http/http_request_parser.rl:112-112] fragment *)
Definition fragment : re := Star (choice [pchar; str "/"; str "?"]).
(** [src/src/http/http_request_parser.rl:114-114] query *)
Definition query : re := Star (choice [pchar; str "/"; str "?"]).
(** [src/src/http/http_request_parser.rl:117-117] segment_nz_nc *)
Definition segment_nz_nc : re :=
  plus (choice [Chr unreserved; pct_encoded; Chr sub_delims; str "@"]).
(** [src/src/http/http_request_parser.rl:118-118] segment_nz *)
Definition segment_nz : re := plus pchar.
(** [src/src/http/http_request_parser.rl:119-119] segment *)
Definition segment : re := Star pchar.
(** [src/src/http/http_request_parser.rl:121-121] path_empty *)
Definition path_empty : re := times 0 pchar.
(** [src/src/http/http_request_parser.rl:122-122] path_rootless *)
Definition path_rootless : re := seq segment_nz (Star (seq (str "/") segment)).
(** [src/src/http/http_request_parser.rl:123-123] path_noscheme *)
Definition path_noscheme : re := seq segment_nz_nc (Star (seq (str "/") segment)).
(** [src/src/http/http_request_parser.rl:124-124] path_absolute *)
Definition path_absolute : re :=
  seq (str "/") (opt (seq segment_nz (Star (seq (str "/") segment)))).
(** [src/src/http/http_request_parser.rl:125-125] path_abempty *)
Definition path_abempty : re := Star (seq (str "/") segment).
(** [src/src/http/http_request_parser.rl:134-134] reg_name *)
Definition reg_name : re := Star (choice [Chr unreserved; pct_encoded; Chr sub_delims]).
(** [src/src/http/http_request_parser.rl:136-141] dec_octet *)
Definition dec_octet : re :=
  choice [Chr digit;
        seqs [Chr (minus (one_of "1") (one_of "9")); Chr digit];
        seqs [str "1"; times 2 (Chr digit)];
        seqs [str "2"; Chr (minus (one_of "0") (one_of "4")); Chr digit];
        seqs [str "25"; Chr (minus (one_of "0") (one_of "5"))]].
(** [src/src/http/http_request_parser.rl:143-143] IPv4address *)
Definition IPv4address : re :=
  seqs [dec_octet; str "."; dec_octet; str "."; dec_octet; str "."; dec_octet].
(** [src/src/http/http_request_parser.rl:144-144] h16 *)
Definition h16 : re := from_to 1 4 (Chr xdigit).
(** [src/src/http/http_request_parser.rl:145-145] ls32 *)
Definition ls32 : re := alt (seqs [h16; str ":"; h16]) IPv4address.
(** [src/src/http/http_request_parser.rl:147-156] IPv6address *)
Definition IPv6address : re :=
  let h := seq h16 (str ":") in
  let n k := Chr (number k) in
  choice [seqs [n 6; h; ls32];
        seqs [str "::"; n 5; h; ls32];
        seqs [opt h16; str "::"; n 4; h; ls32];
        seqs [opt (seq (at_least 1 h) h16); str "::"; n 3; h; ls32];
        seqs [opt (seq (at_least 2 h) h16); str "::"; n 2; h; ls32];
        seqs [opt (seq (at_least 3 h) h16); str "::"; h16; str ":"; ls32];
        seqs [opt (seq (at_least 4 h) h16); str "::"; ls32];
        seqs [opt (seq (at_least 5 h) h16); str "::"; h16];
        seqs [opt (seq (at_least 6 h) h16); str "::"]].
(** [src/src/http/http_request_parser.rl:158-158] IPvFuture *)
Definition IPvFuture : re :=
  seqs [str "v"; plus (Chr xdigit); str "."; plus (choice [Chr unreserved; Chr sub_delims; str ":"])].
(** [src/src/http/http_request_parser.rl:160-160] IP_literal *)
Definition IP_literal : re := seqs [str "["; alt IPv6address IPvFuture; str "]"].
(** [src/src/http/http_request_parser.rl:162-162] port *)
Definition port : re := Star (Chr digit).
(** [src/src/http/http_request_parser.rl:163-163] host *)
Definition host : re := choice [IP_literal; IPv4address; reg_name].
(** [src/src/http/http_request_parser.rl:164-164] userinfo *)
Definition userinfo : re := Star (choice [Chr unreserved; pct_encoded; Chr sub_delims; str ":"]).
(** [src/src/http/http_request_parser.rl:165-165] authority *)
Definition authority : re := seqs [opt (seq userinfo (str "@")); host; opt (seq (str ":") port)].
(** [src/src/http/http_request_parser.rl:167-167] scheme *)
Definition scheme : re := seq (Chr alpha) (Star (Chr (union (union alpha digit) (one_of "+-.")))).
(** [src/src/http/http_request_parser.rl:169-173] relative_part *)
Definition relative_part : re :=
  choice [seqs [str "//"; authority; path_abempty]; path_absolute; path_noscheme; path_empty].
(** [src/src/http/http_request_parser.rl:176-180] hier_part *)
Definition hier_part : re :=
  choice [seqs [str "//"; authority; path_abempty]; path_absolute; path_rootless; path_empty].
(** [src/src/http/http_request_parser.rl:184-184] relative_ref *)
Definition relative_ref : re :=
  seqs [relative_part; opt (seq (str "?") query); opt (seq (str "#") fragment)].
(** [src/src/http/http_request_parser.rl:185-185] URI *)
Definition URI : re :=
  seqs [scheme; str ":"; hier_part; opt (seq (str "?") query); opt (seq (str "#") fragment)].
(** [src/src/http/http_request_parser.rl:187-187] URI_reference *)
Definition URI_reference : re := alt URI relative_ref.

(** [src/src/http/http_request_parser.rl:190-190] Method *)
Definition Method : re := from_to 1 20 (Chr (union upper digit)).
(** [src/src/http/http_request_parser.rl:192-192] http_number *)
Definition http_number : re := seq (str "1.") (Chr (one_of "01")).
(** [src/src/http/http_request_parser.rl:193-193] HTTP_Version *)
Definition HTTP_Version : re := seq (str "HTTP/") http_number.
(** [src/src/http/http_request_parser.rl:194-194] Request_Line *)
Definition Request_Line : re := seqs [Method; str " "; URI_reference; str " "; HTTP_Version; CRLF].

(** [src/src/http/http_request_parser.rl:196-196] HTTP_CTL *)
Definition HTTP_CTL : cset := union (minus (number 0) (number 31)) (number 127).
(** [src/src/http/http_request_parser.rl:197-201] HTTP_separator *)
Definition HTTP_separator : cset :=
  union (one_of "()<>@,;:\/[]?={} ") (union (number 34) (number 9)).
(** [src/src/http/http_request_parser.rl:203-203] lws *)
Definition lws : re := seq (opt CRLF) (plus (Chr (union (one_of " ") (number 9)))).
(** [src/src/http/http_request_parser.rl:204-204] token *)
Definition token : cset := minus ascii_set (union HTTP_CTL HTTP_separator).
(** [src/src/http/http_request_parser.rl:205-205] content *)
Definition content : re := alt (Chr (minus any HTTP_CTL)) lws.
(** [src/src/http/http_request_parser.rl:207-207] field_name *)
Definition field_name : re := plus (Chr token).
(** [src/src/http/http_request_parser.rl:209-209] field_value *)
Definition field_value : re := Star content.
(** [src/src/http/http_request_parser.rl:211-211] message_header *)
Definition message_header : re :=
  entry_guarded (seqs [field_name; str ":"; Star lws; field_value]) (union (number 13) (number 10)) CRLF.
(** [src/src/http/http_request_parser.rl:213-213] Request *)
Definition Request : re := seqs [Request_Line; Star message_header; CRLF].

(** [src/src/http/http_request_parser.rl:215-215] SocketJSONStart *)
Definition SocketJSONStart : re := seq (str "@") relative_part.
(** [src/src/http/http_request_parser.rl:216-216] SocketJSONData, where the right side of [:>>] is one character *)
Definition SocketJSONData : re :=
  entry_guarded (seqs [str "{"; Star (Chr any); str "}"]) (number 0) (Chr (number 0)).
(** [src/src/http/http_request_parser.rl:218-218] SocketXMLData *)
Definition SocketXMLData : re :=
  entry_guarded
    (seqs [str "<"; plus (Chr (union (union alpha digit) (one_of "-.")));
           choice [str "/"; Chr space; str ">"]; Star (Chr any); str ">"])
    (number 0) (Chr (number 0)).
(** [src/src/http/http_request_parser.rl:220-220] SocketJSON *)
Definition SocketJSON : re := seqs [SocketJSONStart; str " "; SocketJSONData].
(** [src/src/http/http_request_parser.rl:221-223] SocketRequest *)
Definition SocketRequest : re := alt SocketXMLData SocketJSON.

(** [src/src/http/http_request_parser.rl:225-225] main *)
Definition main : re := alt Request SocketRequest.
End uri.

(** ** The automaton *)

Definition request_step (r : bool) : Z → ascii → verdict := machine_step request_machine r request_breaks.

Lemma request_agrees r : agree (request_step r) 1000 http_request_parser_start (main r) = true.
Proof. destruct r; vm_cast_no_check (eq_refl true). Qed.

(** C6: the generated parser recognises the grammar.  On a fresh parser and
    any data (not empty, less than 2^31 characters), with callbacks that do
    not fail on text inside the data, [http_request_parser_execute] consumes
    [n] characters; the parser is then finished if and only if these are a
    message of the grammar of http_request_parser.rl, and then no shorter
    prefix is one; it has failed if and only if the [n] characters, but not
    the next, can be continued to a message; otherwise all data are consumed
    and can be continued to a message. *)
Theorem request_parser_grammar {D} (on : ParserEvent → D → res D) junk buffer d :
  buffer ≠ [] → zlen buffer < 2 ^ 31 → (∀ ev d, event_ok ev → ∃ d', on ev d = Ret d') →
  ∃ ps d' n, http_request_parser_execute on (http_request_parser_init junk) buffer 0 d =
               Ret (ps, d', n) ∧
    recognises http_request_parser_first_final (lang (main (negb (rq_uri_relaxed junk =? 0))))
      buffer (rq_cs ps) n.
Proof.
  intros Hne Hlen Hon. destruct (request_parser_safe on junk buffer d Hlen Hon) as (ps & d' & n & E & _).
  exists ps, d', n. split; [exact E|]. apply execute_inv in E as (cs & p & s & E & _ & -> & _ & _ & ->);
    [|done].
  pose proof (run_bounds _ _ _ _ _ _ _ _ _ _ _ E) as Hp. change (rq_nread _) with 0.
  rewrite Z.add_0_l, u64_small by lia.
  exact (run_recognises _ _ _ _ _ _ _ _ _ _ _ _ _ request_sane request_start_case
    ltac:(done) ltac:(done) (request_agrees _) E).
Qed.

Example request_parser_grammar_witness :
  ∃ ps d' n, http_request_parser_execute record_event
               (http_request_parser_init (mkReqP 7 7 7 7 7 7 7 7 7 7 7))
               (chars "GET http://[::1]/ HTTP/1.1") 0 [] = Ret (ps, d', n) ∧
    recognises http_request_parser_first_final (lang (main true))
      (chars "GET http://[::1]/ HTTP/1.1") (rq_cs ps) n.
Proof.
  apply (request_parser_grammar record_event (mkReqP 7 7 7 7 7 7 7 7 7 7 7)); [done|reflexivity|].
  intros ev d _. exists (ev :: d). reflexivity.
Defined.

(** Most addresses in brackets are refused: [[::1]] passes, [[1::2]] does not. *)
Lemma bracketed_host_refused r :
  matches (main r) (chars "GET http://[::1]/ HTTP/1.1" ++ crlf ++ crlf) = true ∧
  matches (main r) (chars "GET http://[1::2]/ HTTP/1.1" ++ crlf ++ crlf) = false.
Proof. destruct r; split; vm_compute; reflexivity. Qed.
(** A name of a header may hold an end of line. *)
Lemma header_name_eol r :
  matches (main r) (chars "GET / HTTP/1.1" ++ crlf ++ chars "a" ++ crlf ++ chars "b: c" ++ crlf ++ crlf) = true.
Proof. destruct r; vm_compute; reflexivity. Qed.
