(* ===== verification/ResponseGrammar.v ===== *)
(** * The grammar of responses: src/src/http/http_response_parser.rl

    As RequestGrammar.v: the grammar as a regular expression, and the theorem
    that the generated automaton recognises exactly its language.  A response
    header and the header of a chunk are both messages of the grammar. *)

From Stdlib Require Import Ascii.
From S2P Require Import Prelude Util Http Ragel Explore Regex RagelProps Grammar ResponseTable ResponseParser.
From S2P Require Import RequestParserProps ResponseParserProps RequestGrammar.

(** ** The productions *)

(** [/s/i]. *)
Definition no_case (s : string) : re :=
  foldr (λ c r, seq (Chr (let z := code c in
    if between 65 z 90 then union (number z) (number (z + 32))
    else if between 97 z 122 then union (number z) (number (z - 32)) else number z)) r) Eps (chars s).

(** [src/src/http/http_response_parser.rl:94-94] CTL *)
Definition CTL : cset := union [(0, 31); (127, 127)] (number 127).
(** [src/src/http/http_response_parser.rl:95-95] tspecials *)
Definition tspecials : cset := union (one_of "()<>@,;:\/[]?={} ") (union (number 34) (number 9)).
(** [src/src/http/http_response_parser.rl:98-98] token *)
Definition r_token : cset := minus ascii_set (union CTL tspecials).

(** [src/src/http/http_response_parser.rl:100-100] Reason_Phrase: a single character contains no CR LF, so [any -- CRLF] leaves out LF alone *)
Definition Reason_Phrase : re := plus (Chr (minus any (number 10))).
(** [src/src/http/http_response_parser.rl:101-101] Status_Code *)
Definition Status_Code : re := plus (Chr digit).
(** [src/src/http/http_response_parser.rl:102-102] http_number *)
Definition r_http_number : re := seqs [plus (Chr digit); str "."; plus (Chr digit)].
(** [src/src/http/http_response_parser.rl:103-103] HTTP_Version *)
Definition r_HTTP_Version : re := seq (str "HTTP/") r_http_number.
(** [src/src/http/http_response_parser.rl:104-104] Status_Line *)
Definition Status_Line : re :=
  entry_guarded (seqs [r_HTTP_Version; str " "; Status_Code; str " "; Reason_Phrase])
    (union (number 13) (number 10)) CRLF.

(** [src/src/http/http_response_parser.rl:106-106] field_name *)
Definition r_field_name : re := plus (Chr r_token).
(** [src/src/http/http_response_parser.rl:107-107] field_value *)
Definition r_field_value : re := Star (Chr any).
(** [src/src/http/http_response_parser.rl:108-108] fields *)
Definition fields : re :=
  entry_guarded (seqs [r_field_name; str ":"; Star (Chr space); r_field_value])
    (union (number 13) (number 10)) CRLF.
(** [src/src/http/http_response_parser.rl:110-111] content_length *)
Definition content_length : re :=
  seqs [no_case "Content-Length"; str ":"; Star (Chr space); plus (Chr digit); CRLF].
(** [src/src/http/http_response_parser.rl:113-113] conn_close *)
Definition conn_close : re :=
  seqs [no_case "Connection"; str ":"; Star (Chr space); no_case "close"; CRLF].
(** [src/src/http/http_response_parser.rl:115-116] transfer_encoding_chunked *)
Definition transfer_encoding_chunked : re :=
  seqs [no_case "Transfer-Encoding"; str ":"; Star (Chr space); no_case "chunked"; CRLF].
(** [src/src/http/http_response_parser.rl:118-118] message_header *)
Definition r_message_header : re := alts [transfer_encoding_chunked; conn_close; content_length; fields].
(** [src/src/http/http_response_parser.rl:120-120] Response *)
Definition Response : re := seqs [Status_Line; Star r_message_header; CRLF].

(** [src/src/http/http_response_parser.rl:122-124] chunk_extension *)
Definition chunk_extension : re :=
  Star (seqs [str ";"; plus (Chr r_token); opt (seq (str "=") (plus (Chr r_token)))]).
(** [src/src/http/http_response_parser.rl:125-126] Chunked_Header *)
Definition Chunked_Header : re :=
  entry_guarded (seq (plus (Chr xdigit)) chunk_extension) (union (number 13) (number 10)) CRLF.

(** [src/src/http/http_response_parser.rl:128-128] main *)
Definition r_main : re := alt Response Chunked_Header.

(** ** The automaton *)

Definition response_step : Z → ascii → verdict := machine_step response_machine false response_breaks.

Lemma response_agrees : agree response_step 1000 http_response_parser_start r_main = true.
Proof. vm_cast_no_check (eq_refl true). Qed.

(** C7: the generated response parser recognises the grammar.  On a fresh
    parser and any data (not empty, less than 2^31 characters), with
    callbacks that do not fail, [http_response_parser_execute] consumes [n]
    characters and ends in a state [rs_cs]: in a final state if and only if
    the [n] characters are a message of http_response_parser.rl, a response
    header or the header of a chunk, and then no shorter prefix is one; in the
    error state if and only if the [n] characters, but not the next, can be
    continued to a message; otherwise all data are consumed and can be
    continued. *)
Theorem response_parser_grammar {D} (on : ResponseEvent → D → res D) junk buffer d :
  buffer ≠ [] → zlen buffer < 2 ^ 31 → (∀ ev d, ∃ d', on ev d = Ret d') →
  ∃ ps d' n, http_response_parser_execute on (http_response_parser_init junk) buffer 0 d =
               Ret (ps, d', n) ∧
    recognises http_response_parser_first_final (lang r_main) buffer (rs_cs ps) n.
Proof.
  intros Hne Hlen Hon.
  destruct (response_execute_fresh on junk buffer d Hne Hlen Hon) as (ps & d' & n & s & Ex & E & _ & _).
  exists ps, d', n. split; [exact Ex|].
  exact (run_recognises _ _ _ _ _ _ _ _ _ _ _ _ _ response_sane response_start_case
    ltac:(done) ltac:(done) response_agrees E).
Qed.

Definition record_response (ev : ResponseEvent) (d : list ResponseEvent) : res (list ResponseEvent) :=
  Ret (ev :: d).
Example response_parser_grammar_witness :
  ∃ ps d' n, http_response_parser_execute record_response
               (http_response_parser_init (mkRespP 7 7 7 7 7 7 7 7 7 7 7))
               (chars "5;a=b" ++ crlf ++ chars "hello") 0 [] = Ret (ps, d', n) ∧
    recognises http_response_parser_first_final (lang r_main)
      (chars "5;a=b" ++ crlf ++ chars "hello") (rs_cs ps) n.
Proof.
  apply (response_parser_grammar record_response (mkRespP 7 7 7 7 7 7 7 7 7 7 7)); [done|reflexivity|].
  intros ev d. exists (ev :: d). reflexivity.
Defined.

(** Two things that follow from the overlap of the productions for headers.
    A header may be complete in another final state than the one that
    [http_response_parser_is_finished] knows; and what a callback gets as a
    name can go past the data. *)
Lemma finished_unseen :
  ∃ ps d, http_response_parser_execute record_response (http_response_parser_init (mkRespP 0 0 0 0 0 0 0 0 0 0 0))
      (chars "HTTP/1.1 200 OK" ++ crlf ++ chars "Connection:" ++ crlf ++ crlf) 0 [] = Ret (ps, d, 32) ∧
    http_response_parser_first_final <= rs_cs ps ∧ http_response_parser_is_finished ps = false.
Proof. eexists _, _. split; [vm_compute; reflexivity|]. split; [done|reflexivity]. Qed.
Lemma name_past_data :
  ∃ ps d n, http_response_parser_execute record_response (http_response_parser_init (mkRespP 0 0 0 0 0 0 0 0 0 0 0))
      (chars "HTTP/1.1 200 OK" ++ crlf ++ chars "Transfer-Encoding:" ++ crlf ++ chars "chunked" ++ crlf) 0 [] =
      Ret (ps, d, n) ∧
    ∃ name value vlen, EvRField name 17 value vlen ∈ d ∧ zlen name = 9.
Proof.
  eexists _, _, _. split; [vm_compute; reflexivity|]. eexists _, _, _. split; [by left|]. reflexivity.
Qed.
