(* ===== verification/RequestEmbed.v ===== *)
(** * The actions of the grammar of requests: src/src/http/http_request_parser.rl

    The productions of RequestGrammar.v again where the file attaches actions
    to them, and the theorem that the generated parser runs exactly these
    actions, in this order, at these positions. *)

From Stdlib Require Import Ascii.
From S2P Require Import Prelude Util Http Ragel RagelProps Explore Regex Grammar Embed.
From S2P Require Import RequestTable RequestParser RequestParserProps RequestGrammar.

Section uri.
Context (relaxed : bool).
Local Notation gram := (grammar RequestAction).

(** [src/src/http/http_request_parser.rl:112-112] fragment *)
Definition a_fragment : gram := Leaving Fragment (Entering Mark (Plain (fragment relaxed))).
(** [src/src/http/http_request_parser.rl:114-114] query *)
Definition a_query : gram := Leaving QueryString (Plain (query relaxed)).
(** [src/src/http/http_request_parser.rl:184-184] relative_ref *)
Definition a_relative_ref : gram :=
  Then (Leaving RequestUri (Entering Mark
          (Then (Leaving RequestPath (Plain (relative_part relaxed)))
                (maybe (Then (Leaving StartQuery (word "?")) a_query)))))
       (maybe (Then (word "#") a_fragment)).
(** [src/src/http/http_request_parser.rl:185-185] URI *)
Definition a_URI : gram :=
  thens [Plain scheme; word ":";
    Leaving RequestUri (Entering Mark
      (Then (Leaving RequestPath (Plain (hier_part relaxed)))
            (maybe (Then (Leaving StartQuery (word "?")) a_query))));
    maybe (Then (word "#") a_fragment)].
(** [src/src/http/http_request_parser.rl:187-187] URI_reference *)
Definition a_URI_reference : gram := Or a_URI a_relative_ref.

(** [src/src/http/http_request_parser.rl:190-190] Method *)
Definition a_Method : gram := Leaving RequestMethod (Entering Mark (Plain Method)).
(** [src/src/http/http_request_parser.rl:193-193] HTTP_Version *)
Definition a_HTTP_Version : gram := Leaving HttpVersion (Entering Mark (Plain HTTP_Version)).
(** [src/src/http/http_request_parser.rl:194-194] Request_Line *)
Definition a_Request_Line : gram :=
  thens [a_Method; word " "; a_URI_reference; word " "; a_HTTP_Version; Plain CRLF].

(** [src/src/http/http_request_parser.rl:207-207] field_name *)
Definition a_field_name : gram := Leaving WriteField (Entering StartField (Plain field_name)).
(** [src/src/http/http_request_parser.rl:209-209] field_value *)
Definition a_field_value : gram := Leaving WriteValue (Entering StartValue (Plain field_value)).
(** [src/src/http/http_request_parser.rl:211-211] message_header *)
Definition a_message_header : gram :=
  Then (Guarded (thens [a_field_name; word ":"; Plain (Star lws); a_field_value])
          (union (number 13) (number 10)))
       (Plain CRLF).
(** [src/src/http/http_request_parser.rl:213-213] Request *)
Definition a_Request : gram := thens [a_Request_Line; many a_message_header; Plain CRLF].

(** [src/src/http/http_request_parser.rl:218-218] SocketXMLData *)
Definition a_SocketXMLData : gram :=
  Then (Guarded (thens
          [Leaving RequestPath (Entering Mark
             (Plain (seqs [str "<"; plus (Chr (union (union alpha digit) (one_of "-.")))])));
           Plain (choice [str "/"; Chr space; str ">"]); Plain (Star (Chr any)); word ">"])
          (number 0))
       (Plain (Chr (number 0))).
(** [src/src/http/http_request_parser.rl:220-220] SocketJSON *)
Definition a_SocketJSON : gram :=
  thens [Leaving RequestPath (Entering Mark (Plain (SocketJSONStart relaxed))); word " ";
         Finishing Json (Entering Mark (Plain SocketJSONData))].
(** [src/src/http/http_request_parser.rl:221-221] SocketXML *)
Definition a_SocketXML : gram := Finishing Xml a_SocketXMLData.
(** [src/src/http/http_request_parser.rl:223-223] SocketRequest *)
Definition a_SocketRequest : gram := Or a_SocketXML a_SocketJSON.
(** [src/src/http/http_request_parser.rl:225-225] main *)
Definition a_main : gram := Finishing Done (Or a_Request a_SocketRequest).
End uri.

Definition request_action_eqb (a b : RequestAction) : bool := bool_decide (a = b).
Lemma request_action_eqb_eq a b : request_action_eqb a b = true → a = b.
Proof. apply bool_decide_eq_true_1. Qed.

Lemma request_acts_agree r :
  acts_agree request_action_eqb request_machine r request_breaks http_request_parser_first_final
    4000 http_request_parser_start (ordered (a_main r)) = true.
Proof. destruct r; vm_cast_no_check (eq_refl true). Qed.

Lemma request_known r cs c :
  is_Some (m_cases request_machine !! cs) →
  ∃ al n, next request_machine r cs (schar c) = Some (al, n) ∧
    (n = 0 ∨ is_Some (m_cases request_machine !! n)).
Proof.
  intros H. destruct (sane_step _ _ _ r cs c request_sane H) as (al & n & En & Hn).
  exists al, n. split; [done|]. destruct Hn as [?|[? _]]; auto.
Qed.

Lemma request_not_empty r : gnull (ordered (a_main r)) = false.
Proof. destruct r; vm_compute; reflexivity. Qed.

(** The parser against any grammar that it agrees with. *)
Lemma execute_parse {D} (on : ParserEvent → D → res D) r g ps buffer d :
  acts_agree request_action_eqb request_machine r request_breaks http_request_parser_first_final
    4000 http_request_parser_start g = true →
  gnull g = false → r = negb (rq_uri_relaxed ps =? 0) → rq_cs ps = http_request_parser_start →
  buffer ≠ [] → zlen buffer < 2 ^ 31 →
  ∃ cs,
    http_request_parser_execute on ps buffer 0 d =
      ('(_, p, s) ← parse request_action_eqb (request_act on buffer) request_breaks buffer g 0 (ps, d);
       '(parser, nread) ← request_leave (fst s) (zlen buffer) 0 cs p;
       Ret (parser, snd s, nread)) ∧
    ∀ o p s, parse request_action_eqb (request_act on buffer) request_breaks buffer g 0 (ps, d) =
               Ret (o, p, s) → tells http_request_parser_first_final o cs.
Proof.
  intros Hg Hn -> Hcs Hne Hlen.
  destruct (run_parse request_action_eqb request_action_eqb_eq _ _ _ _ (request_act on buffer)
    _ _ _ Hg (request_known _) request_start_case) with (rest := buffer) (p := 0) (s := (ps, d))
    as (cs & E & Ht); [done|rewrite Hn; done|].
  exists cs. split; [|exact Ht]. unfold http_request_parser_execute.
  rewrite (proj2 (Z.eqb_neq _ 0)) by (intros ?%zlen_0; done).
  pose proof (zlen_nonneg buffer). unfold check. rewrite (proj2 (Z.leb_le 0 _)) by lia. rewrite ret_bind.
  replace (zlen buffer - 0 =? s32 (zlen buffer) - s32 0) with true
    by (rewrite !s32_small by lia; lia). rewrite ret_bind.
  rewrite zdrop_0, Hcs, E. by destruct (parse _ _ _ _ _ _ _) as [[[o p] s]| | | |].
Qed.

(** C5: the generated request parser runs the actions of the grammar.  On a
    fresh parser and any data (not empty, less than 2^31 characters), with any
    callbacks, also ones that throw, [http_request_parser_execute] does what
    one gets by reading the data against the productions of
    http_request_parser.rl with the actions attached to them: every action of
    the file at the same position and in the same order, so the same
    callbacks with the same arguments; and the state it ends in says whether
    the characters taken are a message, can be continued, or neither. *)
Theorem request_parser_actions {D} (on : ParserEvent → D → res D) junk buffer d :
  buffer ≠ [] → zlen buffer < 2 ^ 31 →
  let r := negb (rq_uri_relaxed junk =? 0) in
  let parsed := parse request_action_eqb (request_act on buffer) request_breaks buffer
                  (ordered (a_main r)) 0 (http_request_parser_init junk, d) in
  ∃ cs,
    http_request_parser_execute on (http_request_parser_init junk) buffer 0 d =
      ('(_, p, s) ← parsed;
       '(parser, nread) ← request_leave (fst s) (zlen buffer) 0 cs p;
       Ret (parser, snd s, nread)) ∧
    ∀ o p s, parsed = Ret (o, p, s) → tells http_request_parser_first_final o cs.
Proof.
  intros Hne Hlen r parsed.
  by apply (execute_parse on r); [apply request_acts_agree|apply request_not_empty|..].
Qed.

Example request_parser_actions_witness :
  ∃ cs,
    http_request_parser_execute record_event (http_request_parser_init (mkReqP 7 7 7 7 7 7 7 7 7 7 7))
      (chars "GET /a?b HTTP/1.1") 0 [] =
      ('(_, p, s) ← parse request_action_eqb (request_act record_event (chars "GET /a?b HTTP/1.1"))
                      request_breaks (chars "GET /a?b HTTP/1.1") (ordered (a_main true)) 0
                      (http_request_parser_init (mkReqP 7 7 7 7 7 7 7 7 7 7 7), []);
       '(parser, nread) ← request_leave (fst s) 17 0 cs p;
       Ret (parser, snd s, nread)).
Proof.
  destruct (request_parser_actions record_event (mkReqP 7 7 7 7 7 7 7 7 7 7 7)
    (chars "GET /a?b HTTP/1.1") []) as (cs & E & _); [done|reflexivity|].
  exists cs. exact E.
Defined.
