(* ===== verification/ResponseEmbed.v ===== *)
(** * The actions of the grammar of responses: src/src/http/http_response_parser.rl

    As RequestEmbed.v, for responses and headers of chunks. *)

From Stdlib Require Import Ascii.
From S2P Require Import Prelude Util Http Ragel RagelProps Explore Regex Grammar Embed.
From S2P Require Import ResponseTable ResponseParser RequestParserProps ResponseParserProps.
From S2P Require Import RequestGrammar ResponseGrammar.

Local Notation gram := (grammar ResponseAction).

(** The left side of [:> CRLF]. *)
Definition to_eol (a : gram) : gram := Then (Guarded a (union (number 13) (number 10))) (Plain CRLF).

(** [src/src/http/http_response_parser.rl:100-100] Reason_Phrase *)
Definition a_Reason_Phrase : gram := Leaving ReasonPhrase (Entering Mark (Plain Reason_Phrase)).
(** [src/src/http/http_response_parser.rl:101-101] Status_Code *)
Definition a_Status_Code : gram := Leaving StatusCode (Entering Mark (Plain Status_Code)).
(** [src/src/http/http_response_parser.rl:103-103] HTTP_Version *)
Definition ar_HTTP_Version : gram := Leaving HttpVersion (Entering Mark (Plain r_HTTP_Version)).
(** [src/src/http/http_response_parser.rl:104-104] Status_Line *)
Definition a_Status_Line : gram :=
  to_eol (thens [ar_HTTP_Version; word " "; a_Status_Code; word " "; a_Reason_Phrase]).

(** [src/src/http/http_response_parser.rl:106-106] field_name *)
Definition ar_field_name : gram := Leaving WriteField (Entering StartField (Plain r_field_name)).
(** [src/src/http/http_response_parser.rl:107-107] field_value *)
Definition ar_field_value : gram := Leaving WriteValue (Entering StartValue (Plain r_field_value)).
(** [src/src/http/http_response_parser.rl:108-108] fields *)
Definition a_fields : gram :=
  to_eol (thens [ar_field_name; word ":"; Plain (Star (Chr space)); ar_field_value]).
(** [src/src/http/http_response_parser.rl:110-111] content_length *)
Definition a_content_length : gram :=
  thens [Leaving WriteField (Entering StartField (Plain (no_case "Content-Length"))); word ":";
         Plain (Star (Chr space));
         Leaving WriteValue (Leaving WriteContentLen (Entering StartValue (Plain (plus (Chr digit)))));
         Plain CRLF].
(** [src/src/http/http_response_parser.rl:113-113] conn_close *)
Definition a_conn_close : gram :=
  thens [Plain (no_case "Connection"); word ":"; Plain (Star (Chr space)); Plain (no_case "close");
         Leaving WriteConnectionClose (Plain CRLF)].
(** [src/src/http/http_response_parser.rl:115-116] transfer_encoding_chunked *)
Definition a_transfer_encoding_chunked : gram :=
  thens [Leaving WriteField (Entering StartField (Plain (no_case "Transfer-Encoding"))); word ":";
         Plain (Star (Chr space));
         Leaving WriteValue (Entering StartValue (Plain (no_case "chunked")));
         Finishing TransChunked (Plain CRLF)].
(** [src/src/http/http_response_parser.rl:118-118] message_header *)
Definition ar_message_header : gram :=
  Or a_transfer_encoding_chunked (Or a_conn_close (Or a_content_length a_fields)).
(** [src/src/http/http_response_parser.rl:120-120] Response *)
Definition a_Response : gram := thens [a_Status_Line; many ar_message_header; Plain CRLF].

(** [src/src/http/http_response_parser.rl:122-124] chunk_extension *)
Definition a_chunk_extension : gram :=
  many (thens [word ";";
    Leaving StartValue (Leaving WriteField (Entering StartField (Plain (plus (Chr r_token)))));
    Leaving WriteValue (maybe (Then (word "=") (Entering StartValue (Plain (plus (Chr r_token))))))]).
(** [src/src/http/http_response_parser.rl:125-126] Chunked_Header *)
Definition a_Chunked_Header : gram :=
  to_eol (Then (Leaving ChunkSize (Entering Mark (Plain (plus (Chr xdigit))))) a_chunk_extension).

(** [src/src/http/http_response_parser.rl:128-128] main *)
Definition ar_main : gram := Finishing Done (Or a_Response a_Chunked_Header).

Definition response_action_eqb (a b : ResponseAction) : bool := bool_decide (a = b).
Lemma response_action_eqb_eq a b : response_action_eqb a b = true → a = b.
Proof. apply bool_decide_eq_true_1. Qed.

Lemma response_acts_agree :
  acts_agree response_action_eqb response_machine false response_breaks
    http_response_parser_first_final 4000 http_response_parser_start (ordered ar_main) = true.
Proof. vm_cast_no_check (eq_refl true). Qed.
Lemma response_known cs c :
  is_Some (m_cases response_machine !! cs) →
  ∃ al n, next response_machine false cs (schar c) = Some (al, n) ∧
    (n = 0 ∨ is_Some (m_cases response_machine !! n)).
Proof.
  intros H. destruct (sane_step _ _ _ false cs c response_sane H) as (al & n & En & Hn).
  exists al, n. split; [done|]. destruct Hn as [?|[? _]]; auto.
Qed.
Lemma response_not_empty : gnull (ordered ar_main) = false.
Proof. vm_compute. reflexivity. Qed.

(** The parser against any grammar that it agrees with. *)
Lemma response_execute_parse {D} (on : ResponseEvent → D → res D) g ps buffer d :
  acts_agree response_action_eqb response_machine false response_breaks
    http_response_parser_first_final 4000 http_response_parser_start g = true →
  gnull g = false → rs_cs ps = http_response_parser_start → zlen buffer < 2 ^ 31 →
  ∃ cs,
    http_response_parser_execute on ps buffer 0 d =
      ('(_, p, s) ← parse response_action_eqb (response_act on buffer) response_breaks buffer g 0 (ps, d);
       '(parser, rt) ← response_leave (fst s) (zlen buffer) 0 cs p;
       Ret (parser, snd s, rt)) ∧
    ∀ o p s, parse response_action_eqb (response_act on buffer) response_breaks buffer g 0 (ps, d) =
               Ret (o, p, s) → tells http_response_parser_first_final o cs.
Proof.
  intros Hg Hn Hcs Hlen.
  destruct (run_parse response_action_eqb response_action_eqb_eq _ _ _ _ (response_act on buffer)
    _ _ _ Hg response_known response_start_case) with (rest := buffer) (p := 0) (s := (ps, d))
    as (cs & E & Ht); [done|rewrite Hn; done|].
  exists cs. split; [|exact Ht]. unfold http_response_parser_execute.
  pose proof (zlen_nonneg buffer). unfold check. rewrite (proj2 (Z.leb_le 0 _)) by lia. rewrite ret_bind.
  replace (zlen buffer - 0 =? s32 (zlen buffer) - s32 0) with true
    by (rewrite !s32_small by lia; lia). rewrite ret_bind.
  rewrite zdrop_0, Hcs, E. by destruct (parse _ _ _ _ _ _ _) as [[[o p] s]| | | |].
Qed.

(** C8: the generated response parser runs the actions of the grammar: as
    for requests, on a fresh parser, any data of less than 2^31 characters and
    any callbacks, it does what one gets by reading the data against the
    productions of http_response_parser.rl with the actions attached to them,
    and ends in a state that says whether the characters taken are a message. *)
Theorem response_parser_actions {D} (on : ResponseEvent → D → res D) junk buffer d :
  zlen buffer < 2 ^ 31 →
  let parsed := parse response_action_eqb (response_act on buffer) response_breaks buffer
                  (ordered ar_main) 0 (http_response_parser_init junk, d) in
  ∃ cs,
    http_response_parser_execute on (http_response_parser_init junk) buffer 0 d =
      ('(_, p, s) ← parsed;
       '(parser, rt) ← response_leave (fst s) (zlen buffer) 0 cs p;
       Ret (parser, snd s, rt)) ∧
    ∀ o p s, parsed = Ret (o, p, s) → tells http_response_parser_first_final o cs.
Proof.
  intros Hlen parsed.
  by apply (response_execute_parse on); [apply response_acts_agree|apply response_not_empty|..].
Qed.

Example response_parser_actions_witness :
  ∃ cs,
    http_response_parser_execute record_response (http_response_parser_init (mkRespP 7 7 7 7 7 7 7 7 7 7 7))
      (chars "5;a=b") 0 [] =
      ('(_, p, s) ← parse response_action_eqb (response_act record_response (chars "5;a=b"))
                      response_breaks (chars "5;a=b") (ordered ar_main) 0
                      (http_response_parser_init (mkRespP 7 7 7 7 7 7 7 7 7 7 7), []);
       '(parser, rt) ← response_leave (fst s) 5 0 cs p;
       Ret (parser, snd s, rt)).
Proof.
  destruct (response_parser_actions record_response (mkRespP 7 7 7 7 7 7 7 7 7 7 7) (chars "5;a=b") [])
    as (cs & E & _); [reflexivity|].
  exists cs. exact E.
Defined.
