(* ===== verification/HttpProps.v ===== *)
(** * HTTP messages: theorems on Http.v

    The method table, the case-insensitive maps, the parameters of a request
    and the connection header of a message. *)

From Stdlib Require Import Ascii Sorting.
From S2P Require Import Prelude Util Http.

(** ** Methods *)

Definition method_ok (i : Z) (s : string) : Prop :=
  StringToHttpMethod (chars s) = i ∧ HttpMethodToString i = Ret (chars s) ∧
  ∀ rest, CharsToHttpMethod (chars s ++ rest) = i.

(** Methods and their names.  The name of every method of the table gives
    the method back, alone and (for the parser, which sees the rest of the
    request) as the start of a longer text.  But the number that stands for an
    invalid method reads past the table of names, and M-SEARCH is not in the
    table: the macro spells it with blanks. *)
Theorem method_names :
  (∀ i s, s_method_string !! i = Some s → method_ok (Z.of_nat i) s) ∧
  HttpMethodToString INVALID_METHOD = Undef "s_method_string" ∧
  StringToHttpMethod (chars "M-SEARCH") = INVALID_METHOD.
Proof.
  split; [|split; vm_compute; reflexivity].
  intros i s Hi.
  do 34 (destruct i as [|i];
    [injection Hi as <-; split; [vm_compute; reflexivity|];
     split; [vm_compute; reflexivity|intros rest; vm_compute; reflexivity]|]).
  discriminate Hi.
Qed.

(** ** Case-insensitive maps *)

Lemma codes_lt_irrefl a : codes_lt a a = false.
Proof. induction a as [|x a IH]; simpl; [done|]. by rewrite Z.ltb_irrefl. Qed.

Lemma codes_lt_trans a b c : codes_lt a b = true → codes_lt b c = true → codes_lt a c = true.
Proof.
  revert b c. induction a as [|x a IH]; intros [|y b] [|z c]; simpl; try done.
  destruct (Z.ltb_spec x y), (Z.ltb_spec y z), (Z.ltb_spec y x), (Z.ltb_spec z y),
    (Z.ltb_spec x z), (Z.ltb_spec z x); try done; try lia; eauto.
Qed.

Lemma codes_lt_total a b : codes_lt a b = false → codes_lt b a = false → a = b.
Proof.
  revert b. induction a as [|x a IH]; intros [|y b]; simpl; try done.
  destruct (Z.ltb_spec x y), (Z.ltb_spec y x); try done; try lia.
  intros. f_equal; [lia|auto].
Qed.

Section hmap.
Implicit Types m : hmap.
Local Notation lt := CaseInsensitiveLess.

Lemma less_irrefl k : lt k k = false.
Proof. apply codes_lt_irrefl. Qed.
Lemma less_trans a b c : lt a b = true → lt b c = true → lt a c = true.
Proof. apply codes_lt_trans. Qed.
Lemma less_same a b : lt a b = false → lt b a = false → folded a = folded b.
Proof. apply codes_lt_total. Qed.
Lemma less_l a a' b : folded a = folded a' → lt a b = lt a' b.
Proof. unfold CaseInsensitiveLess. by intros ->. Qed.
Lemma less_r a b b' : folded b = folded b' → lt a b = lt a b'.
Proof. unfold CaseInsensitiveLess. by intros ->. Qed.
Lemma less_asym a b : lt a b = true → lt b a = false.
Proof.
  intros H1. destruct (lt b a) eqn:H2; [|done].
  pose proof (less_trans _ _ _ H1 H2) as H. by rewrite less_irrefl in H.
Qed.

(** The map is in order, so no two keys are the same up to case. *)
Definition above (k : txt) m : Prop := Forall (λ e, lt k (fst e) = true) m.
Fixpoint h_wf m : Prop :=
  match m with
  | [] => True
  | (k, _) :: m => above k m ∧ h_wf m
  end.

Lemma above_trans k k' m : lt k k' = true → above k' m → above k m.
Proof. intros Hk H. eapply Forall_impl; [exact H|]. simpl. eauto using less_trans. Qed.

Lemma above_find k m : above k m → h_find k m = None.
Proof.
  destruct m as [|[k' v] m]; [done|]. intros [H _]%Forall_cons. simpl in *.
  by rewrite (less_asym _ _ H), H.
Qed.

Lemma h_find_ext k k' m : folded k = folded k' → h_find k m = h_find k' m.
Proof.
  intros H. induction m as [|[k0 v] m IH]; [done|]. simpl.
  by rewrite (less_r k0 k k'), (less_l k k' k0), IH by done.
Qed.

Lemma above_put ov k key v m : lt k key = true → above k m → above k (h_put ov key v m).
Proof.
  intros Hk. induction m as [|[k' v'] m IH]; intros Hm; simpl.
  - by constructor.
  - apply Forall_cons in Hm as [H1 H2]. simpl in H1.
    destruct (lt k' key); [constructor; [done|by apply IH]|].
    destruct (lt key k'); constructor; try done. by constructor.
Qed.

Lemma h_wf_put ov key v m : h_wf m → h_wf (h_put ov key v m).
Proof.
  induction m as [|[k v'] m IH]; simpl; [split; [constructor|done]|]. intros [Ha Hw].
  destruct (lt k key) eqn:H1; simpl; [split; [by apply above_put|auto]|].
  destruct (lt key k) eqn:H2; simpl; [|done].
  split_and!; [constructor; [done|by eapply above_trans]|done|done].
Qed.

Lemma above_erase k key m : above k m → above k (h_erase key m).
Proof.
  induction m as [|[k' v] m IH]; simpl; [done|]. intros [H1 H2]%Forall_cons.
  destruct (lt k' key); [constructor; [done|by apply IH]|].
  destruct (lt key k'); [by constructor|done].
Qed.

Lemma h_wf_erase key m : h_wf m → h_wf (h_erase key m).
Proof.
  induction m as [|[k v] m IH]; simpl; [done|]. intros [Ha Hw].
  destruct (lt k key); simpl; [split; [by apply above_erase|auto]|].
  by destruct (lt key k).
Qed.

(** [operator[]] and [insert], then a look-up. *)
Lemma h_find_put ov key v m k :
  h_find k (h_put ov key v m) =
    if bool_decide (folded k = folded key)
    then Some (if ov then v else default v (h_find key m)) else h_find k m.
Proof.
  assert (∀ r : option txt, folded k ≠ folded key →
    (if lt key k then r else if lt k key then None else Some v) =
    (if lt key k then r else None)) as Hmiss.
  { intros r Hne. destruct (lt key k) eqn:H1; [done|].
    destruct (lt k key) eqn:H2; [done|]. by destruct Hne, (less_same _ _ H1 H2). }
  case_bool_decide as Hk.
  - rewrite (h_find_ext _ _ _ Hk). induction m as [|[k' v'] m IH]; simpl.
    + rewrite less_irrefl. by destruct ov.
    + destruct (lt k' key) eqn:H1; simpl; [by rewrite H1, IH|].
      destruct (lt key k') eqn:H2; simpl; [rewrite less_irrefl; by destruct ov|].
      rewrite H1, H2. by destruct ov.
  - induction m as [|[k' v'] m IH]; simpl.
    + destruct (lt key k) eqn:H1; [done|]. destruct (lt k key) eqn:H2; [done|].
      by destruct Hk, (less_same _ _ H2 H1).
    + destruct (lt k' key) eqn:H1; simpl; [by rewrite IH|].
      destruct (lt key k') eqn:H2; simpl.
      * rewrite Hmiss by done. destruct (lt key k) eqn:H3; [done|].
        destruct (lt k' k) eqn:H4; [pose proof (less_trans _ _ _ H2 H4); congruence|].
        destruct (lt k k') eqn:H5; [done|].
        pose proof (less_same _ _ H4 H5) as Hf. by rewrite (less_r key k' k), H3 in H2.
      * pose proof (less_same _ _ H1 H2) as Hf.
        destruct (lt k' k) eqn:H4; [done|]. destruct (lt k k') eqn:H5; [done|].
        destruct Hk. rewrite <- Hf. symmetry. by apply less_same.
Qed.

Lemma h_find_erase key m k :
  h_wf m → h_find k (h_erase key m) =
    if bool_decide (folded k = folded key) then None else h_find k m.
Proof.
  case_bool_decide as Hk; induction m as [|[k' v] m IH]; simpl; try done; intros [Ha Hw].
  - rewrite (h_find_ext _ _ _ Hk). destruct (lt k' key) eqn:H1; simpl.
    + rewrite H1, <- (h_find_ext _ _ _ Hk). auto.
    + destruct (lt key k') eqn:H2; simpl; [by rewrite H1, H2|].
      apply above_find. pose proof (less_same _ _ H1 H2) as Hf.
      eapply Forall_impl; [exact Ha|]. intros e He. by rewrite (less_l _ k').
  - destruct (lt k' key) eqn:H1; simpl; [by rewrite IH|].
    destruct (lt key k') eqn:H2; simpl; [done|].
    pose proof (less_same _ _ H1 H2) as Hf.
    destruct (lt k' k) eqn:H4; [done|]. destruct (lt k k') eqn:H5.
    + apply above_find. by eapply above_trans.
    + destruct Hk. rewrite <- Hf. symmetry. by apply less_same.
Qed.
End hmap.

(** Headers are a map up to case.  The operations of a message keep its
    header map in order, without two names that differ only in case; after
    [setHeader(k, v)] the value of any spelling of [k] is [v] and the other
    headers are as before; after [delHeader(k)] no spelling of [k] is left. *)
Theorem header_map q k v :
  h_wf (q_headers q) →
  h_wf (q_headers (q_setHeader k v q)) ∧ h_wf (q_headers (q_delHeader k q)) ∧
  (∀ k' def, q_getHeader k' def (q_setHeader k v q) =
     if bool_decide (folded k' = folded k) then v else q_getHeader k' def q) ∧
  (∀ k' def, q_getHeader k' def (q_delHeader k q) =
     if bool_decide (folded k' = folded k) then def else q_getHeader k' def q) ∧
  (∀ k', q_hasHeader k' (q_delHeader k q) =
     negb (bool_decide (folded k' = folded k)) && q_hasHeader k' q).
Proof.
  intros Hw. unfold q_getHeader, q_hasHeader, q_setHeader, q_delHeader. simpl.
  split_and!; [by apply h_wf_put|by apply h_wf_erase|..]; intros k'; intros;
    rewrite ?h_find_put, ?h_find_erase by done; by destruct (bool_decide (folded _ = folded _)).
Qed.

Example header_map_witness :
  let q := q_setHeader (chars "Host") (chars "a") (HttpRequest_new 17 true) in
  h_wf (q_headers q) ∧
  h_wf (q_headers (q_setHeader (chars "hOST") (chars "b") q)) ∧
  h_wf (q_headers (q_delHeader (chars "hOST") q)) ∧
  (∀ k' def, q_getHeader k' def (q_setHeader (chars "hOST") (chars "b") q) =
     if bool_decide (folded k' = folded (chars "hOST")) then chars "b" else q_getHeader k' def q) ∧
  (∀ k' def, q_getHeader k' def (q_delHeader (chars "hOST") q) =
     if bool_decide (folded k' = folded (chars "hOST")) then def else q_getHeader k' def q) ∧
  (∀ k', q_hasHeader k' (q_delHeader (chars "hOST") q) =
     negb (bool_decide (folded k' = folded (chars "hOST"))) && q_hasHeader k' q).
Proof.
  split; [split; [constructor|exact I]|]. apply header_map. split; [constructor|exact I].
Defined.

(** ** Parameters *)

Lemma split_at_app c a b : c ∉ a → split_at c (a ++ c :: b) = Some (a, b).
Proof.
  induction a as [|x a IH]; simpl; intros Hn; [by rewrite Ascii.eqb_refl|].
  apply not_elem_of_cons in Hn as [Hx Hn]. destruct (Ascii.eqb_spec x c); [congruence|].
  by rewrite IH.
Qed.

Lemma split_at_None c a : c ∉ a → split_at c a = None.
Proof.
  induction a as [|x a IH]; simpl; intros Hn; [done|].
  apply not_elem_of_cons in Hn as [Hx Hn]. destruct (Ascii.eqb_spec x c); [congruence|].
  by rewrite IH.
Qed.

(** "k1=v1&k2=v2&...". *)
Definition pair_txt (e : txt * txt) : txt := fst e ++ "="%char :: snd e.
Fixpoint join (flag : ascii) (es : list (txt * txt)) : txt :=
  match es with
  | [] => []
  | [e] => pair_txt e
  | e :: es => pair_txt e ++ flag :: join flag es
  end.

Definition insert_all (trim : txt → txt) (es : list (txt * txt)) (m : hmap) : hmap :=
  foldl (λ m e, h_put false (trim (fst e)) (UrlEncode (snd e)) m) m es.

Lemma parse_param_join flag trim es m fuel :
  Forall (λ e, "="%char ∉ fst e ∧ flag ∉ snd e) es → (length es < fuel)%nat →
  parse_param fuel flag trim (join flag es) m = insert_all trim es m.
Proof.
  intros Hes. revert m fuel. induction Hes as [|[k v] es [Hk Hv] _ IH]; intros m [|fuel] Hf;
    simpl in Hf; try lia; [done|]. simpl in Hk, Hv.
  destruct es as [|e es].
  - simpl. unfold pair_txt. simpl. by rewrite split_at_app, split_at_None by done.
  - change (join flag ((k, v) :: e :: es)) with (pair_txt (k, v) ++ flag :: join flag (e :: es)).
    unfold pair_txt at 1. rewrite <- app_assoc. cbn [parse_param fst snd app].
    rewrite split_at_app, split_at_app by done. rewrite IH by lia. done.
Qed.

Lemma length_join flag es : (length es <= length (join flag es))%nat.
Proof.
  induction es as [|e es IH]; [simpl; lia|].
  destruct es as [|e' es]; [simpl; unfold pair_txt; rewrite length_app; simpl; lia|].
  change (join flag (e :: e' :: es)) with (pair_txt e ++ flag :: join flag (e' :: es)).
  unfold pair_txt. rewrite !length_app. cbn [length] in *. lia.
Qed.

(** The value that a list of pairs gives to a key: the first one wins. *)
Definition first_value (k : txt) (es : list (txt * txt)) : option txt :=
  snd <$> head (filter (λ e, folded (fst e) = folded k) es).

Lemma insert_all_find es m k :
  h_find k (insert_all id es m) =
    match h_find k m with
    | Some v => Some v
    | None => UrlEncode <$> first_value k es
    end.
Proof.
  revert m. induction es as [|[k' v] es IH]; intros m; simpl.
  - by destruct (h_find k m).
  - unfold insert_all in *. simpl. rewrite IH, h_find_put. unfold first_value. rewrite filter_cons. simpl.
    case_bool_decide as Hk.
    + rewrite decide_True by done. rewrite <- (h_find_ext _ _ m Hk).
      by destruct (h_find k m).
    + rewrite decide_False by congruence. done.
Qed.

Lemma initBodyParam_skip q :
  Z.land (q_parserParamFlag q) 2 = 0 →
  strcasestr (q_getHeader (chars "content-type") [] q)
    (chars "application/x-www-form-urlencoded") = false →
  initBodyParam q = q_setFlag (Z.lor (q_parserParamFlag q) 2) q.
Proof. intros Hf Hc. unfold initBodyParam. by rewrite Hf, Hc. Qed.

(** The parameters of a query.  For a query "k1=v1&k2=v2..." whose keys
    have no '=' and whose values no '&', [getParam(k)] is the value of the
    first key that equals [k] up to case, but url-encoded once more: the macro
    calls [UrlEncode] where the values have to be decoded, so a value that
    contains '%' (or a blank) is never delivered as it was meant. *)
Theorem query_params es q k def :
  Forall (λ e, "="%char ∉ fst e ∧ "&"%char ∉ snd e) es →
  q_query q = join "&"%char es → q_parserParamFlag q = 0 → q_params q = [] →
  strcasestr (q_getHeader (chars "content-type") [] q)
    (chars "application/x-www-form-urlencoded") = false →
  fst (getParam k def q) = default def (UrlEncode <$> first_value k es) ∧
  q_parserParamFlag (snd (getParam k def q)) = 3 ∧
  UrlEncode (chars "a%20b") = chars "a%2520b".
Proof.
  intros Hes Hq Hf Hp Hc.
  assert (initBodyParam (initQueryParam q) =
    q_setFlag 3 (q_setFlag 1 (q_setParams (insert_all id es []) q))) as Hinit.
  { unfold initQueryParam. rewrite Hf, Hq, Hp. change (negb (Z.land 0 1 =? 0)) with false. cbv iota zeta.
    unfold PARSE_PARAM. pose proof (length_join "&"%char es).
    rewrite (parse_param_join "&"%char id es) by (done || lia).
    rewrite initBodyParam_skip; cbn [q_parserParamFlag q_setFlag q_setParams]; rewrite ?Hf; done. }
  unfold getParam. cbv zeta. rewrite Hinit. cbn [fst snd].
  split_and!; [|done|vm_compute; reflexivity].
  change (q_params _) with (insert_all id es []). by rewrite insert_all_find.
Qed.

Example query_params_witness :
  let es := [(chars "name", chars "a%20b"); (chars "NAME", chars "c")] in
  let q := q_setQuery (join "&"%char es) (HttpRequest_new 17 true) in
  Forall (λ e, "="%char ∉ fst e ∧ "&"%char ∉ snd e) es ∧
  fst (getParam (chars "Name") [] q) =
    default [] (UrlEncode <$> first_value (chars "Name") es) ∧
  q_parserParamFlag (snd (getParam (chars "Name") [] q)) = 3 ∧
  UrlEncode (chars "a%20b") = chars "a%2520b".
Proof.
  assert (Forall (λ e : txt * txt, "="%char ∉ fst e ∧ "&"%char ∉ snd e)
    [(chars "name", chars "a%20b"); (chars "NAME", chars "c")]) as H.
  { eapply bool_decide_unpack. vm_compute. exact I. }
  split; [exact H|].
  apply (query_params [(chars "name", chars "a%20b"); (chars "NAME", chars "c")]);
    [exact H|reflexivity|reflexivity|reflexivity|vm_compute; reflexivity].
Defined.
