(* ===== verification/HttpGetters.v ===== *)
(** * The typed getters of messages: src/src/http/http.h

    The templates that look a header, a parameter or a cookie up and convert
    it with [boost::lexical_cast], a parameter, as is the type; and the
    request's [toString].  None of them parses the query, the body or the
    cookies, as the getters for texts do. *)

From Stdlib Require Import Ascii.
From S2P Require Import Prelude Util Http.

Section getters.
Context {T : Type} (lexical_cast : txt → option T).

(** [src/src/http/http.h:219-222] HttpResponse::checkGetHeaderAs *)
Definition r_checkGetHeaderAs (key : txt) (def : T) (r : HttpResponse) : bool * T :=
  checkGetAs lexical_cast (r_headers r) key def.
(** [src/src/http/http.h:224-227] HttpResponse::getHeaderAs *)
Definition r_getHeaderAs (key : txt) (def : T) (r : HttpResponse) : T :=
  getAs lexical_cast (r_headers r) key def.

(** [src/src/http/http.h:279-282] HttpRequest::checkGetHeaderAs *)
Definition q_checkGetHeaderAs (key : txt) (def : T) (q : HttpRequest) : bool * T :=
  checkGetAs lexical_cast (q_headers q) key def.
(** [src/src/http/http.h:283-286] HttpRequest::getHeaderAs *)
Definition q_getHeaderAs (key : txt) (def : T) (q : HttpRequest) : T :=
  getAs lexical_cast (q_headers q) key def.
(** [src/src/http/http.h:293-296] HttpRequest::checkGetParamAs, with the value as an out parameter *)
Definition q_checkGetParamAs (key : txt) (def : T) (q : HttpRequest) : bool * T :=
  checkGetAs lexical_cast (q_params q) key def.
(** [src/src/http/http.h:297-300] HttpRequest::checkGetParamAs, with the value as the result *)
Definition q_getParamAs (key : txt) (def : T) (q : HttpRequest) : T :=
  getAs lexical_cast (q_params q) key def.
(** [src/src/http/http.h:307-310] HttpRequest::checkGetCookieAs *)
Definition q_checkGetCookieAs (key : txt) (def : T) (q : HttpRequest) : bool * T :=
  checkGetAs lexical_cast (q_cookies q) key def.
(** [src/src/http/http.h:311-314] HttpRequest::getCookieAs *)
Definition q_getCookieAs (key : txt) (def : T) (q : HttpRequest) : T :=
  getAs lexical_cast (q_cookies q) key def.
End getters.

(** [src/src/http/http.cpp:311-315] HttpRequest::toString *)
Definition q_toString (q : HttpRequest) : res txt := q_dump q.

(** ** Properties *)

(** The typed getters never report success. *)
Lemma checkGetAs_fails {T} (cast : txt → option T) m key def : (checkGetAs cast m key def).1 = false.
Proof. unfold checkGetAs. destruct (h_find key m) as [s|]; [|done]. by destruct (cast s). Qed.

(** A request as the parser leaves it, with nothing parsed yet: the typed
    getters of parameters and cookies give the default whatever the query and
    the headers say.  Only after [initParam] do they see what the getters for
    texts see. *)
Theorem typed_getters_unparsed {T} (cast : txt → option T) key def q :
  q_params q = [] → q_cookies q = [] →
  q_getParamAs cast key def q = def ∧ q_getCookieAs cast key def q = def ∧
  q_checkGetParamAs cast key def q = (false, def) ∧ q_checkGetCookieAs cast key def q = (false, def).
Proof.
  intros Hp Hc. unfold q_getParamAs, q_getCookieAs, q_checkGetParamAs, q_checkGetCookieAs, getAs, checkGetAs.
  by rewrite Hp, Hc.
Qed.

(** A request with the query a=1, and the cast to one digit. *)
Definition query_a : HttpRequest := q_setQuery (chars "a=1") (HttpRequest_new 17 true).
Definition cast_digit (s : txt) : option Z :=
  match s with
  | [c] => if isdigit c then Some (code c - 48) else None
  | _ => None
  end.

Example typed_getters_unparsed_witness :
  (q_getParamAs cast_digit (chars "a") 7 query_a = 7 ∧ q_getCookieAs cast_digit (chars "a") 7 query_a = 7 ∧
   q_checkGetParamAs cast_digit (chars "a") 7 query_a = (false, 7) ∧
   q_checkGetCookieAs cast_digit (chars "a") 7 query_a = (false, 7)) ∧
  (getParam (chars "a") [] query_a).1 = chars "1" ∧
  q_getParamAs cast_digit (chars "a") 7 (initParam query_a) = 1.
Proof. split; [by apply typed_getters_unparsed|]. by vm_compute. Defined.
