(* ===== verification/UtilSys.v ===== *)
(** * What util.cpp takes from the system: src/src/util.h, src/src/util.cpp

    The clock, the stack of return addresses, [localtime_r] with [strftime],
    [vasprintf] and the conversions between wide and narrow characters are
    parameters.  The process has one locale, which [setlocale] replaces: it is
    the state of the two conversions. *)

From Stdlib Require Import Ascii.
From S2P Require Import Prelude Util Http.
From S2P Require Coroutine.

(** [src/src/util.cpp:23-25] GetCoroutineId *)
Definition GetCoroutineId : Coroutine.Thread → res Z := Coroutine.GetCoId.

(** ** The clock *)

(** [src/src/util.cpp:54-58] GetNowMillisecond: [now] is what system_clock counts, in nanoseconds *)
Definition GetNowMillisecond (now : Z) : Z := Z.quot now 1000000.
(** [src/src/util.cpp:60-63] GetNowSecond: [time] is what the call of that name returns *)
Definition GetNowSecond (time : Z) : Z := time.

Section time.
Context {Tm : Type} (localtime_r : Z → Tm) (strftime : txt → Tm → txt).

(** [src/src/util.cpp:65-71] Time2Str: a text that does not fit into [buf] leaves it undefined *)
Definition Time2Str (ts : Z) (format : txt) : res txt :=
  let tm := localtime_r ts in
  let buf := strftime (c_str format) tm in
  if zlen buf <? 64 then Ret (c_str buf) else Undef "buf".
End time.

(** ** Formatting *)

Section format.
Context {Args : Type} (vasprintf : txt → Args → option txt).

(** [src/src/util.cpp:81-90] StringUtils::Formatv: nothing stands for the result -1 *)
Definition Formatv (fmt : txt) (ap : Args) : txt :=
  match vasprintf (c_str fmt) ap with
  | None => []
  | Some buf => buf
  end.
(** [src/src/util.cpp:73-79] StringUtils::Format *)
Definition Format (fmt : txt) (ap : Args) : txt := Formatv fmt ap.
End format.

(** ** Back traces *)

Section backtrace.
(** The return addresses of the stack, the innermost first, and the texts that
    [backtrace_symbols] gives for some addresses, or null. *)
Context {Frame : Type} (stack : list Frame) (backtrace_symbols : list Frame → option (list txt)).

(** [src/src/util.cpp:27-41] Backtrace: [skip] is compared as a size_t *)
Definition Backtrace (bt : list txt) (size skip : Z) : list txt :=
  let array := ztake size stack in
  let s := zlen array in
  match backtrace_symbols array with
  | None => bt
  | Some strings => if u64 skip <? s then bt ++ slice (u64 skip) (s - u64 skip) strings else bt
  end.

(** [src/src/util.cpp:43-52] BacktraceToString *)
Definition BacktraceToString (size skip : Z) (prefix : txt) : txt :=
  let bt := Backtrace [] size skip in
  lf ++ concat ((λ b, prefix ++ b ++ lf) <$> bt).
End backtrace.

(** ** Wide characters *)

(** [wchar_t *] texts end at the first 0. *)
Fixpoint wc_str (w : list Z) : list Z :=
  match w with
  | [] => []
  | c :: w => if c =? 0 then [] else c :: wc_str w
  end.

Section locale.
(** The locale that the environment names ([setlocale(LC_ALL, "")] fails when
    there is none), and the conversions by locale, nothing for a character that
    has no form in it. *)
Context (env_locale : option string).
Context (wcstombs : string → list Z → option txt) (mbstowcs : string → txt → option (list Z)).

(** [setlocale(LC_ALL, "")]: the name of the locale that is set by the call. *)
Definition setlocale_env (locale : string) : option string * string :=
  match env_locale with
  | Some name => (Some name, name)
  | None => (None, locale)
  end.

(** [src/src/util.cpp:222-233] StringUtils::WStringToString: the text and the locale that is left. When the conversion fails the size is -1 + 1, and the empty array is read *)
Definition WStringToString (w : list Z) (locale : string) : res (txt * string) :=
  let '(name, locale) := setlocale_env locale in
  strLocale ← deref name "std::string of null";
  let wchSrc := wc_str w in
  match wcstombs locale wchSrc with
  | None => Undef "strResult of an empty array"
  | Some chDest => Ret (c_str chDest, strLocale)
  end.

(** [src/src/util.cpp:235-246] StringUtils::StringToWString *)
Definition StringToWString (s : txt) (locale : string) : res (list Z * string) :=
  let '(name, locale) := setlocale_env locale in
  strLocale ← deref name "std::string of null";
  let chSrc := c_str s in
  match mbstowcs locale chSrc with
  | None => Undef "wstrResult of an empty array"
  | Some wchDest => Ret (wc_str wchDest, strLocale)
  end.
End locale.

(** ** Properties *)

Lemma wc_str_idem w : wc_str (wc_str w) = wc_str w.
Proof. induction w as [|c w IH]; [done|]. simpl. destruct (c =? 0) eqn:E; [done|]. simpl. by rewrite E, IH. Qed.

(** A text that the locale of the environment can express comes back from
    narrow characters, as far as its first 0; but the locale of the process is
    that of the environment afterwards, whatever it was: [setlocale] returns
    the locale it has set, not the one before. *)
Theorem wide_roundtrip env (wcstombs : string → list Z → option txt) mbstowcs w s locale :
  (∀ l v t, wcstombs l v = Some t → c_str t = t ∧ mbstowcs l t = Some v) →
  wcstombs env (wc_str w) = Some s →
  WStringToString (Some env) wcstombs w locale = Ret (s, env) ∧
  StringToWString (Some env) mbstowcs s locale = Ret (wc_str w, env).
Proof.
  intros Hinv Hs. destruct (Hinv _ _ _ Hs) as [Hc Hm].
  unfold WStringToString, StringToWString, setlocale_env. cbn [deref]. rewrite !ret_bind, Hs, !Hc, Hm.
  by rewrite wc_str_idem.
Qed.

(** Seven-bit characters only. *)
Definition ascii_wcs (_ : string) (w : list Z) : option txt :=
  if forallb (λ c, (0 <? c) && (c <? 128)) w then Some (char_of <$> w) else None.
Definition ascii_mbs (_ : string) (s : txt) : option (list Z) := Some (code <$> s).

Lemma ascii_wcs_inverse l v t :
  ascii_wcs l v = Some t → c_str t = t ∧ ascii_mbs l t = Some v.
Proof.
  unfold ascii_wcs, ascii_mbs. destruct (forallb _ v) eqn:E; [|done]. intros [= <-].
  induction v as [|c v IH]; [done|]. simpl in *. apply andb_true_iff in E as [Hc E].
  destruct (IH E) as [IH1 IH2]. injection IH2 as IH2.
  apply andb_true_iff in Hc as [H1%Z.ltb_lt H2%Z.ltb_lt].
  assert (code (char_of c) = c) as Hcc.
  { unfold code, char_of. rewrite N_ascii_embedding; lia. }
  change (list_fmap Z ascii char_of v) with (char_of <$> v).
  rewrite IH1, Hcc. split; [|do 2 f_equal; exact IH2]. case_match eqn:Hn; [|done].
  apply Ascii.eqb_eq in Hn. rewrite Hn in Hcc. unfold code in Hcc. simpl in Hcc. lia.
Qed.

Example wide_roundtrip_witness :
  WStringToString (Some "C.UTF-8"%string) ascii_wcs [72; 105; 0; 33] "C"%string =
    Ret (chars "Hi", "C.UTF-8"%string) ∧
  StringToWString (Some "C.UTF-8"%string) ascii_mbs (chars "Hi") "C"%string =
    Ret ([72; 105], "C.UTF-8"%string).
Proof.
  apply (wide_roundtrip "C.UTF-8"%string ascii_wcs ascii_mbs [72; 105; 0; 33] (chars "Hi"));
    [apply ascii_wcs_inverse|reflexivity].
Defined.

(** A character that the locale cannot express makes the conversion read an
    array of length 0. *)
Lemma wide_unexpressible env wcstombs w locale :
  wcstombs env (wc_str w) = None →
  WStringToString (Some env) wcstombs w locale = Undef "strResult of an empty array".
Proof. intros H. unfold WStringToString, setlocale_env. cbn [deref]. by rewrite ret_bind, H. Qed.

(** The texts of a back trace: those of the frames from [skip] to [size]. *)
Theorem Backtrace_frames {Frame} (stack : list Frame) symbol bt size skip :
  0 <= skip < 2 ^ 64 →
  Backtrace stack (λ fs, Some (symbol <$> fs)) bt size skip =
    bt ++ (symbol <$> zdrop skip (ztake size stack)).
Proof.
  intros Hs. unfold Backtrace. rewrite u64_small by lia.
  set (array := ztake size stack). unfold zdrop, slice, ztake.
  destruct (Z.ltb_spec skip (zlen array)) as [Hl|Hl].
  - f_equal. rewrite fmap_drop. apply take_ge. rewrite length_drop, length_fmap. unfold zlen. lia.
  - rewrite drop_ge by (unfold zlen in Hl; lia). by rewrite app_nil_r.
Qed.

Example Backtrace_frames_witness :
  Backtrace [1; 2; 3; 4] (λ fs, Some ((λ f, chars (if f =? 3 then "run" else "main")) <$> fs)) [] 4 2 =
    [chars "run"; chars "main"].
Proof. apply (Backtrace_frames [1; 2; 3; 4] (λ f, chars (if f =? 3 then "run" else "main")) [] 4 2). lia. Defined.
