(* ===== verification/Config.v ===== *)
(** * Configuration: src/src/config.h and config.cpp

    A configuration variable has a name and a value of one C++ type; the
    registry maps names to variables of any type through their base class.  A
    YAML file is loaded into the variables by converting, for each node of the
    file, the text of the node.

    The type of a variable is a code [ty], and a value is a tree [value]; the
    conversions are those of the templates [LexicalCast].  [YAML::Load], the
    output of a node and the index of a map by a number are the class [Yaml];
    the types without a container ([boost::lexical_cast], or a specialisation
    of the program that uses the library) are the class [Scalars], with their
    order and equality, which [std::set] and [std::unordered_set] use.  An
    exception derived from [std::exception] is [None]. *)

From Stdlib Require Import Ascii.
From S2P Require Import Prelude Util Http.

(** ** YAML nodes *)

Inductive node : Type :=
| NNull
| NScalar (s : txt)
| NSequence (ns : list node)
| NMap (kvs : list (node * node)).

(** The text of a scalar, empty for other nodes. *)
Definition Scalar (n : node) : txt := match n with NScalar s => s | _ => [] end.
Definition IsScalar (n : node) : bool := match n with NScalar _ => true | _ => false end.

Class Yaml := {
  Load : txt → option node;
  emit : node → txt;
  map_at : list (node * node) → nat → node
}.

(** The nodes [node[0]] to [node[node.size() - 1]]. *)
Definition elements `{Yaml} (n : node) : list node :=
  match n with
  | NSequence ns => ns
  | NMap kvs => map_at kvs <$> seq 0 (length kvs)
  | _ => []
  end.

(** The pairs from [begin()] to [end()]; the pairs of a sequence are not valid
    nodes, and using one throws. *)
Definition members (n : node) : option (list (node * node)) :=
  match n with
  | NMap kvs => Some kvs
  | NSequence (_ :: _) => None
  | _ => Some []
  end.

(** ** Types and values *)

Class Scalars := {
  sty : Type;
  scalar : Type;
  #[global] sty_eq_dec :: EqDecision sty;
  is_a : scalar → sty → Prop;
  cast : sty → txt → option scalar;
  print : sty → scalar → option txt
}.

Inductive seq_kind := KVector | KList | KSet | KUnorderedSet.
Inductive map_kind := KMap | KUnorderedMap.
#[export] Instance seq_kind_eq_dec : EqDecision seq_kind.
Proof. solve_decision. Defined.
#[export] Instance map_kind_eq_dec : EqDecision map_kind.
Proof. solve_decision. Defined.

Inductive ty `{Scalars} : Type :=
| TScalar (s : sty)
| TSeq (k : seq_kind) (t : ty)
| TMap (k : map_kind) (t : ty).
#[export] Instance ty_eq_dec `{Scalars} : EqDecision ty.
Proof. solve_decision. Defined.

Inductive value `{Scalars} : Type :=
| VScalar (x : scalar)
| VSeq (vs : list value)
| VMap (kvs : list (txt * value)).

(** What the containers need of their element type: [std::less], [==], and the
    order in which the buckets of an unordered container are visited. *)
Class Elements `{Scalars} := {
  less : value → value → bool;
  equal : value → value → bool;
  buckets : ∀ {A}, list A → list A
}.

(** [std::string::operator<]. *)
Definition str_less (a b : txt) : bool := codes_lt (code <$> a) (code <$> b).

(** [std::set::insert]: in front of the first element that is greater, unless
    an equivalent one is there. *)
Fixpoint insert_sorted {A} (lt : A → A → bool) (x : A) (l : list A) : list A :=
  match l with
  | [] => [x]
  | y :: l' => if lt x y then x :: l else if lt y x then y :: insert_sorted lt x l' else l
  end.
(** [insert] of an unordered container, whose elements are in the order of
    their insertion here. *)
Definition insert_new {A} (same : A → A → bool) (x : A) (l : list A) : list A :=
  if existsb (same x) l then l else l ++ [x].

Section conversions.
Context `{Y : Yaml} `{Sc : Scalars} `{El : !Elements}.

(** ** Conversions from text *)

(** The loop of the conversions: each element converted, then added. *)
Fixpoint convert_each {A} (conv : txt → option value) (add : value → A → A)
    (ns : list node) (vec : A) : option A :=
  match ns with
  | [] => Some vec
  | n :: ns => x ← conv (emit n); convert_each conv add ns (add x vec)
  end.
Fixpoint convert_members {A} (conv : txt → option value) (add : txt * value → A → A)
    (kvs : list (node * node)) (res : A) : option A :=
  match kvs with
  | [] => Some res
  | (k, n) :: kvs => x ← conv (emit n); convert_members conv add kvs (add (Scalar k, x) res)
  end.

(** [src/src/config.h:37-51] LexicalCast<std::string, std::vector<T>> *)
Definition to_vector (conv : txt → option value) (v : txt) : option (list value) :=
  node ← Load v;
  convert_each conv (λ x vec, vec ++ [x]) (elements node) [].

(** [src/src/config.h:67-81] LexicalCast<std::string, std::list<T>> *)
Definition to_list (conv : txt → option value) (v : txt) : option (list value) :=
  node ← Load v;
  convert_each conv (λ x vec, vec ++ [x]) (elements node) [].

(** [src/src/config.h:97-111] LexicalCast<std::string, std::set<T>> *)
Definition to_set (conv : txt → option value) (v : txt) : option (list value) :=
  node ← Load v;
  convert_each conv (insert_sorted less) (elements node) [].

(** [src/src/config.h:127-141] LexicalCast<std::string, std::unordered_set<T>> *)
Definition to_unordered_set (conv : txt → option value) (v : txt) : option (list value) :=
  node ← Load v;
  convert_each conv (insert_new equal) (elements node) [].

(** [src/src/config.h:157-171] LexicalCast<std::string, std::map<std::string, T>> *)
Definition to_map (conv : txt → option value) (v : txt) : option (list (txt * value)) :=
  node ← Load v;
  kvs ← members node;
  convert_members conv (insert_sorted (λ a b, str_less a.1 b.1)) kvs [].

(** [src/src/config.h:187-201] LexicalCast<std::string, std::unordered_map<std::string, T>> *)
Definition to_unordered_map (conv : txt → option value) (v : txt) : option (list (txt * value)) :=
  node ← Load v;
  kvs ← members node;
  convert_members conv (insert_new (λ a b, bool_decide (a.1 = b.1))) kvs [].

(** [src/src/config.h:29-35] LexicalCast, and its specialisations by the type *)
Fixpoint FromStr (t : ty) (v : txt) : option value :=
  match t with
  | TScalar s => VScalar <$> cast s v
  | TSeq KVector t => VSeq <$> to_vector (FromStr t) v
  | TSeq KList t => VSeq <$> to_list (FromStr t) v
  | TSeq KSet t => VSeq <$> to_set (FromStr t) v
  | TSeq KUnorderedSet t => VSeq <$> to_unordered_set (FromStr t) v
  | TMap KMap t => VMap <$> to_map (FromStr t) v
  | TMap KUnorderedMap t => VMap <$> to_unordered_map (FromStr t) v
  end.

(** ** Conversions to text *)

(** [node.push_back] and [node[key] = ...] on a node that starts as null; the
    loops of the conversions. *)
Definition push_back (n : node) (x : node) : node :=
  match n with NSequence ns => NSequence (ns ++ [x]) | _ => NSequence [x] end.
Definition set_key (k : txt) (x : node) (kvs : list (node * node)) : list (node * node) :=
  if existsb (λ kv, bool_decide (Scalar kv.1 = k)) kvs
  then (λ kv, if bool_decide (Scalar kv.1 = k) then (kv.1, x) else kv) <$> kvs
  else kvs ++ [(NScalar k, x)].
Definition set_member (n : node) (k : txt) (x : node) : node :=
  match n with NMap kvs => NMap (set_key k x kvs) | _ => NMap (set_key k x []) end.

Fixpoint push_each (conv : value → option txt) (vs : list value) (n : node) : option node :=
  match vs with
  | [] => Some n
  | v :: vs => s ← conv v; x ← Load s; push_each conv vs (push_back n x)
  end.
Fixpoint set_each (conv : value → option txt) (kvs : list (txt * value)) (n : node) : option node :=
  match kvs with
  | [] => Some n
  | (k, v) :: kvs => s ← conv v; x ← Load s; set_each conv kvs (set_member n k x)
  end.

(** [src/src/config.h:53-65] LexicalCast<std::vector<T>, std::string> *)
Definition of_vector (conv : value → option txt) (v : list value) : option txt :=
  emit <$> push_each conv v NNull.

(** [src/src/config.h:83-95] LexicalCast<std::list<T>, std::string> *)
Definition of_list (conv : value → option txt) (v : list value) : option txt :=
  emit <$> push_each conv v NNull.

(** [src/src/config.h:113-125] LexicalCast<std::set<T>, std::string> *)
Definition of_set (conv : value → option txt) (v : list value) : option txt :=
  emit <$> push_each conv v NNull.

(** [src/src/config.h:143-155] LexicalCast<std::unordered_set<T>, std::string> *)
Definition of_unordered_set (conv : value → option txt) (v : list value) : option txt :=
  emit <$> push_each conv (buckets v) NNull.

(** [src/src/config.h:173-185] LexicalCast<std::map<std::string, T>, std::string> *)
Definition of_map (conv : value → option txt) (v : list (txt * value)) : option txt :=
  emit <$> set_each conv v NNull.

(** [src/src/config.h:203-215] LexicalCast<std::unordered_map<std::string, T>, std::string> *)
Definition of_unordered_map (conv : value → option txt) (v : list (txt * value)) : option txt :=
  emit <$> set_each conv (buckets v) NNull.

(** [src/src/config.h:29-35] LexicalCast, to text *)
Fixpoint ToStr (t : ty) (v : value) : option txt :=
  match t, v with
  | TScalar s, VScalar x => print s x
  | TSeq KVector t, VSeq vs => of_vector (ToStr t) vs
  | TSeq KList t, VSeq vs => of_list (ToStr t) vs
  | TSeq KSet t, VSeq vs => of_set (ToStr t) vs
  | TSeq KUnorderedSet t, VSeq vs => of_unordered_set (ToStr t) vs
  | TMap KMap t, VMap kvs => of_map (ToStr t) kvs
  | TMap KUnorderedMap t, VMap kvs => of_unordered_map (ToStr t) kvs
  | _, _ => None
  end.

(** ** Variables *)

(** [src/src/config.h:217-242] ConfigVarBase, ConfigVar: [m_type] is the template argument *)
Record ConfigVar := mkConfigVar {
  m_name : txt; m_description : txt; m_type : ty; m_val : value }.

(** [src/src/config.h:263-266] ConfigVar::getValue *)
Definition getValue (c : ConfigVar) : value := m_val c.

(** [src/src/config.h:268-271] ConfigVar::setValue *)
Definition setValue (v : value) (c : ConfigVar) : ConfigVar :=
  mkConfigVar (m_name c) (m_description c) (m_type c) v.

(** [src/src/config.h:244-251] ConfigVar::toString *)
Definition toString (c : ConfigVar) : txt :=
  match ToStr (m_type c) (getValue c) with
  | Some s => s
  | None => []
  end.

(** [src/src/config.h:253-261] ConfigVar::fromString *)
Definition fromString (val : txt) (c : ConfigVar) : bool * ConfigVar :=
  match FromStr (m_type c) val with
  | Some v => (true, setValue v c)
  | None => (false, c)
  end.

(** ** The registry *)

(** [src/src/config.h:311-319] Config: [GetDatas()], and the variables by address *)
Record Config := mkConfig {
  vars : gmap Z ConfigVar; datas : gmap txt Z; next_addr : Z }.
Definition empty_config : Config := mkConfig ∅ ∅ 1.

Definition name_chars : string := "abcdefghijklmnopqrstuvwxyzABCDEFGHIJKLMNOPQRSTUVWXYZ._1234567890".

(** [src/src/config.cpp:12-16] isValidName *)
Definition isValidName (name : txt) : bool :=
  match find_first_not_of name_chars name with
  | None => true
  | Some _ => false
  end.

(** [src/src/config.h:299-306] Config::Lookup(name): the pointer is null when no variable has the name, or one of another type *)
Definition Lookup_find (T : ty) (name : txt) (cfg : Config) : option Z :=
  p ← datas cfg !! name;
  var ← vars cfg !! p;
  if decide (m_type var = T) then Some p else None.

(** [src/src/config.h:293-296] Config::Lookup(name, defaultValue): the registration, under the lock *)
Definition Lookup_insert (T : ty) (name : txt) (defaultValue : value) (description : txt)
    (cfg : Config) : Z * Config :=
  let v := next_addr cfg in
  (v, mkConfig (<[v := mkConfigVar name description T defaultValue]> (vars cfg))
               (<[name := v]> (datas cfg)) (v + 1)).

(** [src/src/config.h:282-297] Config::Lookup(name, defaultValue) *)
Definition Lookup (T : ty) (name : txt) (defaultValue : value) (description : txt)
    (cfg : Config) : res (Z * Config) :=
  match Lookup_find T name cfg with
  | Some tmp => Ret (tmp, cfg)
  | None =>
      if negb (isValidName name) then Throw "std::invalid_argument"
      else Ret (Lookup_insert T name defaultValue description cfg)
  end.

(** [src/src/config.cpp:33-37] Config::LookupBase *)
Definition LookupBase (name : txt) (cfg : Config) : option Z := datas cfg !! name.

(** ** Loading *)

Definition dot : ascii := ascii_of_nat 46.

(** [src/src/config.cpp:18-31] listAllMember: the list that it appends to [output] *)
Fixpoint listAllMember (prefix : txt) (n : node) {struct n} : list (txt * node) :=
  if negb (isValidName prefix) || is_empty prefix then []
  else (prefix, n) ::
    match n with
    | NMap kvs =>
        (fix go (kvs : list (node * node)) : list (txt * node) :=
           match kvs with
           | [] => []
           | (k, x) :: kvs =>
               listAllMember (if is_empty prefix then Scalar k else prefix ++ dot :: Scalar k) x ++ go kvs
           end) kvs
    | _ => []
    end.

(** [src/src/config.cpp:47-54] Config::LoadFromYaml, the text of a node *)
Definition node_text (n : node) : txt := if IsScalar n then Scalar n else emit n.

(** [src/src/config.cpp:42-55] Config::LoadFromYaml, one turn of the loop *)
Definition load_one (cfg : Config) (i : txt * node) : Config :=
  let key := i.1 in
  if is_empty key then cfg
  else
    match LookupBase key cfg with
    | Some p =>
        mkConfig (alter (λ var, snd (fromString (node_text i.2) var)) p (vars cfg)) (datas cfg) (next_addr cfg)
    | None => cfg
    end.

(** [src/src/config.cpp:39-57] Config::LoadFromYaml *)
Definition LoadFromYaml (root : node) (name : txt) (cfg : Config) : Config :=
  foldl load_one cfg (listAllMember name root).
End conversions.
