(* ===== verification/ConfigProps.v ===== *)
(** * Configuration: theorems on Config.v

    Every variable holds a value of its type; what loading a file assigns;
    the text of a value converts back to it; and the variables that a later
    [Lookup] cuts off from the registry. *)

From Stdlib Require Import Ascii Sorting.
From S2P Require Import Prelude Util Http Ragel HttpProps Config.

(** The laws of the conversions and orders that the program supplies. *)
Class ConfigLaws `{Sc : Scalars} `{El : !Elements} : Prop := {
  cast_typed s v x : cast s v = Some x → is_a x s;
  less_irrefl a : less a a = false;
  less_trans a b c : less a b = true → less b c = true → less a c = true
}.

Lemma insert_sorted_elem {A} (lt : A → A → bool) x y l : y ∈ insert_sorted lt x l → y = x ∨ y ∈ l.
Proof.
  induction l as [|z l IH]; simpl; [set_solver|].
  destruct (lt x z); [set_solver|]. destruct (lt z x); set_solver.
Qed.

Lemma insert_new_distinct {A} (same : A → A → bool) x l :
  StronglySorted (λ a b, same b a = false) l → StronglySorted (λ a b, same b a = false) (insert_new same x l).
Proof.
  intros Hl. unfold insert_new. destruct (existsb (same x) l) eqn:E; [done|].
  induction Hl as [|y l Hs IH Hy]; simpl; [by repeat constructor|].
  simpl in E. apply orb_false_iff in E as [Hxy E]. constructor; [auto|].
  apply Forall_app. split; [done|]. by repeat constructor.
Qed.

Lemma sorted_snoc_inv {A} (R : A → A → Prop) l x r :
  StronglySorted R (l ++ x :: r) → Forall (λ y, R y x) l.
Proof.
  induction l as [|y l IH]; simpl; intros H; [constructor|].
  apply StronglySorted_inv in H as [H Hy]. constructor; [|auto].
  eapply Forall_forall in Hy; [done|]. set_solver.
Qed.
Section sorted.
Context {A : Type} (lt : A → A → bool).
Hypothesis lt_trans : ∀ a b c, lt a b = true → lt b c = true → lt a c = true.

Lemma insert_sorted_sorted x l :
  StronglySorted (λ a b, lt a b = true) l → StronglySorted (λ a b, lt a b = true) (insert_sorted lt x l).
Proof.
  induction 1 as [|y l Hs IH Hy]; simpl; [by repeat constructor|].
  destruct (lt x y) eqn:Hxy.
  - constructor; [by constructor|]. constructor; [done|].
    eapply Forall_impl; [exact Hy|]. simpl. eauto.
  - destruct (lt y x) eqn:Hyx; [|by constructor]. constructor; [done|].
    apply Forall_forall. intros z [->|Hz]%insert_sorted_elem; [done|].
    by eapply Forall_forall in Hy.
Qed.

(** Adding the elements of a sorted list in order gives the list. *)
Lemma insert_sorted_snoc x l :
  (∀ a, lt a a = false) → Forall (λ y, lt y x = true) l → insert_sorted lt x l = l ++ [x].
Proof.
  intros Hirr. induction 1 as [|y l Hy _ IH]; simpl; [done|].
  destruct (lt x y) eqn:E; [|by rewrite Hy, IH].
  pose proof (lt_trans x y x E Hy). pose proof (Hirr x). congruence.
Qed.

End sorted.

Lemma str_less_trans a b c : str_less a b = true → str_less b c = true → str_less a c = true.
Proof. apply codes_lt_trans. Qed.
Lemma str_less_irrefl a : str_less a a = false.
Proof. apply codes_lt_irrefl. Qed.

(** Induction on nodes, through the lists in them. *)
Section node_ind.
Context (P : node → Prop) (Hnull : P NNull) (Hscalar : ∀ s, P (NScalar s)).
Context (Hseq : ∀ ns, Forall P ns → P (NSequence ns)).
Context (Hmap : ∀ kvs, Forall (λ kv, P kv.1 ∧ P kv.2) kvs → P (NMap kvs)).

Fixpoint node_ind' (n : node) : P n :=
  match n with
  | NNull => Hnull
  | NScalar s => Hscalar s
  | NSequence ns =>
      Hseq ns ((fix go ns := match ns return Forall P ns with
                | [] => Forall_nil_2 P
                | n :: ns => Forall_cons_2 P n ns (node_ind' n) (go ns) end) ns)
  | NMap kvs =>
      Hmap kvs ((fix go kvs := match kvs return Forall (λ kv, P kv.1 ∧ P kv.2) kvs with
                 | [] => Forall_nil_2 _
                 | (k, x) :: kvs => Forall_cons_2 _ (k, x) kvs (conj (node_ind' k) (node_ind' x)) (go kvs)
                 end) kvs)
  end.
End node_ind.

Section config.
Context `{Y : Yaml} `{Sc : Scalars} `{El : !Elements} {L : ConfigLaws}.

(** ** Types *)

Definition key_less (a b : txt * value) : bool := str_less a.1 b.1.
Definition distinct (k : seq_kind) (vs : list value) : Prop :=
  match k with
  | KSet => StronglySorted (λ a b, less a b = true) vs
  | KUnorderedSet => StronglySorted (λ a b, equal b a = false) vs
  | _ => True
  end.
Definition distinct_keys (k : map_kind) (kvs : list (txt * value)) : Prop :=
  match k with
  | KMap => StronglySorted (λ a b, key_less a b = true) kvs
  | KUnorderedMap => StronglySorted (λ a b, bool_decide (b.1 = a.1) = false) kvs
  end.

(** The values of a type: the elements of a set are in order and differ. *)
Fixpoint has_type (t : ty) (v : value) : Prop :=
  match t, v with
  | TScalar s, VScalar x => is_a x s
  | TSeq k t, VSeq vs => Forall (has_type t) vs ∧ distinct k vs
  | TMap k t, VMap kvs => Forall (λ kv, has_type t kv.2) kvs ∧ distinct_keys k kvs
  | _, _ => False
  end.

Lemma convert_each_ind {A} (P : A → Prop) (Q : value → Prop) conv add ns vec out :
  (∀ s x, conv s = Some x → Q x) → (∀ x a, Q x → P a → P (add x a)) → P vec →
  convert_each conv add ns vec = Some out → P out.
Proof.
  intros HQ HP. revert vec. induction ns as [|n ns IH]; intros vec Hv; simpl; [by intros [= <-]|].
  destruct (conv (emit n)) as [x|] eqn:E; simpl; [|done]. apply IH. eauto.
Qed.
Lemma convert_members_ind {A} (P : A → Prop) (Q : txt * value → Prop) conv add kvs res out :
  (∀ k s x, conv s = Some x → Q (k, x)) → (∀ x a, Q x → P a → P (add x a)) → P res →
  convert_members conv add kvs res = Some out → P out.
Proof.
  intros HQ HP. revert res. induction kvs as [|[k n] kvs IH]; intros res Hv; simpl; [by intros [= <-]|].
  destruct (conv (emit n)) as [x|] eqn:E; simpl; [|done]. apply IH. eauto.
Qed.

Lemma Forall_insert_sorted {A} (P : A → Prop) lt x l : P x → Forall P l → Forall P (insert_sorted lt x l).
Proof.
  intros Hx Hl. apply Forall_forall. intros y [->|Hy]%insert_sorted_elem; [done|].
  by eapply Forall_forall in Hl.
Qed.
Lemma Forall_insert_new {A} (P : A → Prop) same x l : P x → Forall P l → Forall P (insert_new same x l).
Proof.
  intros Hx Hl. unfold insert_new. destruct (existsb _ _); [done|]. apply Forall_app. by repeat constructor.
Qed.

Ltac opt_inv :=
  repeat match goal with
  | H : _ <$> _ = Some _ |- _ => apply fmap_Some in H as (? & ? & ->)
  | H : _ ≫= _ = Some _ |- _ => apply bind_Some in H as (? & ? & ?)
  end.

(** The insertion of a container, and what the conversion of one comes from. *)
Definition add_of (k : seq_kind) : value → list value → list value :=
  match k with
  | KSet => insert_sorted less
  | KUnorderedSet => insert_new equal
  | _ => λ x vec, vec ++ [x]
  end.
Definition add_pair_of (k : map_kind) : txt * value → list (txt * value) → list (txt * value) :=
  match k with
  | KMap => insert_sorted key_less
  | KUnorderedMap => insert_new (λ a b, bool_decide (a.1 = b.1))
  end.

Lemma FromStr_seq k t v :
  FromStr (TSeq k t) v =
    (n ← Load v; VSeq <$> convert_each (FromStr t) (add_of k) (elements n) []).
Proof. destruct k; simpl; unfold to_vector, to_list, to_set, to_unordered_set; by destruct (Load v). Qed.
Lemma FromStr_map k t v :
  FromStr (TMap k t) v =
    (n ← Load v; kvs ← members n; VMap <$> convert_members (FromStr t) (add_pair_of k) kvs []).
Proof.
  destruct k; simpl; unfold to_map, to_unordered_map; destruct (Load v) as [n|]; simpl; try done;
    by destruct (members n).
Qed.

Lemma convert_seq k t v x :
  FromStr (TSeq k t) v = Some x →
  ∃ vs ns, x = VSeq vs ∧ convert_each (FromStr t) (add_of k) ns [] = Some vs.
Proof. rewrite FromStr_seq. intros H. opt_inv. eauto. Qed.
Lemma convert_map k t v x :
  FromStr (TMap k t) v = Some x →
  ∃ kvs ns, x = VMap kvs ∧ convert_members (FromStr t) (add_pair_of k) ns [] = Some kvs.
Proof. rewrite FromStr_map. intros H. opt_inv. eauto. Qed.

Lemma FromStr_typed t v x : FromStr t v = Some x → has_type t x.
Proof.
  revert v x. induction t as [s|k t IH|k t IH]; intros v x H.
  - simpl in H. opt_inv. simpl. by eapply cast_typed.
  - destruct (convert_seq k t v x H) as (vs & ns & -> & He). revert He.
    eapply (convert_each_ind (λ vs, has_type (TSeq k t) (VSeq vs)) (has_type t)); [exact IH| |].
    + intros y l Hy [Hl Hd]. destruct k; (split; [|simpl in *]).
      1,3: (apply Forall_app; by repeat constructor).
      all: try done.
      * by apply Forall_insert_sorted.
      * apply insert_sorted_sorted; [apply less_trans|done].
      * by apply Forall_insert_new.
      * by apply insert_new_distinct.
    + destruct k; repeat constructor.
  - destruct (convert_map k t v x H) as (vs & ns & -> & He). revert He.
    eapply (convert_members_ind (λ vs, has_type (TMap k t) (VMap vs)) (λ kv, has_type t kv.2));
      [intros ?; exact IH| |].
    + intros y l Hy [Hl Hd]. destruct k; (split; [|simpl in *]).
      * by apply Forall_insert_sorted.
      * apply insert_sorted_sorted; [intros a b c; apply str_less_trans|done].
      * by apply Forall_insert_new.
      * by apply insert_new_distinct.
    + destruct k; repeat constructor.
Qed.

(** ** The registry *)

(** What a program does with the registry: values are set through pointers of
    the variable's type. *)
Inductive cstep (cfg : Config) : Config → Prop :=
| step_lookup T name def desc p cfg' :
    has_type T def → Lookup T name def desc cfg = Ret (p, cfg') → cstep cfg cfg'
| step_set p var v :
    vars cfg !! p = Some var → has_type (m_type var) v →
    cstep cfg (mkConfig (<[p := setValue v var]> (vars cfg)) (datas cfg) (next_addr cfg))
| step_load root name : cstep cfg (LoadFromYaml root name cfg).

Record config_ok (cfg : Config) : Prop := {
  ok_names name p : datas cfg !! name = Some p →
    ∃ var, vars cfg !! p = Some var ∧ m_name var = name ∧ isValidName name = true;
  ok_values p var : vars cfg !! p = Some var → has_type (m_type var) (getValue var);
  ok_addrs p : is_Some (vars cfg !! p) → p < next_addr cfg
}.

(** Every variable of [cfg] is one of [cfg'], up to its value. *)
Definition keeps_vars (cfg cfg' : Config) : Prop :=
  ∀ p var, vars cfg !! p = Some var → ∃ v, vars cfg' !! p = Some (setValue v var).

#[local] Instance keeps_vars_preorder : PreOrder keeps_vars.
Proof.
  split.
  - intros cfg p [] Hp. eexists. exact Hp.
  - intros a b c Hab Hbc p var Hp. destruct (Hab p var Hp) as [v Hv].
    destruct (Hbc _ _ Hv) as [v' Hv']. by exists v'.
Qed.

Lemma fromString_set val var : ∃ v, snd (fromString val var) = setValue v var ∧
  (has_type (m_type var) (m_val var) → has_type (m_type var) v).
Proof.
  unfold fromString. destruct (FromStr _ _) as [v|] eqn:E; simpl.
  - exists v. split; [done|]. intros _. by eapply FromStr_typed.
  - exists (m_val var). split; [by destruct var|done].
Qed.

(** A change of values alone. *)
Lemma values_ok cfg f (p : Z) :
  config_ok cfg →
  (∀ var, vars cfg !! p = Some var → ∃ v, f var = setValue v var ∧ has_type (m_type var) v) →
  let cfg' := mkConfig (alter f p (vars cfg)) (datas cfg) (next_addr cfg) in
  config_ok cfg' ∧ keeps_vars cfg cfg'.
Proof.
  intros [Hn Hv Ha] Hf cfg'.
  assert (keeps_vars cfg cfg') as Hk.
  { intros q var Hq. simpl. destruct (decide (p = q)) as [->|Hpq].
    - rewrite lookup_alter_eq, Hq. destruct (Hf var Hq) as (v & Hfv & _). exists v. simpl. by rewrite Hfv.
    - rewrite lookup_alter_ne by done. exists (m_val var). rewrite Hq. by destruct var. }
  split; [|done]. split; simpl.
  - intros name q Hq. destruct (Hn name q Hq) as (var & Hvar & Hname & Hok).
    destruct (Hk q var Hvar) as [v Hv']. by exists (setValue v var).
  - intros q var. destruct (decide (p = q)) as [->|Hpq].
    + rewrite lookup_alter_eq. intros (w & Hw & Heq)%fmap_Some.
      destruct (Hf w Hw) as (v & Hfv & Ht). rewrite Hfv in Heq. by subst var.
    + rewrite lookup_alter_ne by done. apply Hv.
  - intros q Hq. apply Ha. destruct (decide (p = q)) as [->|Hpq].
    + rewrite lookup_alter_eq, fmap_is_Some in Hq. done.
    + by rewrite lookup_alter_ne in Hq.
Qed.

Lemma load_one_ok cfg i : config_ok cfg → config_ok (load_one cfg i) ∧ keeps_vars cfg (load_one cfg i).
Proof.
  intros Hok. unfold load_one. destruct (is_empty i.1); [done|].
  destruct (LookupBase i.1 cfg) as [p|] eqn:E; [|done].
  apply values_ok; [done|]. intros var Hvar.
  destruct (fromString_set (node_text i.2) var) as (v & Hs & Ht). exists v.
  split; [done|]. apply Ht. by eapply (ok_values cfg).
Qed.

Lemma load_all_ok l cfg : config_ok cfg → config_ok (foldl load_one cfg l) ∧ keeps_vars cfg (foldl load_one cfg l).
Proof.
  revert cfg. induction l as [|i l IH]; intros cfg Hok; simpl; [done|].
  destruct (load_one_ok cfg i Hok) as [Hok1 Hk1]. destruct (IH _ Hok1) as [Hok2 Hk2].
  split; [done|]. by etrans.
Qed.

Lemma insert_ok T name def desc cfg :
  config_ok cfg → has_type T def → isValidName name = true →
  let r := Lookup_insert T name def desc cfg in
  config_ok r.2 ∧ keeps_vars cfg r.2 ∧ vars r.2 !! r.1 = Some (mkConfigVar name desc T def).
Proof.
  intros [Hn Hv Ha] Hd Hname. cbv zeta. unfold Lookup_insert. cbn [fst snd vars].
  assert (∀ p, is_Some (vars cfg !! p) → p ≠ next_addr cfg) as Hne by (intros p Hp ->; specialize (Ha _ Hp); lia).
  split; [|split; [|by rewrite lookup_insert_eq]].
  - split; simpl.
    + intros name' p. destruct (decide (name = name')) as [->|Hnn].
      * rewrite lookup_insert_eq. intros [= <-]. eexists. by rewrite lookup_insert_eq.
      * rewrite lookup_insert_ne by done. intros Hp. destruct (Hn _ _ Hp) as (var & Hvar & ?).
        exists var. rewrite lookup_insert_ne; [done|].
        intros Heq. by destruct (Hne p).
    + intros p var. destruct (decide (next_addr cfg = p)) as [->|Hpp].
      * rewrite lookup_insert_eq. by intros [= <-].
      * rewrite lookup_insert_ne by done. apply Hv.
    + intros p. destruct (decide (next_addr cfg = p)) as [->|Hpp]; [lia|].
      rewrite lookup_insert_ne by done. intros Hp%Ha. lia.
  - intros p var Hp. simpl. rewrite lookup_insert_ne by (intros Heq; by destruct (Hne p)).
    exists (m_val var). rewrite Hp. by destruct var.
Qed.

Lemma Lookup_find_spec T name cfg p :
  Lookup_find T name cfg = Some p ↔
  datas cfg !! name = Some p ∧ ∃ var, vars cfg !! p = Some var ∧ m_type var = T.
Proof.
  unfold Lookup_find. split.
  - intros (q & Hq & H)%bind_Some. apply bind_Some in H as (var & Hvar & H).
    case_decide; simplify_eq. eauto.
  - intros (Hp & var & Hvar & <-). rewrite Hp. simpl. rewrite Hvar. simpl. by rewrite decide_True.
Qed.

Lemma lookup_ok T name def desc cfg p cfg' :
  config_ok cfg → has_type T def → Lookup T name def desc cfg = Ret (p, cfg') →
  config_ok cfg' ∧ keeps_vars cfg cfg' ∧ ∃ var, vars cfg' !! p = Some var ∧ m_type var = T.
Proof.
  intros Hok Hd. unfold Lookup. destruct (Lookup_find T name cfg) as [q|] eqn:E.
  - intros [= <- <-]. apply Lookup_find_spec in E as [_ Hvar]. done.
  - destruct (isValidName name) eqn:Hname; [|done]. cbn [negb]. intros [= <- <-].
    destruct (insert_ok T name def desc cfg Hok Hd Hname) as (H1 & H2 & H3).
    split; [done|]. split; [done|]. eexists. split; [exact H3|done].
Qed.

Lemma cstep_ok cfg cfg' : config_ok cfg → cstep cfg cfg' → config_ok cfg' ∧ keeps_vars cfg cfg'.
Proof.
  intros Hok [T name def desc p cfg'' Hd Hl|p var v Hp Ht|root name].
  - destruct (lookup_ok _ _ _ _ _ _ _ Hok Hd Hl) as (? & ? & _). done.
  - replace (<[p:=setValue v var]> (vars cfg)) with (alter (λ _, setValue v var) p (vars cfg)).
    + apply values_ok; [done|]. intros w Hw. simplify_eq. eauto.
    + apply map_eq. intros q. destruct (decide (p = q)) as [->|Hq].
      * by rewrite lookup_alter_eq, lookup_insert_eq, Hp.
      * by rewrite lookup_alter_ne, lookup_insert_ne.
  - by apply load_all_ok.
Qed.

Lemma csteps_ok cfg cfg' : config_ok cfg → rtc cstep cfg cfg' → config_ok cfg' ∧ keeps_vars cfg cfg'.
Proof.
  intros Hok Hs. revert Hok. induction Hs as [cfg|a b c Hab _ IH]; intros Hok; [done|].
  destruct (cstep_ok a b Hok Hab) as [Hb Hk]. destruct (IH Hb) as [Hc Hk']. split; [done|]. by etrans.
Qed.

Lemma empty_config_ok : config_ok empty_config.
Proof. split; simpl; intros *; rewrite lookup_empty; by try intros [? ?]. Qed.

(** C18: types of configuration variables.  Whatever sequence of [Lookup], typed
    [setValue] and [LoadFromYaml] a program runs, on any file: every name of
    the registry is valid and leads to a variable of that name, every variable
    holds a value of its type (the elements of a set in order and different),
    a variable keeps its name and type for ever, and [Lookup<T>] returns a
    variable of type [T]. *)
Theorem registry_typed cfg :
  rtc cstep empty_config cfg →
  (∀ name p, datas cfg !! name = Some p →
     ∃ var, vars cfg !! p = Some var ∧ m_name var = name ∧ isValidName name = true) ∧
  (∀ p var, vars cfg !! p = Some var → has_type (m_type var) (getValue var)) ∧
  (∀ cfg' p var, rtc cstep cfg cfg' → vars cfg !! p = Some var →
     ∃ v, vars cfg' !! p = Some (setValue v var) ∧ has_type (m_type var) v) ∧
  (∀ T name def desc p cfg', has_type T def → Lookup T name def desc cfg = Ret (p, cfg') →
     ∃ var, vars cfg' !! p = Some var ∧ m_type var = T ∧ has_type T (getValue var)).
Proof.
  intros Hs. destruct (csteps_ok _ _ empty_config_ok Hs) as [Hok _].
  split; [apply Hok|]. split; [apply Hok|]. split.
  - intros cfg' p var Hs' Hp. destruct (csteps_ok _ _ Hok Hs') as [Hok' Hk].
    destruct (Hk p var Hp) as [v Hv]. exists v. split; [done|]. by apply (ok_values _ Hok' _ _ Hv).
  - intros T name def desc p cfg' Hd Hl.
    destruct (lookup_ok _ _ _ _ _ _ _ Hok Hd Hl) as (Hok' & _ & var & Hvar & <-).
    exists var. split; [done|]. split; [done|]. by apply (ok_values _ Hok' _ _ Hvar).
Qed.

(** ** Loading *)

(** The nodes of a file by name: the name of a member is the name of its map,
    a dot and its key, and every name on the way must be valid. *)
Inductive at_path : txt → node → txt → node → Prop :=
| path_here prefix n :
    isValidName prefix = true → prefix ≠ [] → at_path prefix n prefix n
| path_member prefix kvs k x key n :
    isValidName prefix = true → prefix ≠ [] → (k, x) ∈ kvs →
    at_path (prefix ++ dot :: Scalar k) x key n → at_path prefix (NMap kvs) key n.

Definition members_of (prefix : txt) (n : node) : list (txt * node) :=
  match n with
  | NMap kvs => kvs ≫= λ kv, listAllMember (prefix ++ dot :: Scalar kv.1) kv.2
  | _ => []
  end.

Lemma listAllMember_eq prefix n :
  listAllMember prefix n =
    if negb (isValidName prefix) || is_empty prefix then [] else (prefix, n) :: members_of prefix n.
Proof.
  destruct n as [|s|ns|kvs]; try done. unfold members_of. cbn [listAllMember].
  destruct (isValidName prefix), prefix as [|c prefix]; cbn [negb orb is_empty]; try done. f_equal.
  induction kvs as [|[k x] kvs IH]; [done|]. rewrite IH. done.
Qed.

Lemma listAllMember_paths prefix root key n :
  (key, n) ∈ listAllMember prefix root ↔ at_path prefix root key n.
Proof.
  split.
  - revert prefix. induction root as [|s|ns|kvs IH] using node_ind'; intros prefix; rewrite listAllMember_eq;
      destruct (isValidName prefix) eqn:Hv, prefix as [|c prefix]; cbn [negb orb is_empty];
      rewrite ?elem_of_nil; try done; rewrite elem_of_cons;
      (intros [[= -> ->]|Hin]; [by constructor|]); simpl in Hin; rewrite ?elem_of_nil in Hin; try done.
    apply list_elem_of_bind in Hin as ([k x] & Hx & Hin). simpl in Hx.
    eapply path_member; [done|done|exact Hin|]. eapply Forall_forall in IH; [|exact Hin]. by apply IH.
  - induction 1 as [prefix n Hv Hne|prefix kvs k x key n Hv Hne Hin _ IH];
      rewrite listAllMember_eq, Hv; destruct prefix; try done; cbn [negb orb is_empty]; [by left|right].
    apply list_elem_of_bind. exists (k, x). done.
Qed.

Lemma at_path_name prefix n key x : at_path prefix n key x → key ≠ [].
Proof. by induction 1. Qed.

(** What the variable [var], registered as [key], holds after the nodes [l]. *)
Definition assigned (var : ConfigVar) (key : txt) (l : list (txt * node)) : value :=
  default (m_val var)
    (last (omap (λ i, if bool_decide (i.1 = key) then FromStr (m_type var) (node_text i.2) else None) l)).

Lemma load_one_other cfg i q :
  (∀ name, datas cfg !! name = Some q → name ≠ i.1) → vars (load_one cfg i) !! q = vars cfg !! q.
Proof.
  intros H. unfold load_one, LookupBase. destruct (is_empty i.1); [done|].
  destruct (datas cfg !! i.1) as [p|] eqn:E; [|done]. simpl.
  apply lookup_alter_ne. intros ->. by destruct (H i.1).
Qed.
Lemma load_one_datas cfg i : datas (load_one cfg i) = datas cfg.
Proof. unfold load_one. destruct (is_empty i.1); [done|]. by destruct (LookupBase i.1 cfg). Qed.
Lemma load_all_datas l cfg : datas (foldl load_one cfg l) = datas cfg.
Proof. revert cfg. induction l as [|i l IH]; intros cfg; simpl; [done|]. by rewrite IH, load_one_datas. Qed.

Lemma assigned_cons var key i l :
  assigned var key (i :: l) =
    assigned (if bool_decide (i.1 = key) then snd (fromString (node_text i.2) var) else var) key l.
Proof.
  unfold assigned, fromString. simpl. destruct (bool_decide (i.1 = key)); [|done].
  destruct (FromStr (m_type var) (node_text i.2)) as [v|]; [|done]. simpl.
  rewrite last_cons. by destruct (last _).
Qed.

Lemma load_all_assigns l cfg key p var :
  config_ok cfg → datas cfg !! key = Some p → vars cfg !! p = Some var →
  (∀ i, i ∈ l → i.1 ≠ []) →
  vars (foldl load_one cfg l) !! p = Some (setValue (assigned var key l) var).
Proof.
  revert cfg var. induction l as [|i l IH]; intros cfg var Hok Hd Hp Hne; simpl; [rewrite Hp; by destruct var|].
  destruct (load_one_ok cfg i Hok) as [Hok1 _]. rewrite assigned_cons.
  destruct (bool_decide_reflect (i.1 = key)) as [<-|Hki].
  - rewrite (IH _ (snd (fromString (node_text i.2) var))); [|done|by rewrite load_one_datas| |set_solver].
    + by destruct (fromString_set (node_text i.2) var) as (v & -> & _).
    + unfold load_one, LookupBase. rewrite Hd. simpl.
      destruct (i.1) eqn:Hi; [by destruct (Hne i); [left|]|]. simpl. by rewrite lookup_alter_eq, Hp.
  - apply IH; [done|by rewrite load_one_datas| |set_solver]. rewrite load_one_other; [done|].
    intros name Hname ->. destruct (ok_names _ Hok _ _ Hd) as (w & Hw & Hwn & _).
    destruct (ok_names _ Hok _ _ Hname) as (w' & Hw' & Hwn' & _). congruence.
Qed.

(** Loading a file.  [LoadFromYaml(root, name)] visits exactly the nodes
    whose dotted name starts at [name] and is valid all the way; the registry
    keeps its names; a registered variable then holds the value of the last
    node of its name whose text converts to its type, and the value it had
    when there is none (a text that does not convert changes nothing); a
    variable that is not registered is not changed.  With an empty or invalid
    name nothing is loaded at all. *)
Theorem load_assigns cfg root name :
  rtc cstep empty_config cfg →
  (∀ key n, (key, n) ∈ listAllMember name root ↔ at_path name root key n) ∧
  datas (LoadFromYaml root name cfg) = datas cfg ∧
  (∀ key p var, datas cfg !! key = Some p → vars cfg !! p = Some var →
     vars (LoadFromYaml root name cfg) !! p =
       Some (setValue (assigned var key (listAllMember name root)) var)) ∧
  (∀ p, (∀ key, datas cfg !! key ≠ Some p) → vars (LoadFromYaml root name cfg) !! p = vars cfg !! p) ∧
  (name = [] ∨ isValidName name = false → LoadFromYaml root name cfg = cfg).
Proof.
  intros Hs. destruct (csteps_ok _ _ empty_config_ok Hs) as [Hok _]. unfold LoadFromYaml.
  split; [intros; apply listAllMember_paths|]. split; [apply load_all_datas|]. split; [|split].
  - intros key p var Hd Hp. apply load_all_assigns; [done..|].
    intros [k n] H%listAllMember_paths. by apply at_path_name in H.
  - intros p Hp. generalize (listAllMember name root). intros l. clear Hs. revert cfg Hok Hp.
    induction l as [|i l IH]; intros cfg Hok Hp; simpl; [done|].
    destruct (load_one_ok cfg i Hok) as [Hok1 _].
    rewrite IH; [|done|by rewrite load_one_datas].
    apply load_one_other. intros k Hk. by destruct (Hp k).
  - intros Hname. rewrite listAllMember_eq.
    by destruct Hname as [->| ->]; rewrite ?orb_true_r.
Qed.

(** ** Variables that are cut off *)

(** No name leads to the variable at [p] any more. *)
Definition orphan (p : Z) (cfg : Config) : Prop := ∀ key, datas cfg !! key ≠ Some p.

Lemma orphan_step p cfg cfg' :
  is_Some (vars cfg !! p) → config_ok cfg → orphan p cfg → cstep cfg cfg' → orphan p cfg'.
Proof.
  intros Hp Hok Ho [T name def desc q cfg'' Hd Hl|q var v Hq Ht|root name] key; simpl.
  - revert Hl. unfold Lookup. destruct (Lookup_find T name cfg); [by intros [= <- <-]|].
    destruct (isValidName name); [|done]. intros [= <- <-]. simpl.
    destruct (decide (name = key)) as [->|Hn].
    + rewrite lookup_insert_eq. intros [= <-]. apply (ok_addrs _ Hok) in Hp. lia.
    + rewrite lookup_insert_ne by done. apply Ho.
  - apply Ho.
  - unfold LoadFromYaml. rewrite load_all_datas. apply Ho.
Qed.

Lemma load_orphan p root name cfg :
  orphan p cfg → vars (LoadFromYaml root name cfg) !! p = vars cfg !! p.
Proof.
  intros Ho. unfold LoadFromYaml. generalize (listAllMember name root). intros l. revert cfg Ho.
  induction l as [|i l IH]; intros cfg Ho; simpl; [done|].
  rewrite IH; [|intros k; rewrite load_one_datas; apply Ho].
  apply load_one_other. intros k Hk. by destruct (Ho k).
Qed.

(** An orphan stays one, and no file is loaded into it. *)
Definition cut_off (p : Z) (cfg : Config) : Prop :=
  ∀ cfg', rtc cstep cfg cfg' →
    orphan p cfg' ∧ ∀ root name, vars (LoadFromYaml root name cfg') !! p = vars cfg' !! p.

Lemma orphan_cut_off p cfg :
  is_Some (vars cfg !! p) → config_ok cfg → orphan p cfg → cut_off p cfg.
Proof.
  intros Hp Hok Ho cfg' Hs.
  assert (orphan p cfg') as Ho'.
  { revert Hp Hok Ho. induction Hs as [|a b c Hab _ IH]; intros [var Hp] Hok Ho; [done|].
    destruct (cstep_ok a b Hok Hab) as [Hb Hk]. destruct (Hk p var Hp) as [v Hv].
    apply IH; [by eexists|done|]. by apply (orphan_step p a). }
  split; [done|]. intros. by apply load_orphan.
Qed.

Lemma insert_cuts_off T name def desc cfg p var :
  config_ok cfg → has_type T def → isValidName name = true →
  datas cfg !! name = Some p → vars cfg !! p = Some var →
  let r := Lookup_insert T name def desc cfg in
  r.1 ≠ p ∧ datas r.2 !! name = Some r.1 ∧ cut_off p r.2.
Proof.
  intros Hok Hd Hv Hn Hp r. destruct (insert_ok T name def desc cfg Hok Hd Hv) as (Hok' & Hk & _).
  assert (p < next_addr cfg) as Hlt by (apply (ok_addrs _ Hok); by eexists).
  split; [simpl; lia|]. split; [apply lookup_insert_eq|].
  destruct (Hk p var Hp) as [v Hv']. apply orphan_cut_off; [by eexists|done|].
  intros key. simpl. destruct (decide (name = key)) as [->|Hne].
  - rewrite lookup_insert_eq. intros [= ?]. lia.
  - rewrite lookup_insert_ne by done. intros Hkey.
    destruct (ok_names _ Hok _ _ Hn) as (w & Hw & Hwn & _).
    destruct (ok_names _ Hok _ _ Hkey) as (w' & Hw' & Hwn' & _). congruence.
Qed.

(** A second [Lookup] of a name.  With the type of the registered variable
    it returns that variable and ignores the new default.  With another type
    it registers a new variable under the name without a word, and two threads
    that both find no variable register one each: in both cases the program
    keeps using a variable that is cut off, which no file is ever loaded into,
    whatever happens next. *)
Theorem lookup_replaces cfg name T def desc :
  rtc cstep empty_config cfg → has_type T def →
  (∀ p var, datas cfg !! name = Some p → vars cfg !! p = Some var →
     (m_type var = T → Lookup T name def desc cfg = Ret (p, cfg)) ∧
     (m_type var ≠ T → ∃ p' cfg', Lookup T name def desc cfg = Ret (p', cfg') ∧
        p' ≠ p ∧ datas cfg' !! name = Some p' ∧ cut_off p cfg')) ∧
  (Lookup_find T name cfg = None → isValidName name = true →
     let first := Lookup_insert T name def desc cfg in
     let second := Lookup_insert T name def desc first.2 in
     first.1 ≠ second.1 ∧ datas second.2 !! name = Some second.1 ∧ cut_off first.1 second.2) ∧
  (Lookup_find T name cfg = None → isValidName name = false →
     Lookup T name def desc cfg = Throw "std::invalid_argument").
Proof.
  intros Hs Hd. destruct (csteps_ok _ _ empty_config_ok Hs) as [Hok _]. split; [|split].
  - intros p var Hn Hp. unfold Lookup. split; intros HT.
    + assert (Lookup_find T name cfg = Some p) as -> by (apply Lookup_find_spec; eauto). done.
    + assert (Lookup_find T name cfg = None) as ->.
      { destruct (Lookup_find T name cfg) as [q|] eqn:E; [|done].
        apply Lookup_find_spec in E as (? & w & ? & ?). simplify_eq. }
      destruct (ok_names _ Hok _ _ Hn) as (_ & _ & _ & Hv). rewrite Hv. cbn [negb].
      eexists _, _. split; [apply f_equal, surjective_pairing|].
      by apply (insert_cuts_off T name def desc cfg p var).
  - intros _ Hv first second. destruct (insert_ok T name def desc cfg Hok Hd Hv) as (Hok1 & _ & Hvar).
    destruct (insert_cuts_off T name def desc first.2 first.1 _ Hok1 Hd Hv (lookup_insert_eq _ _ _) Hvar)
      as (Hne & Hn & Hc). done.
  - intros E Hv. unfold Lookup. by rewrite E, Hv.
Qed.

(** ** Values and their text *)

Section texts.
Context (plain : txt → Prop).

(** The nodes that the library writes and reads back. *)
Inductive clean : node → Prop :=
| clean_null : clean NNull
| clean_scalar s : plain s → clean (NScalar s)
| clean_sequence ns : Forall clean ns → clean (NSequence ns)
| clean_map kvs : Forall (λ kv, clean kv.1 ∧ clean kv.2) kvs → clean (NMap kvs).

(** A scalar that its own text and the text of the node of that text give back. *)
Definition scalar_back (s : sty) (x : scalar) : Prop :=
  ∃ t n, print s x = Some t ∧ cast s t = Some x ∧ Load t = Some n ∧ clean n ∧ cast s (emit n) = Some x.

(** The types without unordered containers, and the values of which every
    scalar is given back and every key is plain. *)
Fixpoint in_order (t : ty) : bool :=
  match t with
  | TScalar _ => true
  | TSeq KUnorderedSet _ | TMap KUnorderedMap _ => false
  | TSeq _ t | TMap _ t => in_order t
  end.
Fixpoint text_back (t : ty) (v : value) : Prop :=
  match t, v with
  | TScalar s, VScalar x => scalar_back s x
  | TSeq _ t, VSeq vs => Forall (text_back t) vs
  | TMap _ t, VMap kvs => Forall (λ kv, plain kv.1 ∧ text_back t kv.2) kvs
  | _, _ => False
  end.

Hypothesis Load_emit : ∀ n, clean n → Load (emit n) = Some n.

(** What the induction on types carries for a value. *)
Definition back (t : ty) (v : value) : Prop :=
  ∃ s n, ToStr t v = Some s ∧ FromStr t s = Some v ∧ Load s = Some n ∧ clean n ∧ FromStr t (emit n) = Some v.

Lemma push_each_back t vs acc :
  Forall (back t) vs → ∃ ns,
    push_each (ToStr t) vs (NSequence acc) = Some (NSequence (acc ++ ns)) ∧ Forall clean ns ∧
    Forall2 (λ v n, FromStr t (emit n) = Some v) vs ns.
Proof.
  intros H. revert acc. induction H as [|v vs (s & n & Hs & _ & Hl & Hc & Hf) _ IH]; intros acc.
  - exists []. by rewrite app_nil_r.
  - destruct (IH (acc ++ [n])) as (ns & Hp & Hcs & Hfs). exists (n :: ns). simpl.
    rewrite Hs. simpl. rewrite Hl. simpl. rewrite Hp, <- app_assoc. split; [done|]. by split; constructor.
Qed.

Lemma push_each_null t v vs : push_each (ToStr t) (v :: vs) NNull = push_each (ToStr t) (v :: vs) (NSequence []).
Proof. done. Qed.

Lemma convert_each_app t vs ns acc add :
  Forall2 (λ v n, FromStr t (emit n) = Some v) vs ns →
  (∀ l v r, acc ++ vs = l ++ v :: r → add v l = l ++ [v]) →
  convert_each (FromStr t) add ns acc = Some (acc ++ vs).
Proof.
  intros H. revert acc. induction H as [|v n vs ns Hf _ IH]; intros acc Hadd; simpl; [by rewrite app_nil_r|].
  rewrite Hf. simpl. rewrite (Hadd acc v vs eq_refl). rewrite IH, <- app_assoc; [done|].
  intros l w r Heq. apply (Hadd l w r). by rewrite <- Heq, <- app_assoc.
Qed.

Lemma set_key_new k x kvs :
  Forall (λ kv : node * node, Scalar kv.1 ≠ k) kvs → set_key k x kvs = kvs ++ [(NScalar k, x)].
Proof.
  intros H. unfold set_key. replace (existsb _ _) with false; [done|]. symmetry.
  induction H as [|kv kvs Hk _ IH]; [done|]. simpl. by rewrite bool_decide_eq_false_2.
Qed.

Lemma set_each_back t kvs acc :
  Forall (λ kv, plain kv.1 ∧ back t kv.2) kvs →
  StronglySorted (λ a b, key_less a b = true) kvs →
  Forall (λ kv, ∀ a, a ∈ kvs → Scalar kv.1 ≠ a.1) acc → ∃ ns,
    set_each (ToStr t) kvs (NMap acc) = Some (NMap (acc ++ ns)) ∧
    Forall (λ kv, clean kv.1 ∧ clean kv.2) ns ∧
    Forall2 (λ kv n, n.1 = NScalar kv.1 ∧ FromStr t (emit n.2) = Some kv.2) kvs ns.
Proof.
  intros H. revert acc.
  induction H as [|[k v] kvs [Hk (s & n & Hs & _ & Hl & Hc & Hf)] _ IH]; intros acc Hsort Hacc.
  - exists []. by rewrite app_nil_r.
  - apply StronglySorted_inv in Hsort as [Hsort Hlt].
    destruct (IH (acc ++ [(NScalar k, n)]) Hsort) as (ns & Hp & Hcs & Hfs).
    { apply Forall_app. split.
      - eapply Forall_impl; [exact Hacc|]. intros kv Hkv a Ha. apply Hkv. by right.
      - constructor; [|done]. intros a Ha Heq. simpl in Heq.
        eapply Forall_forall in Hlt; [|exact Ha]. unfold key_less in Hlt. simpl in Hlt.
        rewrite Heq in Hlt. by rewrite str_less_irrefl in Hlt. }
    exists ((NScalar k, n) :: ns). simpl in *. rewrite Hs. simpl. rewrite Hl. simpl.
    rewrite set_key_new.
    + rewrite Hp, <- app_assoc. split; [done|]. split; constructor; try done.
      split; [by constructor|done].
    + eapply Forall_impl; [exact Hacc|]. intros kv Hkv. apply (Hkv (k, v)). by left.
Qed.

Lemma convert_members_app t kvs ns acc :
  Forall2 (λ kv n, n.1 = NScalar kv.1 ∧ FromStr t (emit n.2) = Some kv.2) kvs ns →
  (∀ l v r, acc ++ kvs = l ++ v :: r → insert_sorted key_less v l = l ++ [v]) →
  convert_members (FromStr t) (add_pair_of KMap) ns acc = Some (acc ++ kvs).
Proof.
  intros H. revert acc. induction H as [|[k v] [nk n] kvs ns [Hk Hf] _ IH]; intros acc Hadd; simpl in *.
  - by rewrite app_nil_r.
  - subst nk. rewrite Hf. simpl. rewrite (Hadd acc (k, v) kvs eq_refl). rewrite IH, <- app_assoc; [done|].
    intros l w r Heq. apply (Hadd l w r). by rewrite <- Heq, <- app_assoc.
Qed.

Lemma sorted_adds {A} (lt : A → A → bool) l x r :
  (∀ a, lt a a = false) → (∀ a b c, lt a b = true → lt b c = true → lt a c = true) →
  StronglySorted (λ a b, lt a b = true) (l ++ x :: r) → insert_sorted lt x l = l ++ [x].
Proof.
  intros Hirr Htr H. apply insert_sorted_snoc; [done..|]. by apply sorted_snoc_inv in H.
Qed.

Lemma seq_back k t vs :
  k ≠ KUnorderedSet → Forall (back t) vs → distinct k vs → back (TSeq k t) (VSeq vs).
Proof.
  intros Hk Hvs Hd.
  assert (∀ l v r, [] ++ vs = l ++ v :: r → add_of k v l = l ++ [v]) as Hadd.
  { intros l v r Heq. simpl in Heq. subst vs. destruct k; try done.
    by apply (sorted_adds _ l v r less_irrefl less_trans). }
  assert (∃ n, emit <$> push_each (ToStr t) vs NNull = Some (emit n) ∧ clean n ∧
    convert_each (FromStr t) (add_of k) (elements n) [] = Some vs) as (n & He & Hc & Hf).
  { destruct vs as [|v vs]; [exists NNull; by repeat constructor|].
    rewrite push_each_null. destruct (push_each_back t (v :: vs) [] Hvs) as (ns & Hp & Hcs & Hfs).
    exists (NSequence ns). rewrite Hp. split; [done|]. split; [by constructor|].
    by apply (convert_each_app t _ _ [] _ Hfs). }
  exists (emit n), n. split; [by destruct k|]. rewrite FromStr_seq, Load_emit by done. simpl.
  rewrite Hf. done.
Qed.

Lemma map_back t kvs :
  Forall (λ kv, plain kv.1 ∧ back t kv.2) kvs → distinct_keys KMap kvs → back (TMap KMap t) (VMap kvs).
Proof.
  intros Hvs Hd.
  assert (∀ l v r, [] ++ kvs = l ++ v :: r → insert_sorted key_less v l = l ++ [v]) as Hadd.
  { intros l v r Heq. simpl in Heq. subst kvs.
    apply (sorted_adds _ l v r); [intros a; apply str_less_irrefl|intros a b c; apply str_less_trans|done]. }
  assert (∃ n kns, emit <$> set_each (ToStr t) kvs NNull = Some (emit n) ∧ clean n ∧ members n = Some kns ∧
    convert_members (FromStr t) (add_pair_of KMap) kns [] = Some kvs) as (n & kns & He & Hc & Hm & Hf).
  { destruct kvs as [|kv kvs]; [exists NNull, []; by repeat constructor|].
    replace (set_each (ToStr t) (kv :: kvs) NNull) with (set_each (ToStr t) (kv :: kvs) (NMap []))
      by (by destruct kv).
    destruct (set_each_back t (kv :: kvs) [] Hvs Hd (Forall_nil_2 _)) as (ns & Hp & Hcs & Hfs).
    exists (NMap ns), ns. rewrite Hp. split; [done|]. split; [by constructor|]. split; [done|].
    by apply (convert_members_app t _ _ [] Hfs). }
  exists (emit n), n. split; [done|]. rewrite FromStr_map, Load_emit by done.
  cbn [mbind option_bind]. rewrite Hm. cbn [mbind option_bind]. rewrite Hf. done.
Qed.

Lemma value_back t v : in_order t = true → has_type t v → text_back t v → back t v.
Proof.
  revert v. induction t as [s|k t IH|k t IH]; intros v Ho Ht Hb; destruct v as [x|vs|kvs]; try done.
  - destruct Hb as (txt & n & Hp & Hc & Hl & Hn & He). exists txt, n. simpl. rewrite Hp, Hc, He. done.
  - destruct Ht as [Ht Hd]. simpl in Hb. apply seq_back; [by destruct k| |done].
    apply Forall_forall. intros v Hv. eapply Forall_forall in Ht, Hb; [|done..].
    apply IH; [by destruct k|done|done].
  - destruct k; [|done]. destruct Ht as [Ht Hd]. simpl in Hb. apply map_back; [|done].
    apply Forall_forall. intros kv Hv. eapply Forall_forall in Ht, Hb; [|done..].
    split; [by destruct Hb|]. apply IH; [done|done|by destruct Hb].
Qed.
End texts.

(** C37: the text of a variable.  For a type without unordered containers,
    nested to any depth, and a value of that type whose scalars convert back
    from their own text and from the text of their node: [toString] gives a
    text, and [fromString] of that text succeeds and leaves the variable as it
    is, provided that the library reads back what it writes. *)
Theorem value_text_roundtrip (plain : txt → Prop) var :
  (∀ n, clean plain n → Load (emit n) = Some n) →
  in_order (m_type var) = true → has_type (m_type var) (m_val var) →
  text_back plain (m_type var) (m_val var) →
  ToStr (m_type var) (m_val var) = Some (toString var) ∧
  fromString (toString var) var = (true, var).
Proof.
  intros Hl Ho Ht Hb. destruct (value_back plain Hl _ _ Ho Ht Hb) as (s & n & Hs & Hf & _).
  unfold toString, fromString, getValue. rewrite Hs. split; [done|]. rewrite Hf. by destruct var.
Qed.
End config.

(** ** Witnesses

    A YAML library for words, null and flow collections ([[a,b,]] and
    [{k: v,}]), numbers and words as scalars. *)

Module Flow.
Definition word (c : ascii) : bool :=
  let z := code c in between 48 z 57 || between 65 z 90 || between 97 z 122.

Fixpoint emit (n : node) : txt :=
  match n with
  | NNull => ["~"%char]
  | NScalar s => s
  | NSequence ns =>
      "["%char :: (fix go ns := match ns with
                   | [] => ["]"%char]
                   | n :: ns => emit n ++ ","%char :: go ns end) ns
  | NMap kvs =>
      "{"%char :: (fix go kvs := match kvs with
                   | [] => ["}"%char]
                   | (k, x) :: kvs => emit k ++ ":"%char :: " "%char :: emit x ++ ","%char :: go kvs end) kvs
  end.

Fixpoint span (s : txt) : txt * txt :=
  match s with
  | c :: r => if word c then (let '(w, r') := span r in (c :: w, r')) else ([], s)
  | [] => ([], [])
  end.

Fixpoint parse (fuel : nat) (s : txt) : option (node * txt) :=
  match fuel, s with
  | O, _ | _, [] => None
  | Datatypes.S fuel, c :: r =>
      if Ascii.eqb c "~" then Some (NNull, r)
      else if Ascii.eqb c "[" then '(ns, r) ← parse_items fuel r; Some (NSequence ns, r)
      else if Ascii.eqb c "{" then '(kvs, r) ← parse_pairs fuel r; Some (NMap kvs, r)
      else let '(w, r) := span s in if is_empty w then None else Some (NScalar w, r)
  end
with parse_items (fuel : nat) (s : txt) : option (list node * txt) :=
  match fuel, s with
  | O, _ | _, [] => None
  | Datatypes.S fuel, c :: r =>
      if Ascii.eqb c "]" then Some ([], r)
      else '(n, r) ← parse fuel s;
           '(ns, r) ← parse_items fuel (drop 1 r);
           Some (n :: ns, r)
  end
with parse_pairs (fuel : nat) (s : txt) : option (list (node * node) * txt) :=
  match fuel, s with
  | O, _ | _, [] => None
  | Datatypes.S fuel, c :: r =>
      if Ascii.eqb c "}" then Some ([], r)
      else '(k, r) ← parse fuel s;
           '(x, r) ← parse fuel (drop 2 r);
           '(kvs, r) ← parse_pairs fuel (drop 1 r);
           Some ((k, x) :: kvs, r)
  end.

Definition Load (s : txt) : option node :=
  match parse (length s) s with
  | Some (n, []) => Some n
  | _ => None
  end.

Definition plain (s : txt) : Prop := s ≠ [] ∧ forallb word s = true.
Definition stops (rest : txt) : Prop := match rest with c :: _ => word c = false | [] => True end.

Lemma span_word s rest : forallb word s = true → stops rest → span (s ++ rest) = (s, rest).
Proof.
  intros Hs Hr. induction s as [|c s IH]; simpl.
  - destruct rest as [|c r]; [done|]. simpl in *. by rewrite Hr.
  - simpl in Hs. apply andb_true_iff in Hs as [-> Hs]. by rewrite (IH Hs).
Qed.

(** The first character of a text that is written. *)
Definition opens (c : ascii) : bool :=
  word c || Ascii.eqb c "~" || Ascii.eqb c "[" || Ascii.eqb c "{".
Lemma emit_head n : clean plain n → ∃ c r, emit n = c :: r ∧ opens c = true.
Proof.
  intros [|s [Hne Hs]|ns|kvs]; simpl; [by eexists _, _|..|by eexists _, _|by eexists _, _].
  destruct s as [|c s]; [done|]. exists c, s. split; [done|]. simpl in Hs.
  apply andb_true_iff in Hs as [Hc _]. unfold opens. by rewrite Hc.
Qed.

Lemma opens_facts : forallb (λ c,
  negb (opens c) || (negb (Ascii.eqb c "]") && negb (Ascii.eqb c "}"))) all_ascii = true.
Proof. vm_compute. reflexivity. Qed.
Lemma word_facts : forallb (λ c,
  negb (word c) || (negb (Ascii.eqb c "~") && negb (Ascii.eqb c "[") && negb (Ascii.eqb c "{"))) all_ascii = true.
Proof. vm_compute. reflexivity. Qed.

Definition reads_back (n : node) : Prop :=
  ∀ fuel rest, (length (emit n) <= fuel)%nat → stops rest → parse fuel (emit n ++ rest) = Some (n, rest).

Definition items_text : list node → txt :=
  fix go ns := match ns with
               | [] => ["]"%char]
               | n :: ns => emit n ++ ","%char :: go ns end.
Definition pairs_text : list (node * node) → txt :=
  fix go kvs := match kvs with
                | [] => ["}"%char]
                | (k, x) :: kvs => emit k ++ ":"%char :: " "%char :: emit x ++ ","%char :: go kvs end.

Lemma parse_items_text ns fuel rest :
  Forall (λ n, reads_back n ∧ clean plain n) ns → (length (items_text ns) <= fuel)%nat →
  parse_items fuel (items_text ns ++ rest) = Some (ns, rest).
Proof.
  intros H. revert fuel. induction H as [|n ns [Hn Hc] _ IH]; intros [|fuel] Hf; simpl in Hf; try lia; [done| |].
  { rewrite length_app in Hf. simpl in Hf. lia. }
  destruct (emit_head n Hc) as (c & r & E & Ho).
  pose proof (forall_ascii _ opens_facts c) as Hc'. simpl in Hc'. rewrite Ho in Hc'. simpl in Hc'.
  apply andb_true_iff in Hc' as [H1 _]. apply negb_true_iff in H1.
  rewrite length_app in Hf. simpl in Hf.
  cbn [items_text]. rewrite <- app_assoc. rewrite E at 1. cbn [app parse_items]. rewrite H1.
  change (c :: r ++ ?x) with ((c :: r) ++ x). rewrite <- E.
  rewrite Hn; [|lia|done]. simpl. rewrite drop_0, IH by lia. done.
Qed.

Lemma parse_pairs_text kvs fuel rest :
  Forall (λ kv, (reads_back kv.1 ∧ reads_back kv.2) ∧ clean plain kv.1) kvs →
  (length (pairs_text kvs) <= fuel)%nat →
  parse_pairs fuel (pairs_text kvs ++ rest) = Some (kvs, rest).
Proof.
  intros H. revert fuel.
  induction H as [|[k x] kvs [[Hk Hx] Hc] _ IH]; intros [|fuel] Hf; simpl in Hf; try lia; [done| |].
  { rewrite length_app in Hf. simpl in Hf. lia. }
  simpl in Hc. destruct (emit_head k Hc) as (c & r & E & Ho).
  pose proof (forall_ascii _ opens_facts c) as Hc'. simpl in Hc'. rewrite Ho in Hc'. simpl in Hc'.
  apply andb_true_iff in Hc' as [_ H1]. apply negb_true_iff in H1.
  rewrite length_app in Hf. simpl in Hf. rewrite length_app in Hf. simpl in Hf.
  cbn [pairs_text]. rewrite <- app_assoc. rewrite E at 1. cbn [app parse_pairs]. rewrite H1.
  change (c :: r ++ ?x) with ((c :: r) ++ x). rewrite <- E.
  rewrite Hk; [|simpl; lia|done]. cbn [mbind option_bind drop app].
  rewrite drop_0, <- app_assoc.
  rewrite (Hx : reads_back x); [|simpl; lia|done]. cbn [mbind option_bind drop app]. rewrite drop_0, IH by lia. done.
Qed.

Lemma clean_reads_back n : clean plain n → reads_back n.
Proof.
  induction n as [|s|ns IH|kvs IH] using node_ind'; intros Hc fuel rest Hf Hr; inversion Hc as [|? [Hne Hs]|? Hns|? Hkvs]; subst.
  - destruct fuel; [simpl in Hf; lia|done].
  - simpl in *. pose proof (span_word s rest Hs Hr) as Hsp.
    destruct s as [|c s]; [done|]. destruct fuel as [|fuel]; [simpl in Hf; lia|].
    pose proof (forall_ascii _ word_facts c) as Hc'. simpl in Hc', Hs.
    apply andb_true_iff in Hs as [Hw _]. rewrite Hw in Hc'. simpl in Hc'.
    rewrite !andb_true_iff, !negb_true_iff in Hc'. destruct Hc' as [[H1 H2] H3].
    cbn [app parse]. rewrite H1, H2, H3. change (c :: s ++ rest) with ((c :: s) ++ rest). by rewrite Hsp.
  - destruct fuel as [|fuel]; [simpl in Hf; lia|]. cbn [emit app parse]. simpl.
    change (?f ns ++ rest) with (items_text ns ++ rest). rewrite parse_items_text; [done| |exact (le_S_n _ _ Hf)].
    apply Forall_forall. intros n Hn. eapply Forall_forall in IH, Hns; [|done..]. auto.
  - destruct fuel as [|fuel]; [simpl in Hf; lia|]. cbn [emit app parse]. simpl.
    change (?f kvs ++ rest) with (pairs_text kvs ++ rest). rewrite parse_pairs_text; [done| |exact (le_S_n _ _ Hf)].
    apply Forall_forall. intros n Hn. eapply Forall_forall in IH, Hkvs; [|done..]. naive_solver.
Qed.

Lemma Load_emit n : clean plain n → Load (emit n) = Some n.
Proof.
  intros Hc. unfold Load. rewrite <- (app_nil_r (emit n)) at 2.
  by rewrite (clean_reads_back n Hc _ [] (le_n _) I).
Qed.

#[global] Instance flow_yaml : Yaml := {| Config.Load := Load; Config.emit := emit; map_at := λ _ _, NNull |}.
#[global] Instance flow_scalars : Scalars := {|
  sty := bool; scalar := Z + txt;
  is_a := λ x number, match x with inl _ => number = true | inr _ => number = false end;
  cast := λ number s, if number then (if forallb isdigit s && negb (is_empty s) then Some (inl (foldl (λ z c, 10 * z + (code c - 48)) 0 s)) else None)
                      else Some (inr s);
  print := λ number x, match x with inl z => Some (dec z) | inr s => Some s end |}.
#[global] Instance flow_elements : Elements := {|
  less := λ a b, match a, b with
                 | VScalar (inl x), VScalar (inl y) => x <? y
                 | VScalar (inr s), VScalar (inr t) => str_less s t
                 | _, _ => false end;
  equal := λ a b, match a, b with
                  | VScalar (inl x), VScalar (inl y) => x =? y
                  | VScalar (inr s), VScalar (inr t) => bool_decide (s = t)
                  | _, _ => false end;
  buckets := λ _ l, l |}.
#[global] Instance flow_laws : ConfigLaws.
Proof.
  split.
  - intros [] v x; simpl; [case_match; [|done]|]; by intros [= <-].
  - intros [[x|s]| |]; simpl; [lia|apply str_less_irrefl|done|done].
  - intros [[x|s]| |] [[y|t]| |] [[z|u]| |]; simpl; try done; [lia|apply str_less_trans].
Qed.

Definition number : ty := TScalar (H := flow_scalars) true.
Definition word_ty : ty := TScalar (H := flow_scalars) false.
Definition word_val (s : string) : value := VScalar (H := flow_scalars) (inr (chars s)).
Definition words (l : list string) : value := VSeq (word_val <$> l).

(** A registry with a number and a set of words, and a file. *)
Definition only_port : Config :=
  snd (Lookup_insert number (chars "port") (VScalar (H := flow_scalars) (inl 80)) [] empty_config).
Definition port_and_hosts : Config :=
  snd (Lookup_insert (TSeq KSet word_ty) (chars "net.hosts") (words []) [] only_port).
Definition net_file : node :=
  NMap [(NScalar (chars "hosts"), NSequence [NScalar (chars "b"); NScalar (chars "a"); NScalar (chars "b")])].

Lemma port_step : Lookup number (chars "port") (VScalar (H := flow_scalars) (inl 80)) [] empty_config = Ret (1, only_port).
Proof. reflexivity. Qed.
Lemma hosts_free : Lookup_find (TSeq KSet word_ty) (chars "net.hosts") only_port = None.
Proof. reflexivity. Qed.
Lemma hosts_step :
  Lookup (TSeq KSet word_ty) (chars "net.hosts") (words []) [] only_port = Ret (2, port_and_hosts).
Proof. unfold Lookup. rewrite hosts_free. reflexivity. Qed.
Lemma port_at : datas port_and_hosts !! chars "port" = Some 1.
Proof. vm_compute. reflexivity. Qed.
Lemma hosts_at : datas port_and_hosts !! chars "net.hosts" = Some 2.
Proof. vm_compute. reflexivity. Qed.
Definition port_var : ConfigVar :=
  mkConfigVar (chars "port") [] number (VScalar (H := flow_scalars) (inl 80)).
Definition hosts_var (v : value) : ConfigVar := mkConfigVar (chars "net.hosts") [] (TSeq KSet word_ty) v.
Lemma port_var_at : vars port_and_hosts !! 1 = Some port_var.
Proof. reflexivity. Qed.
Lemma hosts_var_at : vars port_and_hosts !! 2 = Some (hosts_var (words [])).
Proof. reflexivity. Qed.
Lemma hosts_assigned :
  assigned (hosts_var (words [])) (chars "net.hosts") (listAllMember (chars "net") net_file) = words ["a"; "b"]%string.
Proof. vm_compute. reflexivity. Qed.

Lemma port_and_hosts_reached : rtc cstep empty_config port_and_hosts.
Proof.
  eapply rtc_l; [|apply rtc_once].
  - eapply step_lookup; [|exact port_step]. done.
  - eapply step_lookup; [|exact hosts_step]. repeat constructor.
Qed.
End Flow.

Example registry_typed_witness :
  has_type (m_type (Flow.hosts_var (Flow.words []))) (getValue (Flow.hosts_var (Flow.words []))).
Proof.
  destruct (registry_typed Flow.port_and_hosts Flow.port_and_hosts_reached) as (_ & Hv & _).
  exact (Hv 2 _ Flow.hosts_var_at).
Defined.

Example load_assigns_witness :
  vars (LoadFromYaml Flow.net_file (chars "net") Flow.port_and_hosts) !! 2 =
    Some (setValue (Flow.words ["a"; "b"]%string) (Flow.hosts_var (Flow.words []))).
Proof.
  destruct (load_assigns Flow.port_and_hosts Flow.net_file (chars "net") Flow.port_and_hosts_reached)
    as (_ & _ & Hv & _).
  rewrite <- Flow.hosts_assigned. exact (Hv _ 2 _ Flow.hosts_at Flow.hosts_var_at).
Defined.

Example lookup_replaces_witness :
  ∃ p' cfg', Lookup Flow.word_ty (chars "port") (Flow.word_val "http") [] Flow.port_and_hosts = Ret (p', cfg') ∧
    p' ≠ 1 ∧ datas cfg' !! chars "port" = Some p' ∧ cut_off 1 cfg'.
Proof.
  destruct (lookup_replaces Flow.port_and_hosts (chars "port") Flow.word_ty (Flow.word_val "http") []
    Flow.port_and_hosts_reached) as (Hr & _); [done|].
  destruct (Hr 1 _ Flow.port_at Flow.port_var_at) as [_ H]. apply H. discriminate.
Defined.

Example value_text_roundtrip_witness :
  let var := mkConfigVar (chars "v") [] (TMap KMap (TSeq KVector Flow.word_ty))
    (VMap [(chars "a", Flow.words ["x"; "y"]); (chars "b", Flow.words [])])%string in
  ToStr (m_type var) (m_val var) = Some (toString var) ∧
  fromString (toString var) var = (true, var).
Proof.
  intros var. apply (value_text_roundtrip (Y := Flow.flow_yaml) (El := Flow.flow_elements) Flow.plain var Flow.Load_emit); [reflexivity| |].
  - simpl. repeat split; repeat constructor.
  - assert (∀ s, Flow.plain (chars s) → scalar_back (Y := Flow.flow_yaml) (Sc := Flow.flow_scalars) Flow.plain false (inr (chars s))) as Hs.
    { intros s Hs. exists (chars s), (NScalar (chars s)). split; [reflexivity|]. split; [reflexivity|].
      split; [by apply (Flow.Load_emit (NScalar (chars s))); constructor|].
      split; [by constructor|reflexivity]. }
    repeat (constructor || apply Hs || discriminate || reflexivity).
Defined.
