(* ===== verification/Log.v ===== *)
(** * Logging: src/src/log.h and log.cpp

    Levels, the pattern of a formatter and its items, events, appenders and
    loggers, and the manager of the loggers with the definitions that it reads
    from the configuration of Config.v.  Loggers and appenders are objects in
    a heap; what reaches the console and the files is a list of outputs, in
    order.  [strftime] of the local time, the clock and whether a file can be
    opened are arguments.  Every function is one critical section of the
    locks that the source takes. *)

From Stdlib Require Import Ascii.
From S2P Require Import Prelude Util Http Config.

(** ** Levels *)

(** [src/src/log.h:49-56] LogLevel::Level: any value can be in a variable that was never set *)
Definition Level : Type := Z.
Definition UNKNOW : Level := 0.
Definition DEBUG : Level := 1.
Definition INFO : Level := 2.
Definition WARN : Level := 3.
Definition ERROR : Level := 4.
Definition FATAL : Level := 5.

(** [src/src/log.cpp:116-133] LogLevel::toString *)
Definition Level_toString (level : Level) : txt :=
  if level =? UNKNOW then chars "UNKNOW"
  else if level =? DEBUG then chars "DEBUG"
  else if level =? INFO then chars "INFO"
  else if level =? WARN then chars "WARN"
  else if level =? ERROR then chars "ERROR"
  else if level =? FATAL then chars "FATAL"
  else chars "UNKNOW".

(** [src/src/log.cpp:135-157] LogLevel::fromString *)
Definition Level_fromString (str : txt) : Level :=
  let same v := bool_decide (str = chars v) in
  if same "unknow" then UNKNOW
  else if same "debug" then DEBUG
  else if same "info" then INFO
  else if same "warn" then WARN
  else if same "error" then ERROR
  else if same "fatal" then FATAL
  else if same "UNKNOW" then UNKNOW
  else if same "DEBUG" then DEBUG
  else if same "INFO" then INFO
  else if same "WARN" then WARN
  else if same "ERROR" then ERROR
  else if same "FATAL" then FATAL
  else DEBUG.

(** ** Definitions in the configuration *)

(** [src/src/log.h:61-69] AppenderDefine *)
Record AppenderDefine := mkAppenderDefine { ad_type : Z; ad_level : Level; ad_file : txt }.
(** [src/src/log.h:71-80] LoggerDefine *)
Record LoggerDefine := mkLoggerDefine {
  ld_name : txt; ld_level : Level; ld_formatter : txt; ld_appenders : list AppenderDefine }.
#[export] Instance AppenderDefine_eq_dec : EqDecision AppenderDefine.
Proof. solve_decision. Defined.
#[export] Instance LoggerDefine_eq_dec : EqDecision LoggerDefine.
Proof. solve_decision. Defined.

Section define.
Context `{Yaml} (null_as : option txt) (junk : Level).

(** [node[key]] with a text key: [None] when there is none, and when the node
    is not a map (which throws, or gives a node of which [as] throws). *)
Fixpoint find_key (key : txt) (kvs : list (node * node)) : option node :=
  match kvs with
  | [] => None
  | (k, x) :: kvs => if IsScalar k && bool_decide (Scalar k = key) then Some x else find_key key kvs
  end.
Definition child (n : node) (key : string) : option node :=
  match n with NMap kvs => find_key (chars key) kvs | _ => None end.
(** [node[key].as<std::string>()]; what a null gives depends on the version of
    the library. *)
Definition as_string (o : option node) : option txt :=
  match o with
  | Some (NScalar s) => Some s
  | Some NNull => null_as
  | _ => None
  end.

(** [src/src/log.cpp:31-41] LexicalCast<std::string, LoggerDefine>, an appender *)
Definition cast_appender (it : node) : option AppenderDefine :=
  type ← as_string (child it "type");
  if bool_decide (type = chars "FileLogAppender") then
    level ← as_string (child it "level");
    file ← as_string (child it "file");
    Some (mkAppenderDefine 2 (Level_fromString level) file)
  else if bool_decide (type = chars "StdOutLogAppender") then
    level ← as_string (child it "level");
    Some (mkAppenderDefine 1 (Level_fromString level) [])
  else None.

(** [src/src/log.cpp:29-43] LexicalCast<std::string, LoggerDefine>, the loop on
    the appenders: those before the first that throws *)
Fixpoint cast_appenders (ns : list node) : list AppenderDefine :=
  match ns with
  | [] => []
  | it :: ns =>
      match cast_appender it with
      | Some a => a :: cast_appenders ns
      | None => []
      end
  end.

(** [src/src/log.cpp:19-49] LexicalCast<std::string, LoggerDefine>: an exception
    after the text is loaded leaves the rest of the definition as it was *)
Definition cast_define (v : txt) : option LoggerDefine :=
  node ← Load v;
  Some match as_string (child node "name") with
       | None => mkLoggerDefine [] junk [] []
       | Some name =>
           match as_string (child node "level") with
           | None => mkLoggerDefine name junk [] []
           | Some level =>
               match as_string (child node "formatter") with
               | None => mkLoggerDefine name (Level_fromString level) [] []
               | Some formatter =>
                   mkLoggerDefine name (Level_fromString level) formatter
                     (cast_appenders (match child node "appenders" with Some n => elements n | None => [] end))
               end
           end
       end.

Definition key (s : string) : node := NScalar (chars s).

(** [src/src/log.cpp:61-73] LexicalCast<LoggerDefine, std::string>, the loop on
    the appenders: those before the first that throws *)
Fixpoint print_appenders (l : list AppenderDefine) : list node :=
  match l with
  | [] => []
  | it :: l =>
      let level := (key "level", NScalar (Level_toString (ad_level it))) in
      if ad_type it =? 1 then
        NMap [level; (key "type", key "StdOutLogAppender")] :: print_appenders l
      else if ad_type it =? 2 then
        NMap [level; (key "type", key "FileLogAppender"); (key "file", NScalar (ad_file it))] :: print_appenders l
      else []
  end.

(** [src/src/log.cpp:56-77] LexicalCast<LoggerDefine, std::string>, the node:
    there is no key for the appenders when none is pushed *)
Definition define_node (v : LoggerDefine) : node :=
  let apps := print_appenders (ld_appenders v) in
  NMap ([(key "name", NScalar (ld_name v)); (key "level", NScalar (Level_toString (ld_level v)));
         (key "formatter", NScalar (ld_formatter v))] ++
        match apps with [] => [] | _ => [(key "appenders", NSequence apps)] end).

(** [src/src/log.cpp:51-81] LexicalCast<LoggerDefine, std::string> *)
Definition print_define (v : LoggerDefine) : txt := emit (define_node v).
End define.

(** ** Formatters *)

(** [src/src/log.cpp:159-294] The classes derived from LogFormatter::FormatItem *)
Inductive FormatItem :=
| MessageFormatItem | LevelFormatItem | ElapseFormatItem | NameFormatItem | ThreadIdFormatItem
| NewLineFormatItem | DateTimeFormatItem (m_format : txt) | FileNameFormatItem | LineFormatItem
| TabFormatItem | CoIdFormatItem | ThreadNameFormatItem | StringFormatItem (m_string : txt).
#[export] Instance FormatItem_eq_dec : EqDecision FormatItem.
Proof. solve_decision. Defined.

(** [src/src/log.cpp:224-229] DateTimeFormatItem::DateTimeFormatItem *)
Definition new_DateTime (fmt : txt) : FormatItem :=
  DateTimeFormatItem (if is_empty fmt then chars "%Y-%m-%d %H:%M:%S" else fmt).

(** [src/src/log.cpp:366-388] LogFormatter::init, s_format_items *)
Definition s_format_items (str : txt) : option (txt → FormatItem) :=
  match str with
  | [c] =>
      let same x := Ascii.eqb c x in
      if same "m"%char then Some (λ _, MessageFormatItem)
      else if same "p"%char then Some (λ _, LevelFormatItem)
      else if same "r"%char then Some (λ _, ElapseFormatItem)
      else if same "c"%char then Some (λ _, NameFormatItem)
      else if same "t"%char then Some (λ _, ThreadIdFormatItem)
      else if same "n"%char then Some (λ _, NewLineFormatItem)
      else if same "d"%char then Some new_DateTime
      else if same "f"%char then Some (λ _, FileNameFormatItem)
      else if same "l"%char then Some (λ _, LineFormatItem)
      else if same "T"%char then Some (λ _, TabFormatItem)
      else if same "F"%char then Some (λ _, CoIdFormatItem)
      else if same "N"%char then Some (λ _, ThreadNameFormatItem)
      else None
  | _ => None
  end.

Definition isalpha (c : ascii) : bool := between 65 (code c) 90 || between 97 (code c) 122.
Definition at_pos (p : txt) (i : Z) : ascii := default Ascii.zero (p !! Z.to_nat i).
Definition substr (p : txt) (pos n : Z) : txt := ztake n (zdrop pos p).

(** [src/src/log.cpp:322-351] LogFormatter::init, the loop after a percent sign:
    [n], [fmt_status], [fmt_begin], [str] and [fmt] *)
Fixpoint item_loop (fuel : nat) (m_pattern : txt) (i n fmt_status fmt_begin : Z) (str fmt : txt)
    : res (Z * Z * txt * txt) :=
  match fuel with
  | O => OutOfFuel
  | S fuel =>
      if n <? zlen m_pattern then
        let c := at_pos m_pattern n in
        if (fmt_status =? 0) &&
           (negb (isalpha c) && negb (Ascii.eqb c "{") && negb (Ascii.eqb c "}")) then
          Ret (n, fmt_status, substr m_pattern (i + 1) (n - i - 1), fmt)
        else if (fmt_status =? 0) && Ascii.eqb c "{" then
          item_loop fuel m_pattern i (n + 1) 1 n (substr m_pattern (i + 1) (n - i - 1)) fmt
        else if (fmt_status =? 1) && Ascii.eqb c "}" then
          Ret (n + 1, 0, str, substr m_pattern (fmt_begin + 1) (n - fmt_begin - 1))
        else
          let n := n + 1 in
          let str := if (n =? zlen m_pattern) && is_empty str then zdrop (i + 1) m_pattern else str in
          item_loop fuel m_pattern i n fmt_status fmt_begin str fmt
      else Ret (n, fmt_status, str, fmt)
  end.

(** [src/src/log.cpp:301-365] LogFormatter::init, the loop over the pattern: [vec], [nstr], [m_error] *)
Fixpoint init_loop (fuel : nat) (m_pattern : txt) (i : Z) (vec : list (txt * txt * Z)) (nstr : txt)
    (m_error : bool) : res (list (txt * txt * Z) * bool) :=
  let text := if is_empty nstr then [] else [(nstr, [], 0)] in
  match fuel with
  | O => OutOfFuel
  | S fuel =>
      if i <? zlen m_pattern then
        if negb (Ascii.eqb (at_pos m_pattern i) "%") then
          init_loop fuel m_pattern (i + 1) vec (nstr ++ [at_pos m_pattern i]) m_error
        else if (i + 1 <? zlen m_pattern) && Ascii.eqb (at_pos m_pattern (i + 1)) "%" then
          init_loop fuel m_pattern (i + 2) vec (nstr ++ ["%"%char]) m_error
        else
          '(n, fmt_status, str, fmt) ← item_loop (S (length m_pattern)) m_pattern i (i + 1) 0 0 [] [];
          if fmt_status =? 0 then
            init_loop fuel m_pattern n (vec ++ text ++ [(str, fmt, 1)]) [] m_error
          else if fmt_status =? 1 then
            init_loop fuel m_pattern (i + 1) (vec ++ [(chars "<<pattern_error>>", fmt, 0)]) nstr true
          else init_loop fuel m_pattern (i + 1) vec nstr m_error
      else Ret (vec ++ text, m_error)
  end.

(** [src/src/log.cpp:390-405] LogFormatter::init, the items of [vec], and whether one is unknown *)
Definition new_item (i : txt * txt * Z) : FormatItem * bool :=
  if i.2 =? 0 then (StringFormatItem i.1.1, false)
  else match s_format_items i.1.1 with
       | None => (StringFormatItem (chars "<<error_format %" ++ i.1.1 ++ chars ">>"), true)
       | Some it => (it i.1.2, false)
       end.

(** [src/src/log.h:126-152] LogFormatter *)
Record LogFormatter := mkLogFormatter { m_pattern : txt; m_items : list FormatItem; m_error : bool }.

(** [src/src/log.cpp:296-298] LogFormatter::LogFormatter; the message about a
    pattern that does not parse is left out *)
Definition new_LogFormatter (pattern : txt) : res LogFormatter :=
  '(vec, err) ← init_loop (S (length pattern)) pattern 0 [] [] false;
  let items := new_item <$> vec in
  Ret (mkLogFormatter pattern (fst <$> items) (err || existsb snd items)).

(** ** Events *)

(** [src/src/log.h:82-113] LogEvent *)
Record LogEvent := mkLogEvent {
  m_logger : Z; e_level : Level; m_file : txt; m_line : Z; m_elapse : Z; m_threadId : Z;
  m_coId : Z; e_time : Z; m_threadName : txt; m_ss : txt }.

(** [src/src/log.cpp:83-86] LogEvent::LogEvent *)
Definition new_LogEvent (logger : Z) (level : Level) (file : txt) (line elapse threadId coId time : Z)
    (threadName : txt) : LogEvent :=
  mkLogEvent logger level file (s32 line) (u32 elapse) (s32 threadId) (u64 coId) (u64 time) threadName [].

(** [src/src/log.h:88-88] LogEvent::getElapse *)
Definition getElapse (e : LogEvent) : Z := s32 (m_elapse e).
(** [src/src/log.h:93-93] LogEvent::getContent *)
Definition getContent (e : LogEvent) : txt := m_ss e.

(** [src/src/log.cpp:95-102] LogEvent::format: [s] is what vasprintf prints, [None] when it fails *)
Definition LogEvent_format (s : option txt) (e : LogEvent) : LogEvent :=
  match s with
  | Some s => mkLogEvent (m_logger e) (e_level e) (m_file e) (m_line e) (m_elapse e) (m_threadId e)
                (m_coId e) (e_time e) (m_threadName e) (m_ss e ++ s)
  | None => e
  end.

(** ** Loggers and appenders *)

(** [src/src/log.h:172-193] StdOutLogAppend, FileLogAppend: the stream is open or not *)
Inductive appender_kind :=
| StdOutLogAppend
| FileLogAppend (m_filename : txt) (m_filestream : bool) (m_time : Z).

(** [src/src/log.h:154-170] LogAppender *)
Record LogAppender := mkLogAppender {
  a_kind : appender_kind; a_level : Level; a_formatter : option LogFormatter }.

(** [src/src/log.h:195-221] Logger *)
Record Logger := mkLogger {
  m_name : txt; m_level : Level; m_appenders : list Z; m_formatter : option LogFormatter; isValue : bool }.

(** What leaves the process, in order. *)
Inductive output :=
| Console (s : txt)
| ErrConsole (s : txt)
| OpenFile (name : txt) (ok : bool)
| WriteFile (name : txt) (s : txt).

Record World := mkWorld {
  appenders : gmap Z LogAppender; loggers : gmap Z Logger; outs : list output; next_ptr : Z }.
Definition empty_world : World := mkWorld ∅ ∅ [] 1.

Definition emit_out (o : list output) (w : World) : World :=
  mkWorld (appenders w) (loggers w) (outs w ++ o) (next_ptr w).
Definition set_appender (p : Z) (a : LogAppender) (w : World) : World :=
  mkWorld (<[p := a]> (appenders w)) (loggers w) (outs w) (next_ptr w).
Definition set_logger (p : Z) (l : Logger) (w : World) : World :=
  mkWorld (appenders w) (<[p := l]> (loggers w)) (outs w) (next_ptr w).

Section logging.
Context (strftime : txt → Z → txt) (can_open : txt → bool).

(** [src/src/log.cpp:230-238] DateTimeFormatItem::format: a text that does not
    fit the buffer of 64 bytes leaves it uninitialised *)
Definition format_time (m_format : txt) (e : LogEvent) : res txt :=
  let buf := strftime (c_str m_format) (s64 (e_time e)) in
  if zlen buf <? 64 then Ret (c_str buf) else Undef "buf".

(** [src/src/log.cpp:159-294] FormatItem::format, of every class *)
Definition format_item (name : txt) (level : Level) (e : LogEvent) (it : FormatItem) : res txt :=
  match it with
  | MessageFormatItem => Ret (getContent e)
  | LevelFormatItem => Ret (Level_toString level)
  | ElapseFormatItem => Ret (dec (getElapse e))
  | NameFormatItem => Ret name
  | ThreadIdFormatItem => Ret (dec (m_threadId e))
  | ThreadNameFormatItem => Ret (m_threadName e)
  | CoIdFormatItem => Ret (dec (m_coId e))
  | DateTimeFormatItem fmt => format_time fmt e
  | FileNameFormatItem => Ret (c_str (m_file e))
  | LineFormatItem => Ret (dec (m_line e))
  | NewLineFormatItem => Ret [ascii_of_nat 10]
  | StringFormatItem s => Ret s
  | TabFormatItem => Ret [ascii_of_nat 9]
  end.

(** [src/src/log.cpp:408-424] LogFormatter::format *)
Fixpoint format_items (name : txt) (level : Level) (e : LogEvent) (items : list FormatItem) : res txt :=
  match items with
  | [] => Ret []
  | i :: items =>
      s ← format_item name level e i;
      rest ← format_items name level e items;
      Ret (s ++ rest)
  end.
Definition format (name : txt) (level : Level) (e : LogEvent) (f : LogFormatter) : res txt :=
  format_items name level e (m_items f).

(** [src/src/log.cpp:426-430] LogAppender::setFormate *)
Definition setFormate (val : option LogFormatter) (a : LogAppender) : LogAppender :=
  mkLogAppender (a_kind a) (a_level a) val.
(** [src/src/log.cpp:432-436] LogAppender::getFormate *)
Definition getFormate (a : LogAppender) : option LogFormatter := a_formatter a.
(** [src/src/log.h:162-162] LogAppender::setLevel *)
Definition setLevel (val : Level) (a : LogAppender) : LogAppender :=
  mkLogAppender (a_kind a) val (a_formatter a).

(** [src/src/log.cpp:454-462] FileLogAppend::reopen *)
Definition reopen (m_filename : txt) (m_filestream : bool) : bool * list output :=
  (can_open m_filename, [OpenFile m_filename (can_open m_filename)]).

(** [src/src/log.cpp:448-452] FileLogAppend::FileLogAppend *)
Definition new_FileLogAppend (filename : txt) (w : World) : Z * World :=
  let '(ok, o) := reopen filename true in
  let err := if ok then [] else [ErrConsole (chars "open log file error: " ++ filename ++ [ascii_of_nat 10])] in
  let p := next_ptr w in
  (p, mkWorld (<[p := mkLogAppender (FileLogAppend filename ok 0) DEBUG None]> (appenders w))
              (loggers w) (outs w ++ o ++ err) (p + 1)).
(** [src/src/log.h:172-178] StdOutLogAppend *)
Definition new_StdOutLogAppend (w : World) : Z * World :=
  let p := next_ptr w in
  (p, mkWorld (<[p := mkLogAppender StdOutLogAppend DEBUG None]> (appenders w)) (loggers w) (outs w) (p + 1)).

(** [src/src/log.cpp:438-446] StdOutLogAppend::log, what it puts out *)
Definition StdOut_log (name : txt) (level : Level) (e : LogEvent) (a : LogAppender) : res (list output) :=
  if a_level a <=? level then
    f ← deref (a_formatter a) "m_formatter";
    s ← format name level e f;
    Ret [Console s]
  else Ret [].

(** [src/src/log.cpp:464-478] FileLogAppend::log: the stream and [m_time] after
    it, and what it puts out; [now] is [time(0)] *)
Definition File_log (now : Z) (name : txt) (level : Level) (e : LogEvent) (a : LogAppender)
    (m_filename : txt) (m_filestream : bool) (m_time : Z) : res (bool * Z * list output) :=
  if a_level a <=? level then
    let '(m_filestream, m_time, o) :=
      if negb (u64 now =? m_time)
      then let '(ok, o) := reopen m_filename m_filestream in (ok, u64 now, o)
      else (m_filestream, m_time, []) in
    f ← deref (a_formatter a) "m_formatter";
    s ← format name level e f;
    Ret (m_filestream, m_time, o ++ if m_filestream then [WriteFile m_filename s] else [])
  else Ret (m_filestream, m_time, []).

(** [src/src/log.h:158-160] LogAppender::log, by the class of the appender *)
Definition appender_log (now : Z) (name : txt) (level : Level) (e : LogEvent) (a : LogAppender)
    : res (LogAppender * list output) :=
  match a_kind a with
  | StdOutLogAppend => o ← StdOut_log name level e a; Ret (a, o)
  | FileLogAppend filename stream time =>
      '(stream, time, o) ← File_log now name level e a filename stream time;
      Ret (mkLogAppender (FileLogAppend filename stream time) (a_level a) (a_formatter a), o)
  end.

(** [src/src/log.cpp:539-541] Logger::log, the loop over the appenders *)
Fixpoint log_loop (now : Z) (name : txt) (level : Level) (e : LogEvent) (ps : list Z) (w : World) : res World :=
  match ps with
  | [] => Ret w
  | p :: ps =>
      a ← deref (appenders w !! p) "appender";
      '(a, o) ← appender_log now name level e a;
      log_loop now name level e ps (emit_out o (set_appender p a w))
  end.

(** [src/src/log.cpp:534-543] Logger::log *)
Definition log (now : Z) (self : Z) (level : Level) (e : LogEvent) (w : World) : res World :=
  l ← deref (loggers w !! self) "logger";
  if m_level l <=? level then log_loop now (m_name l) level e (m_appenders l) w else Ret w.

(** [src/src/log.cpp:545-563] Logger::debug, info, warn, error, fatal *)
Definition debug (now self : Z) (e : LogEvent) (w : World) : res World := log now self DEBUG e w.
Definition info (now self : Z) (e : LogEvent) (w : World) : res World := log now self INFO e w.
Definition warn (now self : Z) (e : LogEvent) (w : World) : res World := log now self WARN e w.
Definition error (now self : Z) (e : LogEvent) (w : World) : res World := log now self ERROR e w.
Definition fatal (now self : Z) (e : LogEvent) (w : World) : res World := log now self FATAL e w.

(** [src/src/log.cpp:108-110] LogEventWrap::~LogEventWrap *)
Definition LogEventWrap_end (now : Z) (e : LogEvent) (w : World) : res World :=
  log now (m_logger e) (e_level e) e w.

(** [src/src/log.h:26-32] TIGERKIN_LOG_LEVEL: [e] is the event, with the text that the statement streams *)
Definition LOG_LEVEL (now logger : Z) (level : Level) (e : LogEvent) (w : World) : res World :=
  l ← deref (loggers w !! logger) "logger";
  if m_level l <=? level then LogEventWrap_end now e w else Ret w.

(** [src/src/log.cpp:512-519] Logger::addAppender *)
Definition addAppender (self appender : Z) (w : World) : res World :=
  l ← deref (loggers w !! self) "logger";
  a ← deref (appenders w !! appender) "appender";
  let a := match getFormate a with None => setFormate (m_formatter l) a | Some _ => a end in
  Ret (set_logger self (mkLogger (m_name l) (m_level l) (m_appenders l ++ [appender]) (m_formatter l) (isValue l))
         (set_appender appender a w)).

(** The first occurrence of [p] out of a list of pointers. *)
Fixpoint erase_first (p : Z) (l : list Z) : list Z :=
  match l with
  | [] => []
  | q :: l => if p =? q then l else q :: erase_first p l
  end.

(** [src/src/log.cpp:521-532] Logger::delAppender *)
Definition delAppender (self appender : Z) (w : World) : res World :=
  l ← deref (loggers w !! self) "logger";
  Ret (set_logger self (mkLogger (m_name l) (m_level l) (erase_first appender (m_appenders l)) (m_formatter l)
                          (isValue l)) w).

(** [src/src/log.cpp:480-484] Logger::Logger(name) *)
Definition new_Logger (name : txt) (w : World) : res (Z * World) :=
  f ← new_LogFormatter (chars "%d{%Y-%m-%d %H:%M:%S} %t %N %F [%p] [%c] %f:%l %m%n");
  let p := next_ptr w in
  Ret (p, mkWorld (appenders w) (<[p := mkLogger name DEBUG [] (Some f) true]> (loggers w)) (outs w) (p + 1)).

Definition set_isValue (self : Z) (b : bool) (w : World) : res World :=
  l ← deref (loggers w !! self) "logger";
  Ret (set_logger self (mkLogger (m_name l) (m_level l) (m_appenders l) (m_formatter l) b) w).

(** [src/src/log.cpp:493-509] Logger::Logger(loggerDefine), the loop over the appenders *)
Fixpoint define_loop (self : Z) (formate : LogFormatter) (ds : list AppenderDefine) (w : World) : res World :=
  match ds with
  | [] => Ret w
  | d :: ds =>
      w ← (if (ad_type d =? 1) || (ad_type d =? 2) then
             let '(p, w) := if ad_type d =? 1 then new_StdOutLogAppend w else new_FileLogAppend (ad_file d) w in
             a ← deref (appenders w !! p) "appender";
             w ← addAppender self p (set_appender p (setLevel (ad_level d) (setFormate (Some formate) a)) w);
             set_isValue self true w
           else set_isValue self false w);
      define_loop self formate ds w
  end.

(** [src/src/log.cpp:486-510] Logger::Logger(loggerDefine): [m_formatter] stays null *)
Definition new_Logger_define (d : LoggerDefine) (w : World) : res (Z * World) :=
  formate ← new_LogFormatter (ld_formatter d);
  let p := next_ptr w in
  let w := mkWorld (appenders w) (<[p := mkLogger (ld_name d) (ld_level d) [] None false]> (loggers w))
                   (outs w) (p + 1) in
  if m_error formate then Ret (p, w)
  else w ← define_loop p formate (ld_appenders d) w; Ret (p, w).

(** ** The manager *)

(** [src/src/log.h:233-236] LoggerMgr *)
Record LoggerMgr := mkLoggerMgr { m_loggers : gmap txt Z; m_root : Z }.

(** [src/src/log.cpp:565-569] LoggerMgr::LoggerMgr *)
Definition new_LoggerMgr (w : World) : res (LoggerMgr * World) :=
  '(root, w) ← new_Logger (chars "root") w;
  let '(a, w) := new_StdOutLogAppend w in
  w ← addAppender root a w;
  l ← deref (loggers w !! root) "logger";
  Ret (mkLoggerMgr {[m_name l := root]} root, w).

(** [src/src/log.cpp:571-579] LoggerMgr::addLogger *)
Definition addLogger (logger : Z) (mgr : LoggerMgr) (w : World) : res LoggerMgr :=
  l ← deref (loggers w !! logger) "logger";
  let m := match m_loggers mgr !! m_name l with
           | Some _ => delete (m_name l) (m_loggers mgr)
           | None => m_loggers mgr
           end in
  Ret (mkLoggerMgr (<[m_name l := logger]> m) (m_root mgr)).

(** [src/src/log.cpp:592-599] LoggerMgr::deleteLogger *)
Definition deleteLogger (logger : Z) (mgr : LoggerMgr) (w : World) : res LoggerMgr :=
  l ← deref (loggers w !! logger) "logger";
  match m_loggers mgr !! m_name l with
  | None => Ret mgr
  | Some _ => Ret (mkLoggerMgr (delete (m_name l) (m_loggers mgr)) (m_root mgr))
  end.

(** [src/src/log.cpp:601-610] LoggerMgr::getLogger *)
Definition getLogger (name : txt) (mgr : LoggerMgr) (w : World) : res (Z * LoggerMgr * World) :=
  match m_loggers mgr !! name with
  | Some p => Ret (p, mgr, w)
  | None =>
      '(p, w) ← new_Logger name w;
      Ret (p, mkLoggerMgr (<[name := p]> (m_loggers mgr)) (m_root mgr), w)
  end.

(** [src/src/log.cpp:585-589] LoggerMgr::addLoggers, the loop over the definitions *)
Fixpoint add_defines (ds : list LoggerDefine) (mgr : LoggerMgr) (w : World) : res (LoggerMgr * World) :=
  match ds with
  | [] => Ret (mgr, w)
  | it :: ds =>
      '(p, w) ← new_Logger_define it w;
      l ← deref (loggers w !! p) "logger";
      mgr ← (if isValue l then addLogger p mgr w else Ret mgr);
      add_defines ds mgr w
  end.

(** The list of definitions among the types of the configuration. *)
Context `{Y : Yaml} `{Sc : Scalars} `{El : !Elements} (define_sty : sty) (to_define : scalar → option LoggerDefine).
Definition defines_of (v : value) : list LoggerDefine :=
  match v with
  | VSeq vs => omap (λ v, match v with VScalar x => to_define x | _ => None end) vs
  | _ => []
  end.

(** [src/src/log.cpp:581-590] LoggerMgr::addLoggers: [root] is what [YAML::LoadFile(cfgPath)] returns, [None] when it throws *)
Definition addLoggers (root : option node) (key : txt) (mgr : LoggerMgr) (w : World) (cfg : Config)
    : res (LoggerMgr * World * Config) :=
  '(logCfg, cfg) ← Lookup (TSeq KVector (TScalar define_sty)) (chars "__logs." ++ key) (VSeq [])
                     (chars "logs config") cfg;
  match root with
  | None => Throw "YAML::Exception"
  | Some root =>
      let cfg := LoadFromYaml root (chars "__logs") cfg in
      var ← deref (vars cfg !! logCfg) "logCfg";
      '(mgr, w) ← add_defines (defines_of (getValue var)) mgr w;
      Ret (mgr, w, cfg)
  end.
End logging.
