(* ===== verification/LogProps.v ===== *)
(** * Logging: theorems on Log.v

    Patterns of formatters, the delivery of events, the definitions of loggers
    as text, and what a logger without a formatter does. *)

From Stdlib Require Import Ascii.
From S2P Require Import Prelude Util Http Config ConfigProps Log.

(** ** Patterns *)

(** What a pattern is made of: text, and items with or without an argument. *)
Inductive piece :=
| Text (s : txt)
| Item (c : ascii) (fmt : option txt).

Definition escape (c : ascii) : txt := if Ascii.eqb c "%" then ["%"%char; "%"%char] else [c].
Definition print_piece (p : piece) : txt :=
  match p with
  | Text s => s ≫= escape
  | Item c None => ["%"%char; c]
  | Item c (Some fmt) => ["%"%char; c; "{"%char] ++ fmt ++ ["}"%char]
  end.
Definition print_pieces (ps : list piece) : txt := ps ≫= print_piece.

(** The item of a piece; text stands for itself. *)
Definition item_of (p : piece) : option FormatItem :=
  match p with
  | Text s => Some (StringFormatItem s)
  | Item c fmt => (λ mk, mk (default [] fmt)) <$> s_format_items [c]
  end.

(** A character that an item without an argument cannot be followed by. *)
Definition joins (c : ascii) : bool := isalpha c || Ascii.eqb c "{" || Ascii.eqb c "}".
Definition starts_joining (s : txt) : bool := match s with c :: _ => joins c | [] => false end.
Definition is_text (ps : list piece) : bool := match ps with Text _ :: _ => true | _ => false end.

(** Pieces that a pattern can separate. *)
Fixpoint separable (ps : list piece) : Prop :=
  match ps with
  | [] => True
  | Text s :: ps => s ≠ [] ∧ is_text ps = false ∧ separable ps
  | Item c None :: ps => isalpha c = true ∧ starts_joining (print_pieces ps) = false ∧ separable ps
  | Item c (Some fmt) :: ps => isalpha c = true ∧ "}"%char ∉ fmt ∧ separable ps
  end.

Definition entry (p : piece) : txt * txt * Z :=
  match p with
  | Text s => (s, [], 0)
  | Item c fmt => ([c], default [] fmt, 1)
  end.

Lemma at_pos_app pre c r : at_pos (pre ++ c :: r) (zlen pre) = c.
Proof. unfold at_pos, zlen, txt. by rewrite Nat2Z.id, list_lookup_middle. Qed.
Lemma at_pos_at p pre c r i : p = pre ++ c :: r → i = zlen pre → at_pos p i = c ∧ i < zlen p.
Proof.
  intros -> ->. split; [apply at_pos_app|]. rewrite zlen_app, zlen_cons. pose proof (zlen_nonneg r). lia.
Qed.

Lemma isalpha_plain c : isalpha c = true →
  Ascii.eqb c "{" = false ∧ Ascii.eqb c "}" = false ∧ Ascii.eqb c "%" = false.
Proof. by all_chars c. Qed.

Lemma substr_app pre mid r : substr (pre ++ mid ++ r) (zlen pre) (zlen mid) = mid.
Proof.
  unfold substr. rewrite zdrop_app_r, Z.sub_diag, zdrop_0 by lia. rewrite ztake_app_l by lia. apply ztake_all.
Qed.

(** The loop inside the braces of an argument. *)
Lemma item_loop_fmt fuel pre c f1 f2 rest :
  "}"%char ∉ f2 → (length f2 < fuel)%nat →
  let p := pre ++ ["%"%char; c; "{"%char] ++ f1 ++ f2 ++ "}"%char :: rest in
  item_loop fuel p (zlen pre) (zlen pre + 3 + zlen f1) 1 (zlen pre + 2) [c] [] =
    Ret (zlen pre + 4 + zlen f1 + zlen f2, 0, [c], f1 ++ f2).
Proof.
  revert fuel f1. induction f2 as [|x f2 IH]; intros [|fuel] f1 Hf Hfuel p; simpl in Hfuel; try lia.
  - destruct (at_pos_at p (pre ++ ["%"%char; c; "{"%char] ++ f1) "}" rest (zlen pre + 3 + zlen f1)) as [Ha Hlt].
    { unfold p. by rewrite <- !app_assoc. }
    { rewrite !zlen_app. change (zlen ["%"%char; c; "{"%char]) with 3. lia. }
    cbn [item_loop]. rewrite (proj2 (Z.ltb_lt _ _)) by done. rewrite Ha. cbn.
    rewrite app_nil_r. change (zlen (@nil ascii)) with 0.
    replace (substr p _ _) with f1; [by replace (zlen pre + 3 + zlen f1 + 1) with (zlen pre + 4 + zlen f1 + 0) by lia|].
    replace p with ((pre ++ ["%"%char; c; "{"%char]) ++ f1 ++ "}"%char :: rest) by (unfold p; by rewrite <- !app_assoc).
    rewrite <- (substr_app (pre ++ ["%"%char; c; "{"%char]) f1 ("}"%char :: rest)) at 1.
    f_equal; rewrite ?zlen_app; change (zlen ["%"%char; c; "{"%char]) with 3; lia.
  - destruct (at_pos_at p (pre ++ ["%"%char; c; "{"%char] ++ f1) x (f2 ++ "}"%char :: rest) (zlen pre + 3 + zlen f1))
      as [Ha Hlt].
    { unfold p. by rewrite <- !app_assoc. }
    { rewrite !zlen_app. change (zlen ["%"%char; c; "{"%char]) with 3. lia. }
    cbn [item_loop]. rewrite (proj2 (Z.ltb_lt _ _)) by done. rewrite Ha.
    assert (Ascii.eqb x "}" = false) as Hx by (apply Ascii.eqb_neq; intros ->; apply Hf; by left).
    rewrite Hx. cbn [Z.eqb andb is_empty]. rewrite andb_false_r.
    specialize (IH fuel (f1 ++ [x])). cbv zeta in IH.
    replace (pre ++ _ ++ (f1 ++ [x]) ++ f2 ++ _) with p in IH by (unfold p; by rewrite <- !app_assoc).
    replace (zlen pre + 3 + zlen f1 + 1) with (zlen pre + 3 + zlen (f1 ++ [x])).
    + rewrite andb_false_r, IH; [|set_solver|lia]. rewrite <- app_assoc.
      replace (zlen pre + 4 + zlen (f1 ++ [x]) + zlen f2) with (zlen pre + 4 + zlen f1 + zlen (x :: f2)); [done|].
      rewrite zlen_app, !zlen_cons. change (zlen (@nil ascii)) with 0. lia.
    + rewrite zlen_app. change (zlen [x]) with 1. lia.
Qed.

(** The loop on one item. *)
Lemma item_loop_item fuel pre c fmt rest :
  isalpha c = true →
  (match fmt with None => starts_joining rest = false | Some f => "}"%char ∉ f end) →
  (length (print_piece (Item c fmt)) < fuel)%nat →
  let p := pre ++ print_piece (Item c fmt) ++ rest in
  item_loop fuel p (zlen pre) (zlen pre + 1) 0 0 [] [] =
    Ret (zlen pre + zlen (print_piece (Item c fmt)), 0, [c], default [] fmt).
Proof.
  intros Hc Hfmt Hfuel p. destruct (isalpha_plain c Hc) as (Hc1 & Hc2 & _).
  assert (∃ tl, p = (pre ++ ["%"%char]) ++ c :: tl ∧
    tl = match fmt with None => rest | Some f => "{"%char :: f ++ "}"%char :: rest end) as (tl & Hp & Htl).
  { eexists. split; [|reflexivity]. unfold p. destruct fmt; cbn [print_piece app]; by rewrite <- !app_assoc. }
  destruct (at_pos_at p _ c tl (zlen pre + 1) Hp) as [Ha Hlt]; [by rewrite zlen_app|].
  destruct fuel as [|fuel]; [lia|]. cbn [item_loop]. rewrite (proj2 (Z.ltb_lt _ _)) by done.
  rewrite Ha, Hc, Hc1. cbn [negb andb Z.eqb].
  assert (zdrop (zlen pre + 1) p = c :: tl) as Hdrop.
  { rewrite Hp, zdrop_app_r by (rewrite zlen_app; change (zlen ["%"%char]) with 1; lia).
    rewrite zlen_app. change (zlen ["%"%char]) with 1. by rewrite Z.sub_diag, zdrop_0. }
  assert (zlen p = zlen pre + 2 + zlen tl) as Hlen.
  { rewrite Hp, !zlen_app. change (zlen ["%"%char]) with 1. rewrite zlen_cons. lia. }
  assert (p = (pre ++ ["%"%char; c]) ++ tl) as Hp2 by (by rewrite Hp, <- !app_assoc).
  assert (substr p (zlen pre + 1) (zlen pre + 2 - zlen pre - 1) = [c]) as Hsub.
  { unfold substr. rewrite Hdrop. by replace (zlen pre + 2 - zlen pre - 1) with 1 by lia. }
  replace (zlen pre + 1 + 1) with (zlen pre + 2) by lia. rewrite Hdrop.
  destruct tl as [|t tl].
  - (* the item ends the pattern *)
    rewrite zlen_nil in Hlen. rewrite Hlen, Z.add_0_r, Z.eqb_refl. cbn [is_empty andb].
    destruct fuel as [|fuel]; [destruct fmt; simpl in Hfuel; lia|]. cbn [item_loop].
    rewrite Hlen, Z.add_0_r, Z.ltb_irrefl. by destruct fmt.
  - rewrite zlen_cons in Hlen. pose proof (zlen_nonneg tl).
    rewrite (proj2 (Z.eqb_neq (zlen pre + 2) _)) by lia. cbn [andb].
    destruct (at_pos_at p _ t tl (zlen pre + 2) Hp2) as [Ht Htlt].
    { rewrite zlen_app. done. }
    destruct fuel as [|fuel]; [destruct fmt; simpl in Hfuel; lia|]. cbn [item_loop].
    rewrite (proj2 (Z.ltb_lt _ _)) by done. rewrite Ht, Hsub.
    destruct fmt as [f|].
    + injection Htl as -> ->. cbn. 
      pose proof (item_loop_fmt fuel pre c [] f rest Hfmt) as Hl. cbv zeta in Hl.
      replace (pre ++ _ ++ [] ++ f ++ _) with p in Hl by (by rewrite Hp, <- !app_assoc).
      rewrite zlen_nil, Z.add_0_r in Hl. replace (zlen pre + 2 + 1) with (zlen pre + 3) by lia.
      rewrite Hl.
      * simpl. do 3 f_equal. f_equal. rewrite !zlen_cons, zlen_app. change (zlen ["}"%char]) with 1. lia.
      * simpl in Hfuel. rewrite length_app in Hfuel. simpl in Hfuel. lia.
    + subst rest. simpl in Hfmt. unfold joins in Hfmt. rewrite !orb_false_iff in Hfmt.
      destruct Hfmt as [[-> ->] ->]. done.
Qed.

Definition text_entry (nstr : txt) : list (txt * txt * Z) := if is_empty nstr then [] else [(nstr, [], 0)].

(** The outer loop copies text. *)
Lemma init_loop_text s fuel pre rest vec nstr err :
  let p := pre ++ (s ≫= escape) ++ rest in
  (length s + length rest < fuel)%nat →
  ∃ fuel', (length rest < fuel')%nat ∧
    init_loop fuel p (zlen pre) vec nstr err =
      init_loop fuel' p (zlen (pre ++ (s ≫= escape))) vec (nstr ++ s) err.
Proof.
  revert fuel pre nstr. induction s as [|c s IH]; intros fuel pre nstr p Hf.
  - exists fuel. simpl. by rewrite !app_nil_r.
  - destruct fuel as [|fuel]; [lia|].
    assert (p = pre ++ (if Ascii.eqb c "%" then ["%"%char; "%"%char] else [c]) ++ (s ≫= escape) ++ rest) as Hp.
    { unfold p. simpl. by rewrite <- app_assoc. }
    specialize (IH fuel (pre ++ escape c) (nstr ++ [c])). cbv zeta in IH. rewrite <- !app_assoc in IH.
    change (escape c ++ (s ≫= escape) ++ rest) with
      ((if Ascii.eqb c "%" then ["%"%char; "%"%char] else [c]) ++ (s ≫= escape) ++ rest) in IH.
    rewrite <- Hp in IH. destruct IH as (fuel' & Hf' & IH); [simpl in Hf; lia|].
    exists fuel'. split; [done|].
    change ((c :: s) ≫= escape) with (escape c ++ (s ≫= escape)).
    change (nstr ++ c :: s) with (nstr ++ [c] ++ s).
    rewrite <- IH. unfold escape in Hp |- *.
    destruct (Ascii.eqb_spec c "%") as [->|Hc].
    + destruct (at_pos_at p pre "%" ("%"%char :: (s ≫= escape) ++ rest) (zlen pre) Hp eq_refl) as [Ha Hlt].
      destruct (at_pos_at p (pre ++ ["%"%char]) "%" ((s ≫= escape) ++ rest) (zlen pre + 1)) as [Ha1 Hlt1].
      { rewrite Hp, <- app_assoc. done. } { by rewrite zlen_app. }
      cbn [init_loop]. rewrite (proj2 (Z.ltb_lt (zlen pre) _)), (proj2 (Z.ltb_lt (zlen pre + 1) _)) by done.
      rewrite Ha, Ha1, zlen_app. done.
    + destruct (at_pos_at p pre c ((s ≫= escape) ++ rest) (zlen pre) Hp eq_refl) as [Ha Hlt].
      cbn [init_loop]. rewrite (proj2 (Z.ltb_lt (zlen pre) _)) by done. rewrite Ha.
      rewrite (proj2 (Ascii.eqb_neq c "%")) by done. by rewrite zlen_app.
Qed.

Lemma zlen_print_piece p : zlen (print_piece p) = Z.of_nat (length (print_piece p)).
Proof. done. Qed.

Lemma starts_item c fmt : ∃ r, print_piece (Item c fmt) = "%"%char :: c :: r.
Proof. destruct fmt; eexists; done. Qed.

(** The outer loop on pieces. *)
Lemma init_loop_pieces ps fuel pre vec nstr :
  separable ps → (nstr ≠ [] → is_text ps = false) → (length (print_pieces ps) < fuel)%nat →
  init_loop fuel (pre ++ print_pieces ps) (zlen pre) vec nstr false =
    Ret (vec ++ text_entry nstr ++ (entry <$> ps), false).
Proof.
  revert fuel pre vec nstr. induction ps as [|[s|c fmt] ps IH]; intros fuel pre vec nstr Hs Hn Hf.
  - destruct fuel as [|fuel]; [lia|]. cbn [init_loop print_pieces mbind list_bind]. rewrite app_nil_r.
    by rewrite Z.ltb_irrefl, app_nil_r.
  - destruct Hs as (Hne & Ht & Hs). assert (nstr = []) as ->.
    { destruct nstr; [done|]. by specialize (Hn ltac:(done)). }
    change (print_pieces (Text s :: ps)) with ((s ≫= escape) ++ print_pieces ps).
    assert (length s <= length (s ≫= escape))%nat as Hlen.
    { clear. induction s as [|c s IH]; [done|]. rewrite bind_cons, length_app.
      unfold escape at 1. destruct (Ascii.eqb c "%"); cbn [length]; lia. }
    change (print_pieces (Text s :: ps)) with ((s ≫= escape) ++ print_pieces ps) in Hf.
    rewrite length_app in Hf.
    destruct (init_loop_text s fuel pre (print_pieces ps) vec [] false) as (fuel' & Hf' & ->); [lia|].
    rewrite app_assoc, IH; [|done|by intros _|done]. simpl. unfold text_entry.
    by destruct s.
  - destruct fuel as [|fuel]; [lia|].
    change (print_pieces (Item c fmt :: ps)) with (print_piece (Item c fmt) ++ print_pieces ps) in Hf |- *.
    rewrite length_app in Hf.
    assert (isalpha c = true ∧ separable ps ∧
      match fmt with None => starts_joining (print_pieces ps) = false | Some f => "}"%char ∉ f end) as (Hc & Hps & Hfmt).
    { destruct fmt; destruct Hs as (? & ? & ?); done. }
    set (p := pre ++ print_piece (Item c fmt) ++ print_pieces ps).
    destruct (starts_item c fmt) as [r Hr].
    destruct (at_pos_at p pre "%" (c :: r ++ print_pieces ps) (zlen pre)) as [Ha Hlt]; [unfold p; by rewrite Hr|done|].
    destruct (at_pos_at p (pre ++ ["%"%char]) c (r ++ print_pieces ps) (zlen pre + 1)) as [Ha1 Hlt1].
    { unfold p. rewrite Hr, <- app_assoc. done. } { by rewrite zlen_app. }
    destruct (isalpha_plain c Hc) as (_ & _ & Hpc).
    cbn [init_loop]. rewrite (proj2 (Z.ltb_lt (zlen pre) _)) by done. rewrite Ha, Ha1, Hpc, andb_false_r.
    cbn [negb Ascii.eqb Bool.eqb andb]. simpl (negb _).
    rewrite (item_loop_item _ pre c fmt (print_pieces ps) Hc Hfmt).
    + rewrite ret_bind. cbn [Z.eqb]. unfold p. rewrite app_assoc. rewrite <- zlen_app.
      rewrite IH; [|done|done|rewrite Hr in Hf; simpl in Hf; lia].
      rewrite <- !app_assoc. done.
    + unfold p. rewrite !length_app. lia.
Qed.

(** Every pattern gives a formatter. *)
Lemma item_loop_returns fuel p i n st b str fmt :
  0 <= n <= zlen p → (Z.to_nat (zlen p - n) < fuel)%nat → (st = 0 ∨ st = 1) →
  ∃ n' st' str' fmt', item_loop fuel p i n st b str fmt = Ret (n', st', str', fmt') ∧
    n <= n' ∧ (st' = 0 ∨ st' = 1).
Proof.
  revert n st b str fmt. induction fuel as [|fuel IH]; intros n st b str fmt Hn Hf Hst; [lia|].
  cbn [item_loop]. destruct (Z.ltb_spec n (zlen p)) as [Hlt|Hge]; [|eexists _, _, _, _; split; [done|]; split; [lia|done]].
  cbv zeta. destruct (_ && (_ && _ && _)); [eexists _, _, _, _; split; [done|]; split; [lia|done]|].
  destruct ((st =? 0) && _).
  { edestruct (IH (n + 1) 1) as (n' & st' & str' & fmt' & E & Hle & Hs); [lia|lia|by right|].
    rewrite E. eexists _, _, _, _. split; [done|]. split; [lia|done]. }
  destruct ((st =? 1) && _); [eexists _, _, _, _; split; [done|]; split; [lia|by left]|].
  edestruct (IH (n + 1) st) as (n' & st' & str' & fmt' & E & Hle & Hs); [lia|lia|done|].
  rewrite E. eexists _, _, _, _. split; [done|]. split; [lia|done].
Qed.

Lemma init_loop_returns fuel p i vec nstr err :
  0 <= i → (Z.to_nat (zlen p - i) < fuel)%nat → ∃ r, init_loop fuel p i vec nstr err = Ret r.
Proof.
  revert i vec nstr err. induction fuel as [|fuel IH]; intros i vec nstr err Hi Hf; [lia|].
  cbn [init_loop]. destruct (Z.ltb_spec i (zlen p)) as [Hlt|Hge]; [|eauto].
  destruct (negb _); [apply IH; lia|]. destruct (_ && _); [apply IH; lia|].
  destruct (item_loop_returns (S (length p)) p i (i + 1) 0 0 [] []) as (n' & st' & str' & fmt' & E & Hle & Hs);
    [lia|unfold zlen in *; lia|by left|].
  rewrite E, ret_bind. destruct (st' =? 0); [apply IH; lia|]. destruct (st' =? 1); apply IH; lia.
Qed.

(** C19: patterns.  The parser of a pattern always returns; and a pattern that
    is written from pieces (text with its percent signs doubled, items by
    their letter with or without an argument in braces, an item without an
    argument not running into a letter or a brace) is parsed to exactly the
    items of its pieces, without an error if every letter is one of the table. *)
Theorem pattern_roundtrip :
  (∀ pattern, ∃ f, new_LogFormatter pattern = Ret f) ∧
  (∀ ps items, separable ps → mapM item_of ps = Some items →
     new_LogFormatter (print_pieces ps) = Ret (mkLogFormatter (print_pieces ps) items false)).
Proof.
  split.
  - intros p. unfold new_LogFormatter. destruct (init_loop_returns (S (length p)) p 0 [] [] false) as [[vec err] E];
      [lia|unfold zlen; lia|]. rewrite E. eexists. done.
  - intros ps items Hs Hm. unfold new_LogFormatter.
    pose proof (init_loop_pieces ps (S (length (print_pieces ps))) [] [] [] Hs) as E. simpl app in E.
    change (zlen []) with 0 in E. rewrite E; [|done|lia]. rewrite ret_bind.
    assert (new_item <$> (entry <$> ps) = (λ i, (i, false)) <$> items) as Hitems.
    { apply mapM_Some in Hm. clear E Hs. induction Hm as [|p i ps items Hp _ IH]; [done|].
      rewrite !fmap_cons, IH. f_equal. unfold item_of, new_item in *. destruct p as [s|c fmt]; cbn [entry fst snd Z.eqb]; [by injection Hp as <-|].
      destruct (s_format_items [c]); [|done]. by injection Hp as <-. }
    cbn [text_entry is_empty app]. rewrite Hitems.
    assert (fst <$> ((λ i, (i, false)) <$> items) = items ∧ existsb snd ((λ i, (i, false)) <$> items) = false) as [-> ->].
    { clear. induction items as [|i items [IH1 IH2]]; [done|].
      split; [|exact IH2]. rewrite !fmap_cons. by rewrite IH1. }
    done.
Qed.

Example pattern_roundtrip_witness :
  new_LogFormatter (chars "100%% %d{%H:%M} [%p] %m%n") =
    Ret (mkLogFormatter (chars "100%% %d{%H:%M} [%p] %m%n")
      [StringFormatItem (chars "100% "); DateTimeFormatItem (chars "%H:%M"); StringFormatItem (chars " [");
       LevelFormatItem; StringFormatItem (chars "] "); MessageFormatItem; NewLineFormatItem] false).
Proof.
  destruct pattern_roundtrip as [_ H].
  apply (H [Text (chars "100% "); Item "d" (Some (chars "%H:%M")); Text (chars " ["); Item "p" None;
            Text (chars "] "); Item "m" None; Item "n" None]); [|vm_compute; reflexivity].
  repeat split; try discriminate; try reflexivity. vm_compute. set_solver.
Defined.

(** ** Definitions as text *)

Section define_text.
Context `{Yaml} (null_as : option txt) (junk : Level).

(** Evaluate the comparisons of keys. *)
Ltac keys :=
  repeat (match goal with |- context [bool_decide (?a = ?b)] =>
            let v := eval vm_compute in (bool_decide (a = b)) in change (bool_decide (a = b)) with v
          end; cbn -[Level_fromString Level_toString cast_appenders]).

Definition known_level (l : Level) : Prop := UNKNOW <= l <= FATAL.

Lemma level_names l : known_level l → Level_fromString (Level_toString l) = l.
Proof.
  intros [H1 H2]. unfold UNKNOW, FATAL in *.
  assert (l = 0 ∨ l = 1 ∨ l = 2 ∨ l = 3 ∨ l = 4 ∨ l = 5) as Hl by lia.
  by destruct Hl as [->|[->|[->|[->|[->| ->]]]]].
Qed.

(** An appender that a definition can say. *)
Definition sayable (a : AppenderDefine) : Prop :=
  known_level (ad_level a) ∧ (ad_type a = 2 ∨ (ad_type a = 1 ∧ ad_file a = [])).

Lemma appenders_back l :
  Forall sayable l → cast_appenders null_as (print_appenders l) = l.
Proof.
  induction 1 as [|[t lv file] l [Hl Ht] _ IH]; [done|]. simpl in Hl, Ht. cbn [print_appenders ad_type ad_level ad_file].
  destruct Ht as [->|[-> ->]]; cbn [Z.eqb Pos.eqb cast_appenders]; unfold cast_appender;
    cbn -[Level_fromString Level_toString]; keys; rewrite IH, (level_names lv Hl); done.
Qed.

(** Definitions of loggers.  A definition whose levels are those of the
    enumeration and whose appenders are console appenders without a file or
    file appenders is the definition that its own text gives back, if the
    library reads back the node that it wrote. *)
Theorem define_roundtrip d :
  Load (emit (define_node d)) = Some (define_node d) →
  known_level (ld_level d) → Forall sayable (ld_appenders d) →
  cast_define null_as junk (print_define d) = Some d.
Proof.
  intros Hload Hl Ha. unfold cast_define, print_define.
  rewrite Hload. cbn [mbind option_bind]. clear Hload. unfold define_node.
  destruct d as [name lv fmt apps]. cbn [ld_name ld_level ld_formatter ld_appenders] in *.
  pose proof (appenders_back apps Ha) as Hback.
  destruct (print_appenders apps) as [|n ns] eqn:E; cbn -[Level_fromString Level_toString cast_appenders]; keys; rewrite (level_names lv Hl).
  - simpl in Hback. by rewrite <- Hback.
  - by rewrite Hback.
Qed.
End define_text.

Example define_roundtrip_witness :
  let d := mkLoggerDefine (chars "web") WARN (chars "m")
             [mkAppenderDefine 1 INFO []; mkAppenderDefine 2 ERROR (chars "log")] in
  cast_define None 7 (print_define d) = Some d.
Proof.
  intros d. apply define_roundtrip.
  - vm_compute. reflexivity.
  - split; discriminate.
  - constructor; [|constructor; [|constructor]]; (split; [split; discriminate|]); [right; by split|by left].
Defined.

(** ** Delivery *)

Section delivery.
Context (strftime : txt → Z → txt) (can_open : txt → bool).
Local Notation format := (format strftime).
Local Notation log := (log strftime can_open).
Local Notation log_loop := (log_loop strftime can_open).

(** The messages that were written, with the file, or none for the console. *)
Definition written (o : output) : option (option txt * txt) :=
  match o with
  | Console s => Some (None, s)
  | WriteFile name s => Some (Some name, s)
  | _ => None
  end.
Definition target (k : appender_kind) : option txt :=
  match k with StdOutLogAppend => None | FileLogAppend name _ _ => Some name end.

(** An appender that can write: it has a formatter, and its file is open and
    can be opened again. *)
Definition can_write (a : LogAppender) : Prop :=
  is_Some (a_formatter a) ∧
  match a_kind a with StdOutLogAppend => True | FileLogAppend name stream _ => stream = true ∧ can_open name = true end.

(** What does not change in an appender that logs. *)
Definition same_sink (a a' : LogAppender) : Prop :=
  target (a_kind a') = target (a_kind a) ∧ a_level a' = a_level a ∧ a_formatter a' = a_formatter a ∧
  (can_write a → can_write a').

Lemma same_sink_refl a : same_sink a a.
Proof. done. Qed.

Hypothesis strftime_fits : ∀ fmt t, zlen (strftime fmt t) < 64.

Lemma format_total name level e f : ∃ s, format name level e f = Ret s.
Proof.
  unfold Log.format. induction (m_items f) as [|it items [s IH]]; [eauto|].
  assert (∃ t, format_item strftime name level e it = Ret t) as [t Ht].
  { destruct it; simpl; eauto. unfold format_time.
    rewrite (proj2 (Z.ltb_lt _ _)) by apply strftime_fits. eauto. }
  simpl. rewrite Ht, ret_bind, IH. eexists. done.
Qed.

(** One appender. *)
Lemma appender_log_spec now name level e a f :
  can_write a → a_formatter a = Some f →
  ∃ a' o s, appender_log strftime can_open now name level e a = Ret (a', o) ∧ same_sink a a' ∧
    format name level e f = Ret s ∧
    omap written o = if a_level a <=? level then [(target (a_kind a), s)] else [].
Proof.
  intros [_ Hk] Hf. destruct (format_total name level e f) as [s Hs]. unfold appender_log, StdOut_log, File_log.
  destruct a as [[|fn stream t] lv fo]; cbn in Hf, Hk |- *; destruct (lv <=? level).
  - rewrite Hf; cbn; rewrite Hs. by eexists _, _, s.
  - by eexists _, _, s.
  - destruct Hk as [-> Ho]. rewrite Hf. destruct (u64 now =? t); cbn; rewrite ?Ho, Hs; eexists _, _, s;
      (split; [done|]); (split; [|done]);
      (split; [done|]); (split; [done|]); (split; [done|]); intros [H1 _]; by split.
  - by eexists _, _, s.
Qed.

(** The messages of a list of appenders. *)
Inductive messages (w : World) (name : txt) (level : Level) (e : LogEvent) :
    list Z → list (option txt * txt) → Prop :=
| messages_nil : messages w name level e [] []
| messages_skip p a ps ms :
    appenders w !! p = Some a → level < a_level a → messages w name level e ps ms →
    messages w name level e (p :: ps) ms
| messages_write p a f s ps ms :
    appenders w !! p = Some a → a_level a <= level → a_formatter a = Some f →
    format name level e f = Ret s → messages w name level e ps ms →
    messages w name level e (p :: ps) ((target (a_kind a), s) :: ms).

Definition same_sinks (w w' : World) : Prop :=
  loggers w' = loggers w ∧
  ∀ p a, appenders w !! p = Some a → ∃ a', appenders w' !! p = Some a' ∧ same_sink a a'.

Lemma messages_same w w' name level e ps ms :
  same_sinks w w' → messages w' name level e ps ms → Forall (λ p, is_Some (appenders w !! p)) ps →
  messages w name level e ps ms.
Proof.
  intros [_ Hw] H. induction H as [|p a ps ms Hp Hlt _ IH|p a f s ps ms Hp Hle Hf Hs _ IH]; intros Hall; [constructor|..];
    apply Forall_cons in Hall as [[b Hb] Hall]; destruct (Hw p b Hb) as (a' & Ha' & Ht & Hl & Hfm & _);
    rewrite Hp in Ha'; injection Ha' as <-.
  - eapply messages_skip; [exact Hb|lia|auto].
  - rewrite Ht. apply (messages_write _ _ _ _ p b f s); [done|lia|congruence|done|auto].
Qed.

Lemma log_loop_spec now name level e ps w :
  Forall (λ p, ∃ a, appenders w !! p = Some a ∧ can_write a) ps →
  ∃ w' ms, log_loop now name level e ps w = Ret w' ∧ same_sinks w w' ∧
    messages w name level e ps ms ∧ omap written (outs w') = omap written (outs w) ++ ms.
Proof.
  revert w. induction ps as [|p ps IH]; intros w Hall.
  - exists w, []. rewrite app_nil_r. split; [done|]. split; [|by split; [constructor|]].
    split; [done|]. intros p a Hp. by exists a.
  - apply Forall_cons in Hall as [(a & Hp & Hc) Hall]. pose proof Hc as [[f Hf] _].
    destruct (appender_log_spec now name level e a f Hc Hf) as (a' & o & s & Ha & Hsame & Hs & Ho).
    set (w1 := emit_out o (set_appender p a' w)).
    assert (same_sinks w w1) as Hw1.
    { split; [done|]. intros q b Hq. simpl. destruct (decide (p = q)) as [->|Hne].
      - rewrite lookup_insert_eq. simplify_eq. by eexists.
      - rewrite lookup_insert_ne by done. by exists b. }
    destruct (IH w1) as (w' & ms & El & Hw' & Hms & Hout).
    { eapply Forall_impl; [exact Hall|]. intros q (b & Hq & Hcb).
      destruct (proj2 Hw1 q b Hq) as (b' & Hq' & _ & _ & _ & Hcc). exists b'. auto. }
    assert (messages w name level e ps ms) as Hms'.
    { eapply messages_same; [exact Hw1|exact Hms|]. eapply Forall_impl; [exact Hall|].
      intros q (b & Hq & _). by exists b. }
    assert (same_sinks w w') as Hww.
    { destruct Hw1 as [Hl1 Hs1], Hw' as [Hl2 Hs2]. split; [congruence|]. intros q b Hq.
      destruct (Hs1 q b Hq) as (b1 & Hq1 & H1 & H2 & H3 & H4).
      destruct (Hs2 q b1 Hq1) as (b2 & Hq2 & H1' & H2' & H3' & H4').
      exists b2. split; [done|]. split; [congruence|]. split; [congruence|]. split; [congruence|auto]. }
    assert (log_loop now name level e (p :: ps) w = Ret w') as El'.
    { cbn [Log.log_loop]. unfold deref at 1. rewrite Hp, ret_bind, Ha, ret_bind. exact El. }
    assert (omap written (outs w1) = omap written (outs w) ++ omap written o) as Hout1 by apply omap_app.
    rewrite Hout1, Ho in Hout. destruct (Z.leb_spec (a_level a) level) as [Hle|Hgt].
    + exists w', ((target (a_kind a), s) :: ms). split; [done|]. split; [done|].
      split; [by eapply messages_write|]. by rewrite <- app_assoc in Hout.
    + exists w', ms. split; [done|]. split; [done|]. split; [by eapply messages_skip|].
      by rewrite app_nil_r in Hout.
Qed.

(** Delivery.  For a logger whose appenders all have a formatter and can
    write: an event below the level of the logger writes nothing; any other
    event is written once by each appender whose level it reaches, in the
    order of the appenders, to the console or the file of the appender, as its
    own formatter prints it, and by no other.  It leaves every logger, and the
    level, formatter and file of every appender, as they are. *)
Theorem log_delivers now self level e w l :
  loggers w !! self = Some l →
  Forall (λ p, ∃ a, appenders w !! p = Some a ∧ can_write a) (m_appenders l) →
  ∃ w' ms, log now self level e w = Ret w' ∧ same_sinks w w' ∧
    omap written (outs w') = omap written (outs w) ++ ms ∧
    (level < m_level l → ms = []) ∧
    (m_level l <= level → messages w (m_name l) level e (m_appenders l) ms).
Proof.
  intros Hl Hall. unfold Log.log, deref. rewrite Hl, ret_bind.
  destruct (Z.leb_spec (m_level l) level) as [Hle|Hgt].
  - destruct (log_loop_spec now (m_name l) level e _ w Hall) as (w' & ms & E & Hw & Hm & Ho).
    exists w', ms. split; [done|]. split; [done|]. split; [done|]. split; [lia|done].
  - exists w, []. split; [done|]. split; [|split; [by rewrite app_nil_r|split; [done|lia]]].
    split; [done|]. intros p a Hp. by exists a.
Qed.

(** ** Loggers without a formatter *)

Lemma log_loop_app now name level e ps qs w :
  log_loop now name level e (ps ++ qs) w =
    (log_loop now name level e ps w ≫= log_loop now name level e qs).
Proof.
  revert w. induction ps as [|p ps IH]; intros w; [done|]. cbn [app Log.log_loop].
  rewrite bind_assoc. apply bind_ext. intros a _. rewrite bind_assoc. apply bind_ext. intros [a' o] _. apply IH.
Qed.

Definition no_formatter (self : Z) (w : World) : Prop :=
  ∃ l, loggers w !! self = Some l ∧ m_formatter l = None.

Lemma define_loop_no_formatter self f ds w w' :
  no_formatter self w → define_loop can_open self f ds w = Ret w' → no_formatter self w'.
Proof.
  revert w. induction ds as [|d ds IH]; intros w (l & Hl & Hn) E; [injection E as <-; by exists l|].
  cbn [define_loop] in E. apply bind_Ret in E as (w1 & E1 & E). eapply IH; [|exact E]. clear IH E.
  assert (∀ b w w', no_formatter self w → set_isValue self b w = Ret w' → no_formatter self w') as Hset.
  { intros b v v' (k & Hk & Hkn) E. unfold set_isValue in E. rewrite Hk in E. injection E as <-.
    eexists. split; [apply lookup_insert_eq|done]. }
  destruct (_ || _); [|eapply Hset; [by exists l|exact E1]].
  assert (∀ p v, loggers v !! self = Some l →
    (a ← deref (appenders v !! p) "appender";
     w ← addAppender self p (set_appender p (setLevel (ad_level d) (setFormate (Some f) a)) v);
     set_isValue self true w) = Ret w1 → no_formatter self w1) as Hadd.
  { intros p v Hv E. apply bind_Ret in E as (a & _ & E). apply bind_Ret in E as (v2 & Ev2 & E).
    eapply Hset; [|exact E]. unfold addAppender in Ev2. simpl in Ev2. rewrite Hv in Ev2. simpl in Ev2.
    rewrite lookup_insert_eq in Ev2. injection Ev2 as <-. eexists. split; [apply lookup_insert_eq|done]. }
  destruct (ad_type d =? 1).
  - eapply (Hadd (fst (new_StdOutLogAppend w)) (snd (new_StdOutLogAppend w))); [exact Hl|exact E1].
  - destruct (new_FileLogAppend can_open (ad_file d) w) as [p v] eqn:E. eapply (Hadd p v); [|exact E1].
    unfold new_FileLogAppend, reopen in E. by injection E as <- <-.
Qed.

(** Loggers from the configuration.  A logger that is made from a
    definition has no formatter of its own.  So an appender that is added to
    it later without one gets none either, and the first event that reaches
    this appender reads through a null pointer (once the appenders before it
    have written). *)
Theorem defined_logger_null d w self w1 l :
  new_Logger_define can_open d w = Ret (self, w1) → loggers w1 !! self = Some l →
  Forall (λ p, p < next_ptr w1 ∧ ∃ a, appenders w1 !! p = Some a ∧ can_write a) (m_appenders l) →
  m_formatter l = None ∧
  ∃ w2, (let '(a, v) := new_StdOutLogAppend w1 in addAppender self a v) = Ret w2 ∧
    ∀ now level e, DEBUG <= level → m_level l <= level →
      log now self level e w2 = Undef "m_formatter".
Proof.
  intros E Hl Hall.
  assert (no_formatter self w1) as (l' & Hl' & Hn).
  { unfold new_Logger_define in E. apply bind_Ret in E as (f & _ & E). simpl in E.
    set (w0 := mkWorld _ _ _ _) in E.
    assert (no_formatter (next_ptr w) w0) as H0 by (eexists; split; [apply lookup_insert_eq|done]).
    destruct (m_error f); [by injection E as <- <-|]. apply bind_Ret in E as (v & Ev & E).
    injection E as <- <-. by eapply define_loop_no_formatter. }
  rewrite Hl in Hl'. injection Hl' as <-. split; [done|].
  set (p := next_ptr w1).
  set (a := mkLogAppender StdOutLogAppend DEBUG None).
  set (v := mkWorld (<[p := a]> (appenders w1)) (loggers w1) (outs w1) (p + 1)).
  set (l2 := mkLogger (m_name l) (m_level l) (m_appenders l ++ [p]) (m_formatter l) (isValue l)).
  exists (set_logger self l2 (set_appender p a v)). split.
  { unfold new_StdOutLogAppend, addAppender. simpl. rewrite Hl. simpl. rewrite lookup_insert_eq. simpl.
    unfold l2. by rewrite !Hn. }
  intros now level e Hd Hle. unfold Log.log. simpl. rewrite lookup_insert_eq. simpl.
  rewrite (proj2 (Z.leb_le _ _)) by done. rewrite log_loop_app.
  set (w2 := set_logger self l2 (set_appender p a v)).
  destruct (log_loop_spec now (m_name l) level e (m_appenders l) w2) as (w3 & ms & E3 & [_ Hs] & _ & _).
  { eapply Forall_impl; [exact Hall|]. intros q (Hq & b & Hb & Hc). exists b. split; [|done].
    simpl. rewrite insert_insert_eq. rewrite lookup_insert_ne; [done|]. unfold p. lia. }
  rewrite E3, ret_bind. destruct (Hs p a) as (a' & Ha' & Ht & Hlv & Hf & _).
  { simpl. by rewrite insert_insert_eq, lookup_insert_eq. }
  cbn [Log.log_loop]. unfold deref at 1. rewrite Ha', ret_bind. unfold appender_log, StdOut_log, File_log. rewrite Hlv, Hf.
  rewrite (proj2 (Z.leb_le _ _)) by done.
  destruct (a_kind a') as [|fn st t]; [done|]. by destruct (u64 now =? t).
Qed.
End delivery.

(** A clock without text, and a world with a logger to the console and a file. *)
Definition no_time (fmt : txt) (t : Z) : txt := [].
Definition web_define : LoggerDefine :=
  mkLoggerDefine (chars "web") INFO (chars "[%p] %m")
    [mkAppenderDefine 1 INFO []; mkAppenderDefine 2 ERROR (chars "web.log")].
Definition web_world : World :=
  match new_Logger_define (λ _, true) web_define empty_world with Ret (_, w) => w | _ => empty_world end.
Definition hello : LogEvent :=
  mkLogEvent 1 WARN (chars "a.cpp") 7 0 1 0 0 (chars "main") (chars "hello").

Lemma web_appenders l : loggers web_world !! 1 = Some l →
  Forall (λ p, p < next_ptr web_world ∧ ∃ a, appenders web_world !! p = Some a ∧ can_write (λ _, true) a) (m_appenders l).
Proof.
  intros E. vm_compute in E. injection E as <-.
  constructor; [|constructor; [|constructor]]; (split; [reflexivity|]); eexists;
    (split; [vm_compute; reflexivity|]); (split; [by eexists|done]).
Qed.

Example log_delivers_witness :
  ∃ w' ms, log no_time (λ _, true) 5 1 WARN hello web_world = Ret w' ∧
    omap written (outs w') = omap written (outs web_world) ++ ms ∧
    messages no_time web_world (chars "web") WARN hello [2; 3] ms.
Proof.
  edestruct (log_delivers no_time (λ _, true)) with (now := 5) (self := 1) (level := WARN) (e := hello) (w := web_world)
    as (w' & ms & E & _ & Ho & _ & Hm).
  - reflexivity.
  - vm_compute. reflexivity.
  - eapply Forall_impl; [apply web_appenders; vm_compute; reflexivity|]. by intros p [_ ?].
  - exists w', ms. split; [exact E|]. split; [exact Ho|]. apply Hm. discriminate.
Defined.

Example defined_logger_null_witness :
  ∃ w2, (let '(a, v) := new_StdOutLogAppend web_world in addAppender 1 a v) = Ret w2 ∧
    log no_time (λ _, true) 5 1 WARN hello w2 = Undef "m_formatter".
Proof.
  edestruct (defined_logger_null no_time (λ _, true) (λ _ _, eq_refl) web_define empty_world 1 web_world)
    as (_ & w2 & E & H).
  - vm_compute. reflexivity.
  - vm_compute. reflexivity.
  - apply web_appenders. vm_compute. reflexivity.
  - exists w2. split; [exact E|]. apply H; discriminate.
Defined.
