(* ===== verification/Servlet.v ===== *)
(** * Servlets: src/src/http/http_servlet.h, src/src/http/http_servlet.cpp

    [ServletDispatch] maps paths to servlets, by an exact path and by globs.
    The read-write lock is held for the whole of a method, so a method that
    does not return keeps it.  [fnmatch] is a parameter.  The walks over the
    globs have fuel: one unit per turn of the [while]. *)

From Stdlib Require Import Ascii.
From S2P Require Import Prelude Util Http.

(** [src/src/http/http_servlet.h:21-53] Servlet: the NotFoundServlet, or a FunctionServlet with its callback (also any other servlet: what its handle does to the response, and its result) *)
Inductive Servlet :=
| NotFoundServlet
| FunctionServlet (m_cb : HttpRequest → HttpResponse → Z * HttpResponse).

(** The text of the 404 page, a C string literal with its line splices. *)
Definition rspBody : txt := chars
  "<html>            <head>                <title>                    404 Not Found                </title>            </head>            <body>                <center>                    <h1>404 Not Found</h1>                </center>            </body>        </html>".

(** [src/src/http/http_servlet.cpp:24-51] NotFoundServlet::handle, FunctionServlet::handle *)
Definition handle (s : Servlet) (request : HttpRequest) (response : HttpResponse) : Z * HttpResponse :=
  match s with
  | NotFoundServlet =>
      let response := r_setStatus 404 response in
      let response := r_setHeader (chars "Content-Type") (chars "text/html") response in
      let response := r_setHeader (chars "Server") (chars "tigerkin/1.0.0") response in
      (0, r_setBody rspBody response)
  | FunctionServlet cb => cb request response
  end.

(** [src/src/http/http_servlet.h:77-81] ServletDispatch: a servlet pointer may be null *)
Record ServletDispatch := mkDispatch {
  m_datas : gmap (list Z) (option Servlet);
  m_globs : list (txt * option Servlet);
  m_defaultServlet : option Servlet
}.

(** The key of a path. *)
Definition key (path : txt) : list Z := code <$> path.

(** [src/src/http/http_servlet.cpp:53-56] ServletDispatch::ServletDispatch *)
Definition ServletDispatch_new : ServletDispatch := mkDispatch ∅ [] (Some NotFoundServlet).

(** [src/src/http/http_servlet.cpp:66-74] ServletDispatch::addServlet *)
Definition addServlet (path : txt) (slt : option Servlet) (d : ServletDispatch) : ServletDispatch :=
  mkDispatch (<[key path := slt]> (m_datas d)) (m_globs d) (m_defaultServlet d).

(** [src/src/http/http_servlet.cpp:91-94] ServletDispatch::delServlet *)
Definition delServlet (path : txt) (d : ServletDispatch) : ServletDispatch :=
  mkDispatch (delete (key path) (m_datas d)) (m_globs d) (m_defaultServlet d).

(** [src/src/http/http_servlet.cpp:107-109] ServletDispatch::setDefaultServlet *)
Definition setDefaultServlet (s : option Servlet) (d : ServletDispatch) : ServletDispatch :=
  mkDispatch (m_datas d) (m_globs d) s.

(** [src/src/http/http_servlet.cpp:111-113] ServletDispatch::getDefaultServlet *)
Definition getDefaultServlet (d : ServletDispatch) : option Servlet := m_defaultServlet d.

Definition with_globs (g : list (txt * option Servlet)) (d : ServletDispatch) : ServletDispatch :=
  mkDispatch (m_datas d) g (m_defaultServlet d).

(** [src/src/http/http_servlet.cpp:79-83] ServletDispatch::addGlobServlet, the walk with the iterator at the front of the list: an entry with the path is erased (the iterator then points at the next one), on any other entry the iterator stays *)
Fixpoint erase_loop (fuel : nat) (path : txt) (globs : list (txt * option Servlet))
    : res (list (txt * option Servlet)) :=
  match fuel with
  | O => OutOfFuel
  | S fuel =>
      match globs with
      | [] => Ret []
      | (g, _) :: rest =>
          if bool_decide (g = path) then erase_loop fuel path rest
          else erase_loop fuel path globs
      end
  end.

(** [src/src/http/http_servlet.cpp:76-89] ServletDispatch::addGlobServlet *)
Definition addGlobServlet (fuel : nat) (path : txt) (slt : option Servlet) (d : ServletDispatch)
    : res ServletDispatch :=
  globs ← erase_loop fuel path (m_globs d);
  Ret (with_globs (globs ++ [(path, slt)]) d).

(** [src/src/http/http_servlet.cpp:96-105] ServletDispatch::delGlobServlet *)
Fixpoint delGlobServlet (fuel : nat) (path : txt) (d : ServletDispatch) : res ServletDispatch :=
  match fuel with
  | O => OutOfFuel
  | S fuel =>
      match m_globs d with
      | [] => Ret d
      | (g, _) :: rest =>
          if bool_decide (g = path) then Ret (with_globs rest d) else delGlobServlet fuel path d
      end
  end.

(** [src/src/http/http_servlet.cpp:115-119] ServletDispatch::getServlet *)
Definition getServlet (path : txt) (d : ServletDispatch) : option Servlet :=
  default None (m_datas d !! key path).

(** [src/src/http/http_servlet.cpp:121-130] ServletDispatch::getGlobServlet *)
Fixpoint getGlobServlet (fuel : nat) (path : txt) (d : ServletDispatch) : res (option Servlet) :=
  match fuel with
  | O => OutOfFuel
  | S fuel =>
      match m_globs d with
      | [] => Ret None
      | (g, s) :: _ => if bool_decide (g = path) then Ret s else getGlobServlet fuel path d
      end
  end.

Section dispatch.
(** [fnmatch(pattern, path, 0) == 0] *)
Context (fnmatch : txt → txt → bool).

(** [src/src/http/http_servlet.cpp:138-144] ServletDispatch::getMatchedServlet, the walk over the globs *)
Fixpoint match_loop (fuel : nat) (path : txt) (d : ServletDispatch) : res (option Servlet) :=
  match fuel with
  | O => OutOfFuel
  | S fuel =>
      match m_globs d with
      | [] => Ret (m_defaultServlet d)
      | (g, s) :: _ => if fnmatch (c_str g) (c_str path) then Ret s else match_loop fuel path d
      end
  end.

(** [src/src/http/http_servlet.cpp:132-145] ServletDispatch::getMatchedServlet *)
Definition getMatchedServlet (fuel : nat) (path : txt) (d : ServletDispatch) : res (option Servlet) :=
  match m_datas d !! key path with
  | Some s => Ret s
  | None => match_loop fuel path d
  end.

(** [src/src/http/http_servlet.cpp:58-64] ServletDispatch::handle *)
Definition dispatch (fuel : nat) (request : HttpRequest) (response : HttpResponse)
    (d : ServletDispatch) : res (Z * HttpResponse) :=
  slt ← getMatchedServlet fuel (q_path request) d;
  match slt with
  | Some s => Ret (0, snd (handle s request response))
  | None => Ret (0, response)
  end.
End dispatch.

(** ** Properties *)

Lemma erase_loop_same fuel path globs :
  Forall (λ e, fst e = path) globs → (length globs < fuel)%nat → erase_loop fuel path globs = Ret [].
Proof.
  intros H. revert fuel. induction H as [|[g s] globs Hg _ IH]; intros [|fuel] Hf; simpl in *;
    try lia; [done|]. subst. rewrite bool_decide_eq_true_2 by done. apply IH. lia.
Qed.

Lemma erase_loop_other fuel path pre g s rest :
  Forall (λ e, fst e = path) pre → g ≠ path → erase_loop fuel path (pre ++ (g, s) :: rest) = OutOfFuel.
Proof.
  intros H Hg. revert pre H. induction fuel as [|fuel IH]; intros pre H; [done|].
  destruct H as [|[g' s'] pre Hg' H]; simpl in *.
  - rewrite bool_decide_eq_false_2 by done. by apply (IH []).
  - subst. rewrite bool_decide_eq_true_2 by done. by apply IH.
Qed.

Lemma match_loop_spins fnmatch fuel path d g s rest :
  m_globs d = (g, s) :: rest → fnmatch (c_str g) (c_str path) = false →
  match_loop fnmatch fuel path d = OutOfFuel.
Proof.
  intros Hg Hf. induction fuel as [|fuel IH]; [done|]. simpl. by rewrite Hg, Hf.
Qed.

Lemma key_inj p p' : key p = key p' → p = p'.
Proof.
  unfold key. revert p'. induction p as [|c p IH]; intros [|c' p']; simpl; try done.
  intros [= Hc Hp]. f_equal; [|auto]. unfold code in Hc.
  rewrite <- (ascii_N_embedding c), <- (ascii_N_embedding c'). f_equal. lia.
Qed.

(** Exact routes.  A servlet added for a path is the one that a request
    for exactly this path gets, whatever the globs are; the other exact routes
    are unchanged; and after [delServlet] the path is looked up as if it had
    never been added. *)
Theorem exact_route fnmatch fuel path slt d :
  getMatchedServlet fnmatch fuel path (addServlet path slt d) = Ret slt ∧
  (∀ p, p ≠ path → getServlet p (addServlet path slt d) = getServlet p d ∧
     getServlet p (delServlet path d) = getServlet p d) ∧
  getServlet path (delServlet path (addServlet path slt d)) = None ∧
  getMatchedServlet fnmatch fuel path (delServlet path (addServlet path slt d)) =
    match_loop fnmatch fuel path (delServlet path (addServlet path slt d)).
Proof.
  unfold getMatchedServlet, getServlet. simpl. rewrite lookup_insert_eq, lookup_delete_eq.
  split; [done|]. split; [|done]. intros p Hp.
  assert (key path ≠ key p) by (intros H%key_inj; congruence).
  by rewrite lookup_insert_ne, lookup_delete_ne by done.
Qed.

(** Globs make the dispatcher spin.  With one glob registered, adding
    another one never returns, whatever the fuel (the iterator is not
    advanced, and the write lock is held), so a dispatcher has globs for at
    most one path; and a request whose path has no exact route and does not
    match the first glob never gets a servlet: the default servlet is reached
    only when there is no glob at all. *)
Theorem globs_spin fnmatch d g s rest :
  m_globs d = (g, s) :: rest →
  (∀ fuel path slt, path ≠ g → addGlobServlet fuel path slt d = OutOfFuel) ∧
  (∀ fuel path, path ≠ g → delGlobServlet fuel path d = OutOfFuel ∧
     getGlobServlet fuel path d = OutOfFuel) ∧
  (∀ fuel path, m_datas d !! key path = None → (0 < fuel)%nat →
     getMatchedServlet fnmatch fuel path d =
       if fnmatch (c_str g) (c_str path) then Ret s else OutOfFuel) ∧
  (∀ fuel path, m_datas d !! key path = None → (0 < fuel)%nat →
     getMatchedServlet fnmatch fuel path (with_globs [] d) = Ret (m_defaultServlet d)).
Proof.
  intros Hg. split_and!.
  - intros fuel path slt Hp. unfold addGlobServlet. rewrite Hg.
    pose proof (erase_loop_other fuel path [] g s rest) as H. simpl in H. by rewrite H.
  - intros fuel path Hp. induction fuel as [|fuel [IH1 IH2]]; [done|]. simpl. rewrite Hg.
    by rewrite bool_decide_eq_false_2, IH1, IH2 by done.
  - intros fuel path Hn Hf. unfold getMatchedServlet. rewrite Hn.
    destruct (fnmatch (c_str g) (c_str path)) eqn:Hm; [|by eapply match_loop_spins].
    destruct fuel; [lia|]. simpl. by rewrite Hg, Hm.
  - intros fuel path Hn Hf. unfold getMatchedServlet. simpl. rewrite Hn.
    by destruct fuel; [lia|].
Qed.

(** A pattern that matches only itself. *)
Definition exact_match (p t : txt) : bool := bool_decide (p = t).

Example globs_spin_witness :
  ∃ d, addGlobServlet 2 (chars "/a*") None ServletDispatch_new = Ret d ∧
  (∀ fuel path slt, path ≠ chars "/a*" → addGlobServlet fuel path slt d = OutOfFuel) ∧
  (∀ fuel path, path ≠ chars "/a*" → delGlobServlet fuel path d = OutOfFuel ∧
     getGlobServlet fuel path d = OutOfFuel) ∧
  (∀ fuel path, m_datas d !! key path = None → (0 < fuel)%nat →
     getMatchedServlet exact_match fuel path d =
       if exact_match (c_str (chars "/a*")) (c_str path) then Ret None else OutOfFuel) ∧
  (∀ fuel path, m_datas d !! key path = None → (0 < fuel)%nat →
     getMatchedServlet exact_match fuel path (with_globs [] d) = Ret (m_defaultServlet d)).
Proof.
  eexists. split; [reflexivity|].
  apply (globs_spin exact_match _ (chars "/a*") None []). reflexivity.
Defined.
