(* ===== verification/HttpSession.v ===== *)
(** * HTTP on the server side: src/src/http/http_parser.h, src/src/http/http_parser.cpp, src/src/http/http_session.cpp, src/src/http/http_server.h, src/src/http/http_server.cpp

    [HttpRequestParser] runs the parser of RequestParser.v and builds a
    request from its callbacks.  The session reads through the interface of
    Stream.v.  The first [offset] bytes of the read buffer are the list
    [pending]. *)

From Stdlib Require Import Ascii.
From coqutil Require Import Byte.
From S2P Require Import Prelude Util Http Stream Servlet RequestParser.

(** [src/src/http/http_parser.h:18-23] HttpParserError *)
Definition OK : Z := 0.
Definition INVALID_METHOD_ERROR : Z := -1001.
Definition INVALID_VERSION_ERROR : Z := -1000.

(** [strncmp(a, b, n) == 0] *)
Definition strneq (a b : txt) (n : Z) : bool :=
  bool_decide (ztake n (c_str a) = ztake n (c_str b)).

(** [src/src/http/http_parser.cpp:50-64] on_request_http_version: the version, if it is one of the two *)
Definition http_version (at_ : txt) (length : Z) : option Z :=
  if strneq at_ (chars "HTTP/1.1") length then Some 17
  else if strneq at_ (chars "HTTP/1.0") length then Some 16
  else None.

(** [std::string(at, length)]: a length that is negative, as a [size_t], is
    refused; one that goes past the data reads what the buffer held before. *)
Definition std_string (at_ : txt) (length : Z) : res txt :=
  if 2 ^ 63 <=? length then Throw "std::length_error"
  else if zlen at_ <? length then Undef "past the data"
  else Ret (ztake length at_).

(** [src/src/http/http_parser.cpp:20-76] on_request_method, ..., on_request_http_field: the request and the error after a callback *)
Definition on_request (ev : ParserEvent) (s : HttpRequest * Z) : res (HttpRequest * Z) :=
  let '(data, error) := s in
  match ev with
  | EvMethod at_ _ =>
      let m := CharsToHttpMethod at_ in
      Ret (if m =? INVALID_METHOD then (data, INVALID_METHOD_ERROR) else (q_setMethod m data, error))
  | EvUri _ _ => Ret s
  | EvFragment at_ n => v ← std_string at_ n; Ret (q_setFragment v data, error)
  | EvPath at_ n => v ← std_string at_ n; Ret (q_setPath v data, error)
  | EvQuery at_ n => v ← std_string at_ n; Ret (q_setQuery v data, error)
  | EvVersion at_ n =>
      match http_version at_ n with
      | Some v => Ret (q_setVersion v data, error)
      | None => Ret (data, INVALID_VERSION_ERROR)
      end
  | EvHeaderDone _ _ => Ret s
  | EvField field flen value vlen =>
      if flen =? 0 then Ret s
      else
        k ← std_string field flen; v ← std_string value vlen;
        Ret (q_setHeader k v data, error)
  end.

Section session.
(** What the memory of a new parser holds. *)
Context (junk : http_request_parser).
(** [boost::lexical_cast<uint64_t>]. *)
Context (lexical_cast : txt → option Z).
(** http.request.bufferSize, and whether a string of a size can be allocated. *)
Context (gHttpRequestBufferSize : Z) (can_alloc : Z → bool).
Context {S : Type} `{StreamOps S} (s_close : S → res S).

(** [src/src/http/http_parser.h:42-45] HttpRequestParser *)
Record HttpRequestParser := mkParser {
  m_parser : http_request_parser; m_data : HttpRequest; m_error : Z
}.

(** [src/src/http/http_parser.cpp:78-91] HttpRequestParser::HttpRequestParser *)
Definition HttpRequestParser_new : HttpRequestParser :=
  mkParser (http_request_parser_init junk) (HttpRequest_new 17 true) OK.

(** [src/src/http/http_parser.cpp:93-97] HttpRequestParser::execute: the characters consumed, and what the buffer then starts with *)
Definition execute (data : txt) (p : HttpRequestParser) : res (Z * txt * HttpRequestParser) :=
  '(ps, d, offset) ← http_request_parser_execute on_request (m_parser p) data 0 (m_data p, m_error p);
  Ret (offset, zdrop offset data, mkParser ps (fst d) (snd d)).

(** [src/src/http/http_parser.cpp:99-101] HttpRequestParser::isFinished *)
Definition isFinished (p : HttpRequestParser) : bool :=
  negb (http_request_parser_finish (m_parser p) =? 0).
(** [src/src/http/http_parser.cpp:103-105] HttpRequestParser::hasError *)
Definition hasError (p : HttpRequestParser) : bool :=
  negb (m_error p =? 0) || http_request_parser_has_error (m_parser p).
(** [src/src/http/http_parser.cpp:107-109] HttpRequestParser::getContentLength *)
Definition getContentLength (p : HttpRequestParser) : Z :=
  getAs lexical_cast (q_headers (m_data p)) (chars "content-length") 0.

Definition ascii_of (l : list byte) : txt := ascii_of_byte <$> l.
Definition bytes_of (l : txt) : list byte := byte_of_ascii <$> l.

(** [src/src/http/http_session.cpp:26-47] HttpSession::recvRequest, the loop on the header: the parser and the bytes left in the buffer, or nothing when the session was closed *)
Fixpoint header_loop (fuel : nat) (p : HttpRequestParser) (pending : txt) (s : S)
    : res (option (HttpRequestParser * txt) * S) :=
  match fuel with
  | O => OutOfFuel
  | Datatypes.S fuel =>
      '(len, d, s) ← s_read (gHttpRequestBufferSize - zlen pending) s;
      if s32 len <? 0 then s ← s_close s; Ret (None, s)
      else
        let data := pending ++ ascii_of d in
        '(nparse, rest, p) ← execute data p;
        if hasError p then s ← s_close s; Ret (None, s)
        else if zlen rest =? gHttpRequestBufferSize then s ← s_close s; Ret (None, s)
        else if isFinished p then Ret (Some (p, rest), s)
        else header_loop fuel p rest s
  end.

(** [src/src/http/http_session.cpp:48-71] HttpSession::recvRequest, the body *)
Definition recv_body (fuel : nat) (p : HttpRequestParser) (pending : txt) (s : S)
    : res (option HttpRequest * S) :=
  let length := s64 (getContentLength p) in
  let offset := zlen pending in
  if 0 <? length then
    if negb (can_alloc length) then Throw "body.resize"
    else if offset <? length then
      '(rt, buf, s) ← readFixLength fuel (replicate (Z.to_nat (length - offset)) Byte.x00)
                        (length - offset) s;
      if rt <=? 0 then s ← s_close s; Ret (None, s)
      else Ret (Some (q_init (q_setBody (pending ++ ascii_of buf) (m_data p))), s)
    else Ret (Some (q_init (q_setBody (ztake length pending) (m_data p))), s)
  else Ret (Some (q_init (m_data p)), s).

(** [src/src/http/http_session.cpp:18-72] HttpSession::recvRequest *)
Definition recvRequest (fuel : nat) (s : S) : res (option HttpRequest * S) :=
  '(r, s) ← header_loop fuel HttpRequestParser_new [] s;
  match r with
  | None => Ret (None, s)
  | Some (p, pending) => recv_body fuel p pending s
  end.

(** [src/src/http/http_session.cpp:74-79] HttpSession::sendResponse *)
Definition sendResponse (fuel : nat) (rsp : HttpResponse) (s : S) : res (Z * S) :=
  let data := bytes_of (r_dump rsp) in
  writeFixLength fuel data (zlen data) s.

(** [src/src/http/http_server.h:31-32] HttpServer *)
Record HttpServer := mkHttpServer { m_keepalive : bool; m_dispatch : ServletDispatch }.
(** [src/src/http/http_server.cpp:13-15] HttpServer::HttpServer *)
Definition HttpServer_new (keepalive : bool) : HttpServer := mkHttpServer keepalive ServletDispatch_new.
(** [src/src/http/http_server.h:25-25] HttpServer::setServletDispatch *)
Definition setServletDispatch (v : ServletDispatch) (t : HttpServer) : HttpServer :=
  mkHttpServer (m_keepalive t) v.

Context (fnmatch : txt → txt → bool).

(** [src/src/http/http_server.cpp:17-42] HttpServer::handleClient *)
Fixpoint handleClient (turns fuel : nat) (t : HttpServer) (s : S) : res S :=
  match turns with
  | O => OutOfFuel
  | Datatypes.S turns =>
      '(req, s) ← recvRequest fuel s;
      match req with
      | None => s_close s
      | Some req =>
          let rsp := HttpResponse_new (q_version req) (q_close req || negb (m_keepalive t)) in
          '(_, rsp) ← dispatch fnmatch fuel req rsp (m_dispatch t);
          '(_, s) ← sendResponse fuel rsp s;
          if negb (m_keepalive t) || q_close req then s_close s
          else handleClient turns fuel t s
      end
  end.
End session.
