(* ===== verification/HttpSessionProps.v ===== *)
(** * HTTP on the server side: theorems on HttpSession.v *)

From Stdlib Require Import Ascii.
From coqutil Require Import Byte.
From S2P Require Import Prelude Util Http Stream StreamProps Servlet Ragel RagelProps RequestTable.
From S2P Require Import RequestParser RequestParserProps HttpSession.

Lemma received_app {S} `{StreamOps S} (s1 s2 s3 : S) d1 d2 :
  received s1 d1 s2 → received s2 d2 s3 → received s1 (d1 ++ d2) s3.
Proof. induction 1; simpl; [done|]. intros. rewrite <- app_assoc. by econstructor; eauto. Qed.

Lemma received_one {S} `{StreamOps S} (s s' : S) n r d :
  s_read n s = Ret (r, d, s') → 0 <= r → received s d s'.
Proof.
  intros. replace d with (d ++ []) by apply app_nil_r.
  eapply received_step; [done|done|constructor].
Qed.

Lemma zlen_ascii_of d : zlen (ascii_of d) = zlen d.
Proof. unfold zlen, ascii_of. by rewrite length_fmap. Qed.

Lemma ascii_of_bytes t : ascii_of (bytes_of t) = t.
Proof.
  unfold ascii_of, bytes_of. rewrite <- list_fmap_compose. transitivity (id <$> t); [|apply list_fmap_id].
  apply list_fmap_ext. intros _ c _. apply ascii_of_byte_of_ascii.
Qed.

Section session.
Context (junk : http_request_parser).
Context (lexical_cast : txt → option Z) (bufsize : Z) (can_alloc : Z → bool).
Context {S : Type} `{StreamLaws S} (s_close : S → res S).
Hypothesis bufsize_int : 0 < bufsize < 2 ^ 31.

Local Notation header_loop := (header_loop bufsize s_close).

(** The header: the bytes of the reads are what the automaton consumed and
    what is left over. *)
Lemma header_loop_spec fuel p pending s p' rest s1 :
  zlen pending <= bufsize →
  header_loop fuel p pending s = Ret (Some (p', rest), s1) →
  ∃ d consumed, received s d s1 ∧ pending ++ ascii_of d = consumed ++ rest ∧
    zlen rest <= bufsize.
Proof.
  revert p pending s. induction fuel as [|fuel IH]; intros p pending s Hp E; [done|].
  simpl in E. pose proof (zlen_nonneg pending).
  destruct (s_read (bufsize - zlen pending) s) as [[[len d] s2]| | | |] eqn:Hr; try done.
  simpl in E. assert (0 <= bufsize - zlen pending) as Hn by lia.
  pose proof (s_read_law _ _ _ _ _ Hn Hr) as Hlaw.
  destruct (Z.ltb_spec (s32 len) 0) as [Hneg|Hpos]; [by destruct (s_close s2)|].
  destruct Hlaw as [[-> _]|[-> Hle]]; [by destruct Hpos|].
  destruct (execute (pending ++ ascii_of d) p) as [[[nparse rest0] p2]| | | |] eqn:He; try done.
  simpl in E.
  assert (rest0 = zdrop nparse (pending ++ ascii_of d)) as ->.
  { unfold execute in He. destruct (http_request_parser_execute _ _ _ _ _) as [[[ps ds] off]| | | |];
      try done. by injection He as <- <- <-. }
  assert (received s d s2) as Hrec.
  { eapply received_one; [exact Hr|]. apply zlen_nonneg. }
  assert (zlen (zdrop nparse (pending ++ ascii_of d)) <= bufsize) as Hrest.
  { unfold zlen, zdrop in *. rewrite length_drop, length_app. unfold ascii_of.
    rewrite length_fmap. lia. }
  destruct (hasError _); [by destruct (s_close s2)|].
  destruct (_ =? bufsize) eqn:Hb; [by destruct (s_close s2)|].
  destruct (isFinished _).
  - injection E as <- <- <-. exists d, (ztake nparse (pending ++ ascii_of d)).
    split; [done|]. by rewrite ztake_zdrop.
  - apply IH in E as (d2 & c2 & Hrec2 & E & Hz); [|done].
    exists (d ++ d2), (ztake nparse (pending ++ ascii_of d) ++ c2).
    split; [by eapply received_app|]. split; [|done].
    rewrite <- app_assoc, <- E, app_assoc, ztake_zdrop. unfold ascii_of.
    by rewrite fmap_app, app_assoc.
Qed.

(** The announced length of the body. *)
Definition body_length (q : HttpRequest) : Z :=
  s64 (getAs lexical_cast (q_headers q) (chars "content-length") 0).

Lemma q_init_headers q : q_headers (q_init q) = q_headers q ∧ q_body (q_init q) = q_body q.
Proof. unfold q_init. by repeat case_match. Qed.

Lemma recv_body_spec fuel (p : HttpRequestParser) pending s q s' :
  zlen pending < 2 ^ 63 →
  recv_body lexical_cast can_alloc s_close fuel p pending s = Ret (Some q, s') →
  q_headers q = q_headers (m_data p) ∧
  (body_length q <= 0 → s' = s ∧ q_body q = q_body (m_data p)) ∧
  (0 < body_length q <= zlen pending → s' = s ∧ q_body q = ztake (body_length q) pending) ∧
  (zlen pending < body_length q → ∃ d, received s d s' ∧
     zlen d = body_length q - zlen pending ∧ q_body q = pending ++ ascii_of d).
Proof.
  clear bufsize_int. intros Hp. unfold recv_body. fold (body_length (m_data p)).
  change (s64 (getContentLength lexical_cast p)) with (body_length (m_data p)).
  pose proof (zlen_nonneg pending).
  destruct (Z.ltb_spec 0 (body_length (m_data p))) as [HL|HL]; cbv zeta.
  2:{ intros [= <- <-]. unfold body_length. rewrite (proj1 (q_init_headers _)), (proj2 (q_init_headers _)).
      fold (body_length (m_data p)). split_and!; try done; lia. }
  destruct (can_alloc _); simpl; [|done].
  destruct (Z.ltb_spec (zlen pending) (body_length (m_data p))) as [Hlt|Hge].
  - set (L := body_length (m_data p)) in *.
    destruct (readFixLength _ _ _ s) as [[[rt buf] s2]| | | |] eqn:Er; try done. simpl.
    destruct (Z.leb_spec rt 0) as [Hrt|Hrt]; [by destruct (s_close s2)|].
    intros [= <- <-]. assert (L < 2 ^ 63) as HL63.
    { unfold L, body_length, s64, swrap. pose proof (Z.mod_pos_bound
        (getAs lexical_cast (q_headers (m_data p)) (chars "content-length") 0 + 2 ^ (64 - 1)) (2 ^ 64)).
      lia. }
    unfold body_length. rewrite (proj1 (q_init_headers _)), (proj2 (q_init_headers _)).
    change (q_headers (q_setBody _ _)) with (q_headers (m_data p)).
    fold (body_length (m_data p)). fold L. split; [done|]. split; [lia|]. split; [lia|]. intros _.
    unfold readFixLength in Er.
    destruct (readFix_loop _ _ _ _ s) as [[[ok b] s3]| | | |] eqn:El; try done. simpl in Er.
    assert (zlen (replicate (Z.to_nat (L - zlen pending)) Byte.x00) = L - zlen pending) as Hz.
    { unfold zlen. rewrite length_replicate. unfold zlen in *. lia. }
    apply readFix_loop_spec in El as (d & s4 & Hrec & -> & Hle & Hok); [|lia..].
    injection Er as <- <- <-. destruct ok; [|lia]. destruct Hok as [Hd ->].
    exists d. split_and!; [done|done|]. simpl. do 2 f_equal. unfold splice. simpl.
    rewrite zdrop_ge, app_nil_r; [done|]. lia.
  - intros [= <- <-]. unfold body_length.
    rewrite (proj1 (q_init_headers _)), (proj2 (q_init_headers _)).
    change (q_headers (q_setBody _ _)) with (q_headers (m_data p)).
    fold (body_length (m_data p)). split_and!; try done; lia.
Qed.
End session.

(** The body of a request.  When [recvRequest] gives a request, the bytes
    it read are those the parser consumed, then [pending]; with a content
    length of L > 0 the body has exactly L characters, namely the pending ones
    and, if they are fewer, the next bytes of the stream.  If they are more,
    what follows the body (the start of a pipelined request) is dropped: it is
    neither in the body nor left in the stream. *)
Theorem recvRequest_body {S} `{StreamLaws S} junk (cast : txt → option Z)
    bufsize can_alloc (s_close : S → res S) fuel s q s' :
  0 < bufsize < 2 ^ 31 →
  recvRequest junk cast bufsize can_alloc s_close fuel s = Ret (Some q, s') →
  ∃ d consumed pending s1, received s d s1 ∧ ascii_of d = consumed ++ pending ∧
    (body_length cast q <= 0 → s' = s1) ∧
    (0 < body_length cast q <= zlen pending →
       s' = s1 ∧ q_body q = ztake (body_length cast q) pending) ∧
    (zlen pending < body_length cast q → ∃ d2, received s1 d2 s' ∧
       zlen d2 = body_length cast q - zlen pending ∧ q_body q = pending ++ ascii_of d2) ∧
    (0 < body_length cast q → zlen (q_body q) = body_length cast q).
Proof.
  intros Hb. unfold recvRequest.
  destruct (header_loop _ _ _ _ _ s) as [[[[p pending]|] s1]| | | |] eqn:Eh; try done.
  simpl. intros E.
  apply header_loop_spec in Eh as (d & consumed & Hrec & Heq & Hz);
    [|first [done|unfold zlen; simpl; lia|apply _]..].
  apply recv_body_spec in E as (_ & H1 & H2 & H3); [|first [lia|apply _]..].
  exists d, consumed, pending, s1. split_and!; auto; [naive_solver|].
  intros HL. destruct (Z.le_gt_cases (body_length cast q) (zlen pending)) as [Hle|Hgt].
  - destruct H2 as [_ ->]; [lia|]. apply zlen_ztake. lia.
  - destruct H3 as (d2 & _ & Hd2 & ->); [lia|]. rewrite zlen_app, zlen_ascii_of. lia.
Qed.

(** ** A request in three reads: the header, half of the body, and the rest
    with the start of the next request. *)
Definition post_header : txt :=
  chars "POST /a HTTP/1.1" ++ crlf ++ chars "content-length: 4" ++ crlf ++ crlf.
Definition post_stream : SocketStream script :=
  mkSocketStream (Some (mkScript [bytes_of (post_header ++ chars "ab"); bytes_of (chars "cd");
    bytes_of (chars "GET /")] [])) true.
Definition zero_request_parser : http_request_parser := mkReqP 0 0 0 0 0 0 0 0 0 0 0.
Definition cast_4 (s : txt) : option Z := if bool_decide (s = chars "4") then Some 4 else None.

Example recvRequest_body_witness :
  ∃ q s', recvRequest zero_request_parser cast_4 4096 (λ n, n <? 100) Stream.close 9 post_stream =
            Ret (Some q, s') ∧
  ∃ d consumed pending s1, received post_stream d s1 ∧ ascii_of d = consumed ++ pending ∧
    (body_length cast_4 q <= 0 → s' = s1) ∧
    (0 < body_length cast_4 q <= zlen pending →
       s' = s1 ∧ q_body q = ztake (body_length cast_4 q) pending) ∧
    (zlen pending < body_length cast_4 q → ∃ d2, received s1 d2 s' ∧
       zlen d2 = body_length cast_4 q - zlen pending ∧ q_body q = pending ++ ascii_of d2) ∧
    (0 < body_length cast_4 q → zlen (q_body q) = body_length cast_4 q).
Proof.
  eexists _, _. split; [vm_compute; reflexivity|].
  eapply (recvRequest_body zero_request_parser cast_4 4096 (λ n, n <? 100) Stream.close 9
    post_stream); [lia|vm_compute; reflexivity].
Defined.

(** ** A header in two reads *)

Lemma execute_parser data p n rest p' :
  data ≠ [] → execute data p = Ret (n, rest, p') →
  ∃ cs q s, run request_machine (negb (rq_uri_relaxed (m_parser p) =? 0)) (request_act on_request data)
              request_breaks data (rq_cs (m_parser p)) 0 (m_parser p, (m_data p, m_error p)) =
            Ret (cs, q, s) ∧
    n = u64 (rq_nread (m_parser p) + q) ∧ rest = zdrop n data ∧ rq_nread (m_parser p') = n ∧
    n <= zlen data ∧
    rq_cs (m_parser p') = (if http_request_parser_has_error (m_parser p) then rq_cs (m_parser p) else cs).
Proof.
  unfold execute. intros Hne E.
  destruct (http_request_parser_execute _ _ _ _ _) as [[[ps d] off]| | | |] eqn:Ee; try done.
  injection E as <- <- <-. apply execute_inv in Ee as (cs & q & s & E & _ & H); [|exact Hne].
  exists cs, q, s. split; [exact E|]. cbn [m_parser]. tauto.
Qed.

(** A first read that neither fails nor completes the header is consumed. *)
Lemma execute_incomplete junk data n rest p' :
  data ≠ [] → zlen data < 2 ^ 31 → execute data (HttpRequestParser_new junk) = Ret (n, rest, p') →
  isFinished p' = false → n = zlen data ∧ rest = [] ∧ rq_nread (m_parser p') = zlen data.
Proof.
  intros Hne Hlen E Hf. apply execute_parser in E as (cs & q & s & E & -> & -> & -> & _ & Hcs); [|exact Hne].
  unfold isFinished, http_request_parser_finish in Hf.
  destruct (http_request_parser_has_error (m_parser p')) eqn:He; [done|].
  destruct (http_request_parser_is_finished (m_parser p')) eqn:Hi; [done|].
  unfold http_request_parser_has_error, http_request_parser_is_finished in He, Hi.
  change (http_request_parser_has_error _) with false in Hcs. cbv iota in Hcs. rewrite Hcs in He, Hi.
  pose proof (run_end _ _ _ _ _ _ _ _ _ _ _ _ request_sane request_start_case E) as [Hq Hend].
  change (rq_nread _) with 0. rewrite Z.add_0_l, u64_small by lia.
  assert (q = zlen data) as ->.
  { destruct (Z.eq_dec q (zlen data)); [done|]. unfold http_request_parser_error in He. lia. }
  split; [done|]. split; [|done]. apply zdrop_ge. lia.
Qed.

(** C10: a header that comes in two reads.  [nread] counts the characters of
    all the calls of [execute], but each call compares it with the length of
    its own data: if the first read is a part of a header and the second is
    shorter, [recvRequest] does not return, whatever the text: the process
    aborts on the assertion (or before, in the automaton's callbacks). *)
Theorem split_header_aborts {S} `{StreamOps S} junk cast bufsize can_alloc (s_close : S → res S) fuel
    (s s1 s2 : S) d1 d2 n rest p1 :
  0 < zlen d2 < zlen d1 → zlen d1 < bufsize < 2 ^ 31 →
  s_read bufsize s = Ret (zlen d1, bytes_of d1, s1) →
  s_read bufsize s1 = Ret (zlen d2, bytes_of d2, s2) →
  execute d1 (HttpRequestParser_new junk) = Ret (n, rest, p1) →
  hasError p1 = false → isFinished p1 = false →
  ¬ ∃ r, recvRequest junk cast bufsize can_alloc s_close fuel s = Ret r.
Proof.
  intros Hd Hb Hr1 Hr2 E1 He Hf [r E]. revert E. assert (d1 ≠ [] ∧ d2 ≠ []) as [Hn1 Hn2].
  { split; intros ->; change (zlen (@nil ascii)) with 0 in *; lia. }
  pose proof (execute_incomplete _ _ _ _ _ Hn1 ltac:(lia) E1 Hf) as (-> & -> & Hnr).
  unfold recvRequest. destruct fuel as [|[|fuel]]; [done| |]; cbn [header_loop];
    change (zlen (@nil ascii)) with 0; rewrite Z.sub_0_r, Hr1, ret_bind, s32_small,
    (proj2 (Z.ltb_ge _ 0)) by lia; cbn [app]; rewrite ascii_of_bytes, E1, ret_bind, He, Hf;
    change (zlen (@nil ascii)) with 0; rewrite (proj2 (Z.eqb_neq 0 _)) by lia; [done|].
  rewrite Z.sub_0_r, Hr2, ret_bind, s32_small, (proj2 (Z.ltb_ge _ 0)) by lia. cbn [app].
  rewrite ascii_of_bytes. destruct (execute d2 p1) as [[[n2 rest2] p2]| | | |] eqn:E2; try done.
  apply execute_parser in E2 as (cs & q & s' & E2 & Hn & _ & _ & Hle & _); [|exact Hn2].
  apply run_bounds in E2. rewrite Hnr, u64_small in Hn by lia. lia.
Qed.

Definition half_stream : SocketStream script :=
  mkSocketStream (Some (mkScript [bytes_of (chars "GET / HTTP/1.1" ++ crlf); bytes_of crlf] [])) true.
Example split_header_aborts_witness :
  ¬ ∃ r, recvRequest zero_request_parser cast_4 4096 (λ n, n <? 100) Stream.close 9 half_stream = Ret r.
Proof.
  eapply (split_header_aborts zero_request_parser cast_4 4096 (λ n, n <? 100) Stream.close 9 half_stream
    _ _ (chars "GET / HTTP/1.1" ++ crlf) crlf);
    [split; reflexivity|split; reflexivity|vm_compute; reflexivity..].
Defined.
