(* ===== verification/RequestRoundtrip.v ===== *)
(** * A request that is rendered is parsed back

    What [HttpRequest::dump] prints for a request with a sensible path, query
    and header is recognised by the generated automaton, and the callbacks
    rebuild the request from it.  The automaton is walked symbolically: on
    the stretches of a message that may be any text of a class, it stays in a
    set of states that is closed under the class, which is checked on the
    table of RequestTable.v by computation. *)

From Stdlib Require Import Ascii.
From stdpp Require Import pretty.
From coqutil Require Import Byte.
From S2P Require Import Prelude Util Http HttpProps Ragel RequestTable RequestParser.
From S2P Require Import RequestParserProps Servlet Stream StreamProps HttpSession HttpSessionProps.

#[local] Opaque request_machine.

(** ** The classes of characters *)

Definition alnum (c : ascii) : bool :=
  let z := code c in between 48 z 57 || between 65 z 90 || between 97 z 122.
Definition one_of (s : string) (c : ascii) : bool := existsb (Ascii.eqb c) (chars s).
(** A character of a header's name. *)
Definition name_char (c : ascii) : bool := alnum c || one_of "!#$%&'*+-.^_`|~" c.
(** A character of a header's value: no NUL, DEL or end of line. *)
Definition value_char (c : ascii) : bool :=
  let z := code c in negb ((z =? 0) || (z =? 127) || (z =? 10) || (z =? 13)).
Definition blank_char (c : ascii) : bool := let z := code c in (z =? 32) || (z =? 9).
(** A character of a path segment, of a path, and of a query or fragment. *)
Definition uri_char (c : ascii) : bool := alnum c || one_of "-._~!$&'()*+,;=:@" c.
Definition path_char (c : ascii) : bool := uri_char c || one_of "/" c.
Definition query_char (c : ascii) : bool := uri_char c || one_of "/?" c.

(** ** Steps *)

Section walk.
Context (r : bool).
Local Notation next := (next request_machine r).
Local Notation walk := (walk (quiet request_machine r)).
Local Notation walk1 := (quiet request_machine r).

(** A state that does with these characters what [cs] does, after [al]. *)
Definition enters (ok : ascii → bool) (e cs : Z) (al : list RequestAction) : bool :=
  forallb (λ c, negb (ok c) ||
    match next e (schar c), walk1 cs c with
    | Some (al', n), Some n' => bool_decide (al' = al ∧ n = n' ∧ n ≠ 0)
    | _, _ => false
    end) all_ascii.

Lemma enters_step ok e cs al c :
  enters ok e cs al = true → ok c = true →
  ∃ n, next e (schar c) = Some (al, n) ∧ walk1 cs c = Some n ∧ n ≠ 0.
Proof.
  intros H Hc. pose proof (forall_ascii _ H c) as H1. cbn beta in H1. rewrite Hc in H1.
  cbn [negb orb] in H1. destruct (next e (schar c)) as [[al' n]|]; [|done].
  destruct (walk1 cs c) as [n'|]; [|done]. apply bool_decide_eq_true_1 in H1 as (-> & <- & Hn). eauto.
Qed.
End walk.

Definition escapable (ok : ascii → bool) (c : ascii) : bool := ok c || (code c =? 37).

Lemma escaped_head ok c t : escaped ok (c :: t) = true → escapable ok c = true.
Proof.
  simpl. unfold escapable. destruct (code c =? 37); [by rewrite orb_true_r|].
  intros [-> _]%andb_true_iff. done.
Qed.

Lemma name_states r : closed (quiet request_machine r) name_char [14] = true.
Proof. destruct r; vm_compute; reflexivity. Qed.
Lemma name_enter r : enters r name_char 13 14 [StartField] = true.
Proof. destruct r; vm_compute; reflexivity. Qed.
Lemma value_states r : closed (quiet request_machine r) value_char [16] = true.
Proof. destruct r; vm_compute; reflexivity. Qed.
Lemma value_enter r :
  enters r (λ c, value_char c && negb (blank_char c)) 15 16 [StartValue] = true.
Proof. destruct r; vm_compute; reflexivity. Qed.
Lemma path_states r :
  closed (quiet request_machine r) path_char [26] = true ∧ closed_escape (quiet request_machine r) [26] = true.
Proof. destruct r; split; vm_compute; reflexivity. Qed.
Lemma path_enter r : enters r (escapable uri_char) 33 26 [] = true.
Proof. destruct r; vm_compute; reflexivity. Qed.
Lemma query_states r :
  closed (quiet request_machine r) query_char [30] = true ∧ closed_escape (quiet request_machine r) [30] = true.
Proof. destruct r; split; vm_compute; reflexivity. Qed.
Lemma query_enter r : enters r (escapable query_char) 29 30 [StartQuery] = true.
Proof. destruct r; vm_compute; reflexivity. Qed.
Lemma fragment_states r :
  closed (quiet request_machine r) query_char [21] = true ∧ closed_escape (quiet request_machine r) [21] = true.
Proof. destruct r; split; vm_compute; reflexivity. Qed.
Lemma fragment_enter r : enters r (escapable query_char) 20 21 [Mark] = true.
Proof. destruct r; vm_compute; reflexivity. Qed.

(** The name of a method leads to the state after the blank. *)
Definition method_walks (r : bool) (m : string) : bool :=
  match chars m with
  | [] => false
  | c :: t =>
      match Ragel.next request_machine r 1 (schar c) with
      | Some (al, n) => bool_decide (al = [Mark] ∧ n ≠ 0) &&
          match Ragel.walk (quiet request_machine r) t n with
          | Some n' => bool_decide (Ragel.next request_machine r n' (schar " ") = Some ([RequestMethod], 3))
          | None => false
          end
      | None => false
      end
  end.
Lemma methods_walk r :
  forallb (λ m, bool_decide (m = "M - SEARCH"%string) || method_walks r m) s_method_string = true.
Proof. destruct r; vm_compute; reflexivity. Qed.

(** The single characters between the parts of a message. *)
Definition fixed_steps : list (Z * ascii * list RequestAction * Z) :=
  [(3, "/"%char, [Mark], 33);
   (33, " "%char, [RequestPath; RequestUri], 4); (26, " "%char, [RequestPath; RequestUri], 4);
   (33, "#"%char, [RequestPath; RequestUri], 20); (26, "#"%char, [RequestPath; RequestUri], 20);
   (33, "?"%char, [RequestPath], 29); (26, "?"%char, [RequestPath], 29);
   (30, " "%char, [QueryString; RequestUri], 4); (30, "#"%char, [QueryString; RequestUri], 20);
   (21, " "%char, [Fragment], 4); (4, "H"%char, [Mark], 5);
   (12, ascii_of_nat 13, [HttpVersion], 17); (17, ascii_of_nat 10, [], 13);
   (14, ":"%char, [WriteField], 15); (15, " "%char, [StartValue], 15);
   (15, ascii_of_nat 13, [StartValue; WriteValue], 17); (16, ascii_of_nat 13, [WriteValue], 17);
   (13, ascii_of_nat 13, [StartField], 18); (18, ascii_of_nat 10, [Done], 348)].
Lemma fixed_steps_ok r :
  forallb (λ '(e, c, al, n), bool_decide (Ragel.next request_machine r e (schar c) = Some (al, n)))
    fixed_steps = true.
Proof. destruct r; vm_compute; reflexivity. Qed.
Lemma fixed_step r e c al n :
  existsb (λ x, bool_decide (x = (e, c, al, n))) fixed_steps = true →
  Ragel.next request_machine r e (schar c) = Some (al, n).
Proof.
  rewrite existsb_exists. intros (x & Hin & ->%bool_decide_eq_true_1).
  pose proof (fixed_steps_ok r) as H. rewrite forallb_forall in H.
  apply H in Hin. by apply bool_decide_eq_true_1 in Hin.
Qed.
Lemma version_walk r v :
  v = 16 ∨ v = 17 → Ragel.walk (quiet request_machine r) (tail (version_txt v)) 5 = Some 12.
Proof. intros [-> | ->]; destruct r; vm_compute; reflexivity. Qed.

(** ** Texts that lead from a state into a loop *)

Section parse.
Context (r : bool) (buffer : txt).
Hypothesis len_int : zlen buffer < 2 ^ 31.
Local Notation next := (next request_machine r).
Local Notation walk := (walk (quiet request_machine r)).
Local Notation run := (run request_machine r (request_act on_request buffer) request_breaks).
Local Notation marks := (marks buffer http_request_parser_start 0 (false, false)).
Local Notation State := (http_request_parser * (HttpRequest * Z))%type.

Definition leads (e cs : Z) (al : list RequestAction) (t : txt) : Prop :=
  ∃ c t' n, t = c :: t' ∧ next e (schar c) = Some (al, n) ∧ n ≠ 0 ∧ walk t' n = Some cs.

Lemma leads_walk ok e cs al c t :
  enters r ok e cs al = true → ok c = true → walk (c :: t) cs = Some cs → leads e cs al (c :: t).
Proof.
  intros He Hk Hw. destruct (enters_step r _ _ _ _ c He Hk) as (n & Hn & Hw1 & Hn0).
  exists c, t, n. split; [reflexivity|]. split; [exact Hn|]. split; [exact Hn0|].
  simpl in Hw. rewrite Hw1 in Hw. exact Hw.
Qed.

Lemma leads_plain ok ok' e cs al c t :
  closed (quiet request_machine r) ok [cs] = true → enters r ok' e cs al = true →
  ok' c = true → forallb ok (c :: t) = true → leads e cs al (c :: t).
Proof.
  intros Hc He Hk Ht. eapply leads_walk; [exact He|exact Hk|].
  destruct (walk_closed (quiet request_machine r) ok [cs] (c :: t) cs Hc Ht) as (n & -> & Hn);
    [apply list_elem_of_singleton; reflexivity|]. apply list_elem_of_singleton in Hn as ->. reflexivity.
Qed.

Lemma leads_escaped ok ok' e cs al c t :
  closed (quiet request_machine r) ok [cs] = true → closed_escape (quiet request_machine r) [cs] = true →
  enters r ok' e cs al = true → ok' c = true → escaped ok (c :: t) = true → leads e cs al (c :: t).
Proof.
  intros Hc Hce He Hk Ht. eapply leads_walk; [exact He|exact Hk|].
  destruct (walk_escaped (quiet request_machine r) ok [cs] (c :: t) cs Hc Hce Ht) as (n & -> & Hn);
    [apply list_elem_of_singleton; reflexivity|]. apply list_elem_of_singleton in Hn as ->. reflexivity.
Qed.

Lemma run_leads e cs al t rest p s s' :
  leads e cs al t → existsb request_breaks al = false →
  actions (request_act on_request buffer) al p s = Ret s' →
  run (t ++ rest) e p s = run rest cs (p + zlen t) s'.
Proof.
  intros (c & t' & n & -> & Hn & Hn0 & Hw) Hb Ha. cbn [app].
  rewrite (run_step _ _ _ _ _ _ _ _ _ _ _ _ Hn Hn0 Ha), Hb.
  rewrite (run_walk _ _ _ _ _ _ _ _ _ _ Hw), zlen_cons. f_equal. lia.
Qed.

(** A single character. *)
Lemma run_char c e cs al rest p s s' :
  next e (schar c) = Some (al, cs) → cs ≠ 0 → existsb request_breaks al = false →
  actions (request_act on_request buffer) al p s = Ret s' →
  run (c :: rest) e p s = run rest cs (p + 1) s'.
Proof. intros Hn Hn0 Hb Ha. by rewrite (run_step _ _ _ _ _ _ _ _ _ _ _ _ Hn Hn0 Ha), Hb. Qed.

(** The marks after an action. *)
Lemma marks_later p p' ps : marks p ps → p <= p' → marks p' ps.
Proof. intros Hm Hp. by eapply marks_weaken. Qed.
Lemma marks_mark p p' ps : marks p ps → 0 <= p < zlen buffer → p <= p' → marks p' (rq_set_mark p ps).
Proof. intros [] Hp Hp'. split; simpl; try done; lia. Qed.
Lemma marks_start p p' ps :
  marks p ps → 0 <= p < zlen buffer → p <= p' → marks p' (rq_set_field p (rq_field_len ps) ps).
Proof. intros [] Hp Hp'. split; simpl; try done; lia. Qed.
Lemma marks_len p p' ps :
  marks p ps → p < zlen buffer → p <= p' →
  marks p' (rq_set_field (rq_field_start ps) (len_to (rq_field_start ps) p) ps).
Proof. intros [] Hp Hp'. split; simpl; unfold len_to; rewrite ?u64_small; try done; lia. Qed.
Lemma marks_query p p' q ps : marks p ps → p <= p' → marks p' (rq_set_query q ps).
Proof. intros [] Hp. split; simpl; try done; lia. Qed.

(** What lies between a mark and the position. *)
Lemma slice_string pre tok post m p :
  buffer = pre ++ tok ++ post → m = zlen pre → p = m + zlen tok →
  std_string (ptr_to buffer m) (len_to m p) = Ret tok.
Proof.
  intros Hb -> ->. pose proof (zlen_nonneg tok). pose proof (zlen_nonneg pre).
  assert (zlen tok <= zlen buffer) as Hle.
  { rewrite Hb, !zlen_app. pose proof (zlen_nonneg post). lia. }
  unfold std_string, ptr_to, len_to. rewrite Z.add_simpl_l, u64_small by lia.
  rewrite (proj2 (Z.leb_gt (2 ^ 63) _)) by lia.
  replace (zdrop (zlen pre) buffer) with (tok ++ post).
  2:{ rewrite Hb, zdrop_app_r, Z.sub_diag by lia. done. }
  rewrite (proj2 (Z.ltb_ge _ _)) by (rewrite zlen_app; pose proof (zlen_nonneg post); lia).
  by rewrite ztake_app_l, ztake_all by lia.
Qed.

(** ** The request line *)

Lemma method_part i m rest ps q :
  s_method_string !! i = Some m → m ≠ "M - SEARCH"%string →
  buffer = chars m ++ " "%char :: rest → marks 0 ps →
  ∃ ps', run buffer 1 0 (ps, (q, OK)) =
      run rest 3 (zlen (chars m) + 1) (ps', (q_setMethod (Z.of_nat i) q, OK)) ∧
    marks (zlen (chars m) + 1) ps'.
Proof.
  intros Hi Hne Hb Hm. pose proof (methods_walk r) as Hw. rewrite forallb_forall in Hw.
  specialize (Hw m). rewrite <- list_elem_of_In in Hw. specialize (Hw (list_elem_of_lookup_2 _ _ _ Hi)).
  rewrite (bool_decide_eq_false_2 _ Hne) in Hw. cbn [orb] in Hw. unfold method_walks in Hw.
  destruct (chars m) as [|c t] eqn:Hc; [done|].
  destruct (Ragel.next _ r 1 (schar c)) as [[al n]|] eqn:Hn; [|done].
  apply andb_true_iff in Hw as [[-> Hn0]%bool_decide_eq_true_1 Hw].
  destruct (Ragel.walk _ t n) as [n'|] eqn:Hwalk; [|done]. apply bool_decide_eq_true_1 in Hw.
  pose proof (zlen_nonneg t). pose proof (zlen_nonneg rest).
  assert (zlen buffer = zlen t + zlen rest + 2) as Hlen.
  { rewrite Hb, zlen_app, !zlen_cons. lia. }
  exists (rq_set_mark 0 ps). split; [|rewrite zlen_cons; apply marks_mark; [exact Hm|lia|lia]].
  rewrite Hb at 2. cbn [app].
  eapply eq_trans; [eapply run_char; [exact Hn|exact Hn0|reflexivity|reflexivity]|].
  eapply eq_trans; [eapply run_walk; exact Hwalk|].
  eapply eq_trans; [eapply run_char; [exact Hw|lia|reflexivity|]|].
  - cbn [actions request_act]. unfold called. cbn [fst snd rq_set_mark rq_mark].
    unfold on_request, ptr_to. change (zdrop 0 buffer) with buffer. rewrite Hb, <- Hc.
    destruct (proj1 method_names i m Hi) as (_ & _ & Hchars). rewrite Hchars.
    rewrite (proj2 (Z.eqb_neq _ _)); [reflexivity|].
    apply lookup_lt_Some in Hi. unfold INVALID_METHOD. simpl in Hi. lia.
  - rewrite zlen_cons. f_equal; lia.
Qed.

(** A path: it starts with a slash that no other slash follows. *)
Definition path_ok (path : txt) : Prop :=
  ∃ t, path = "/"%char :: t ∧ escaped path_char t = true ∧
    match t with c :: _ => escapable uri_char c = true | [] => True end.
Definition query_ok (query : txt) : Prop := escaped query_char query = true.

Lemma path_walk pre path post p ps d :
  buffer = pre ++ path ++ post → p = zlen pre → path_ok path → marks p ps →
  ∃ k ps', (k = 33 ∨ k = 26) ∧
    run (path ++ post) 3 p (ps, d) = run post k (p + zlen path) (ps', d) ∧
    rq_mark ps' = p ∧ marks (p + zlen path) ps'.
Proof.
  intros Hb Hp (t & -> & Ht & Hhead) Hm. pose proof (zlen_nonneg t). pose proof (zlen_nonneg pre).
  pose proof (zlen_nonneg post).
  assert (zlen buffer = zlen pre + zlen t + zlen post + 1) as Hlen.
  { rewrite Hb, !zlen_app, !zlen_cons. lia. }
  assert (marks (p + zlen ("/"%char :: t)) (rq_set_mark p ps)) as Hm'.
  { rewrite zlen_cons. apply marks_mark; [exact Hm|lia|lia]. }
  assert (run (("/"%char :: t) ++ post) 3 p (ps, d) =
    run (t ++ post) 33 (p + 1) (rq_set_mark p ps, d)) as Hstep.
  { cbn [app]. apply (run_char "/" 3 33 [Mark]); [by apply fixed_step|lia|reflexivity|reflexivity]. }
  destruct t as [|c t].
  - exists 33, (rq_set_mark p ps). split; [by left|]. split; [|split; [reflexivity|exact Hm']].
    rewrite Hstep. reflexivity.
  - exists 26, (rq_set_mark p ps). split; [by right|]. split; [|split; [reflexivity|exact Hm']].
    rewrite Hstep. eapply eq_trans; [apply (run_leads 33 26 []); [|reflexivity|reflexivity]|].
    + apply (leads_escaped path_char (escapable uri_char));
      [exact (proj1 (path_states r))|exact (proj2 (path_states r))|exact (path_enter r)|exact Hhead|exact Ht].
    + rewrite (zlen_cons "/"%char). f_equal. lia.
Qed.

(** The callbacks that store a part, at its end. *)
Lemma act_path pre tok post p ps q :
  buffer = pre ++ tok ++ post → p = zlen pre → rq_mark ps = p →
  request_act on_request buffer RequestPath (p + zlen tok) (ps, (q, OK)) =
    Ret (ps, (q_setPath tok q, OK)).
Proof.
  intros Hb Hp Hm. pose proof (slice_string pre tok post p (p + zlen tok) Hb Hp eq_refl) as E.
  unfold request_act, called, on_request. cbn [fst snd]. rewrite Hm, E. reflexivity.
Qed.
Lemma act_query pre tok post p ps q :
  buffer = pre ++ tok ++ post → p = zlen pre → rq_query_start ps = p →
  request_act on_request buffer QueryString (p + zlen tok) (ps, (q, OK)) =
    Ret (ps, (q_setQuery tok q, OK)).
Proof.
  intros Hb Hp Hm. pose proof (slice_string pre tok post p (p + zlen tok) Hb Hp eq_refl) as E.
  unfold request_act, called, on_request. cbn [fst snd]. rewrite Hm, E. reflexivity.
Qed.
Lemma act_fragment pre tok post p ps q :
  buffer = pre ++ tok ++ post → p = zlen pre → rq_mark ps = p →
  request_act on_request buffer Fragment (p + zlen tok) (ps, (q, OK)) =
    Ret (ps, (q_setFragment tok q, OK)).
Proof.
  intros Hb Hp Hm. pose proof (slice_string pre tok post p (p + zlen tok) Hb Hp eq_refl) as E.
  unfold request_act, called, on_request. cbn [fst snd]. rewrite Hm, E. reflexivity.
Qed.
Lemma actions_one a p s s' :
  request_act on_request buffer a p s = Ret s' →
  actions (request_act on_request buffer) [a] p s = Ret s'.
Proof. intros E. cbn [actions]. rewrite E. reflexivity. Qed.
Lemma actions_uri a p s ps d :
  request_act on_request buffer a p s = Ret (ps, d) →
  actions (request_act on_request buffer) [a; RequestUri] p s = Ret (ps, d).
Proof. intros E. cbn [actions]. rewrite E. by destruct d. Qed.

(** From the hash, if there is one, to the blank. *)
Definition hash (frag : txt) : txt := if is_empty frag then [] else "#"%char :: frag.
Definition quest (query : txt) : txt := if is_empty query then [] else "?"%char :: query.

Lemma fragment_part pre frag rest p ps q :
  buffer = pre ++ frag ++ " "%char :: rest → p = zlen pre → frag ≠ [] → query_ok frag → marks p ps →
  ∃ ps', run (frag ++ " "%char :: rest) 20 p (ps, (q, OK)) =
      run rest 4 (p + zlen frag + 1) (ps', (q_setFragment frag q, OK)) ∧
    marks (p + zlen frag + 1) ps'.
Proof.
  intros Hb Hp Hne Hok Hm. pose proof (zlen_nonneg rest). pose proof (zlen_nonneg pre).
  pose proof (zlen_nonneg frag).
  assert (zlen buffer = zlen pre + zlen frag + zlen rest + 1) as Hlen.
  { rewrite Hb, !zlen_app, !zlen_cons. lia. }
  exists (rq_set_mark p ps). split; [|apply marks_mark; [exact Hm|lia|lia]].
  eapply eq_trans; [apply (run_leads 20 21 [Mark]); [|reflexivity|reflexivity]|].
  - destruct frag as [|c frag]; [done|].
    apply (leads_escaped query_char (escapable query_char));
      [exact (proj1 (fragment_states r))|exact (proj2 (fragment_states r))|exact (fragment_enter r)| |exact Hok].
    by eapply escaped_head.
  - apply (run_char " " 21 4 [Fragment]); [by apply fixed_step|lia|reflexivity|].
    apply actions_one. eapply act_fragment; [exact Hb|exact Hp|reflexivity].
Qed.

Lemma q_setFragment_same q : q_fragment q = [] → q_setFragment [] q = q.
Proof. by destruct q; simpl; intros ->. Qed.
Lemma q_setQuery_same q : q_query q = [] → q_setQuery [] q = q.
Proof. by destruct q; simpl; intros ->. Qed.

(** From the end of the path or the query, whose text [al] stores. *)
Lemma hash_part e al pre frag rest p ps q q1 :
  existsb (λ x, bool_decide (x = (e, " "%char, al, 4))) fixed_steps = true →
  existsb (λ x, bool_decide (x = (e, "#"%char, al, 20))) fixed_steps = true →
  existsb request_breaks al = false →
  actions (request_act on_request buffer) al p (ps, (q, OK)) = Ret (ps, (q1, OK)) →
  q_fragment q1 = [] → buffer = pre ++ hash frag ++ " "%char :: rest → p = zlen pre → query_ok frag →
  marks p ps →
  ∃ ps', run (hash frag ++ " "%char :: rest) e p (ps, (q, OK)) =
      run rest 4 (p + zlen (hash frag) + 1) (ps', (q_setFragment frag q1, OK)) ∧
    marks (p + zlen (hash frag) + 1) ps'.
Proof.
  intros H1 H2 Hbr Ha Hq Hb Hp Hok Hm. destruct frag as [|c frag].
  - exists ps. rewrite q_setFragment_same by done. change (zlen (hash [])) with 0. rewrite Z.add_0_r.
    cbn [hash is_empty app] in *.
    split; [|apply (marks_later p); [exact Hm|lia]].
    eapply run_char; [apply fixed_step; exact H1|lia|exact Hbr|exact Ha].
  - cbn [hash is_empty app] in *.
    destruct (fragment_part (pre ++ ["#"%char]) (c :: frag) rest (p + 1) ps q1) as (ps' & E & Hm').
    + rewrite Hb, <- app_assoc. reflexivity.
    + rewrite zlen_app, zlen_cons, (zlen_nil (A:=ascii)). lia.
    + done.
    + exact Hok.
    + apply (marks_later p); [exact Hm|lia].
    + exists ps'. rewrite (zlen_cons "#"%char).
      replace (p + (1 + zlen (c :: frag)) + 1) with (p + 1 + zlen (c :: frag) + 1) by lia.
      split; [|exact Hm']. rewrite <- E.
      eapply run_char; [apply fixed_step; exact H2|lia|exact Hbr|exact Ha].
Qed.

Lemma query_part pre query post p ps d :
  buffer = pre ++ query ++ post → p = zlen pre → query ≠ [] → query_ok query → marks p ps →
  ∃ ps', run (query ++ post) 29 p (ps, d) = run post 30 (p + zlen query) (ps', d) ∧
    rq_query_start ps' = p ∧ marks (p + zlen query) ps'.
Proof.
  intros Hb Hp Hne Hok Hm. pose proof (zlen_nonneg query).
  exists (rq_set_query p ps). split; [|split; [reflexivity|apply (marks_query p); [exact Hm|lia]]].
  apply (run_leads 29 30 [StartQuery]); [|reflexivity|reflexivity]. destruct query as [|c query]; [done|].
  apply (leads_escaped query_char (escapable query_char));
      [exact (proj1 (query_states r))|exact (proj2 (query_states r))|exact (query_enter r)| |exact Hok].
  by eapply escaped_head.
Qed.

Lemma uri_part pre path query frag rest p ps q :
  buffer = pre ++ path ++ quest query ++ hash frag ++ " "%char :: rest → p = zlen pre →
  path_ok path → query_ok query → query_ok frag → q_query q = [] → q_fragment q = [] → marks p ps →
  ∃ ps', let p' := p + zlen (path ++ quest query ++ hash frag) + 1 in
    run (path ++ quest query ++ hash frag ++ " "%char :: rest) 3 p (ps, (q, OK)) =
      run rest 4 p' (ps', (q_setFragment frag (q_setQuery query (q_setPath path q)), OK)) ∧
    marks p' ps'.
Proof.
  intros Hb Hp Hpath Hquery Hfrag Hq Hf Hm.
  destruct (path_walk pre path _ p ps (q, OK) Hb Hp Hpath Hm) as (k & ps1 & Hk & E1 & Hmk & Hm1).
  rewrite E1. cbv zeta. rewrite !zlen_app.
  pose proof (actions_uri _ _ _ _ _ (act_path pre path _ p ps1 q Hb Hp Hmk)) as Hst1.
  pose proof (actions_one _ _ _ _ (act_path pre path _ p ps1 q Hb Hp Hmk)) as Hst2.
  destruct query as [|c query].
  - rewrite q_setQuery_same by done. change (zlen (quest [])) with 0. rewrite Z.add_0_l.
    cbn [quest is_empty app] in *.
    edestruct (hash_part k [RequestPath; RequestUri] (pre ++ path) frag rest (p + zlen path) ps1 q
      (q_setPath path q)) as (ps2 & E2 & Hm2); [| |reflexivity|exact Hst1|exact Hf| | |exact Hfrag|exact Hm1|].
    + destruct Hk as [-> | ->]; reflexivity.
    + destruct Hk as [-> | ->]; reflexivity.
    + rewrite Hb, <- app_assoc. reflexivity.
    + rewrite zlen_app. lia.
    + exists ps2. rewrite Z.add_assoc. split; [exact E2|exact Hm2].
  - cbn [quest is_empty app] in *.
    assert (buffer = (pre ++ path ++ ["?"%char]) ++ (c :: query) ++ hash frag ++ " "%char :: rest) as Hb2.
    { rewrite Hb, <- !app_assoc. reflexivity. }
    assert (p + zlen path + 1 = zlen (pre ++ path ++ ["?"%char])) as Hp2.
    { rewrite !zlen_app, zlen_cons, (zlen_nil (A:=ascii)). lia. }
    destruct (query_part _ (c :: query) _ (p + zlen path + 1) ps1 (q_setPath path q, OK) Hb2 Hp2)
      as (ps2 & E2 & Hqs & Hm2); [done|exact Hquery|apply (marks_later (p + zlen path)); [exact Hm1|lia]|].
    pose proof (actions_uri _ _ _ _ _
      (act_query _ (c :: query) _ _ ps2 (q_setPath path q) Hb2 Hp2 Hqs)) as Hst3.
    edestruct (hash_part 30 [QueryString; RequestUri] (pre ++ path ++ ["?"%char] ++ c :: query) frag rest
      (p + zlen path + 1 + zlen (c :: query)) ps2 (q_setPath path q)
      (q_setQuery (c :: query) (q_setPath path q))) as (ps3 & E3 & Hm3);
      [reflexivity|reflexivity|reflexivity|exact Hst3|exact Hf| | |exact Hfrag|exact Hm2|].
    + rewrite Hb, <- !app_assoc. reflexivity.
    + rewrite !zlen_app, !zlen_cons, (zlen_nil (A:=ascii)). lia.
    + exists ps3. rewrite (zlen_cons "?"%char).
      replace (p + (zlen path + (1 + zlen (c :: query) + zlen (hash frag))) + 1)
        with (p + zlen path + 1 + zlen (c :: query) + zlen (hash frag) + 1) by lia.
      split; [|exact Hm3]. rewrite <- E3, <- E2.
      apply (run_char "?" k 29 [RequestPath]); [|lia|reflexivity|exact Hst2]. apply fixed_step.
      destruct Hk as [-> | ->]; reflexivity.
Qed.

(** ** The version and the header *)

Lemma http_version_text v post :
  v = 16 ∨ v = 17 → http_version (version_txt v ++ post) 8 = Some v.
Proof.
  intros Hv. unfold http_version, strneq.
  replace (ztake 8 (c_str (version_txt v ++ post))) with (version_txt v)
    by (destruct Hv as [-> | ->]; reflexivity).
  destruct Hv as [-> | ->]; reflexivity.
Qed.

Lemma version_part pre v rest p ps q :
  buffer = pre ++ version_txt v ++ crlf ++ rest → p = zlen pre → v = 16 ∨ v = 17 → marks p ps →
  ∃ ps', run (version_txt v ++ crlf ++ rest) 4 p (ps, (q, OK)) =
      run rest 13 (p + 10) (ps', (q_setVersion v q, OK)) ∧
    marks (p + 10) ps'.
Proof.
  intros Hb Hp Hv Hm. pose proof (zlen_nonneg pre). pose proof (zlen_nonneg rest).
  assert (version_txt v = "H"%char :: tail (version_txt v) ∧ zlen (version_txt v) = 8) as [Hh Hz].
  { destruct Hv as [-> | ->]; split; reflexivity. }
  assert (zlen (tail (version_txt v)) = 7) as Hz7.
  { rewrite Hh, zlen_cons in Hz. lia. }
  assert (zlen buffer = zlen pre + zlen rest + 10) as Hlen.
  { rewrite Hb, !zlen_app, Hz. change (zlen crlf) with 2. lia. }
  exists (rq_set_mark p ps). split; [|apply marks_mark; [exact Hm|lia|lia]].
  rewrite Hh at 1. cbn [app].
  eapply eq_trans; [apply (run_char "H" 4 5 [Mark]); [by apply fixed_step|lia|reflexivity|reflexivity]|].
  eapply eq_trans; [apply run_walk; exact (version_walk r v Hv)|]. rewrite Hz7.
  unfold crlf at 1. cbn [app].
  eapply eq_trans; [apply (run_char (ascii_of_nat 13) 12 17 [HttpVersion]);
    [by apply fixed_step|lia|reflexivity|]|].
  - apply actions_one. unfold request_act, called, on_request. cbn [fst snd rq_mark rq_set_mark].
    replace (ptr_to buffer p) with (version_txt v ++ crlf ++ rest).
    2:{ unfold ptr_to. rewrite Hb, Hp, zdrop_app_r, Z.sub_diag by lia. reflexivity. }
    replace (len_to p (p + 1 + 7)) with 8.
    2:{ unfold len_to. replace (p + 1 + 7 - p) with 8 by lia. reflexivity. }
    rewrite (http_version_text v _ Hv). reflexivity.
  - eapply eq_trans; [apply (run_char (ascii_of_nat 10) 17 13 []);
      [by apply fixed_step|lia|reflexivity|reflexivity]|].
    f_equal; lia.
Qed.

Definition name_ok (name : txt) : Prop := name ≠ [] ∧ forallb name_char name = true.
Definition value_ok (value : txt) : Prop :=
  forallb value_char value = true ∧
  match value with c :: _ => blank_char c = false | [] => True end.

Lemma act_field pre name mid value post p pv ps q :
  buffer = pre ++ name ++ mid ++ value ++ post → p = zlen pre → pv = p + zlen name + zlen mid →
  name ≠ [] → rq_field_start ps = p → rq_field_len ps = len_to p (p + zlen name) → rq_mark ps = pv →
  request_act on_request buffer WriteValue (pv + zlen value) (ps, (q, OK)) =
    Ret (ps, (q_setHeader name value q, OK)).
Proof.
  intros Hb Hp Hpv Hne Hs Hl Hm.
  pose proof (slice_string pre name _ p (p + zlen name) Hb Hp eq_refl) as E1.
  assert (buffer = (pre ++ name ++ mid) ++ value ++ post) as Hb2 by (by rewrite Hb, <- !app_assoc).
  assert (pv = zlen (pre ++ name ++ mid)) as Hpv2 by (rewrite !zlen_app; lia).
  pose proof (slice_string _ value post pv (pv + zlen value) Hb2 Hpv2 eq_refl) as E2.
  assert (0 < zlen name <= zlen buffer) as Hz.
  { rewrite Hb, !zlen_app. destruct name as [|c name]; [done|]. rewrite zlen_cons.
    pose proof (zlen_nonneg name). pose proof (zlen_nonneg pre). pose proof (zlen_nonneg mid).
    pose proof (zlen_nonneg value). pose proof (zlen_nonneg post). lia. }
  unfold request_act, called, on_request. cbn [fst snd]. rewrite Hs, Hl, Hm.
  assert (len_to p (p + zlen name) = zlen name) as Hn.
  { unfold len_to. rewrite Z.add_simpl_l. apply u64_small. lia. }
  rewrite (proj2 (Z.eqb_neq (len_to p (p + zlen name)) 0)) by lia. rewrite E1, E2. reflexivity.
Qed.

Lemma field_part pre name value rest p ps q :
  buffer = pre ++ header_line name value ++ rest → p = zlen pre → name_ok name → value_ok value →
  marks p ps →
  ∃ ps', run (header_line name value ++ rest) 13 p (ps, (q, OK)) =
      run rest 13 (p + zlen (header_line name value)) (ps', (q_setHeader name value q, OK)) ∧
    marks (p + zlen (header_line name value)) ps'.
Proof.
  intros Hb Hp [Hne Hname] [Hvalue Hblank] Hm.
  pose proof (zlen_nonneg pre). pose proof (zlen_nonneg rest). pose proof (zlen_nonneg value).
  assert (header_line name value ++ rest = name ++ [":"%char; " "%char] ++ value ++ crlf ++ rest) as Hl.
  { unfold header_line. rewrite <- !app_assoc. reflexivity. }
  rewrite Hl in *. set (m := [":"%char; " "%char]) in *.
  assert (zlen (header_line name value) = zlen name + zlen value + 4) as Hz.
  { unfold header_line. rewrite !zlen_app. change (zlen (chars ": ")) with 2.
    change (zlen crlf) with 2. lia. }
  assert (0 < zlen name) as Hpos.
  { destruct name; [done|]. rewrite zlen_cons. pose proof (zlen_nonneg name). lia. }
  assert (zlen buffer = zlen pre + zlen name + zlen value + zlen rest + 4) as Hlen.
  { rewrite Hb, !zlen_app. change (zlen m) with 2. change (zlen crlf) with 2. lia. }
  set (pv := p + zlen name + 2).
  set (ps1 := rq_set_field p (rq_field_len ps) ps).
  set (ps2 := rq_set_field p (len_to p (p + zlen name)) ps1).
  set (ps3 := rq_set_mark (p + zlen name + 1) ps2). set (ps4 := rq_set_mark pv ps3).
  assert (marks p ps1) as M1 by (apply marks_start; [exact Hm|lia|lia]).
  assert (marks (p + zlen name) ps2) as M2.
  { apply (marks_len (p + zlen name) (p + zlen name) ps1); [|lia|lia].
    apply (marks_later p); [exact M1|lia]. }
  assert (marks (p + zlen name + 1) ps3) as M3.
  { apply marks_mark; [|lia|lia]. apply (marks_later (p + zlen name)); [exact M2|lia]. }
  assert (marks (p + zlen (header_line name value)) ps4) as M4.
  { rewrite Hz. apply marks_mark; [|unfold pv; lia|unfold pv; lia].
    apply (marks_later (p + zlen name + 1)); [exact M3|unfold pv; lia]. }
  exists ps4. split; [|exact M4].
  eapply eq_trans; [apply (run_leads 13 14 [StartField]); [|reflexivity|reflexivity]|].
  { destruct name as [|c name]; [done|]. apply (leads_plain name_char name_char);
      [exact (name_states r)|exact (name_enter r)| |exact Hname].
    cbn [forallb] in Hname. by apply andb_true_iff in Hname as [? _]. }
  cbn [app m].
  eapply eq_trans; [apply (run_char ":" 14 15 [WriteField]);
    [by apply fixed_step|lia|reflexivity|reflexivity]|].
  eapply eq_trans; [apply (run_char " " 15 15 [StartValue]);
    [by apply fixed_step|lia|reflexivity|reflexivity]|].
  replace (p + zlen name + 1 + 1) with pv by (unfold pv; lia).
  pose proof (act_field pre name m value (crlf ++ rest) p pv ps4 q Hb Hp eq_refl Hne eq_refl eq_refl
    eq_refl) as Hact.
  assert (run (crlf ++ rest) (if is_empty value then 15 else 16) (pv + zlen value)
      ((if is_empty value then ps3 else ps4), (q, OK)) =
    run rest 13 (p + zlen (header_line name value)) (ps4, (q_setHeader name value q, OK))) as Hend.
  { unfold crlf. cbn [app]. destruct value as [|c value]; cbn [is_empty].
    - eapply eq_trans; [apply (run_char (ascii_of_nat 13) 15 17 [StartValue; WriteValue]);
        [by apply fixed_step|lia|reflexivity|]|].
      + cbn [actions]. change (zlen []) with 0 in *. rewrite Z.add_0_r in *.
        change (request_act on_request buffer StartValue pv (ps3, (q, OK))) with
          (@Ret State (ps4, (q, OK))).
        rewrite ret_bind, Hact. reflexivity.
      + eapply eq_trans; [apply (run_char (ascii_of_nat 10) 17 13 []);
          [by apply fixed_step|lia|reflexivity|reflexivity]|].
        rewrite Hz. f_equal; unfold pv; lia.
    - eapply eq_trans; [apply (run_char (ascii_of_nat 13) 16 17 [WriteValue]);
        [by apply fixed_step|lia|reflexivity|apply actions_one; exact Hact]|].
      eapply eq_trans; [apply (run_char (ascii_of_nat 10) 17 13 []);
        [by apply fixed_step|lia|reflexivity|reflexivity]|].
      rewrite Hz. f_equal; unfold pv; lia. }
  rewrite <- Hend. destruct value as [|c value].
  - cbn [app is_empty]. change (zlen []) with 0. rewrite Z.add_0_r. reflexivity.
  - cbn [is_empty]. apply (run_leads 15 16 [StartValue]); [|reflexivity|reflexivity].
    apply (leads_plain value_char (λ c, value_char c && negb (blank_char c)));
      [exact (value_states r)|exact (value_enter r)| |exact Hvalue].
    rewrite Hblank. cbn [forallb] in Hvalue. apply andb_true_iff in Hvalue as [-> _]. reflexivity.
Qed.

Definition line_ok (e : txt * txt) : Prop := name_ok (fst e) ∧ value_ok (snd e).
Definition set_all (lines : hmap) (q : HttpRequest) : HttpRequest :=
  foldl (λ q e, q_setHeader (fst e) (snd e) q) q lines.

Lemma fields_part lines pre rest p ps q :
  Forall line_ok lines → buffer = pre ++ render_headers lines ++ rest → p = zlen pre → marks p ps →
  ∃ ps', run (render_headers lines ++ rest) 13 p (ps, (q, OK)) =
      run rest 13 (p + zlen (render_headers lines)) (ps', (set_all lines q, OK)) ∧
    marks (p + zlen (render_headers lines)) ps'.
Proof.
  intros Hl. revert pre p ps q. induction Hl as [|[k v] lines [Hk Hv] _ IH]; intros pre p ps q Hb Hp Hm.
  - exists ps. change (render_headers []) with (@nil ascii). change (zlen (@nil ascii)) with 0.
    rewrite Z.add_0_r. split; [reflexivity|exact Hm].
  - change (render_headers ((k, v) :: lines)) with (header_line k v ++ render_headers lines) in *.
    rewrite <- app_assoc in *.
    destruct (field_part pre k v _ p ps q Hb Hp Hk Hv Hm) as (ps1 & E1 & Hm1).
    destruct (IH (pre ++ header_line k v) (p + zlen (header_line k v)) ps1 (q_setHeader k v q))
      as (ps2 & E2 & Hm2); [by rewrite Hb, <- app_assoc|rewrite zlen_app; lia|exact Hm1|].
    exists ps2. rewrite zlen_app, Z.add_assoc. split; [|exact Hm2]. by rewrite E1, E2.
Qed.

Lemma act_done p ps d :
  marks p ps → 0 <= p < zlen buffer →
  ∃ ps', request_act on_request buffer Done p (ps, (d, OK)) = Ret (ps', (d, OK)) ∧ marks (p + 1) ps'.
Proof.
  intros [] Hp. unfold request_act.
  destruct (_ || _); (eexists; split; [reflexivity|]; split; simpl; try done; lia).
Qed.

Lemma end_part pre rest p ps d :
  buffer = pre ++ crlf ++ rest → p = zlen pre → marks p ps →
  ∃ ps', run (crlf ++ rest) 13 p (ps, (d, OK)) = Ret (348, p + 2, (ps', (d, OK))) ∧ marks (p + 2) ps'.
Proof.
  intros Hb Hp Hm. pose proof (zlen_nonneg pre). pose proof (zlen_nonneg rest).
  assert (zlen buffer = zlen pre + zlen rest + 2) as Hlen.
  { rewrite Hb, !zlen_app. change (zlen crlf) with 2. lia. }
  set (ps1 := rq_set_field p (rq_field_len ps) ps).
  assert (marks (p + 1) ps1) as M1.
  { apply (marks_later p); [apply marks_start; [exact Hm|lia|lia]|lia]. }
  destruct (act_done (p + 1) ps1 d M1) as (ps2 & E2 & M2); [lia|].
  exists ps2. split; [|replace (p + 2) with (p + 1 + 1) by lia; exact M2]. unfold crlf. cbn [app].
  eapply eq_trans; [apply (run_char (ascii_of_nat 13) 13 18 [StartField]);
    [by apply fixed_step|lia|reflexivity|reflexivity]|].
  eapply eq_trans; [eapply (run_step _ _ _ _ _ _ _ _ _ [Done] 348);
    [by apply fixed_step|lia|apply actions_one; exact E2]|].
  cbn [existsb request_breaks orb]. do 3 f_equal. lia.
Qed.
End parse.

(** ** The whole message *)

(** The number of a length, in decimal. *)
Definition digit_char (c : ascii) : bool := between 48 (code c) 57.
Lemma pretty_digits n s :
  forallb digit_char (chars s) = true → forallb digit_char (chars (pretty_N_go n s)) = true.
Proof.
  revert s. induction (N.lt_wf_0 n) as [n _ IH]. intros s Hs.
  destruct (decide (n = 0)%N) as [->|Hn]; [by rewrite pretty_N_go_0|].
  rewrite pretty_N_go_step by lia. apply IH; [apply N.div_lt; lia|].
  unfold chars in *. cbn [String.list_ascii_of_string forallb]. rewrite Hs, andb_true_r.
  unfold pretty_N_char. by repeat case_match.
Qed.
Lemma dec_digits z : 0 <= z → forallb digit_char (dec z) = true.
Proof. intros Hz. destruct z as [|p|p]; [reflexivity| |lia]. unfold dec. by apply pretty_digits. Qed.

Lemma digits_value_ok t : forallb digit_char t = true → value_ok t.
Proof.
  intros H. split.
  - rewrite forallb_forall in *. intros c Hc. specialize (H c Hc). revert H.
    unfold digit_char, value_char, between. lia.
  - destruct t as [|c t]; [done|]. simpl in H. unfold digit_char, blank_char, between in *. lia.
Qed.

(** The last of the lines with a name. *)
Definition last_value (k : txt) (lines : list (txt * txt)) : option txt :=
  snd <$> last (filter (λ e, folded (fst e) = folded k) lines).
Lemma last_value_app k l1 l2 :
  last_value k (l1 ++ l2) = match last_value k l2 with Some v => Some v | None => last_value k l1 end.
Proof.
  unfold last_value. rewrite filter_app, last_app. by destruct (last (filter _ l2)).
Qed.
Lemma last_value_cons k e l :
  last_value k (e :: l) = match last_value k l with Some v => Some v | None =>
    if bool_decide (folded k = folded (fst e)) then Some (snd e) else None end.
Proof.
  change (e :: l) with ([e] ++ l). rewrite last_value_app. unfold last_value at 2.
  rewrite filter_cons, filter_nil. case_bool_decide; case_decide; by try congruence.
Qed.
Lemma set_all_find k lines q :
  h_find k (q_headers (set_all lines q)) =
    match last_value k lines with Some v => Some v | None => h_find k (q_headers q) end.
Proof.
  unfold set_all. revert q. induction lines as [|[k0 v] lines IH]; intros q; [done|]. cbn [foldl].
  rewrite IH, last_value_cons. destruct (last_value k lines); [done|]. cbn [fst snd].
  unfold q_setHeader. change (q_headers (q_setHeaders ?m _)) with m. rewrite h_find_put.
  by case_bool_decide.
Qed.
Lemma last_value_wf k m : h_wf m → last_value k m = h_find k m.
Proof.
  induction m as [|[k0 v] m IH]; [done|]. intros [Ha Hw]. rewrite last_value_cons, IH by done.
  cbn [fst snd h_find]. case_bool_decide as Hk.
  - rewrite (h_find_ext k k0 m Hk), (above_find k0 m Ha).
    by rewrite (less_r k0 k k0 Hk), (less_l k k0 k0 Hk), less_irrefl.
  - destruct (CaseInsensitiveLess k0 k) eqn:H1; [by destruct (h_find k m)|].
    destruct (CaseInsensitiveLess k k0) eqn:H2; [|by destruct Hk; apply less_same].
    by rewrite (above_find k m (above_trans _ _ _ H2 Ha)).
Qed.

(** ** The message *)

(** What the theorem asks of a request. *)
Record renderable (q : HttpRequest) : Prop := {
  rd_method : ∃ i m, s_method_string !! i = Some m ∧ m ≠ "M - SEARCH"%string ∧ q_method q = Z.of_nat i;
  rd_version : q_version q = 16 ∨ q_version q = 17;
  rd_websocket : q_websocket q = false;
  rd_path : path_ok (q_path q);
  rd_query : query_ok (q_query q);
  rd_fragment : query_ok (q_fragment q);
  rd_headers : h_wf (q_headers q);
  rd_lines : Forall line_ok (q_headers q);
  rd_length : h_find (chars "content-length") (q_headers q) = None;
  rd_cookies : q_cookies q = []
}.

(** Its lines, and its text before the body. *)
Definition length_line (body : txt) : hmap :=
  if is_empty body then [] else [(chars "content-length", dec (zlen body))].
Definition lines (q : HttpRequest) : hmap :=
  connection_header false (q_close q) ++ kept_headers false (q_headers q) ++ length_line (q_body q).
Definition header_text (m : string) (q : HttpRequest) : txt :=
  chars m ++ " "%char :: q_path q ++ quest (q_query q) ++ hash (q_fragment q) ++ " "%char ::
  version_txt (q_version q) ++ crlf ++ render_headers (lines q) ++ crlf.

Lemma render_headers_app l1 l2 : render_headers (l1 ++ l2) = render_headers l1 ++ render_headers l2.
Proof. unfold render_headers. by rewrite fmap_app, concat_app. Qed.

Lemma q_dump_text q i m :
  renderable q → s_method_string !! i = Some m → q_method q = Z.of_nat i →
  q_dump q = Ret (header_text m q ++ q_body q).
Proof.
  intros [] Hi Hm. unfold q_dump. rewrite Hm.
  destruct (proj1 method_names i m Hi) as (_ & -> & _). rewrite ret_bind. f_equal.
  rewrite rd_websocket0, rd_cookies0. change (zlen (@nil (txt * txt))) with 0. cbn [Z.ltb Z.compare].
  assert (render_headers (length_line (q_body q)) ++ crlf ++ q_body q = render_body (q_body q)) as <-.
  { unfold length_line, render_body. destruct (q_body q); [reflexivity|].
    cbn [is_empty negb]. unfold render_headers. cbn [fmap list_fmap concat fst snd].
    unfold header_line. rewrite !app_nil_r, <- !app_assoc. reflexivity. }
  unfold header_text, lines, quest, hash. rewrite !render_headers_app.
  change (chars " ") with [" "%char]. change (chars "?") with ["?"%char]. change (chars "#") with ["#"%char].
  destruct (q_query q), (q_fragment q); cbn [is_empty];
    repeat (rewrite <- !app_assoc; cbn [app]); reflexivity.
Qed.

(** What the callbacks make of it. *)
Definition parsed (q : HttpRequest) : HttpRequest :=
  set_all (lines q) (q_setVersion (q_version q) (q_setFragment (q_fragment q)
    (q_setQuery (q_query q) (q_setPath (q_path q)
    (q_setMethod (q_method q) (HttpRequest_new 17 true)))))).

Lemma name_ok_chars s : s ≠ EmptyString → forallb name_char (chars s) = true → name_ok (chars s).
Proof. intros Hs H. split; [|exact H]. by destruct s. Qed.

Lemma lines_ok q : renderable q → Forall line_ok (lines q).
Proof.
  intros []. unfold lines. rewrite !Forall_app. split; [|split].
  - constructor; [|constructor]. split; [by apply name_ok_chars|].
    split; [|by destruct (q_close q)]. by destruct (q_close q).
  - unfold kept_headers. apply Forall_forall. intros e [_ He]%list_elem_of_filter.
    by eapply Forall_forall in rd_lines0.
  - unfold length_line. destruct (is_empty (q_body q)); constructor; [|constructor].
    split; [by apply name_ok_chars|]. apply digits_value_ok, dec_digits, zlen_nonneg.
Qed.

Lemma header_run r q i m rest ps :
  let buffer := header_text m q ++ rest in
  renderable q → s_method_string !! i = Some m → m ≠ "M - SEARCH"%string → q_method q = Z.of_nat i →
  zlen buffer < 2 ^ 31 → marks buffer http_request_parser_start 0 (false, false) 0 ps →
  ∃ ps', run request_machine r (request_act on_request buffer) request_breaks buffer 1 0
      (ps, (HttpRequest_new 17 true, OK)) =
      Ret (348, zlen (header_text m q), (ps', (parsed q, OK))) ∧
    marks buffer http_request_parser_start 0 (false, false) (zlen (header_text m q)) ps'.
Proof.
  intros buffer Hq Hi Hne Hqm Hlen Hm. pose proof (lines_ok q Hq) as Hl. destruct Hq.
  set (A := chars m ++ [" "%char]).
  set (uri := q_path q ++ quest (q_query q) ++ hash (q_fragment q)).
  set (V := version_txt (q_version q) ++ crlf). set (H := render_headers (lines q)).
  assert (header_text m q = A ++ (uri ++ [" "%char]) ++ V ++ H ++ crlf) as Htxt.
  { unfold header_text, A, uri, V. fold H. rewrite <- !app_assoc. reflexivity. }
  assert (zlen V = 10) as HV.
  { unfold V. rewrite zlen_app. change (zlen crlf) with 2. by destruct rd_version0 as [-> | ->]. }
  assert (buffer = A ++ (uri ++ [" "%char]) ++ V ++ H ++ crlf ++ rest) as Hbuf.
  { unfold buffer. rewrite Htxt, <- !app_assoc. reflexivity. }
  destruct (method_part r buffer i m ((uri ++ [" "%char]) ++ V ++ H ++ crlf ++ rest) ps
    (HttpRequest_new 17 true) Hi Hne) as (ps1 & E1 & M1); [|exact Hm|].
  { rewrite Hbuf. unfold A. rewrite <- !app_assoc. reflexivity. }
  assert (zlen A = zlen (chars m) + 1) as HA by (unfold A; by rewrite zlen_app).
  rewrite <- HA in E1, M1.
  destruct (uri_part r buffer Hlen A (q_path q) (q_query q) (q_fragment q) (V ++ H ++ crlf ++ rest)
    (zlen A) ps1 (q_setMethod (Z.of_nat i) (HttpRequest_new 17 true))) as (ps2 & E2 & M2);
    [|reflexivity|exact rd_path0|exact rd_query0|exact rd_fragment0|reflexivity|reflexivity|exact M1|].
  { rewrite Hbuf. unfold uri. rewrite <- !app_assoc. reflexivity. }
  fold uri in E2, M2. set (q1 := q_setFragment _ _) in E2.
  replace (zlen A + zlen uri + 1) with (zlen (A ++ uri ++ [" "%char])) in E2, M2
    by (rewrite !zlen_app; change (zlen [" "%char]) with 1; lia).
  edestruct (version_part r buffer (A ++ uri ++ [" "%char]) (q_version q) (H ++ crlf ++ rest)
    (zlen (A ++ uri ++ [" "%char])) ps2 q1) as (ps3 & E3 & M3);
    [rewrite Hbuf; unfold V; rewrite <- !app_assoc; reflexivity|reflexivity|exact rd_version0|exact M2|].
  assert (version_txt (q_version q) ++ crlf ++ H ++ crlf ++ rest = V ++ H ++ crlf ++ rest) as HVt
    by (unfold V; by rewrite <- app_assoc).
  rewrite HVt in E3.
  replace (zlen (A ++ uri ++ [" "%char]) + 10) with (zlen (A ++ (uri ++ [" "%char]) ++ V)) in E3, M3
    by (rewrite !zlen_app; change (zlen [" "%char]) with 1; lia).
  edestruct (fields_part r buffer Hlen (lines q) (A ++ (uri ++ [" "%char]) ++ V) (crlf ++ rest)
    (zlen (A ++ (uri ++ [" "%char]) ++ V)) ps3 (q_setVersion (q_version q) q1)) as (ps4 & E4 & M4);
    [exact Hl|rewrite Hbuf, <- !app_assoc; reflexivity|reflexivity|exact M3|]. fold H in E4, M4.
  rewrite <- zlen_app in E4, M4.
  edestruct (end_part r buffer ((A ++ (uri ++ [" "%char]) ++ V) ++ H) rest
    (zlen ((A ++ (uri ++ [" "%char]) ++ V) ++ H)) ps4
    (set_all (lines q) (q_setVersion (q_version q) q1))) as (ps5 & E5 & M5);
    [rewrite Hbuf, <- !app_assoc; reflexivity|reflexivity|exact M4|].
  assert (zlen ((A ++ (uri ++ [" "%char]) ++ V) ++ H) + 2 = zlen (header_text m q)) as Hz.
  { rewrite Htxt, !zlen_app. change (zlen crlf) with 2. lia. }
  rewrite Hz in E5, M5. exists ps5. split; [|exact M5].
  unfold parsed. rewrite Hqm. fold q1.
  eapply eq_trans; [exact E1|]. eapply eq_trans; [|exact E5]. eapply eq_trans; [|exact E4].
  eapply eq_trans; [|exact E3]. eapply eq_trans; [|exact E2].
  f_equal. unfold uri. rewrite <- !app_assoc. reflexivity.
Qed.

Lemma execute_header junk q i m rest :
  renderable q → s_method_string !! i = Some m → m ≠ "M - SEARCH"%string → q_method q = Z.of_nat i →
  zlen (header_text m q ++ rest) < 2 ^ 31 →
  ∃ ps, execute (header_text m q ++ rest) (HttpRequestParser_new junk) =
    Ret (zlen (header_text m q), rest, mkParser ps (parsed q) OK) ∧ rq_cs ps = 348.
Proof.
  intros Hq Hi Hne Hqm Hlen. set (buffer := header_text m q ++ rest) in *.
  assert (0 < zlen (header_text m q) <= zlen buffer) as Hz.
  { unfold buffer, header_text. rewrite !zlen_app, zlen_cons. clear.
    pose proof (zlen_nonneg (chars m)). pose proof (zlen_nonneg rest).
    match goal with |- context [1 + zlen ?x] => pose proof (zlen_nonneg x) end. lia. }
  destruct (header_run (negb (rq_uri_relaxed junk =? 0)) q i m rest (http_request_parser_init junk) Hq Hi Hne
    Hqm Hlen) as (ps & E & Hm).
  { split; simpl; try done; fold buffer; lia. }
  fold buffer in E, Hm. destruct Hm.
  exists (rq_set_nread (zlen (header_text m q)) (rq_set_cs 348 ps)). split; [|reflexivity].
  unfold execute, http_request_parser_execute. fold buffer.
  rewrite (proj2 (Z.eqb_neq _ 0)), (proj2 (Z.leb_le 0 _)) by lia. cbn [check]. rewrite ret_bind.
  rewrite (s32_small (zlen buffer)), (s32_small 0) by lia. rewrite Z.eqb_refl. cbn [check]. rewrite ret_bind.
  change (zdrop 0 buffer) with buffer. cbn [HttpRequestParser_new m_parser m_data m_error].
  change (rq_uri_relaxed (http_request_parser_init junk)) with (rq_uri_relaxed junk).
  change (rq_cs (http_request_parser_init junk)) with 1. rewrite E, !ret_bind. cbn [fst snd].
  rewrite request_leave_ok by (try done; lia). rewrite !ret_bind. cbn [fst snd].
  f_equal. f_equal. f_equal. unfold buffer. rewrite zdrop_app_r, Z.sub_diag by lia. reflexivity.
Qed.

Lemma last_value_kept k m :
  last_value k (kept_headers false m) =
    if bool_decide (folded k = folded (chars "connection")) then None else last_value k m.
Proof.
  unfold kept_headers, hmap. induction m as [|[k0 v] m IH]; [by case_bool_decide|].
  rewrite filter_cons, last_value_cons. cbn [fst snd negb andb] in *.
  unfold strcaseeq in *. destruct (bool_decide (folded k0 = _)) eqn:H0; cbn [decide].
  - apply bool_decide_eq_true in H0. destruct (decide (true = false)); [done|]. rewrite IH.
    repeat case_bool_decide; try done; [congruence|]. by destruct (last_value k m).
  - apply bool_decide_eq_false in H0. destruct (decide (false = false)); [|done].
    rewrite last_value_cons, IH. cbn [fst snd]. repeat case_bool_decide; try done; congruence.
Qed.

Lemma parsed_find k q :
  renderable q →
  h_find k (q_headers (parsed q)) =
    if bool_decide (folded k = folded (chars "connection")) then Some (connection_value (q_close q))
    else if bool_decide (folded k = folded (chars "content-length")) && negb (is_empty (q_body q))
    then Some (dec (zlen (q_body q))) else h_find k (q_headers q).
Proof.
  intros []. unfold parsed. rewrite set_all_find. unfold lines. rewrite !last_value_app, last_value_kept.
  rewrite (last_value_wf k (q_headers q)) by done. cbn [connection_header negb].
  rewrite last_value_cons. cbn [fst snd]. change (last_value k []) with (@None txt).
  change (h_find k _) with (@None txt) at 2.
  assert (last_value k (length_line (q_body q)) =
    if bool_decide (folded k = folded (chars "content-length")) && negb (is_empty (q_body q))
    then Some (dec (zlen (q_body q))) else None) as ->.
  { unfold length_line. destruct (is_empty (q_body q)); [by rewrite andb_false_r|].
    rewrite last_value_cons, andb_true_r. reflexivity. }
  destruct (bool_decide (folded k = folded (chars "connection"))) eqn:H1.
  - apply bool_decide_eq_true in H1. rewrite H1, bool_decide_eq_false_2 by (by vm_compute). done.
  - destruct (_ && _); [done|]. by destruct (h_find k (q_headers q)).
Qed.

Lemma set_all_headers l q : set_all l q = q_setHeaders (q_headers (set_all l q)) q.
Proof.
  unfold set_all. revert q. induction l as [|e l IH]; intros q; cbn [foldl]; [by destruct q|].
  rewrite IH. by destruct q.
Qed.

(** [q] and [q'] are the same request but for the headers. *)
Definition same_request (q q' : HttpRequest) : Prop :=
  q_method q' = q_method q ∧ q_version q' = q_version q ∧ q_path q' = q_path q ∧
  q_query q' = q_query q ∧ q_fragment q' = q_fragment q ∧ q_body q' = q_body q ∧
  q_close q' = q_close q.

Lemma init_parsed q : renderable q →
  let q' := q_init (q_setBody (q_body q) (parsed q)) in
  same_request q q' ∧ q_headers q' = q_headers (parsed q).
Proof.
  intros Hq. pose proof (parsed_find (chars "connection") q Hq) as Hc.
  rewrite bool_decide_eq_true_2 in Hc by done. unfold q_init, q_getHeader.
  change (q_headers (q_setBody _ ?p)) with (q_headers p). rewrite Hc. cbn [default].
  unfold same_request. unfold parsed at 1 2 3 4 5 6 7 8 9 10 11 12 13 14. rewrite set_all_headers.
  by destruct (q_close q).
Qed.

Lemma init_parsed_empty q : renderable q → q_body q = [] →
  q_setBody (q_body q) (parsed q) = parsed q.
Proof. intros Hq ->. unfold parsed. rewrite set_all_headers. reflexivity. Qed.

(** What the server has of it. *)
Definition arrived (q : HttpRequest) : HttpRequest := q_init (q_setBody (q_body q) (parsed q)).

Lemma request_arrives {S} `{StreamOps S} junk cast bufsize can_alloc (s_close : S → res S) fuel
    (s s' : S) q text :
  renderable q → q_dump q = Ret text → zlen text <= bufsize < 2 ^ 31 →
  s_read bufsize s = Ret (zlen text, bytes_of text, s') →
  (q_body q ≠ [] → cast (dec (zlen (q_body q))) = Some (zlen (q_body q)) ∧
                   can_alloc (zlen (q_body q)) = true) →
  recvRequest junk cast bufsize can_alloc s_close (Datatypes.S fuel) s = Ret (Some (arrived q), s').
Proof.
  intros Hq Hd Hz Hr Hc. destruct (rd_method _ Hq) as (i & m & Hi & Hne & Hqm).
  rewrite (q_dump_text q i m Hq Hi Hqm) in Hd. injection Hd as <-.
  destruct (execute_header junk q i m (q_body q) Hq Hi Hne Hqm) as (ps & E & Hcs); [lia|].
  unfold recvRequest. cbn [header_loop]. change (zlen (@nil ascii)) with 0. rewrite Z.sub_0_r, Hr, ret_bind.
  pose proof (zlen_nonneg (header_text m q ++ q_body q)).
  rewrite s32_small, (proj2 (Z.ltb_ge _ 0)) by lia. cbn [app]. rewrite ascii_of_bytes, E, ret_bind.
  assert (hasError (mkParser ps (parsed q) OK) = false) as ->.
  { unfold hasError, http_request_parser_has_error. cbn [m_parser m_error]. by rewrite Hcs. }
  assert (isFinished (mkParser ps (parsed q) OK) = true) as ->.
  { unfold isFinished, http_request_parser_finish, http_request_parser_has_error,
      http_request_parser_is_finished. cbn [m_parser]. by rewrite Hcs. }
  rewrite zlen_app in *. pose proof (zlen_nonneg (q_body q)).
  assert (0 < zlen (header_text m q)) as Hpos.
  { unfold header_text. rewrite zlen_app, zlen_cons.
    match goal with |- context [1 + zlen ?x] => pose proof (zlen_nonneg x) end.
    pose proof (zlen_nonneg (chars m)). lia. }
  rewrite (proj2 (Z.eqb_neq _ _)) by lia. rewrite ret_bind.
  pose proof (parsed_find (chars "content-length") q Hq) as Hl.
  rewrite bool_decide_eq_false_2, bool_decide_eq_true_2 in Hl by (try done; by vm_compute).
  unfold recv_body, getContentLength, getAs. cbn [m_data]. rewrite Hl.
  destruct (q_body q) as [|c body] eqn:Hb; cbn [is_empty negb andb].
  - rewrite (rd_length _ Hq). change (0 <? s64 0) with false. cbv iota.
    unfold arrived. by rewrite init_parsed_empty.
  - destruct Hc as [-> Ha]; [done|].
    assert (0 < zlen (c :: body)) as Hp0 by (rewrite zlen_cons; pose proof (zlen_nonneg body); lia).
    rewrite s64_small by lia. rewrite (proj2 (Z.ltb_lt 0 _)), Ha by lia. cbn [negb].
    rewrite (proj2 (Z.ltb_ge _ _)), ztake_all by lia. unfold arrived. by rewrite Hb.
Qed.

Lemma request_parsed_back {S} `{StreamOps S} junk cast bufsize can_alloc (s_close : S → res S) fuel
    (s s' : S) q text :
  renderable q → q_dump q = Ret text → zlen text <= bufsize < 2 ^ 31 →
  s_read bufsize s = Ret (zlen text, bytes_of text, s') →
  (q_body q ≠ [] → cast (dec (zlen (q_body q))) = Some (zlen (q_body q)) ∧
                   can_alloc (zlen (q_body q)) = true) →
  ∃ q', recvRequest junk cast bufsize can_alloc s_close (Datatypes.S fuel) s = Ret (Some q', s') ∧
    same_request q q' ∧
    ∀ k, h_find k (q_headers q') =
      if bool_decide (folded k = folded (chars "connection")) then Some (connection_value (q_close q))
      else if bool_decide (folded k = folded (chars "content-length")) && negb (is_empty (q_body q))
      then Some (dec (zlen (q_body q))) else h_find k (q_headers q).
Proof.
  intros Hq Hd Hz Hr Hc. exists (arrived q). split; [by eapply request_arrives|].
  pose proof (init_parsed q Hq) as [Hs Hh].
  split; [exact Hs|intros k; unfold arrived; rewrite Hh; apply (parsed_find k q Hq)].
Qed.

(** C2: a request that is rendered is parsed back.  Let [q] be a request with
    a method of the table (but [M - SEARCH]), version 1.0 or 1.1, a path that
    starts with one slash, percent-encoded path, query and fragment of the
    characters of RFC 3986, distinct headers with token names and values
    without control characters or leading blanks, no content-length of its own
    and no cookies, and not an upgrade to a websocket.  When one read of a
    session gives the text of [q] (which fits the buffer), [recvRequest]
    returns a request with the method, version, path, query, fragment, body
    and close flag of [q], and with its headers, except that [connection] says
    what the close flag says and [content-length] is the body's length. *)
Theorem request_roundtrip {S} `{StreamOps S} junk cast bufsize can_alloc (s_close : S → res S) fuel
    (s s' : S) q text :
  renderable q → q_dump q = Ret text → zlen text <= bufsize < 2 ^ 31 →
  s_read bufsize s = Ret (zlen text, bytes_of text, s') →
  (q_body q ≠ [] → cast (dec (zlen (q_body q))) = Some (zlen (q_body q)) ∧
                   can_alloc (zlen (q_body q)) = true) →
  ∃ q', recvRequest junk cast bufsize can_alloc s_close (Datatypes.S fuel) s = Ret (Some q', s') ∧
    same_request q q' ∧
    ∀ k, h_find k (q_headers q') =
      if bool_decide (folded k = folded (chars "connection")) then Some (connection_value (q_close q))
      else if bool_decide (folded k = folded (chars "content-length")) && negb (is_empty (q_body q))
      then Some (dec (zlen (q_body q))) else h_find k (q_headers q).
Proof. apply request_parsed_back. Qed.

Definition sample_request : HttpRequest :=
  mkRequest 3 17 false false 0 (chars "/a/%41") (chars "x=1&y=2") (chars "top") (chars "ab")
    [(chars "Accept", chars "*/*"); (chars "connection", chars "none"); (chars "x-y", [])] [] [].
Definition sample_text : txt :=
  chars "POST /a/%41?x=1&y=2#top HTTP/1.1" ++ crlf ++ chars "connection: keep-alive" ++ crlf ++
  chars "Accept: */*" ++ crlf ++ chars "x-y: " ++ crlf ++ chars "content-length: 2" ++ crlf ++ crlf ++
  chars "ab".
Definition sample_stream : SocketStream script :=
  mkSocketStream (Some (mkScript [bytes_of sample_text] [])) true.
Definition sample_stream' : SocketStream script := mkSocketStream (Some (mkScript [] [])) true.
Definition cast_2 (s : txt) : option Z := if bool_decide (s = chars "2") then Some 2 else None.

Lemma sample_renderable : renderable sample_request.
Proof.
  split; try (vm_compute; reflexivity).
  - exists 3%nat, "POST"%string. vm_compute. split; [reflexivity|]. split; [discriminate|reflexivity].
  - by right.
  - exists (chars "a/%41"). vm_compute. split; [reflexivity|]. split; reflexivity.
  - cbn [sample_request q_headers h_wf above]. split; [|split; [|split; [|exact I]]];
      repeat constructor; vm_compute; reflexivity.
  - repeat (apply Forall_cons; split); [..|apply Forall_nil; exact I];
      (split; [split; [discriminate|reflexivity]|split; reflexivity || exact I]).
Qed.

Example request_roundtrip_witness :
  ∃ q', recvRequest zero_request_parser cast_2 4096 (λ n, n <? 100) Stream.close 1 sample_stream =
          Ret (Some q', sample_stream') ∧
    same_request sample_request q' ∧
    ∀ k, h_find k (q_headers q') =
      if bool_decide (folded k = folded (chars "connection"))
      then Some (connection_value (q_close sample_request))
      else if bool_decide (folded k = folded (chars "content-length")) &&
              negb (is_empty (q_body sample_request))
      then Some (dec (zlen (q_body sample_request))) else h_find k (q_headers sample_request).
Proof.
  apply (request_roundtrip zero_request_parser cast_2 4096 (λ n, n <? 100) Stream.close 0 sample_stream
    sample_stream' sample_request sample_text sample_renderable); try (vm_compute; reflexivity).
  - split; vm_compute; [discriminate|reflexivity].
  - intros _. split; vm_compute; reflexivity.
Defined.
