(* ===== verification/HttpServerProps.v ===== *)
(** * A server's connection: theorems on [HttpServer::handleClient]

    The loop over the requests of one connection, which puts the session, the
    request parser, the dispatcher and the fixed-length writes together. *)

From Stdlib Require Import Ascii.
From coqutil Require Import Byte.
From S2P Require Socket.
From S2P Require Import Prelude FdManager Hook Stream StreamProps SocketTransport.
From S2P Require Import Util Http HttpProps Servlet Ragel RequestParser RequestParserProps HttpSession HttpSessionProps RequestRoundtrip.

(** ** More fuel changes nothing *)

Lemma writeFix_loop_mono {S} `{StreamOps S} fuel fuel' buf left offset s x :
  (fuel <= fuel')%nat → writeFix_loop fuel buf left offset s = Ret x →
  writeFix_loop fuel' buf left offset s = Ret x.
Proof.
  revert fuel' left offset s. induction fuel as [|fuel IH]; intros [|fuel'] left offset s Hle; try done; [lia|].
  cbn [writeFix_loop]. destruct (left <=? 0); [done|].
  destruct (s_write _ s) as [[len s1]| | | |]; simpl; try done.
  destruct (len <? 0); [done|]. apply IH. lia.
Qed.
Lemma writeFixLength_mono {S} `{StreamOps S} fuel fuel' buf length s x :
  (fuel <= fuel')%nat → writeFixLength fuel buf length s = Ret x →
  writeFixLength fuel' buf length s = Ret x.
Proof.
  intros Hle. unfold writeFixLength.
  destruct (writeFix_loop fuel buf length 0 s) as [y| | | |] eqn:E; try done.
  by rewrite (writeFix_loop_mono _ _ _ _ _ _ _ Hle E).
Qed.

(** ** What the server answers *)

(** The response to a request: that of the servlet of its path, or of the
    default one. *)
Definition answer (t : HttpServer) (q : HttpRequest) : HttpResponse :=
  let rsp := HttpResponse_new (q_version q) (q_close q || negb (m_keepalive t)) in
  match default (m_defaultServlet (m_dispatch t)) (m_datas (m_dispatch t) !! key (q_path q)) with
  | Some slt => (handle slt q rsp).2
  | None => rsp
  end.
(** The path has a servlet of its own, or there are no globs to walk over. *)
Definition routed (t : HttpServer) (path : txt) : Prop :=
  is_Some (m_datas (m_dispatch t) !! key path) ∨ m_globs (m_dispatch t) = [].
(** The connection ends after this request. *)
Definition stops (t : HttpServer) (q : HttpRequest) : bool := negb (m_keepalive t) || q_close q.

Lemma dispatch_answer fnmatch fuel t q :
  routed t (q_path q) →
  dispatch fnmatch (Datatypes.S fuel) q (HttpResponse_new (q_version q) (q_close q || negb (m_keepalive t)))
    (m_dispatch t) = Ret (0, answer t q).
Proof.
  intros Hr. unfold dispatch, getMatchedServlet, answer.
  destruct (m_datas (m_dispatch t) !! key (q_path q)) as [s|] eqn:E; cbn [default].
  - rewrite ret_bind. by destruct s.
  - destruct Hr as [[? ?]|Hg]; [congruence|]. cbn [match_loop]. rewrite Hg, ret_bind.
    by destruct (m_defaultServlet _).
Qed.

(** ** Conversations *)

Section conversation.
Context (junk : http_request_parser) (cast : txt → option Z) (bufsize : Z) (can_alloc : Z → bool).
Context {S : Type} `{StreamOps S} (s_close : S → res S) (fnmatch : txt → txt → bool).
Local Notation handleClient := (handleClient junk cast bufsize can_alloc s_close fnmatch).
Local Notation recvRequest := (recvRequest junk cast bufsize can_alloc s_close).

(** The stream gives the texts of the requests, each in one read, and takes
    (or refuses) the texts of the responses. *)
Inductive conversation (t : HttpServer) (fuel : nat) : S → list HttpRequest → S → Prop :=
| conversation_nil s : conversation t fuel s [] s
| conversation_cons q qs text s s1 n s2 s3 :
    renderable q → routed t (q_path q) → q_dump q = Ret text → zlen text <= bufsize < 2 ^ 31 →
    (q_body q ≠ [] → cast (dec (zlen (q_body q))) = Some (zlen (q_body q)) ∧
                     can_alloc (zlen (q_body q)) = true) →
    s_read bufsize s = Ret (zlen text, bytes_of text, s1) →
    writeFixLength fuel (bytes_of (r_dump (answer t (arrived q))))
      (zlen (bytes_of (r_dump (answer t (arrived q))))) s1 = Ret (n, s2) →
    conversation t fuel s2 qs s3 → conversation t fuel s (q :: qs) s3.

Lemma arrived_same q : renderable q → same_request q (arrived q).
Proof. intros Hq. apply (init_parsed q Hq). Qed.

(** One turn of the loop. *)
Lemma serve_one turns fuel t s q text s1 n s2 :
  renderable q → routed t (q_path q) → q_dump q = Ret text → zlen text <= bufsize < 2 ^ 31 →
  (q_body q ≠ [] → cast (dec (zlen (q_body q))) = Some (zlen (q_body q)) ∧
                   can_alloc (zlen (q_body q)) = true) →
  s_read bufsize s = Ret (zlen text, bytes_of text, s1) →
  writeFixLength (Datatypes.S fuel) (bytes_of (r_dump (answer t (arrived q))))
    (zlen (bytes_of (r_dump (answer t (arrived q))))) s1 = Ret (n, s2) →
  handleClient (Datatypes.S turns) (Datatypes.S fuel) t s =
    if stops t q then s_close s2 else handleClient turns (Datatypes.S fuel) t s2.
Proof.
  intros Hq Hr Hd Hz Hb Hs Hw. destruct (arrived_same q Hq) as (_ & Hv & Hp & _ & _ & _ & Hc).
  cbn [HttpSession.handleClient].
  rewrite (request_arrives junk cast bufsize can_alloc s_close fuel s s1 q text Hq Hd Hz Hs Hb), ret_bind.
  cbv beta iota zeta. rewrite dispatch_answer by (by rewrite Hp). rewrite ret_bind. cbv beta iota.
  unfold sendResponse. rewrite Hw, ret_bind, Hc. reflexivity.
Qed.

Lemma serve_many turns fuel fuel' t s qs s' :
  conversation t fuel s qs s' → (fuel <= Datatypes.S fuel')%nat → Forall (λ q, stops t q = false) qs →
  handleClient (length qs + turns) (Datatypes.S fuel') t s = handleClient turns (Datatypes.S fuel') t s'.
Proof.
  intros Hc Hle. induction Hc as [|q qs text s s1 n s2 s3 Hq Hr Hd Hz Hb Hs Hw Hc IH]; intros Hk; [done|].
  apply Forall_cons in Hk as [Hk Hks]. cbn [length Nat.add].
  rewrite (serve_one _ _ t s q text s1 n s2 Hq Hr Hd Hz Hb Hs (writeFixLength_mono _ _ _ _ _ _ Hle Hw)), Hk.
  by apply IH.
Qed.

Lemma conversation_app t fuel s qs q s' :
  conversation t fuel s (qs ++ [q]) s' →
  ∃ s1, conversation t fuel s qs s1 ∧ conversation t fuel s1 [q] s'.
Proof.
  revert s. induction qs as [|q0 qs IH]; intros s Hc; [exists s; split; [constructor|done]|].
  cbn [app] in Hc. inversion Hc; subst. destruct (IH s2) as (s1' & Hc1 & Hc2); [done|].
  exists s1'. split; [by econstructor|done].
Qed.

(** The loop when the peer has closed its end: from a state of [P] a read
    gives 0 bytes and leads to a state of [P]. *)
Definition at_eof (P : S → Prop) : Prop := ∀ s, P s → ∃ s1, s_read bufsize s = Ret (0, [], s1) ∧ P s1.

Lemma header_loop_eof P fuel s :
  at_eof P → P s → 0 < bufsize →
  header_loop bufsize s_close fuel (HttpRequestParser_new junk) [] s = OutOfFuel.
Proof.
  intros HP Hs Hb. revert s Hs. induction fuel as [|fuel IH]; intros s Hs; [done|]. cbn [header_loop].
  destruct (HP s Hs) as (s1 & E & Hs1).
  change (zlen (@nil ascii)) with 0. rewrite Z.sub_0_r, E, ret_bind.
  change (s32 0 <? 0) with false. cbv iota beta zeta. cbn [app ascii_of fmap list_fmap].
  change (execute [] (HttpRequestParser_new junk)) with (Ret (0, @nil ascii, HttpRequestParser_new junk)).
  rewrite ret_bind. change (hasError (HttpRequestParser_new junk)) with false.
  change (zlen (@nil ascii)) with 0. rewrite (proj2 (Z.eqb_neq 0 bufsize)) by lia.
  change (isFinished (HttpRequestParser_new junk)) with false. cbv iota. by apply IH.
Qed.
Lemma handleClient_eof P turns fuel t s :
  at_eof P → P s → 0 < bufsize → handleClient turns fuel t s = OutOfFuel.
Proof.
  intros HP Hs Hb. destruct turns as [|turns]; [done|]. cbn [HttpSession.handleClient].
  unfold HttpSession.recvRequest. by rewrite (header_loop_eof P).
Qed.
End conversation.

(** C4: a connection with keep-alive.  Let the peer send requests that have a
    text (see [renderable]), each in one read that fits the buffer, with paths that the dispatcher finds (see [routed]: the walk over
    the globs does not end), and let the connection end with the last of them,
    as it says close or the server does not keep connections.  Then
    [handleClient] reads every request as it was sent, answers each before it
    reads the next one with what the servlet of its path makes of it, and
    closes the stream once, after the last answer. *)
Theorem keep_alive_served {S} `{StreamOps S} junk cast bufsize can_alloc (s_close : S → res S) fnmatch
    turns fuel t (s s' : S) qs q :
  conversation cast bufsize can_alloc t (Datatypes.S fuel) s (qs ++ [q]) s' →
  Forall (λ q, stops t q = false) qs → stops t q = true → (length qs < turns)%nat →
  handleClient junk cast bufsize can_alloc s_close fnmatch turns (Datatypes.S fuel) t s = s_close s'.
Proof.
  intros Hc Hks Hk Ht. apply conversation_app in Hc as (s1 & Hc & Hl).
  replace turns with (length qs + Datatypes.S (turns - length qs - 1))%nat by lia.
  rewrite (serve_many junk _ _ _ s_close fnmatch _ _ fuel t s qs s1 Hc (le_n _) Hks).
  inversion Hl as [|q' qs' text ? s2 n s3 ? Hq Hr Hd Hz Hb Hs Hw Hnil]; subst. inversion Hnil; subst.
  by rewrite (serve_one junk _ _ _ s_close fnmatch _ fuel t s1 q text s2 n s' Hq Hr Hd Hz Hb Hs Hw), Hk.
Qed.

(** The peer closes a connection that is kept.  After any requests that
    the server answered and that keep the connection, a read gives 0 bytes,
    and so does every later one.  [handleClient] then never returns, whatever
    the fuel: 0 is no error for [recvRequest], and the parser takes an empty
    buffer without a word. *)
Theorem peer_close_spins {S} `{StreamOps S} junk cast bufsize can_alloc (s_close : S → res S) fnmatch
    (P : S → Prop) turns fuel fuel' t (s s' : S) qs :
  conversation cast bufsize can_alloc t fuel s qs s' → Forall (λ q, stops t q = false) qs →
  0 < bufsize → at_eof bufsize P → P s' → (fuel <= Datatypes.S fuel')%nat →
  handleClient junk cast bufsize can_alloc s_close fnmatch turns (Datatypes.S fuel') t s = OutOfFuel.
Proof.
  intros Hc Hks Hb HP HPs Hle. revert turns.
  induction Hc as [s|q qs text s s1 n s2 s3 Hq Hr Hd Hz Hbody Hread Hw Hc IH]; intros turns;
    [by apply (handleClient_eof _ _ _ _ _ _ P)|]. apply Forall_cons in Hks as [Hk Hks].
  destruct turns as [|turns]; [done|].
  rewrite (serve_one junk _ _ _ s_close fnmatch turns fuel' t s q text s1 n s2 Hq Hr Hd Hz Hbody Hread
    (writeFixLength_mono _ _ _ _ _ _ Hle Hw)), Hk. by apply IH.
Qed.

(** ** Two requests on a connection *)

Definition echo : Servlet := FunctionServlet (λ q rsp, (0, r_setBody (q_body q) rsp)).
Definition demo_server : HttpServer :=
  setServletDispatch (addServlet (chars "/a/%41") (Some echo) ServletDispatch_new) (HttpServer_new true).
Definition last_request : HttpRequest := q_setClose true sample_request.
Definition last_text : txt :=
  chars "POST /a/%41?x=1&y=2#top HTTP/1.1" ++ crlf ++ chars "connection: close" ++ crlf ++
  chars "Accept: */*" ++ crlf ++ chars "x-y: " ++ crlf ++ chars "content-length: 2" ++ crlf ++ crlf ++
  chars "ab".
Definition connection (texts : list txt) : SocketStream script :=
  mkSocketStream (Some (mkScript (bytes_of <$> texts) [])) true.
Definition reply (close : string) : txt :=
  chars "HTTP/1.1 200 OK" ++ crlf ++ chars "connection: " ++ chars close ++ crlf ++
  chars "content-length: 2" ++ crlf ++ crlf ++ chars "ab".
Definition answered (replies : list txt) : SocketStream script :=
  mkSocketStream (Some (mkScript [] (bytes_of (concat replies)))) true.

Lemma last_renderable : renderable last_request.
Proof. by destruct sample_renderable. Qed.
Definition after_first : SocketStream script :=
  mkSocketStream (Some (mkScript [bytes_of last_text] (bytes_of (reply "keep-alive")))) true.

Lemma small_body q : q_body q = chars "ab" → q_body q ≠ [] →
  cast_2 (dec (zlen (q_body q))) = Some (zlen (q_body q)) ∧ (zlen (q_body q) <? 100) = true.
Proof. intros -> _. split; vm_compute; reflexivity. Qed.

Example keep_alive_served_witness :
  handleClient zero_request_parser cast_2 4096 (λ n, n <? 100) Stream.close (λ _ _, false) 2 200
    demo_server (connection [sample_text; last_text]) =
  Ret (answered [reply "keep-alive"; reply "close"]).
Proof.
  refine (eq_trans (keep_alive_served zero_request_parser cast_2 4096 (λ n, n <? 100) Stream.close (λ _ _, false) 2 199
    demo_server (connection [sample_text; last_text]) (answered [reply "keep-alive"; reply "close"])
    [sample_request] last_request _ _ _ _) _); [|by repeat constructor|reflexivity|simpl; lia|reflexivity].
  apply (conversation_cons _ _ _ _ _ _ _ sample_text _ (connection [last_text])
           (zlen (reply "keep-alive")) after_first); [exact sample_renderable|..].
  - left. eexists. vm_compute. reflexivity.
  - vm_compute. reflexivity.
  - vm_compute. split; [discriminate|reflexivity].
  - by apply small_body.
  - vm_compute. reflexivity.
  - vm_compute. reflexivity.
  - apply (conversation_cons _ _ _ _ _ _ _ last_text _ (mkSocketStream (Some (mkScript []
             (bytes_of (reply "keep-alive")))) true) (zlen (reply "close")) (answered [reply "keep-alive"; reply "close"]));
      [exact last_renderable|..|constructor].
    + left. eexists. vm_compute. reflexivity.
    + vm_compute. reflexivity.
    + vm_compute. split; [discriminate|reflexivity].
    + by apply small_body.
    + vm_compute. reflexivity.
    + vm_compute. reflexivity.
Defined.

Example peer_close_spins_witness :
  handleClient zero_request_parser cast_2 4096 (λ n, n <? 100) Stream.close (λ _ _, false) 500 1000
    demo_server (connection [sample_text]) = OutOfFuel.
Proof.
  apply (peer_close_spins zero_request_parser cast_2 4096 (λ n, n <? 100) Stream.close (λ _ _, false)
    (eq (mkSocketStream (Some (mkScript [] (bytes_of (reply "keep-alive")))) true)) 500 200 999 demo_server (connection [sample_text])
    (mkSocketStream (Some (mkScript [] (bytes_of (reply "keep-alive")))) true) [sample_request]);
    [|by repeat constructor|lia|by intros _ <-; eexists|done|lia].
  apply (conversation_cons _ _ _ _ _ _ _ sample_text _ (connection [])
           (zlen (reply "keep-alive")) (mkSocketStream (Some (mkScript [] (bytes_of (reply "keep-alive")))) true));
    [exact sample_renderable|..|constructor].
  - left. eexists. vm_compute. reflexivity.
  - vm_compute. reflexivity.
  - vm_compute. split; [discriminate|reflexivity].
  - by apply small_body.
  - vm_compute. reflexivity.
  - vm_compute. reflexivity.
Defined.

(** ** The same over a hooked socket *)

(** The connection is open and its descriptor has an entity; what the kernel
    says to every [recv] is that the peer has closed. *)
Definition closed_by_peer (s : SocketStream Hooked) : Prop :=
  ∃ sock w, m_socket s = Some (sock, w) ∧ Socket.m_isConnected sock = true ∧
    open_socket (Socket.m_socket sock) w.

Lemma hooked_at_eof env fuel buffer arrived junk bufsize :
  (∀ tr fd args, (env tr (Kernel "recv" (fd :: args))).1 = 0) →
  at_eof (H := hooked_stream env (Datatypes.S fuel) buffer arrived junk) bufsize closed_by_peer.
Proof.
  intros Hk [so owner] (sock & w & [= ->] & Hc & Ho).
  destruct (doSocketIo_answers env fuel 0 (Socket.m_socket sock) "recv" [buffer; bufsize; 0] EV_READ w Ho)
    as (w' & E & Hw' & _); [apply Hk|done|].
  exists (mkSocketStream (Some (sock, w')) owner). split; [|by exists sock, w'].
  cbn [s_read hooked_stream SocketStream_ops]. unfold Stream.read, isConnected.
  cbn [m_socket t_connected t_recv hooked_transport deref]. rewrite Hc. cbn [negb]. rewrite ret_bind.
  unfold Socket.recv. rewrite Hc. unfold Hook.read. rewrite E. reflexivity.
Qed.

(** C34: the server's coroutine when the peer has closed.  With the hook on, a
    connected socket that is blocking for the user, and a kernel that answers
    0 to [recv] from now on, [handleClient] on the stream over that socket
    does not return, whatever the fuel: every turn asks [recv] again, which
    answers at once, so the coroutine is never suspended either. *)
Theorem hooked_peer_close_spins env fuel buffer arrived junk junk' cast bufsize can_alloc s_close fnmatch
    turns n t (s : SocketStream Hooked) :
  (∀ tr fd args, (env tr (Kernel "recv" (fd :: args))).1 = 0) → closed_by_peer s → 0 < bufsize →
  handleClient (H := hooked_stream env (Datatypes.S fuel) buffer arrived junk) junk' cast bufsize can_alloc
    s_close fnmatch turns n t s = OutOfFuel.
Proof.
  intros Hk Hs Hb. apply (handleClient_eof (H := hooked_stream _ _ _ _ _) _ _ _ _ _ _ closed_by_peer);
    [by apply hooked_at_eof|done|done].
Qed.

Definition eof_env (h : list Call) (c : Call) : Z * Z :=
  match c with
  | Kernel "fstat" _ => (S_IFSOCK, 0)
  | Kernel "socket" _ => (4, 0)
  | _ => (0, 0)
  end.

Example hooked_peer_close_spins_witness :
  handleClient (H := hooked_stream eof_env 1 0 tcp_data no_junk) zero_request_parser cast_2 4096
    (λ n, n <? 100) (λ s, Ret s) (λ _ _, false) 100 100 demo_server (tcp_socket eof_env) = OutOfFuel.
Proof.
  apply hooked_peer_close_spins; [|exists (Socket.mkSocket 4 2 1 0 true false None None)|lia].
  - intros tr fd args. reflexivity.
  - eexists. split; [reflexivity|]. split; [reflexivity|]. split; [reflexivity|].
    eexists _, _. repeat split; vm_compute; reflexivity.
Defined.
