(* ===== verification/Uri.v ===== *)
(** * URIs: src/src/uri.h, and the functions at the end of src/src/uri.rl

    The parser itself, [Uri::Create], is in UriParser.v. *)

From stdpp Require Import pretty.
From Stdlib Require Import Ascii.
From S2P Require Import Prelude Util Http Endian Address.

(** [src/src/uri.h:66-73] Uri *)
Record Uri := mkUri {
  m_scheme : txt;
  m_userInfo : txt;
  m_host : txt;
  m_port : Z;
  m_path : txt;
  m_query : txt;
  m_fragment : txt
}.

(** [src/src/uri.h:39-39] Uri::Uri *)
Definition Uri_new : Uri := mkUri [] [] [] 0 [] [] [].

(** [src/src/uri.h:51-51] Uri::setScheme *)
Definition setScheme (v : txt) (u : Uri) : Uri :=
  mkUri v (m_userInfo u) (m_host u) (m_port u) (m_path u) (m_query u) (m_fragment u).
(** [src/src/uri.h:52-52] Uri::setUserInfo *)
Definition setUserInfo (v : txt) (u : Uri) : Uri :=
  mkUri (m_scheme u) v (m_host u) (m_port u) (m_path u) (m_query u) (m_fragment u).
(** [src/src/uri.h:53-53] Uri::setHost *)
Definition setHost (v : txt) (u : Uri) : Uri :=
  mkUri (m_scheme u) (m_userInfo u) v (m_port u) (m_path u) (m_query u) (m_fragment u).
(** [src/src/uri.h:54-54] Uri::setPort *)
Definition setPort (v : Z) (u : Uri) : Uri :=
  mkUri (m_scheme u) (m_userInfo u) (m_host u) (s32 v) (m_path u) (m_query u) (m_fragment u).
(** [src/src/uri.h:55-55] Uri::setPath *)
Definition setPath (v : txt) (u : Uri) : Uri :=
  mkUri (m_scheme u) (m_userInfo u) (m_host u) (m_port u) v (m_query u) (m_fragment u).
(** [src/src/uri.h:56-56] Uri::setQuery *)
Definition setQuery (v : txt) (u : Uri) : Uri :=
  mkUri (m_scheme u) (m_userInfo u) (m_host u) (m_port u) (m_path u) v (m_fragment u).
(** [src/src/uri.h:57-57] Uri::setFragment *)
Definition setFragment (v : txt) (u : Uri) : Uri :=
  mkUri (m_scheme u) (m_userInfo u) (m_host u) (m_port u) (m_path u) (m_query u) v.

Definition is_text (s : txt) (t : string) : bool := bool_decide (s = chars t).

(** [src/src/uri.rl:132-142] Uri::isDefaultPort *)
Definition isDefaultPort (u : Uri) : bool :=
  if m_port u =? 0 then true
  else if is_text (m_scheme u) "http" || is_text (m_scheme u) "ws" then m_port u =? 80
  else if is_text (m_scheme u) "https" || is_text (m_scheme u) "wss" then m_port u =? 443
  else false.

(** [src/src/uri.rl:144-147] Uri::getPath *)
Definition getPath (u : Uri) : txt := if is_empty (m_path u) then chars "/" else m_path u.

(** [src/src/uri.rl:149-160] Uri::getPort *)
Definition getPort (u : Uri) : Z :=
  if negb (m_port u =? 0) then m_port u
  else if is_text (m_scheme u) "http" || is_text (m_scheme u) "ws" then 80
  else if is_text (m_scheme u) "https" || is_text (m_scheme u) "wss" then 443
  else m_port u.

(** [src/src/uri.rl:162-176] Uri::dump, Uri::toString *)
Definition toString (u : Uri) : txt :=
  m_scheme u ++ chars "://" ++ m_userInfo u ++ (if is_empty (m_userInfo u) then [] else chars "@") ++
  m_host u ++ (if isDefaultPort u then [] else chars ":" ++ dec (m_port u)) ++ getPath u ++
  (if is_empty (m_query u) then [] else chars "?") ++ m_query u ++
  (if is_empty (m_fragment u) then [] else chars "#") ++ m_fragment u.

(** [src/src/uri.rl:178-184] Uri::createAddress: the port, an [int32_t], becomes a [uint16_t] *)
Definition createAddress (h : host_order)
    (getaddrinfo : list ascii → option (list ascii) → Z → Z → Z → Z + list (list Byte.byte))
    (u : Uri) : option Address :=
  match LookupAnyIpAddress h getaddrinfo (m_host u) AF_INET 0 0 with
  | Some (IpV4Address a) => Some (IpV4Address (v4_setPort h (u16 (getPort u)) a))
  | Some (IpV6Address a) => Some (IpV6Address (v6_setPort h (u16 (getPort u)) a))
  | r => r
  end.

(** The port is the default exactly when it is the one of the scheme or not given. *)
Lemma default_port u :
  is_text (m_scheme u) "http" || is_text (m_scheme u) "ws" = true →
  isDefaultPort u = true ↔ getPort u = 80.
Proof.
  intros H. unfold isDefaultPort, getPort. rewrite H.
  destruct (Z.eqb_spec (m_port u) 0) as [Hp|Hp]; simpl; [done|]. by rewrite Z.eqb_eq.
Qed.
