(* ===== verification/UriParser.v ===== *)
(** * The parser of URIs: src/src/uri.rl

    [Uri::Create] is the code that ragel generates from the grammar of the
    file, which is not in the repository.  The grammar is, with its actions:
    here it is run as Embed.v runs grammars, which is what ragel's code does
    in the two parsers whose generated code can be compared with it. *)

From Stdlib Require Import Ascii.
From S2P Require Import Prelude Util Http Ragel Explore Regex Grammar Embed Uri.

(** [src/src/uri.rl:23-63] the actions *)
Inductive UriAction : Set :=
| marku | markh | save_scheme | save_port | save_userinfo | save_host | save_path | save_query
| save_fragment.
#[export] Instance UriAction_eq_dec : EqDecision UriAction.
Proof. solve_decision. Defined.
Definition uri_action_eqb (a b : UriAction) : bool := bool_decide (a = b).
Lemma uri_action_eqb_eq a b : uri_action_eqb a b = true → a = b.
Proof. apply bool_decide_eq_true_1. Qed.

(** ** The productions *)

Local Notation gram := (grammar UriAction).

(** [src/src/uri.rl:18-18] sub_delims *)
Definition u_sub_delims : cset := one_of "!$&'()*+,;=".
(** [src/src/uri.rl:20-20] unreserved *)
Definition u_unreserved : cset := union (union alpha digit) (one_of "-._~").
(** [src/src/uri.rl:21-21] pct_encoded *)
Definition u_pct_encoded : re := seqs [str "%"; Chr xdigit; Chr xdigit].

(** [src/src/uri.rl:65-65] scheme *)
Definition u_scheme : gram :=
  Leaving save_scheme (Entering marku
    (Plain (seq (Chr alpha) (Star (Chr (union (union alpha digit) (one_of "+-."))))))).
(** [src/src/uri.rl:66-66] userinfo *)
Definition u_userinfo : re :=
  Star (choice [Chr u_unreserved; u_pct_encoded; Chr u_sub_delims; str ":"]).
(** [src/src/uri.rl:67-67] dec_octet: the [2] without quotes is the character 2 *)
Definition u_dec_octet : re :=
  choice [Chr digit; seqs [Chr [(49, 57)]; Chr digit]; seqs [str "1"; times 2 (Chr digit)];
          seqs [Chr (number 2); Chr [(48, 52)]; Chr digit]; seqs [str "25"; Chr [(48, 53)]]].
(** [src/src/uri.rl:68-68] IPv4address *)
Definition u_IPv4address : re :=
  seqs [u_dec_octet; str "."; u_dec_octet; str "."; u_dec_octet; str "."; u_dec_octet].
(** [src/src/uri.rl:69-69] h16 *)
Definition u_h16 : re := from_to 1 4 (Chr xdigit).
(** [src/src/uri.rl:70-70] ls32 *)
Definition u_ls32 : re := alt (seqs [u_h16; str ":"; u_h16]) u_IPv4address.
(** [src/src/uri.rl:71-79] IPv6address *)
Definition u_IPv6address : re :=
  let h := seq u_h16 (str ":") in
  choice [seqs [times 6 h; u_ls32];
          seqs [str "::"; times 5 h; u_ls32];
          seqs [opt u_h16; str "::"; times 4 h; u_ls32];
          seqs [opt (seq (times 1 h) u_h16); str "::"; times 3 h; u_ls32];
          seqs [opt (seq (times 2 h) u_h16); str "::"; times 2 h; u_ls32];
          seqs [opt (seq (times 3 h) u_h16); str "::"; times 1 h; u_ls32];
          seqs [opt (seq (times 4 h) u_h16); str "::"; u_ls32];
          seqs [opt (seq (times 5 h) u_h16); str "::"; u_h16];
          seqs [opt (seq (times 6 h) u_h16); str "::"]].
(** [src/src/uri.rl:80-80] IPvFuture *)
Definition u_IPvFuture : re :=
  seqs [str "v"; plus (Chr xdigit); str "."; plus (choice [Chr u_unreserved; Chr u_sub_delims; str ":"])].
(** [src/src/uri.rl:81-81] IP_literal *)
Definition u_IP_literal : re := seqs [str "["; alt u_IPv6address u_IPvFuture; str "]"].
(** [src/src/uri.rl:82-82] reg_name *)
Definition u_reg_name : re := Star (choice [Chr u_unreserved; u_pct_encoded; Chr u_sub_delims]).
(** [src/src/uri.rl:83-83] host *)
Definition u_host : re := choice [u_IP_literal; u_IPv4address; u_reg_name].
(** [src/src/uri.rl:84-84] port *)
Definition u_port : re := Star (Chr digit).
(** [src/src/uri.rl:86-86] authority *)
Definition u_authority : gram :=
  Entering markh (thens
    [maybe (Then (Leaving save_userinfo (Plain u_userinfo)) (word "@"));
     Leaving save_host (Entering markh (Plain u_host));
     maybe (Then (word ":") (Leaving save_port (Entering markh (Plain u_port))))]).
(** [src/src/uri.rl:87-87] pchar *)
Definition u_pchar : re :=
  choice [Chr (minus any ascii_set); Chr u_unreserved; u_pct_encoded; Chr u_sub_delims; str ":"; str "@"].
(** [src/src/uri.rl:88-88] segment *)
Definition u_segment : re := Star u_pchar.
(** [src/src/uri.rl:89-89] segment_nz *)
Definition u_segment_nz : re := plus u_pchar.
(** [src/src/uri.rl:90-90] segment_nz_nc: [pchar] without the text of a colon *)
Definition u_segment_nz_nc : re :=
  plus (choice [Chr (minus any ascii_set); Chr u_unreserved; u_pct_encoded; Chr u_sub_delims; str "@"]).
(** [src/src/uri.rl:91-91] path_abempty *)
Definition u_path_abempty : re :=
  seq (opt (seq (str "/") u_segment)) (Star (seq (str "/") u_segment)).
(** [src/src/uri.rl:92-92] path_absolute *)
Definition u_path_absolute : re :=
  seq (str "/") (opt (seq u_segment_nz (Star (seq (str "/") u_segment)))).
(** [src/src/uri.rl:93-93] path_noscheme *)
Definition u_path_noscheme : re := seq u_segment_nz_nc (Star (seq (str "/") u_segment)).
(** [src/src/uri.rl:94-94] path_rootless *)
Definition u_path_rootless : re := seq u_segment_nz (Star (seq (str "/") u_segment)).
(** [src/src/uri.rl:95-95] path_empty *)
Definition u_path_empty : re := Eps.

(** [src/src/uri.rl:98-98] query *)
Definition u_query : gram :=
  Leaving save_query (Entering marku (Plain (Star (choice [u_pchar; str "/"; str "?"])))).
(** [src/src/uri.rl:99-99] fragment *)
Definition u_fragment : gram :=
  Leaving save_fragment (Entering marku (Plain (Star (choice [u_pchar; str "/"; str "?"])))).

(** [src/src/uri.rl:101-101] hier_part *)
Definition u_hier_part : gram :=
  Or (thens [word "//"; u_authority; Leaving save_path (Entering markh (Plain u_path_abempty))])
     (Plain (alts [u_path_absolute; u_path_rootless; u_path_empty])).
(** [src/src/uri.rl:103-103] relative_part *)
Definition u_relative_part : gram :=
  Or (thens [word "//"; u_authority; Plain u_path_abempty])
     (Plain (alts [u_path_absolute; u_path_noscheme; u_path_empty])).
(** [src/src/uri.rl:104-104] relative_ref *)
Definition u_relative_ref : gram :=
  thens [u_relative_part; maybe (Then (word "?") u_query); maybe (Then (word "#") u_fragment)].
(** [src/src/uri.rl:109-109] URI *)
Definition u_URI : gram :=
  thens [u_scheme; word ":"; u_hier_part; maybe (Then (word "?") u_query);
         maybe (Then (word "#") u_fragment)].
(** [src/src/uri.rl:110-110] URI_reference *)
Definition u_URI_reference : gram := Or u_URI u_relative_ref.
(** [src/src/uri.rl:111-111] main *)
Definition u_main : grammar (Z * UriAction) := ordered u_URI_reference.

(** ** The actions *)

(** [std::string(mark, fpc - mark)]. *)
Definition from_mark (uristr : txt) (mark : option Z) (p : Z) : res txt :=
  m ← deref mark "std::string from a null pointer"; Ret (slice m (p - m) uristr).

(** [src/src/uri.rl:23-63] the code of the actions, at the position [p]: the URI and [mark]. The result of [atoi] is defined for an [int] *)
Definition uri_act (uristr : txt) (a : UriAction) (p : Z) (s : Uri * option Z) : res (Uri * option Z) :=
  let '(uri, mark) := s in
  match a with
  | marku | markh => Ret (uri, Some p)
  | save_scheme => v ← from_mark uristr mark p; Ret (setScheme v uri, None)
  | save_port =>
      if bool_decide (mark = Some p) then Ret (uri, None)
      else
        m ← deref mark "atoi of a null pointer";
        let v := atoi (zdrop m uristr) in
        if (- 2 ^ 31 <=? v) && (v <? 2 ^ 31) then Ret (setPort v uri, None)
        else Undef "atoi out of the range of int"
  | save_userinfo =>
      match mark with
      | Some m => Ret (setUserInfo (slice m (p - m) uristr) uri, None)
      | None => Ret (uri, None)
      end
  | save_host =>
      match mark with
      | Some m => Ret (setHost (slice m (p - m) uristr) uri, mark)
      | None => Ret (uri, mark)
      end
  | save_path => v ← from_mark uristr mark p; Ret (setPath v uri, None)
  | save_query => v ← from_mark uristr mark p; Ret (setQuery v uri, None)
  | save_fragment => v ← from_mark uristr mark p; Ret (setFragment v uri, None)
  end.

(** What stands at the end of the data: the actions of leaving, where the text
    may end. *)
Definition finish (uristr : txt) (g : grammar (Z * UriAction)) (p : Z) (s : Uri * option Z)
    : res (option Uri) :=
  if gnull g
  then s ← actions (uri_act uristr) (in_order uri_action_eqb (out g)) p s; Ret (Some s.1)
  else Ret None.

(** [src/src/uri.rl:115-130] Uri::Create: [None] for [nullptr] *)
Definition Create (uristr : txt) : res (option Uri) :=
  '(o, p, s) ← parse uri_action_eqb (uri_act uristr) (λ _, false) uristr u_main 0 (Uri_new, None);
  match o with
  | Some g => finish uristr g p s
  | None => Ret None
  end.
