(* ===== verification/UriParserProps.v ===== *)
(** * Theorems on Uri::Create

    The strings that are accepted; the fields of an absolute URI with an
    authority, for parts of any length; and what happens to an empty port. *)

From stdpp Require Import pretty.
From Stdlib Require Import Ascii.
From S2P Require Import Prelude RequestRoundtrip Util Http Ragel Explore Regex Grammar Embed Uri UriParser.

(** ** The grammars met on the way through an absolute URI *)

Definition scheme_set : cset := Eval cbv in union (union alpha digit) (one_of "+-.").
Definition host_set : cset := Eval cbv in union u_unreserved u_sub_delims.
Definition path_set : cset := Eval cbv in
  union (union (minus any ascii_set) (union u_unreserved u_sub_delims)) (one_of ":@/").
Definition query_set : cset := Eval cbv in union path_set (one_of "?").
Definition alpha_set : cset := Eval cbv in alpha.
Definition scheme_char (c : ascii) : bool := inset scheme_set c.
Definition host_char (c : ascii) : bool := inset host_set c.
Definition path_char (c : ascii) : bool := inset path_set c.
Definition query_char (c : ascii) : bool := inset query_set c.

Local Notation image := (image uri_action_eqb).
Local Notation closure := (closure uri_action_eqb 100).
Local Notation moves := (moves uri_action_eqb).
Local Notation ends := (ends uri_action_eqb).
Local Notation states := (list (grammar (Z * UriAction))).
Definition all_from (ok : ascii → bool) (X : states) : states := closure ok X X.

Definition scheme_states : states := all_from scheme_char (image (inset alpha_set) [u_main]).
Definition colon_states : states := image (Ascii.eqb ":") scheme_states.
Definition slash_states : states := image (Ascii.eqb "/") colon_states.
Definition start_states : states := image (Ascii.eqb "/") slash_states.
Definition name_states : states := all_from host_char (image host_char start_states).
Definition at_states : states := image (Ascii.eqb "@") name_states.
Definition host_states : states := all_from host_char (image host_char at_states).
Definition port_start : states := image (Ascii.eqb ":") (name_states ++ host_states).
Definition port_states : states := all_from isdigit (image isdigit port_start).
Definition path_states : states :=
  all_from path_char (image (Ascii.eqb "/") (name_states ++ host_states ++ port_states)).
Definition query_start : states := image (Ascii.eqb "?") (name_states ++ host_states ++ port_states ++ path_states).
Definition query_states : states := all_from query_char (image query_char query_start).
Definition fragment_start : states :=
  image (Ascii.eqb "#") (name_states ++ host_states ++ port_states ++ path_states ++ query_start ++ query_states).
Definition fragment_states : states := all_from query_char (image query_char fragment_start).

(** The end of the text, a question mark or a hash. *)
Definition tail_of (X : states) (al : list UriAction) : bool :=
  ends X al && moves (Ascii.eqb "?") X al query_start && moves (Ascii.eqb "#") X al fragment_start.
(** A query or a fragment: [X0] after the mark in front of it, [X] inside. *)
Definition text_part (X0 X : states) : bool :=
  moves query_char X0 [marku] X &&
  moves (Ascii.eqb "%") X0 [marku] (image (Ascii.eqb "%") X) &&
  moves query_char X [] X &&
  escapes uri_action_eqb X (image (Ascii.eqb "%") X) (image Ragel.xdigit (image (Ascii.eqb "%") X)).
(** After the name of a host, or after a port: [al] ends it. *)
Definition path_of (X : states) (al : list UriAction) : bool :=
  moves (Ascii.eqb "/") X al path_states && tail_of X (al ++ [save_path]).
Definition host_part (X : states) : bool :=
  moves host_char X [] X && moves (Ascii.eqb ":") X [save_host] port_start &&
  path_of X [save_host; markh].

(** What the parts of an absolute URI do, checked once on these sets. *)

Lemma scheme_part_ok :
  moves (inset alpha_set) [u_main] [marku] scheme_states &&
  moves scheme_char scheme_states [] scheme_states &&
  moves (Ascii.eqb ":") scheme_states [save_scheme] colon_states &&
  moves (Ascii.eqb "/") colon_states [] slash_states &&
  moves (Ascii.eqb "/") slash_states [] start_states = true.
Proof. vm_cast_no_check (eq_refl true). Qed.
Lemma authority_part_ok :
  moves host_char start_states [markh] name_states &&
  moves (Ascii.eqb "@") name_states [save_userinfo] at_states &&
  moves host_char at_states [markh] host_states &&
  host_part name_states && host_part host_states &&
  moves isdigit port_start [markh] port_states &&
  moves isdigit port_states [] port_states &&
  path_of port_states [save_port; markh] &&
  path_of port_start [markh; save_port] = true.
Proof. vm_cast_no_check (eq_refl true). Qed.
Lemma path_part_ok :
  moves path_char path_states [] path_states &&
  escapes uri_action_eqb path_states (image (Ascii.eqb "%") path_states)
    (image Ragel.xdigit (image (Ascii.eqb "%") path_states)) &&
  tail_of path_states [save_path] = true.
Proof. vm_cast_no_check (eq_refl true). Qed.
Lemma tail_part_ok :
  text_part query_start query_states && text_part fragment_start fragment_states &&
  ends query_start [marku; save_query] && ends query_states [save_query] &&
  moves (Ascii.eqb "#") query_start [marku; save_query] fragment_start &&
  moves (Ascii.eqb "#") query_states [save_query] fragment_start &&
  ends fragment_start [marku; save_fragment] && ends fragment_states [save_fragment] = true.
Proof. vm_cast_no_check (eq_refl true). Qed.

(** Evaluated above once and for all: no proof below computes them again. *)
#[local] Opaque scheme_states colon_states slash_states start_states name_states at_states host_states port_start
  port_states path_states query_start query_states fragment_start fragment_states.
#[local] Opaque u_main.

(** [b1 && ... && bn = true] as a conjunction. *)
Ltac split_checks H := repeat match type of H with
  | _ ∧ _ => let H' := fresh in destruct H as [H H']
  | _ && _ = true => apply andb_true_iff in H
  end.

(** ** Numbers *)

Lemma digits_stop acc d rest :
  forallb isdigit d = true → (∀ c rest', rest = c :: rest' → isdigit c = false) →
  digits acc (d ++ rest) = digits acc d.
Proof.
  intros Hd Hr. revert acc Hd. induction d as [|c d IH]; intros acc; cbn [app digits forallb].
  - destruct rest as [|c rest]; [done|]. cbn [digits]. by rewrite (Hr c rest).
  - intros [-> Hd]%andb_true_iff. by apply IH.
Qed.
Lemma atoi_digits d rest :
  d ≠ [] → forallb isdigit d = true → (∀ c rest', rest = c :: rest' → isdigit c = false) →
  atoi (d ++ rest) = digits 0 d.
Proof.
  intros Hne Hd Hr. destruct d as [|c d]; [done|]. pose proof Hd as [Hc _]%andb_true_iff.
  unfold isdigit, between in Hc. rewrite <- (digits_stop 0 (c :: d) rest) by done.
  cbn [app atoi]. unfold between.
  destruct (Z.eqb_spec (code c) 32), (Z.leb_spec 9 (code c)), (Z.leb_spec (code c) 13),
    (Z.eqb_spec (code c) 45), (Z.eqb_spec (code c) 43); simpl; done || lia.
Qed.
Lemma digits_nonneg d : 0 <= digits 0 d.
Proof.
  assert (∀ acc, 0 <= acc → 0 <= digits acc d) as H; [|by apply H].
  induction d as [|c d IH]; intros acc Ha; cbn [digits]; [done|].
  destruct (isdigit c) eqn:Hc; [|done]. unfold isdigit, between in Hc. apply IH. lia.
Qed.

Lemma digits_pretty n s :
  digits 0 (chars (pretty_N_go n s)) = digits (Z.of_N n) (chars s).
Proof.
  revert s. induction (N.lt_wf_0 n) as [n _ IH]. intros s.
  destruct (decide (n = 0)%N) as [->|Hn]; [by rewrite pretty_N_go_0|].
  rewrite pretty_N_go_step by lia. rewrite IH by (apply N.div_lt; lia).
  unfold chars. cbn [String.list_ascii_of_string digits].
  assert (n `mod` 10 < 10)%N as Hm by (apply N.mod_lt; lia).
  assert (isdigit (pretty_N_char (n `mod` 10)) = true ∧
          code (pretty_N_char (n `mod` 10)) - 48 = Z.of_N (n `mod` 10)) as [-> Hc].
  { revert Hm. generalize (n `mod` 10)%N. intros k Hk.
    assert (k = 0 ∨ k = 1 ∨ k = 2 ∨ k = 3 ∨ k = 4 ∨ k = 5 ∨ k = 6 ∨ k = 7 ∨ k = 8 ∨ k = 9)%N by lia.
    by destruct_or!; subst. }
  f_equal. rewrite Hc. pose proof (N.div_mod n 10). lia.
Qed.
Lemma digits_dec z : 0 <= z → digits 0 (dec z) = z.
Proof. intros Hz. destruct z as [|p|p]; [reflexivity| |lia]. unfold dec. apply (digits_pretty (Npos p)). Qed.
Lemma dec_nonempty z : 0 <= z → dec z ≠ [].
Proof.
  intros Hz E. pose proof (digits_dec z Hz) as H. rewrite E in H. simpl in H. subst z. discriminate E.
Qed.

(** ** Reading a text to its end *)

Section reading.
Context (uristr : txt).

Definition conclude (rest : txt) (g : grammar (Z * UriAction)) (p : Z) (s : Uri * option Z)
    : res (option Uri) :=
  '(o, p, s) ← parse uri_action_eqb (uri_act uristr) (λ _, false) rest g p s;
  match o with Some g => finish uristr g p s | None => Ret None end.
Local Notation acts := (actions (uri_act uristr)).

Lemma conclude_move ok X al Y g c rest p s s' :
  moves ok X al Y = true → g ∈ X → ok c = true → acts al p s = Ret s' →
  ∃ d, d ∈ Y ∧ conclude (c :: rest) g p s = conclude rest d (p + 1) s'.
Proof.
  intros Hm Hg Hc Ha.
  destruct (parse_move _ uri_action_eqb_eq _ _ _ _ _ _ _ rest _ _ _ Hm Hg Hc Ha) as (d & Hd & E).
  exists d. split; [done|]. unfold conclude. by rewrite E.
Qed.
Lemma conclude_fails ok X al Y g c rest p s w :
  moves ok X al Y = true → g ∈ X → ok c = true → acts al p s = Undef w →
  conclude (c :: rest) g p s = Undef w.
Proof.
  intros Hm Hg Hc Ha.
  destruct (moves_spec _ uri_action_eqb_eq _ _ _ _ _ _ Hm Hg Hc) as (d & x & E & Hal & Ex & _).
  unfold conclude. cbn [parse]. by rewrite E, Hal, Ex, Ha.
Qed.
Lemma conclude_stay ok X t g rest p s :
  moves ok X [] X = true → forallb ok t = true → g ∈ X →
  ∃ d, d ∈ X ∧ conclude (t ++ rest) g p s = conclude rest d (p + zlen t) s.
Proof.
  intros Hm Ht Hg.
  destruct (parse_stay _ uri_action_eqb_eq (uri_act uristr) _ _ _ _ rest p s Hm Ht Hg) as (d & Hd & E).
  exists d. split; [done|]. unfold conclude. by rewrite E.
Qed.
Lemma conclude_escaped ok X Y1 Y2 t g rest p s :
  moves ok X [] X = true → escapes uri_action_eqb X Y1 Y2 = true → escaped ok t = true → g ∈ X →
  ∃ d, d ∈ X ∧ conclude (t ++ rest) g p s = conclude rest d (p + zlen t) s.
Proof.
  intros Hm He Ht Hg.
  destruct (parse_escaped _ uri_action_eqb_eq (uri_act uristr) _ _ _ _ _ _ rest p s Hm He Ht Hg)
    as (d & Hd & E).
  exists d. split; [done|]. unfold conclude. by rewrite E.
Qed.
Lemma conclude_end X al g p s :
  ends X al = true → g ∈ X → conclude [] g p s = (s ← acts al p s; Ret (Some s.1)).
Proof.
  intros He Hg. destruct (ends_spec _ uri_action_eqb_eq _ _ _ He Hg) as [Hn <-].
  unfold conclude, finish. cbn [parse]. rewrite ret_bind. by rewrite Hn.
Qed.

(** A text between a mark and what saves it. *)
Lemma text_inside X0 X t g rest p u mk :
  text_part X0 X = true → escaped query_char t = true → g ∈ X0 →
  (t = [] ∧ conclude (t ++ rest) g p (u, mk) = conclude rest g p (u, mk)) ∨
  (∃ d, d ∈ X ∧ conclude (t ++ rest) g p (u, mk) = conclude rest d (p + zlen t) (u, Some p)).
Proof.
  intros H Ht Hg. unfold text_part in H. split_checks H. destruct t as [|c t]; [by left|right].
  cbn [escaped] in Ht. destruct (Z.eqb_spec (code c) 37) as [Hc|Hc].
  - destruct t as [|a [|b t]]; try done. rewrite !andb_true_iff in Ht. destruct Ht as [[Ha Hb] Ht].
    apply percent_code in Hc as ->. pose proof H0 as He. unfold escapes in He. split_checks He.
    destruct (conclude_move _ _ _ _ g "%"%char (a :: b :: t ++ rest) p (u, mk) (u, Some p) H2 Hg eq_refl eq_refl)
      as (d1 & Hd1 & E1).
    destruct (conclude_move _ _ _ _ d1 a (b :: t ++ rest) (p + 1) _ (u, Some p) H4 Hd1 Ha eq_refl)
      as (d2 & Hd2 & E2).
    destruct (conclude_move _ _ _ _ d2 b (t ++ rest) (p + 1 + 1) _ (u, Some p) H3 Hd2 Hb eq_refl)
      as (d3 & Hd3 & E3).
    destruct (conclude_escaped _ _ _ _ t d3 rest (p + 1 + 1 + 1) (u, Some p) H1 H0 Ht Hd3) as (d & Hd & E).
    exists d. split; [done|]. simpl app. rewrite E1, E2, E3, E, !zlen_cons. f_equal. lia.
  - apply andb_true_iff in Ht as [Hok Ht].
    destruct (conclude_move _ _ _ _ g c (t ++ rest) p (u, mk) (u, Some p) H Hg Hok eq_refl) as (d1 & Hd1 & E1).
    destruct (conclude_escaped _ _ _ _ t d1 rest (p + 1) (u, Some p) H1 H0 Ht Hd1) as (d & Hd & E).
    exists d. split; [done|]. simpl app. rewrite E1, E, zlen_cons. f_equal. lia.
Qed.

(** ** The query and the fragment *)

Lemma slice_part (pre t post : txt) : slice (zlen pre) (zlen t) (pre ++ t ++ post) = t.
Proof.
  pose proof (zlen_nonneg t). replace (zlen pre) with (zlen pre + 0) by lia. rewrite slice_middle by lia.
  unfold slice. by rewrite zdrop_0, ztake_all.
Qed.

Lemma actions_app al al' p s :
  acts (al ++ al') p s = (s' ← acts al p s; acts al' p s').
Proof.
  revert s. induction al as [|a al IH]; intros s; [done|]. cbn [app actions].
  destruct (uri_act uristr a p s); simpl; [apply IH|done..].
Qed.

Definition query_txt (q : option txt) : txt := match q with Some q => "?"%char :: q | None => [] end.
Definition fragment_txt (f : option txt) : txt := match f with Some f => "#"%char :: f | None => [] end.
Definition set_some (set : txt → Uri → Uri) (o : option txt) (u : Uri) : Uri :=
  match o with Some v => set v u | None => u end.

(** [sv] gives the text since the mark to [set]. *)
Definition saves (sv : UriAction) (set : txt → Uri → Uri) : Prop :=
  ∀ u m p, uri_act uristr sv p (u, Some m) = Ret (set (slice m (p - m) uristr) u, None).

Lemma acts_save sv set p u m :
  saves sv set → acts [sv] p (u, Some m) = Ret (set (slice m (p - m) uristr) u, None).
Proof. intros H. cbn [actions]. by rewrite H. Qed.
Lemma acts_mark_save sv set p u mk :
  saves sv set → acts [marku; sv] p (u, mk) = Ret (set [] u, None).
Proof.
  intros H. change (acts [marku; sv] p (u, mk)) with (acts [sv] p (u, Some p)).
  rewrite (acts_save sv set) by done. by rewrite Z.sub_diag.
Qed.

Lemma text_end X0 X sv set pre t g p u mk :
  text_part X0 X = true → ends X0 [marku; sv] = true → ends X [sv] = true → saves sv set →
  escaped query_char t = true → g ∈ X0 → uristr = pre ++ t → p = zlen pre →
  conclude t g p (u, mk) = Ret (Some (set t u)).
Proof.
  intros Hx He0 He Hsv Ht Hg Hu ->.
  destruct (text_inside X0 X t g [] (zlen pre) u mk Hx Ht Hg) as [[-> E]|(d & Hd & E)];
    rewrite ?app_nil_r in E.
  - by rewrite (conclude_end _ _ _ _ _ He0 Hg), (acts_mark_save sv set).
  - rewrite E, (conclude_end _ _ _ _ _ He Hd), (acts_save sv set) by done. simpl. do 3 f_equal.
    replace (zlen pre + zlen t - zlen pre) with (zlen t) by lia.
    rewrite Hu, <- (app_nil_r (pre ++ t)), <- app_assoc. apply slice_part.
Qed.
Lemma text_then X0 X Y sv set pre t rest g p u mk :
  text_part X0 X = true → moves (Ascii.eqb "#") X0 [marku; sv] Y = true →
  moves (Ascii.eqb "#") X [sv] Y = true → saves sv set →
  escaped query_char t = true → g ∈ X0 → uristr = pre ++ t ++ "#"%char :: rest → p = zlen pre →
  ∃ d, d ∈ Y ∧ conclude (t ++ "#"%char :: rest) g p (u, mk) =
               conclude rest d (zlen (pre ++ t) + 1) (set t u, None).
Proof.
  intros Hx He0 He Hsv Ht Hg Hu ->. rewrite zlen_app.
  destruct (text_inside X0 X t g ("#"%char :: rest) (zlen pre) u mk Hx Ht Hg) as [[-> E]|(d & Hd & E)].
  - destruct (conclude_move _ _ _ _ g "#"%char rest (zlen pre) (u, mk) (set [] u, None) He0 Hg eq_refl)
      as (d' & Hd' & E'); [|exists d'; split; [done|]; by rewrite E, E', Z.add_0_r].
    by apply acts_mark_save.
  - destruct (conclude_move _ _ _ _ d "#"%char rest (zlen pre + zlen t) (u, Some (zlen pre)) (set t u, None) He Hd eq_refl)
      as (d' & Hd' & E'); [|exists d'; split; [done|]; by rewrite E, E'].
    rewrite (acts_save sv set) by done. do 3 f_equal.
    replace (zlen pre + zlen t - zlen pre) with (zlen t) by lia. rewrite Hu. apply slice_part.
Qed.

Lemma saves_query : saves save_query setQuery.
Proof. done. Qed.
Lemma saves_fragment : saves save_fragment setFragment.
Proof. done. Qed.

Lemma saves_path : saves save_path setPath.
Proof. done. Qed.

Definition texts_ok (q f : option txt) : Prop :=
  (∀ t, q = Some t → escaped query_char t = true) ∧ (∀ t, f = Some t → escaped query_char t = true).

Lemma fragment_end pre t g p u mk :
  escaped query_char t = true → g ∈ fragment_start → uristr = pre ++ t → p = zlen pre →
  conclude t g p (u, mk) = Ret (Some (setFragment t u)).
Proof.
  pose proof tail_part_ok as Hc. split_checks Hc.
  exact (text_end _ _ _ _ pre t g p u mk H5 H0 H saves_fragment).
Qed.
Lemma query_end pre t g p u mk :
  escaped query_char t = true → g ∈ query_start → uristr = pre ++ t → p = zlen pre →
  conclude t g p (u, mk) = Ret (Some (setQuery t u)).
Proof.
  pose proof tail_part_ok as Hc. split_checks Hc.
  exact (text_end _ _ _ _ pre t g p u mk Hc H4 H3 saves_query).
Qed.
Lemma query_fragment pre t f g p u mk :
  escaped query_char t = true → escaped query_char f = true → g ∈ query_start →
  uristr = pre ++ t ++ "#"%char :: f → p = zlen pre →
  conclude (t ++ "#"%char :: f) g p (u, mk) = Ret (Some (setFragment f (setQuery t u))).
Proof.
  intros Ht Hf Hg Hu Hp. pose proof tail_part_ok as Hc. split_checks Hc.
  destruct (text_then _ _ _ _ _ pre t f g p u mk Hc H2 H1 saves_query Ht Hg Hu Hp) as (d & Hd & E).
  rewrite E. apply (fragment_end (pre ++ t ++ ["#"%char])); [exact Hf|exact Hd| |].
  - by rewrite Hu, <- !app_assoc.
  - rewrite !zlen_app. change (zlen ["#"%char]) with 1. lia.
Qed.

(** What follows the path, or what stands for it. *)
Lemma tail_ok X al pre q f g p s u mk :
  tail_of X al = true → g ∈ X → texts_ok q f → uristr = pre ++ query_txt q ++ fragment_txt f →
  p = zlen pre → acts al p s = Ret (u, mk) →
  conclude (query_txt q ++ fragment_txt f) g p s =
    Ret (Some (set_some setFragment f (set_some setQuery q u))).
Proof.
  intros Hx Hg [Hq Hf] Hu -> Ha. unfold tail_of in Hx. split_checks Hx.
  destruct q as [q|]; cbn [query_txt set_some] in *.
  - destruct (conclude_move _ _ _ _ g "?"%char (q ++ fragment_txt f) (zlen pre) s (u, mk) H0 Hg eq_refl Ha)
      as (d & Hd & E). change (("?"%char :: q) ++ fragment_txt f) with ("?"%char :: (q ++ fragment_txt f)).
    rewrite E.
    assert (uristr = (pre ++ ["?"%char]) ++ q ++ fragment_txt f) as Hu' by (by rewrite Hu, <- app_assoc).
    assert (zlen pre + 1 = zlen (pre ++ ["?"%char])) as Hz by (by rewrite zlen_app).
    destruct f as [f|]; cbn [fragment_txt set_some] in *.
    + exact (query_fragment _ _ _ _ _ _ _ (Hq _ eq_refl) (Hf _ eq_refl) Hd Hu' Hz).
    + rewrite app_nil_r in *. exact (query_end _ _ _ _ _ _ (Hq _ eq_refl) Hd Hu' Hz).
  - destruct f as [f|]; cbn [fragment_txt set_some app] in *.
    + destruct (conclude_move _ _ _ _ g "#"%char f (zlen pre) s (u, mk) H Hg eq_refl Ha) as (d & Hd & E).
      rewrite E. refine (fragment_end (pre ++ ["#"%char]) _ _ _ _ _ (Hf _ eq_refl) Hd _ _).
      * by rewrite Hu, <- app_assoc.
      * by rewrite zlen_app.
    + rewrite (conclude_end _ _ _ _ _ Hx Hg), Ha. done.
Qed.

(** ** The path, and what ends a host or a port *)

(** Empty, or a slash and what is in the set of paths. *)
Definition path_ok (path : txt) : Prop :=
  path = [] ∨ ∃ t, path = "/"%char :: t ∧ escaped path_char t = true.

Lemma path_end pre t q f g u m :
  escaped path_char t = true → texts_ok q f → g ∈ path_states → m = zlen pre →
  uristr = pre ++ ("/"%char :: t) ++ query_txt q ++ fragment_txt f →
  conclude (t ++ query_txt q ++ fragment_txt f) g (m + 1) (u, Some m) =
    Ret (Some (set_some setFragment f (set_some setQuery q (setPath ("/"%char :: t) u)))).
Proof.
  intros Ht Hqf Hg -> Hu. pose proof path_part_ok as Hc. split_checks Hc.
  destruct (conclude_escaped _ _ _ _ t g (query_txt q ++ fragment_txt f) (zlen pre + 1) (u, Some (zlen pre))
    Hc H0 Ht Hg) as (d & Hd & E).
  rewrite E. refine (tail_ok _ _ (pre ++ "/"%char :: t) q f d _ (u, Some (zlen pre)) (setPath ("/"%char :: t) u)
    None H Hd Hqf _ _ _).
  - by rewrite Hu, <- app_assoc.
  - rewrite zlen_app, zlen_cons. lia.
  - rewrite (acts_save _ _ _ _ _ saves_path). do 3 f_equal.
    replace (zlen pre + 1 + zlen t - zlen pre) with (zlen ("/"%char :: t)) by (rewrite zlen_cons; lia).
    rewrite Hu. apply slice_part.
Qed.

Lemma path_rest X al pre path q f g p s u :
  path_of X al = true → g ∈ X → path_ok path → texts_ok q f → p = zlen pre →
  uristr = pre ++ path ++ query_txt q ++ fragment_txt f → acts al p s = Ret (u, Some p) →
  conclude (path ++ query_txt q ++ fragment_txt f) g p s =
    Ret (Some (set_some setFragment f (set_some setQuery q (setPath path u)))).
Proof.
  intros Hx Hg [->|(t & -> & Ht)] Hqf Hp Hu Ha; unfold path_of in Hx; split_checks Hx.
  - refine (tail_ok _ _ pre q f g _ s _ None H Hg Hqf Hu Hp _).
    rewrite actions_app, Ha. cbn [mbind res_bind]. rewrite (acts_save _ _ _ _ _ saves_path).
    rewrite Z.sub_diag. done.
  - change (("/"%char :: t) ++ query_txt q ++ fragment_txt f)
      with ("/"%char :: (t ++ query_txt q ++ fragment_txt f)).
    destruct (conclude_move _ _ _ _ g "/"%char (t ++ query_txt q ++ fragment_txt f) p s _ Hx Hg eq_refl Ha)
      as (d & Hd & E).
    rewrite E. exact (path_end pre t q f d u p Ht Hqf Hd Hp Hu).
Qed.

(** ** The port *)

Definition port_txt (o : option txt) : txt := match o with Some d => ":"%char :: d | None => [] end.
Definition set_port (o : option txt) (u : Uri) : Uri :=
  match o with Some d => setPort (digits 0 d) u | None => u end.
(** Digits, at least one, for a number that an [int] holds. *)
Definition port_ok (o : option txt) : Prop :=
  ∀ d, o = Some d → d ≠ [] ∧ forallb isdigit d = true ∧ digits 0 d < 2 ^ 31.
Definition url_tail (path : txt) (q f : option txt) : txt := path ++ query_txt q ++ fragment_txt f.
Definition set_tail (path : txt) (q f : option txt) (u : Uri) : Uri :=
  set_some setFragment f (set_some setQuery q (setPath path u)).

Lemma tail_no_digit path q f c rest :
  path_ok path → url_tail path q f = c :: rest → isdigit c = false.
Proof. by intros [->|(t & -> & _)]; destruct q, f; intros [= <- <-]. Qed.

Lemma port_rest pre d path q f g p u m :
  d ≠ [] → forallb isdigit d = true → digits 0 d < 2 ^ 31 → path_ok path → texts_ok q f →
  g ∈ port_start → p = zlen pre → uristr = pre ++ d ++ url_tail path q f →
  conclude (d ++ url_tail path q f) g p (u, m) = Ret (Some (set_tail path q f (setPort (digits 0 d) u))).
Proof.
  intros Hne Hd Hlt Hpath Hqf Hg Hp Hu.
  destruct d as [|c d]; [done|]. pose proof Hd as Hd'. cbn [forallb] in Hd. apply andb_true_iff in Hd as [Hdc Hds].
  pose proof authority_part_ok as Hc. split_checks Hc.
  change ((c :: d) ++ url_tail path q f) with (c :: d ++ url_tail path q f).
  destruct (conclude_move _ _ _ _ g c (d ++ url_tail path q f) p (u, m) (u, Some p) H2 Hg Hdc eq_refl)
    as (g1 & Hg1 & E1). rewrite E1.
  destruct (conclude_stay _ _ d g1 (url_tail path q f) (p + 1) (u, Some p) H1 Hds Hg1) as (g2 & Hg2 & E2).
  rewrite E2. refine (path_rest _ _ (pre ++ c :: d) path q f g2 _ _ _ H0 Hg2 Hpath Hqf _ _ _).
  - rewrite zlen_app, zlen_cons. lia.
  - by rewrite Hu, <- app_assoc.
  - cbn [actions uri_act]. rewrite bool_decide_false by (intros [=]; pose proof (zlen_nonneg d); lia).
    cbn [deref mbind res_bind]. rewrite Hp, Hu, zdrop_app_r, Z.sub_diag, zdrop_0 by lia.
    clear Hc H H0 H1 H2 H3 H4 H5 H6.
    assert (atoi ((c :: d) ++ url_tail path q f) = digits 0 (c :: d)) as ->.
    { apply atoi_digits; [done|done|]. intros c' rest'. by apply tail_no_digit. }
    pose proof (digits_nonneg (c :: d)).
    by rewrite (proj2 (Z.leb_le _ _)), (proj2 (Z.ltb_lt _ _)) by lia.
Qed.

(** No digit after the colon: the mark of the path and that of the port are the
    same action of one transition, which runs it once, and the port clears it. *)
Lemma tail_fails X al q f g p s w :
  tail_of X al = true → g ∈ X → acts al p s = Undef w →
  conclude (query_txt q ++ fragment_txt f) g p s = Undef w.
Proof.
  intros Hx Hg Ha. unfold tail_of in Hx. split_checks Hx. destruct q as [q|]; cbn [query_txt].
  - change (("?"%char :: q) ++ fragment_txt f) with ("?"%char :: (q ++ fragment_txt f)).
    exact (conclude_fails _ _ _ _ g "?"%char _ _ _ _ H0 Hg eq_refl Ha).
  - destruct f as [f|]; cbn [fragment_txt app].
    + exact (conclude_fails _ _ _ _ g "#"%char _ _ _ _ H Hg eq_refl Ha).
    + by rewrite (conclude_end _ _ _ _ _ Hx Hg), Ha.
Qed.
Lemma empty_port path q f g p u m :
  path_ok path → g ∈ port_start →
  conclude (url_tail path q f) g p (u, m) = Undef "std::string from a null pointer".
Proof.
  assert (∀ p, acts [save_path] p (u, None) = Undef "std::string from a null pointer") as Hnull by done.
  assert (acts [markh; save_port] p (u, m) = Ret (u, None)) as Hm.
  { cbn [actions uri_act mbind res_bind]. by rewrite bool_decide_true. }
  intros Hpath Hg. pose proof authority_part_ok as Ha. split_checks Ha. clear H0 H1 H2 H3 H4 H5 H6 Ha.
  unfold path_of in H. split_checks H. destruct Hpath as [->|(t & -> & Ht)]; unfold url_tail.
  - refine (tail_fails _ _ q f g p (u, m) _ H0 Hg _). rewrite actions_app, Hm. exact (Hnull p).
  - change (("/"%char :: t) ++ query_txt q ++ fragment_txt f)
      with ("/"%char :: (t ++ query_txt q ++ fragment_txt f)).
    destruct (conclude_move _ _ _ _ g "/"%char (t ++ query_txt q ++ fragment_txt f) p _ _ H Hg eq_refl Hm)
      as (d & Hd & E). etransitivity; [exact E|]. clear H H0 E.
    pose proof path_part_ok as Hc. split_checks Hc.
    destruct (conclude_escaped _ _ _ _ t d (query_txt q ++ fragment_txt f) (p + 1) (u, None) Hc H0 Ht Hd)
      as (d' & Hd' & E). etransitivity; [exact E|].
    exact (tail_fails _ _ q f d' _ (u, None) _ H Hd' (Hnull _)).
Qed.

(** ** The host *)

Definition host_ok (host : txt) : Prop := host ≠ [] ∧ forallb host_char host = true.

Lemma host_read X0 X host rest g p u m :
  moves host_char X0 [markh] X = true → moves host_char X [] X = true → g ∈ X0 → host_ok host →
  ∃ d, d ∈ X ∧ conclude (host ++ rest) g p (u, m) = conclude rest d (p + zlen host) (u, Some p).
Proof.
  intros Hm Hx Hg [Hne Hh]. destruct host as [|c host]; [by destruct Hne|].
  cbn [forallb] in Hh. apply andb_true_iff in Hh as [Hc Hh].
  destruct (conclude_move _ _ _ _ g c (host ++ rest) p (u, m) (u, Some p) Hm Hg Hc eq_refl) as (g1 & Hg1 & E1).
  destruct (conclude_stay _ _ host g1 rest (p + 1) (u, Some p) Hx Hh Hg1) as (g2 & Hg2 & E2).
  exists g2. split; [exact Hg2|]. etransitivity; [exact E1|]. etransitivity; [exact E2|].
  rewrite zlen_cons. f_equal. lia.
Qed.

Lemma host_end X pre host port path q f g u p m :
  host_part X = true → g ∈ X → port_ok port → path_ok path → texts_ok q f →
  m = zlen pre → p = zlen (pre ++ host) → uristr = pre ++ host ++ port_txt port ++ url_tail path q f →
  conclude (port_txt port ++ url_tail path q f) g p (u, Some m) =
    Ret (Some (set_tail path q f (set_port port (setHost host u)))).
Proof.
  intros Hx Hg Hport Hpath Hqf Hm Hp Hu. unfold host_part in Hx. split_checks Hx.
  assert (slice m (p - m) uristr = host) as Hs.
  { rewrite Hp, Hm, zlen_app. replace (zlen pre + zlen host - zlen pre) with (zlen host) by lia.
    rewrite Hu. apply slice_part. }
  rewrite app_assoc in Hu. destruct port as [n|]; cbn [port_txt set_port] in *.
  - destruct (Hport n eq_refl) as (Hne & Hn & Hlt).
    change ((":"%char :: n) ++ url_tail path q f) with (":"%char :: (n ++ url_tail path q f)) in *.
    destruct (conclude_move _ _ _ _ g ":"%char (n ++ url_tail path q f) p (u, Some m)
      (setHost (slice m (p - m) uristr) u, Some m) H0 Hg eq_refl eq_refl) as (d & Hd & E).
    rewrite E, Hs. refine (port_rest ((pre ++ host) ++ [":"%char]) n path q f d _ _ _
      Hne Hn Hlt Hpath Hqf Hd _ _).
    + rewrite Hp, (zlen_app _ [_]). reflexivity.
    + rewrite <- (app_assoc (pre ++ host)). exact Hu.
  - refine (path_rest _ _ (pre ++ host) path q f g p (u, Some m) _ H Hg Hpath Hqf Hp Hu _).
    cbn [actions uri_act mbind res_bind]. by rewrite Hs.
Qed.
Lemma host_empty_port X path q f g u p m :
  host_part X = true → g ∈ X → path_ok path →
  conclude (":"%char :: url_tail path q f) g p (u, Some m) = Undef "std::string from a null pointer".
Proof.
  intros Hx Hg Hpath. unfold host_part in Hx. split_checks Hx.
  destruct (conclude_move _ _ _ _ g ":"%char (url_tail path q f) p (u, Some m)
    (setHost (slice m (p - m) uristr) u, Some m) H0 Hg eq_refl eq_refl) as (d & Hd & E).
  etransitivity; [exact E|]. exact (empty_port path q f d _ _ _ Hpath Hd).
Qed.

Definition userinfo_txt (o : option txt) : txt := match o with Some w => w ++ ["@"%char] | None => [] end.
Definition userinfo_ok (o : option txt) : Prop := ∀ w, o = Some w → host_ok w.

Lemma authority_rest pre userinfo host rest g u m :
  g ∈ start_states → userinfo_ok userinfo → host_ok host →
  uristr = pre ++ userinfo_txt userinfo ++ host ++ rest →
  ∃ X d, host_part X = true ∧ d ∈ X ∧
    conclude (userinfo_txt userinfo ++ host ++ rest) g (zlen pre) (u, m) =
    conclude rest d (zlen ((pre ++ userinfo_txt userinfo) ++ host))
      (set_some setUserInfo userinfo u, Some (zlen (pre ++ userinfo_txt userinfo))).
Proof.
  intros Hg Hw Hh Hu. pose proof authority_part_ok as Ha. split_checks Ha.
  assert (∀ X, host_part X = true → moves host_char X [] X = true) as Hx.
  { intros X Hp. unfold host_part in Hp. split_checks Hp. exact Hp. }
  destruct userinfo as [w|]; cbn [userinfo_txt set_some] in *.
  - rewrite <- (app_assoc w) in Hu |- *. set (after := ["@"%char] ++ host ++ rest) in *.
    destruct (host_read _ _ w after g (zlen pre) u m Ha (Hx _ H4) Hg (Hw w eq_refl)) as (g1 & Hg1 & E1).
    destruct (conclude_move _ _ _ _ g1 "@"%char (host ++ rest) (zlen pre + zlen w) (u, Some (zlen pre))
      (setUserInfo (slice (zlen pre) (zlen pre + zlen w - zlen pre) uristr) u, None)
      H6 Hg1 eq_refl eq_refl) as (g2 & Hg2 & E2).
    destruct (host_read _ _ host rest g2 (zlen pre + zlen w + 1)
      (setUserInfo (slice (zlen pre) (zlen pre + zlen w - zlen pre) uristr) u) None H5 (Hx _ H3) Hg2 Hh)
      as (g3 & Hg3 & E3).
    exists host_states, g3. split; [exact H3|]. split; [exact Hg3|]. etransitivity; [exact E1|].
    etransitivity; [exact E2|]. etransitivity; [exact E3|].
    replace (zlen pre + zlen w - zlen pre) with (zlen w) by lia.
    rewrite !zlen_app, Hu, (slice_part pre w). change (zlen ["@"%char]) with 1. f_equal; [lia|].
    do 2 f_equal. lia.
  - destruct (host_read _ _ host rest g (zlen pre) u m Ha (Hx _ H4) Hg Hh) as (g1 & Hg1 & E1).
    exists name_states, g1. split; [exact H4|]. split; [exact Hg1|].
    rewrite app_nil_r, zlen_app. exact E1.
Qed.

(** ** The scheme *)

Definition scheme_ok (scheme : txt) : Prop :=
  ∃ c s, scheme = c :: s ∧ inset alpha_set c = true ∧ forallb scheme_char s = true.

Lemma slashes_rest rest g p u m :
  g ∈ scheme_states →
  ∃ d, d ∈ start_states ∧ conclude (":"%char :: "/"%char :: "/"%char :: rest) g p (u, Some m) =
    conclude rest d (p + 3) (setScheme (slice m (p - m) uristr) u, None).
Proof.
  intros Hg. pose proof scheme_part_ok as Ha. split_checks Ha.
  generalize (setScheme (slice m (p - m) uristr) u) (acts_save save_scheme setScheme p u m (λ _ _ _, eq_refl)).
  intros u1 Hu1.
  destruct (conclude_move _ _ _ _ g ":"%char ("/"%char :: "/"%char :: rest) p _ _ H1 Hg eq_refl Hu1)
    as (g1 & Hg1 & E1).
  destruct (conclude_move _ _ _ _ g1 "/"%char ("/"%char :: rest) (p + 1) (u1, None) (u1, None)
    H0 Hg1 eq_refl eq_refl) as (g2 & Hg2 & E2).
  destruct (conclude_move _ _ _ _ g2 "/"%char rest (p + 1 + 1) (u1, None) (u1, None)
    H Hg2 eq_refl eq_refl) as (g3 & Hg3 & E3).
  exists g3. split; [exact Hg3|]. etransitivity; [exact E1|]. etransitivity; [exact E2|].
  etransitivity; [exact E3|]. f_equal. lia.
Qed.
Lemma scheme_rest scheme rest u m :
  scheme_ok scheme → uristr = scheme ++ ":"%char :: "/"%char :: "/"%char :: rest →
  ∃ d, d ∈ start_states ∧
    conclude (scheme ++ ":"%char :: "/"%char :: "/"%char :: rest) u_main 0 (u, m) =
    conclude rest d (zlen scheme + 3) (setScheme scheme u, None).
Proof.
  intros (c & s & -> & Hc & Hs) Hu.
  pose proof scheme_part_ok as Ha. split_checks Ha. clear H H0 H1.
  pose proof (λ g, slashes_rest rest g (0 + 1 + zlen s) u 0) as Hslashes.
  revert Hu Hslashes. generalize (":"%char :: "/"%char :: "/"%char :: rest). intros after Hu Hslashes.
  change ((c :: s) ++ after) with (c :: (s ++ after)).
  destruct (conclude_move _ _ _ _ u_main c (s ++ after) 0 (u, m)
    (u, Some 0) Ha (list_elem_of_here _ _) Hc eq_refl) as (g1 & Hg1 & E1).
  destruct (conclude_stay _ _ s g1 after (0 + 1) (u, Some 0) H2 Hs Hg1) as (g2 & Hg2 & E2).
  destruct (Hslashes g2 Hg2) as (g3 & Hg3 & E3).
  exists g3. split; [exact Hg3|]. etransitivity; [exact E1|]. etransitivity; [exact E2|].
  etransitivity; [exact E3|]. f_equal; [rewrite zlen_cons; lia|]. do 2 f_equal.
  replace (0 + 1 + zlen s - 0) with (zlen (c :: s)) by (rewrite zlen_cons; lia).
  rewrite Hu. apply (slice_part [] (c :: s)).
Qed.
End reading.

(** ** Uri::Create on absolute URIs *)

(** What RFC 3986 calls a URI with an authority, from its parts. *)
Definition absolute (scheme : txt) (userinfo : option txt) (host : txt) (port : option txt) (path : txt)
    (query fragment : option txt) : txt :=
  scheme ++ chars "://" ++ userinfo_txt userinfo ++ host ++ port_txt port ++ url_tail path query fragment.
Definition given (o : option txt) : txt := default [] o.

Lemma absolute_start scheme userinfo host rest :
  scheme_ok scheme → userinfo_ok userinfo → host_ok host →
  let pre := (scheme ++ chars "://") ++ userinfo_txt userinfo in
  let s := pre ++ host ++ rest in
  ∃ X d, host_part X = true ∧ d ∈ X ∧
    Create s = conclude s rest d (zlen (pre ++ host))
                 (set_some setUserInfo userinfo (setScheme scheme Uri_new), Some (zlen pre)).
Proof.
  intros Hs Hw Hh pre s.
  assert (s = scheme ++ ":"%char :: "/"%char :: "/"%char :: (userinfo_txt userinfo ++ host ++ rest)) as Es.
  { unfold s, pre. by rewrite <- !app_assoc. }
  destruct (scheme_rest s scheme _ Uri_new None Hs Es) as (d & Hd & E).
  destruct (authority_rest s (scheme ++ chars "://") userinfo host rest d (setScheme scheme Uri_new) None
    Hd Hw Hh) as (X & d' & Hx & Hd' & E'); [by unfold s, pre; rewrite <- app_assoc|].
  exists X, d'. split; [exact Hx|]. split; [exact Hd'|].
  change (Create s) with (conclude s s u_main 0 (Uri_new, None)).
  etransitivity; [exact (f_equal (λ t, conclude s t u_main 0 (Uri_new, None)) Es)|].
  etransitivity; [exact E|].
  replace (zlen scheme + 3) with (zlen (scheme ++ chars "://")) by (by rewrite zlen_app). exact E'.
Qed.
Lemma absolute_app scheme userinfo host rest :
  scheme ++ chars "://" ++ userinfo_txt userinfo ++ host ++ rest =
  ((scheme ++ chars "://") ++ userinfo_txt userinfo) ++ host ++ rest.
Proof. by rewrite <- !app_assoc. Qed.

Lemma absolute_parsed scheme userinfo host port path query fragment :
  scheme_ok scheme → userinfo_ok userinfo → host_ok host → port_ok port → path_ok path →
  texts_ok query fragment →
  Create (absolute scheme userinfo host port path query fragment) =
    Ret (Some (mkUri scheme (given userinfo) host (from_option (digits 0) 0 port) path
                 (given query) (given fragment))).
Proof.
  intros Hs Hw Hh Hport Hpath Hqf. unfold absolute. rewrite absolute_app.
  destruct (absolute_start scheme userinfo host (port_txt port ++ url_tail path query fragment) Hs Hw Hh)
    as (X & d & Hx & Hd & E). etransitivity; [exact E|].
  etransitivity; [exact (host_end _ X _ host port path query fragment d _ _ _ Hx Hd Hport Hpath Hqf
    eq_refl eq_refl eq_refl)|]. clear E.
  assert (∀ n, port = Some n → s32 (digits 0 n) = digits 0 n) as Hn.
  { intros n Ep. destruct (Hport n Ep) as (_ & _ & Hlt). pose proof (digits_nonneg n).
    apply s32_small. lia. }
  destruct userinfo, port, query, fragment; cbv [set_tail set_some set_port setScheme setUserInfo
    setHost setPort setPath setQuery setFragment Uri_new m_scheme m_userInfo m_host m_port m_path
    m_query m_fragment given default from_option]; rewrite ?(Hn _ eq_refl); reflexivity.
Qed.

(** C9: An absolute URI with an authority is parsed to its parts, whatever
    their length: a scheme, a user without a colon or none, the name of a host,
    a port that an [int] holds or none, a path that is empty or begins with a
    slash, a query and a fragment or none, where the path, the query and the
    fragment may hold percent escapes, which stay as they are. *)
Theorem create_absolute scheme userinfo host port path query fragment :
  scheme_ok scheme → userinfo_ok userinfo → host_ok host → port_ok port → path_ok path →
  texts_ok query fragment →
  Create (absolute scheme userinfo host port path query fragment) =
    Ret (Some (mkUri scheme (given userinfo) host (from_option (digits 0) 0 port) path
                 (given query) (given fragment))).
Proof. apply absolute_parsed. Qed.

Lemma create_absolute_witness :
  Create (chars "http://bob@www.a.org:8080/x%20y?q=1#top") =
    Ret (Some (mkUri (chars "http") (chars "bob") (chars "www.a.org") 8080 (chars "/x%20y")
                 (chars "q=1") (chars "top"))).
Proof.
  apply (create_absolute (chars "http") (Some (chars "bob")) (chars "www.a.org") (Some (chars "8080"))
           (chars "/x%20y") (Some (chars "q=1")) (Some (chars "top"))).
  - by eexists _, _.
  - by intros w [= <-].
  - done.
  - by intros d [= <-].
  - right. by eexists.
  - by split; intros t [= <-].
Defined.

(** ** The text of a URI *)

(** The parts of [u] are of the form that [create_absolute] asks for. *)
Record printable (u : Uri) : Prop := {
  printable_scheme : scheme_ok (m_scheme u);
  printable_user : m_userInfo u = [] ∨ host_ok (m_userInfo u);
  printable_host : host_ok (m_host u);
  printable_port : 0 <= m_port u < 2 ^ 31;
  printable_path : path_ok (m_path u);
  printable_query : escaped query_char (m_query u) = true;
  printable_fragment : escaped query_char (m_fragment u) = true
}.
(** [None] for the empty text. *)
Definition filled (t : txt) : option txt := match t with [] => None | _ => Some t end.
Definition shown_port (u : Uri) : option txt := if isDefaultPort u then None else Some (dec (m_port u)).

Lemma toString_absolute u :
  toString u = absolute (m_scheme u) (filled (m_userInfo u)) (m_host u) (shown_port u) (getPath u)
                 (filled (m_query u)) (filled (m_fragment u)).
Proof.
  destruct u as [scheme user host port path q f]. unfold toString, absolute, shown_port, url_tail.
  cbn [m_scheme m_userInfo m_host m_port m_path m_query m_fragment].
  destruct (isDefaultPort _), user, q, f; cbn [is_empty filled userinfo_txt port_txt query_txt fragment_txt app];
    rewrite ?app_nil_r, <- ?app_assoc; reflexivity.
Qed.
Lemma shown_port_same u port path q f :
  from_option (digits 0) 0 (shown_port u) = port → 0 <= m_port u →
  let u' := mkUri (m_scheme u) (m_userInfo u) (m_host u) port path q f in
  getPort u' = getPort u ∧ isDefaultPort u' = isDefaultPort u ∧ (isDefaultPort u = false → port = m_port u).
Proof.
  unfold shown_port. destruct (isDefaultPort u) eqn:Hd; cbn [from_option]; intros <- Hp.
  - split; [|done]. unfold getPort, isDefaultPort in *. cbn [m_port m_scheme] in *. simpl.
    destruct (Z.eqb_spec (m_port u) 0) as [->|]; [done|]. simpl.
    destruct (_ || _); [by apply Z.eqb_eq in Hd|]. by destruct (_ || _); [apply Z.eqb_eq in Hd|].
  - rewrite (digits_dec _ Hp). unfold isDefaultPort in *. by destruct u.
Qed.

(** C31: the text of an absolute URI is parsed back.  For a URI whose scheme,
    user, host, path, query and fragment have the form that [create_absolute]
    takes (see [printable]: there is a scheme and a host, the host is a name
    and not in brackets, the path is empty or begins with a slash) and whose
    port fits an int, [Uri::Create] on [toString] gives a URI with the same
    scheme, user, host, port, path, query and fragment, as the getters give
    them (a port that is the default of the scheme is not in the text, and an
    empty path is there as a slash), and with the same text. *)
Theorem uri_roundtrip u :
  printable u →
  ∃ u', Create (toString u) = Ret (Some u') ∧
    m_scheme u' = m_scheme u ∧ m_userInfo u' = m_userInfo u ∧ m_host u' = m_host u ∧
    getPort u' = getPort u ∧ getPath u' = getPath u ∧ m_query u' = m_query u ∧
    m_fragment u' = m_fragment u ∧ toString u' = toString u.
Proof.
  intros []. assert (∀ t, given (filled t) = t) as Hfilled by by intros [].
  eexists. split.
  - rewrite toString_absolute. apply absolute_parsed; [done| |done| | |].
    + intros w. destruct (m_userInfo u) eqn:E; intros [= <-]. by destruct printable_user0.
    + unfold shown_port. destruct (isDefaultPort u); intros d [= <-].
      rewrite digits_dec by lia. split; [apply dec_nonempty; lia|]. split; [|lia]. apply dec_digits. lia.
    + unfold getPath. destruct (m_path u); [right; by exists []|done].
    + split; intros t; destruct (m_query u), (m_fragment u); intros [= <-]; done.
  - rewrite !Hfilled.
    pose proof (shown_port_same u _ (getPath u) (m_query u) (m_fragment u) eq_refl (proj1 printable_port0))
      as (Hport & Hd & Hsame).
    split_and!; try done.
    + unfold getPath. by destruct (m_path u).
    + unfold toString. rewrite Hd. destruct (isDefaultPort u); [|rewrite Hsame by done];
        cbn [m_scheme m_userInfo m_host m_port m_path m_query m_fragment];
        do 5 f_equal; unfold getPath; by destruct (m_path u).
Qed.

Lemma uri_roundtrip_witness :
  ∃ u', Create (chars "https://files.example.org/a?b") = Ret (Some u') ∧ getPort u' = 443.
Proof.
  destruct (uri_roundtrip (mkUri (chars "https") [] (chars "files.example.org") 443 (chars "/a") (chars "b") []))
    as (u' & E & _ & _ & _ & Hp & _).
  - split; cbn [m_scheme m_userInfo m_host m_port m_path m_query m_fragment]; try done; try lia.
    + by eexists _, _.
    + by left.
    + right. by eexists.
  - exists u'. exact (conj E Hp).
Defined.

(** C32: a port without digits is not an empty port.  On an absolute URI with
    a scheme, a user and a host of the form that [create_absolute] takes, whose
    host is followed by a colon and at once by the path (empty, or from a slash
    on and of the form taken there), [Uri::Create] makes a string from a null
    pointer, whatever query and fragment come after the path. *)
Theorem create_empty_port scheme userinfo host path query fragment :
  scheme_ok scheme → userinfo_ok userinfo → host_ok host → path_ok path →
  Create (scheme ++ chars "://" ++ userinfo_txt userinfo ++ host ++ ":"%char :: url_tail path query fragment) =
    Undef "std::string from a null pointer".
Proof.
  intros Hs Hw Hh Hpath. rewrite absolute_app.
  destruct (absolute_start scheme userinfo host (":"%char :: url_tail path query fragment) Hs Hw Hh)
    as (X & d & Hx & Hd & E). etransitivity; [exact E|].
  exact (host_empty_port _ X path query fragment d _ _ _ Hx Hd Hpath).
Qed.

Lemma create_empty_port_witness :
  Create (chars "http://localhost:/index.html") = Undef "std::string from a null pointer".
Proof.
  apply (create_empty_port (chars "http") None (chars "localhost") (chars "/index.html") None None); try done.
  - by eexists _, _.
  - right. by eexists.
Defined.

(** ** Which texts are accepted *)

(** A text for which [Create] gives a URI is in the language of the grammar. *)
Lemma create_lang uristr u : Create uristr = Ret (Some u) → lang (erase u_URI_reference) uristr.
Proof.
  rewrite <- (erase_order u_URI_reference 0). change (snd (order 0 u_URI_reference)) with u_main.
  unfold Create. destruct (parse _ _ _ _ _ _ _) as [[[g p] s]| | | |] eqn:E; try discriminate.
  rewrite ret_bind. rewrite (parse_lang _ uri_action_eqb_eq _ _ _ _ _ _ _ _ _ (λ _, eq_refl) E).
  destruct g as [g|]; [|done]. unfold finish. destruct (gnull g) eqn:Hg; [|done]. intros _. by exists g.
Qed.

(** The sets of characters that an expression mentions. *)
Fixpoint letters (r : re) : list cset :=
  match r with
  | Emp | Eps => []
  | Chr l => [l]
  | Alt a b | Seq a b => letters a ++ letters b
  | Star a | Guard a _ => letters a
  end.
Lemma lang_letters r w c : lang r w → In c w → existsb (λ l, inset l c) (letters r) = true.
Proof.
  revert w. induction r as [| |l|a IHa b IHb|a IHa b IHb|a IHa|a IHa l]; intros w; cbn [lang letters].
  - done.
  - by intros ->.
  - intros (d & -> & Hd) [<-|[]]. simpl. by rewrite Hd.
  - rewrite existsb_app, orb_true_iff. intros [H|H] Hc; [left|right]; eauto.
  - rewrite existsb_app, orb_true_iff. intros (u & v & -> & Hu & Hv) [Hc|Hc]%in_app_iff; [left|right]; eauto.
  - induction 1 as [|u v Hu _ IH]; [done|]. intros [Hc|Hc]%in_app_iff; eauto.
  - intros [H _]. eauto.
Qed.

(** The characters of RFC 3986, those outside ASCII, and the character 2, which
    the unquoted digit of [dec_octet] lets in. *)
Definition uri_char (c : ascii) : bool :=
  inset (u_unreserved ++ u_sub_delims ++ one_of ":/?#[]@%") c || (code c =? 2) || (128 <=? code c).

(** [Uri::Create] accepts no text with a blank, a quote, a control character
    but the character 2, or any other character that has no place in a URI:
    the result is then null, or the call does not return normally. *)
Theorem create_alphabet uristr u : Create uristr = Ret (Some u) → forallb uri_char uristr = true.
Proof.
  intros H%create_lang. apply forallb_forall. intros c Hc. apply (lang_letters _ _ c H) in Hc.
  assert (forallb (λ c, negb (existsb (λ l, inset l c) (letters (erase u_URI_reference))) || uri_char c)
    all_ascii = true) as Hall by (vm_compute; reflexivity).
  pose proof (forall_ascii _ Hall c) as Hi. cbn beta in Hi. by rewrite Hc in Hi.
Qed.

Lemma create_alphabet_witness :
  Create (chars "a/b?q=1") = Ret (Some (setQuery (chars "q=1") Uri_new)) ∧
  forallb uri_char (chars "a/b?q=1") = true.
Proof.
  assert (Create (chars "a/b?q=1") = Ret (Some (setQuery (chars "q=1") Uri_new))) as H
    by (vm_cast_no_check (eq_refl (Create (chars "a/b?q=1")))).
  split; [exact H|exact (create_alphabet _ _ H)].
Defined.
