(* ===== verification/HttpConnection.v ===== *)
(** * HTTP on the client side: src/src/http/http_connection.h, src/src/http/http_connection.cpp, and the response parser of src/src/http/http_parser.cpp

    [HttpConnection] reads responses through the interface of Stream.v with
    the parser of ResponseParser.v; [HttpConnectionPool]
    keeps idle connections.  A [HttpConnection*] is an address of the pool's
    heap; deleting a connection removes it there. *)

From Stdlib Require Import Ascii.
From coqutil Require Import Byte.
From S2P Require Import Prelude Endian Util Http Stream ResponseParser HttpSession Address Uri UriParser.

Definition r_setVersion (v : Z) (r : HttpResponse) : HttpResponse :=
  mkResponse (r_status r) v (r_close r) (r_websocket r) (r_body r) (r_reason r) (r_headers r) (r_cookies r).

(** [src/src/http/http_parser.cpp:119-161] on_response_reason_phrase, ..., on_response_http_field *)
Definition on_response (ev : ResponseEvent) (s : HttpResponse * Z) : res (HttpResponse * Z) :=
  let '(data, error) := s in
  match ev with
  | EvReason at_ n => v ← std_string at_ n; Ret (r_setReason v data, error)
  | EvStatus at_ _ => Ret (r_setStatus (s32 (atoi at_)) data, error)
  | EvChunkSize _ _ => Ret s
  | EvRVersion at_ n =>
      match http_version at_ n with
      | Some v => Ret (r_setVersion v data, error)
      | None => Ret (data, INVALID_VERSION_ERROR)
      end
  | EvRHeaderDone _ _ => Ret s
  | EvLastChunk _ _ => Ret s
  | EvRField field flen value vlen =>
      if flen =? 0 then Ret s
      else
        k ← std_string field flen; v ← std_string value vlen;
        Ret (r_setHeader k v data, error)
  end.

Section connection.
(** What the memory of a new parser holds. *)
Context (junk : http_response_parser).
Context (lexical_cast : txt → option Z) (gHttpResponseBufferSize : Z) (can_alloc : Z → bool).
Context {S : Type} `{StreamOps S} (s_close : S → res S).

(** [src/src/http/http_parser.h:65-68] HttpResponseParser *)
Record HttpResponseParser := mkRParser {
  rp_parser : http_response_parser; rp_data : HttpResponse; rp_error : Z
}.

(** [src/src/http/http_parser.cpp:163-175] HttpResponseParser::HttpResponseParser *)
Definition HttpResponseParser_new : HttpResponseParser :=
  mkRParser (http_response_parser_init junk) (HttpResponse_new 17 true) OK.

(** [src/src/http/http_parser.cpp:177-184] HttpResponseParser::execute: when the parser gives -1, the move starts before the buffer *)
Definition r_execute (data : txt) (chunck : bool) (p : HttpResponseParser)
    : res (Z * txt * HttpResponseParser) :=
  let ps := if chunck then http_response_parser_init (rp_parser p) else rp_parser p in
  '(ps, d, offset) ← http_response_parser_execute on_response ps data 0 (rp_data p, rp_error p);
  if offset <? 0 then Undef "memmove before the buffer"
  else Ret (offset, zdrop offset data, mkRParser ps (fst d) (snd d)).

(** [src/src/http/http_parser.cpp:186-188] HttpResponseParser::isFinished *)
Definition r_isFinished (p : HttpResponseParser) : bool :=
  http_response_parser_is_finished (rp_parser p).
(** [src/src/http/http_parser.cpp:190-192] HttpResponseParser::hasError *)
Definition r_hasError (p : HttpResponseParser) : bool :=
  negb (rp_error p =? 0) || http_response_parser_has_error (rp_parser p).
(** [src/src/http/http_parser.cpp:194-196] HttpResponseParser::getContentLength *)
Definition r_getContentLength (p : HttpResponseParser) : Z :=
  getAs lexical_cast (r_headers (rp_data p)) (chars "content-length") 0.

Definition closed {A} (s : S) : res (option A * S) := s ← s_close s; Ret (None, s).

(** [src/src/http/http_connection.cpp:31-52] HttpConnection::recvResponse, the loop on the header *)
Fixpoint r_header_loop (fuel : nat) (p : HttpResponseParser) (pending : txt) (s : S)
    : res (option (HttpResponseParser * txt) * S) :=
  match fuel with
  | O => OutOfFuel
  | Datatypes.S fuel =>
      '(len, d, s) ← s_read (gHttpResponseBufferSize - zlen pending) s;
      if s32 len <=? 0 then closed s
      else
        '(_, rest, p) ← r_execute (pending ++ ascii_of d) false p;
        if r_hasError p then closed s
        else if zlen rest =? gHttpResponseBufferSize then closed s
        else if r_isFinished p then Ret (Some (p, rest), s)
        else r_header_loop fuel p rest s
  end.

(** [src/src/http/http_connection.cpp:59-81] the loop on the header of a chunk *)
Fixpoint chunk_header (fuel : nat) (begin : bool) (p : HttpResponseParser) (pending : txt) (s : S)
    : res (option (HttpResponseParser * txt) * S) :=
  match fuel with
  | O => OutOfFuel
  | Datatypes.S fuel =>
      '(rt, pending, s) ←
        (if negb begin || (zlen pending =? 0) then
           '(rt, d, s) ← s_read (gHttpResponseBufferSize - zlen pending) s;
           Ret (s32 rt, pending ++ ascii_of d, s)
         else Ret (1, pending, s));
      if rt <=? 0 then closed s
      else
        '(_, rest, p) ← r_execute pending true p;
        if r_hasError p then closed s
        else if zlen rest =? gHttpResponseBufferSize then closed s
        else if r_isFinished p then Ret (Some (p, rest), s)
        else chunk_header fuel false p rest s
  end.

(** [src/src/http/http_connection.cpp:88-97] the rest of a chunk that is not in the buffer yet *)
Fixpoint chunk_left (fuel : nat) (left : Z) (body : txt) (s : S) : res (option txt * S) :=
  match fuel with
  | O => OutOfFuel
  | Datatypes.S fuel =>
      if left <=? 0 then Ret (Some body, s)
      else
        '(rt, d, s) ← s_read (Z.min left gHttpResponseBufferSize) s;
        if s32 rt <? 0 then closed s
        else chunk_left fuel (s32 (left - s32 rt)) (body ++ ascii_of d) s
  end.

(** [src/src/http/http_connection.cpp:56-101] HttpConnection::recvResponse, a chunked body *)
Fixpoint chunk_loop (fuel : nat) (p : HttpResponseParser) (pending body : txt) (s : S)
    : res (option (HttpResponseParser * txt) * S) :=
  match fuel with
  | O => OutOfFuel
  | Datatypes.S fuel =>
      '(r, s) ← chunk_header fuel true p pending s;
      match r with
      | None => Ret (None, s)
      | Some (p, pending) =>
          let n := rs_content_len (rp_parser p) in
          '(r, s) ←
            (if 2 ^ 31 <=? n + 2 then Undef "content_len + 2"
             else if n + 2 <=? zlen pending
             then if n <? 0 then Throw "body.append"
                  else Ret (Some (body ++ ztake n pending, zdrop (n + 2) pending), s)
             else
               '(b, s) ← chunk_left fuel (n - zlen pending + 2) (body ++ pending) s;
               match b with
               | None => Ret (None, s)
               | Some b =>
                   if zlen b <? 2 then Throw "body.resize" else Ret (Some (ztake (zlen b - 2) b, []), s)
               end);
          match r with
          | None => Ret (None, s)
          | Some (body, pending) =>
              if negb (rs_chunks_done (rp_parser p) =? 0) then Ret (Some (p, body), s)
              else chunk_loop fuel p pending body s
          end
      end
  end.

(** [src/src/http/http_connection.cpp:102-122] HttpConnection::recvResponse, a body of a known length *)
Definition length_body (fuel : nat) (p : HttpResponseParser) (pending : txt) (s : S)
    : res (option txt * S) :=
  let length := s64 (r_getContentLength p) in
  let offset := zlen pending in
  if 0 <? length then
    if negb (can_alloc length) then Throw "body.resize"
    else if offset <? length then
      '(rt, buf, s) ← readFixLength fuel (replicate (Z.to_nat (length - offset)) Byte.x00)
                        (length - offset) s;
      if rt <=? 0 then closed s else Ret (Some (pending ++ ascii_of buf), s)
    else Ret (Some (ztake length pending), s)
  else Ret (Some [], s).

(** [src/src/http/http_connection.cpp:23-133] HttpConnection::recvResponse *)
Definition recvResponse (fuel : nat) (s : S) : res (option HttpResponse * S) :=
  '(r, s) ← r_header_loop fuel HttpResponseParser_new [] s;
  match r with
  | None => Ret (None, s)
  | Some (p, pending) =>
      '(r, s) ←
        (if negb (rs_chunked (rp_parser p) =? 0) then chunk_loop fuel p pending [] s
         else '(b, s) ← length_body fuel p pending s;
              Ret (match b with Some b => Some (p, b) | None => None end, s));
      match r with
      | None => Ret (None, s)
      | Some (p, body) =>
          Ret (Some (if is_empty body then rp_data p else r_setBody body (rp_data p)), s)
      end
  end.

(** [src/src/http/http_connection.cpp:135-140] HttpConnection::sendRequest *)
Definition sendRequest (fuel : nat) (req : HttpRequest) (s : S) : res (Z * S) :=
  data ← bytes_of <$> q_dump req;
  '(rt, s) ← writeFixLength fuel data (zlen data) s;
  Ret (s32 rt, s).

(** ** Requests *)

(** [src/src/http/http_connection.h:26-37] HttpResult::ErrorCode *)
Inductive ErrorCode :=
| RES_OK | INVALID_URL | INVALID_HOST | CONNECT_FAIL | SEND_CLOSE_BY_PEER | SEND_SOCKET_ERROR
| TIMEOUT | CREATE_SOCKET_ERROR | POOL_GET_CONNECTION_FAIL | POOL_INVALID_CONNECTION.

(** [src/src/http/http_connection.h:51-53] HttpResult; the description is left out *)
Record HttpResult := mkResult { rsp : option HttpResponse; errCode : ErrorCode }.

(** [src/src/http/http_connection.h:42-49] HttpResult::toString, the part that needs the response *)
Definition result_toString (r : HttpResult) : res txt :=
  p ← deref (rsp r) "rsp"; Ret (r_dump p).

(** [src/src/http/http_connection.cpp:200-212] the headers that the caller gives: the request and hasHost. The pool's loop is the same (400-412) *)
Fixpoint add_headers (headers : list (txt * txt)) (hasHost : bool) (req : HttpRequest)
    : bool * HttpRequest :=
  match headers with
  | [] => (hasHost, req)
  | (k, v) :: headers =>
      if strcaseeq k (chars "connection") then
        add_headers headers hasHost
          (if strcaseeq v (chars "keep-alive") then q_setClose false req else req)
      else
        let hasHost :=
          if negb hasHost && strcaseeq k (chars "host") then negb (is_empty v) else hasHost in
        add_headers headers hasHost (q_setHeader k v req)
  end.

(** [src/src/http/http_connection.cpp:190-218] HttpConnection::Request(method, uri, ...): the request *)
Definition build_request (method : HttpMethod) (uri : Uri) (headers : list (txt * txt)) (body : txt)
    : HttpRequest :=
  let req := q_setMethod method (HttpRequest_new 17 true) in
  let req := q_setPath (Uri.getPath uri) req in
  let req := q_setQuery (m_query uri) req in
  let req := q_setFragment (m_fragment uri) req in
  let '(hasHost, req) := add_headers headers false req in
  let req := if negb hasHost then q_setHeader (chars "Host") (m_host uri) req else req in
  q_setBody body req.

(** The exchange on a connected stream: send, then receive. *)
Definition exchange (fuel : nat) (req : HttpRequest) (s : S) : res (HttpResult * S) :=
  '(rt, s) ← sendRequest fuel req s;
  if rt =? 0 then Ret (mkResult None SEND_CLOSE_BY_PEER, s)
  else if rt <? 0 then Ret (mkResult None SEND_SOCKET_ERROR, s)
  else
    '(rsp, s) ← recvResponse fuel s;
    match rsp with
    | None => Ret (mkResult None TIMEOUT, s)
    | Some _ => Ret (mkResult rsp RES_OK, s)
    end.

(** The order of the bytes of the host, [getaddrinfo], and the sockets: of TLS
    for an address, of TCP for an address or none; [connect] with its result;
    and the receive timeout. *)
Context (h : host_order).
Context (getaddrinfo : list ascii → option (list ascii) → Z → Z → Z → Z + list (list Byte.byte)).
Context (ssl_socket : Address → option S) (tcp_socket : option Address → option S).
Context (s_connect : Address → S → bool * S) (setRecvTimeout : Z → S → S).

(** [src/src/http/http_connection.cpp:220-283] HttpConnection::Request(req, uri, timeout); the connection is closed when it goes out of scope *)
Definition Request (fuel : nat) (req : HttpRequest) (uri : Uri) (timeout : Z) : res HttpResult :=
  let isSsl := is_text (m_scheme uri) "https" in
  match Uri.createAddress h getaddrinfo uri with
  | None => Ret (mkResult None INVALID_HOST)
  | Some addr =>
      match (if isSsl then ssl_socket addr else tcp_socket None) with
      | None => Ret (mkResult None CREATE_SOCKET_ERROR)
      | Some s =>
          let '(ok, s) := s_connect addr s in
          '(r, s) ←
            (if ok then exchange fuel req (setRecvTimeout timeout s)
             else Ret (mkResult None CONNECT_FAIL, s));
          _ ← s_close s; Ret r
      end
  end.

(** [src/src/http/http_connection.cpp:190-218] HttpConnection::Request(method, uri, ...) *)
Definition Request_uri (fuel : nat) (method : HttpMethod) (uri : Uri) (timeout : Z)
    (headers : list (txt * txt)) (body : txt) : res HttpResult :=
  Request fuel (build_request method uri headers body) uri timeout.
(** [src/src/http/http_connection.cpp:178-188] HttpConnection::Request(method, url, ...) *)
Definition Request_url (fuel : nat) (method : HttpMethod) (url : txt) (timeout : Z)
    (headers : list (txt * txt)) (body : txt) : res HttpResult :=
  uri ← UriParser.Create url;
  match uri with
  | None => Ret (mkResult None INVALID_URL)
  | Some uri => Request_uri fuel method uri timeout headers body
  end.

Definition POST : HttpMethod := 3.
(** [src/src/http/http_connection.cpp:153-158] HttpConnection::Get(uri, ...) *)
Definition Get_uri (fuel : nat) (uri : Uri) (timeout : Z) (headers : list (txt * txt)) (body : txt)
    : res HttpResult := Request_uri fuel GET uri timeout headers body.
(** [src/src/http/http_connection.cpp:142-151] HttpConnection::Get(url, ...) *)
Definition Get (fuel : nat) (url : txt) (timeout : Z) (headers : list (txt * txt)) (body : txt)
    : res HttpResult :=
  uri ← UriParser.Create url;
  match uri with
  | None => Ret (mkResult None INVALID_URL)
  | Some uri => Get_uri fuel uri timeout headers body
  end.
(** [src/src/http/http_connection.cpp:171-176] HttpConnection::Post(uri, ...) *)
Definition Post_uri (fuel : nat) (uri : Uri) (timeout : Z) (headers : list (txt * txt)) (body : txt)
    : res HttpResult := Request_uri fuel POST uri timeout headers body.
(** [src/src/http/http_connection.cpp:160-169] HttpConnection::Post(url, ...) *)
Definition Post (fuel : nat) (url : txt) (timeout : Z) (headers : list (txt * txt)) (body : txt)
    : res HttpResult :=
  uri ← UriParser.Create url;
  match uri with
  | None => Ret (mkResult None INVALID_URL)
  | Some uri => Request_uri fuel POST uri timeout headers body
  end.

(** ** The pool *)

(** [src/src/http/http_connection.h:107-109] HttpConnection *)
Record HttpConnection := mkConn { c_stream : S; m_createTime : Z; m_request : Z }.

(** [src/src/http/http_connection.h:169-180] HttpConnectionPool, with the connections alive *)
Record HttpConnectionPool := mkPool {
  p_host : txt;
  p_vhost : txt;
  p_isHttps : bool;
  p_port : Z;
  m_maxSize : Z;
  m_maxAliveTime : Z;
  m_maxRequest : Z;
  m_conns : list Z;
  m_total : Z;
  p_heap : gmap Z HttpConnection;
  p_fresh : Z
}.

(** [src/src/http/http_connection.cpp:298-306] HttpConnectionPool::HttpConnectionPool *)
Definition HttpConnectionPool_new (host vhost : txt) (isHttps : bool)
    (port maxSize maxAliveTime maxRequest : Z) : HttpConnectionPool :=
  mkPool host vhost isHttps port maxSize maxAliveTime maxRequest [] 0 ∅ 0.

(** [src/src/http/http_connection.cpp:285-296] HttpConnectionPool::Create *)
Definition HttpConnectionPool_Create (uriStr vhost : txt) (maxSize maxAliveTime maxRequest : Z)
    : res (option HttpConnectionPool) :=
  uri ← UriParser.Create uriStr;
  match uri with
  | None => Ret None
  | Some uri =>
      Ret (Some (HttpConnectionPool_new (m_host uri) vhost (is_text (m_scheme uri) "https")
                   (u32 (getPort uri)) maxSize maxAliveTime maxRequest))
  end.

Definition with_pool (conns : list Z) (total : Z) (heap : gmap Z HttpConnection) (fresh : Z)
    (p : HttpConnectionPool) : HttpConnectionPool :=
  mkPool (p_host p) (p_vhost p) (p_isHttps p) (p_port p) (m_maxSize p) (m_maxAliveTime p)
    (m_maxRequest p) conns total heap fresh.

(** [SocketStream::isConnected] of a connection. *)
Context (s_connected : S → bool).

(** The time until which a connection may be used. *)
Definition alive_until (c : HttpConnection) (p : HttpConnectionPool) : Z :=
  u64 (m_createTime c + m_maxAliveTime p).

(** [src/src/http/http_connection.cpp:313-326] HttpConnectionPool::getConnection, the walk over the idle connections: the usable one, the ones that are not, and the idle ones left *)
Fixpoint pick (now : Z) (p : HttpConnectionPool) (conns : list Z)
    : res (option Z * list Z * list Z) :=
  match conns with
  | [] => Ret (None, [], [])
  | a :: conns =>
      c ← deref (p_heap p !! a) "conn";
      if negb (s_connected (c_stream c)) || (alive_until c p <? now) then
        '(ptr, invalid, rest) ← pick now p conns; Ret (ptr, a :: invalid, rest)
      else Ret (Some a, [], conns)
  end.

(** The port of an address. *)
Definition set_port (v : Z) (a : Address) : Address :=
  match a with
  | IpV4Address a => IpV4Address (v4_setPort h v a)
  | IpV6Address a => IpV6Address (v6_setPort h v a)
  | a => a
  end.
(** [src/src/http/http_connection.cpp:334-350] HttpConnectionPool::getConnection, the stream of a new connection *)
Definition pool_open (p : HttpConnectionPool) : option S :=
  addr ← LookupAnyIpAddress h getaddrinfo (p_host p) AF_INET 0 0;
  let addr := set_port (u16 (p_port p)) addr in
  s ← (if p_isHttps p then ssl_socket addr else tcp_socket (Some addr));
  let '(ok, s) := s_connect addr s in
  if ok then Some s else None.

(** [src/src/http/http_connection.cpp:308-353] HttpConnectionPool::getConnection. [opened] is the stream of a new connection, if the host resolves and the connect succeeds. One step here: the source walks under the lock, and deletes, counts and connects after it *)
Definition getConnection (now : Z) (opened : option S) (p : HttpConnectionPool)
    : res (option Z * HttpConnectionPool) :=
  '(ptr, invalid, rest) ← pick now p (m_conns p);
  let heap := foldr delete (p_heap p) invalid in
  let total := s32 (m_total p - zlen invalid) in
  match ptr with
  | Some a => Ret (Some a, with_pool rest total heap (p_fresh p) p)
  | None =>
      match opened with
      | None => Ret (None, with_pool rest total heap (p_fresh p) p)
      | Some s =>
          let a := p_fresh p in
          Ret (Some a, with_pool rest (s32 (total + 1)) (<[a := mkConn s now 0]> heap) (a + 1) p)
      end
  end.

(** [src/src/http/http_connection.cpp:481-498] HttpConnectionPool::ReleasePtr. One step here: the source takes the lock only to put the connection back *)
Definition ReleasePtr (now a : Z) (p : HttpConnectionPool) : res HttpConnectionPool :=
  c ← deref (p_heap p !! a) "ptr";
  let c := mkConn (c_stream c) (m_createTime c) (u64 (m_request c + 1)) in
  let heap := <[a := c]> (p_heap p) in
  if negb (s_connected (c_stream c)) || (alive_until c p <=? now) || (m_maxRequest p <=? m_request c)
  then Ret (with_pool (m_conns p) (s32 (m_total p - 1)) (delete a heap) (p_fresh p) p)
  else Ret (with_pool (m_conns p ++ [a]) (m_total p) heap (p_fresh p) p).

(** [src/src/http/http_connection.cpp:391-422] HttpConnectionPool::request(method, path, ...): the request *)
Definition pool_build (method : HttpMethod) (path : txt) (headers : list (txt * txt)) (body : txt)
    (p : HttpConnectionPool) : HttpRequest :=
  let req := q_setPath path (HttpRequest_new 17 true) in
  let req := q_setClose false (q_setMethod method req) in
  let '(hasHost, req) := add_headers headers false req in
  let req :=
    if negb hasHost
    then q_setHeader (chars "Host") (if is_empty (p_vhost p) then p_host p else p_vhost p) req
    else req in
  q_setBody body req.

(** [src/src/http/http_connection.cpp:429-432] the path of a URI with its query and fragment (also 366-369 and 384-387) *)
Definition uri_path (uri : Uri) : txt :=
  Uri.getPath uri ++ (if is_empty (m_query uri) then [] else chars "?") ++ m_query uri ++
  (if is_empty (m_fragment uri) then [] else chars "#") ++ m_fragment uri.

(** [src/src/http/http_connection.cpp:436-479] HttpConnectionPool::request(req, timeout): the connection goes back when the last pointer to it is gone, at the end *)
Definition pool_request (fuel : nat) (now later : Z) (timeout : Z) (req : HttpRequest)
    (p : HttpConnectionPool) : res (HttpResult * HttpConnectionPool) :=
  '(conn, p) ← getConnection now (pool_open p) p;
  match conn with
  | None => _ ← q_dump req; Ret (mkResult None POOL_GET_CONNECTION_FAIL, p)
  | Some a =>
      c ← deref (p_heap p !! a) "conn";
      '(r, s) ← exchange fuel req (setRecvTimeout timeout (c_stream c));
      let p := with_pool (m_conns p) (m_total p)
                 (<[a := mkConn s (m_createTime c) (m_request c)]> (p_heap p)) (p_fresh p) p in
      p ← ReleasePtr later a p;
      Ret (r, p)
  end.

(** [src/src/http/http_connection.cpp:391-422] HttpConnectionPool::request(method, path, ...) *)
Definition pool_request_path (fuel : nat) (now later : Z) (method : HttpMethod) (path : txt) (timeout : Z)
    (headers : list (txt * txt)) (body : txt) (p : HttpConnectionPool) :=
  pool_request fuel now later timeout (pool_build method path headers body p) p.
(** [src/src/http/http_connection.cpp:424-434] HttpConnectionPool::request(method, uri, ...) *)
Definition pool_request_uri (fuel : nat) (now later : Z) (method : HttpMethod) (uri : Uri) (timeout : Z)
    (headers : list (txt * txt)) (body : txt) (p : HttpConnectionPool) :=
  pool_request_path fuel now later method (uri_path uri) timeout headers body p.
(** [src/src/http/http_connection.cpp:355-360] HttpConnectionPool::get(path, ...) *)
Definition pool_get (fuel : nat) (now later : Z) (path : txt) (timeout : Z)
    (headers : list (txt * txt)) (body : txt) (p : HttpConnectionPool) :=
  pool_request_path fuel now later GET path timeout headers body p.
(** [src/src/http/http_connection.cpp:362-371] HttpConnectionPool::get(uri, ...) *)
Definition pool_get_uri (fuel : nat) (now later : Z) (uri : Uri) (timeout : Z)
    (headers : list (txt * txt)) (body : txt) (p : HttpConnectionPool) :=
  pool_get fuel now later (uri_path uri) timeout headers body p.
(** [src/src/http/http_connection.cpp:373-378] HttpConnectionPool::post(path, ...) *)
Definition pool_post (fuel : nat) (now later : Z) (path : txt) (timeout : Z)
    (headers : list (txt * txt)) (body : txt) (p : HttpConnectionPool) :=
  pool_request_path fuel now later POST path timeout headers body p.
(** [src/src/http/http_connection.cpp:380-389] HttpConnectionPool::post(uri, ...) *)
Definition pool_post_uri (fuel : nat) (now later : Z) (uri : Uri) (timeout : Z)
    (headers : list (txt * txt)) (body : txt) (p : HttpConnectionPool) :=
  pool_post fuel now later (uri_path uri) timeout headers body p.
End connection.
