(* ===== verification/HttpChunkedProps.v ===== *)
(** * Chunked bodies: theorems on recvResponse

    The loop of [HttpConnection::recvResponse] on chunks, on a stream that
    delivers the header of each chunk in one piece: the body is the data of
    the chunks, whatever the pieces the data come in. *)

From Stdlib Require Import Ascii.
From coqutil Require Import Byte.
From S2P Require Import Prelude Util Http Stream StreamProps HttpSession HttpSessionProps.
From S2P Require Import Ragel Regex RagelProps ResponseTable ResponseParser ResponseParserProps HttpConnection.

#[local] Opaque response_machine.

(** ** The header of a chunk *)

Definition hex_char (c : ascii) : bool := bool_decide (is_Some (digit_value 16 c)).
Definition hex_value (hs : txt) : Z := strtol_digits 16 0 hs.

Lemma hex_states : Ragel.closed (quiet response_machine false) hex_char [2] = true.
Proof. vm_compute. reflexivity. Qed.
Lemma hex_first :
  forallb (λ c, negb (hex_char c) || bool_decide (next response_machine false 1 (schar c) = Some ([Mark], 2)))
    all_ascii = true.
Proof. vm_compute. reflexivity. Qed.
Lemma hex_plain :
  forallb (λ c, negb (hex_char c) ||
    negb ((code c =? 32) || between 9 (code c) 13 || (code c =? 45) || (code c =? 43) ||
          (code c =? 120) || (code c =? 88))) all_ascii = true.
Proof. vm_compute. reflexivity. Qed.
Lemma chunk_cr : next response_machine false 2 (schar (ascii_of_nat 13)) = Some ([ChunkSize], 3).
Proof. vm_compute. reflexivity. Qed.
Lemma chunk_lf : next response_machine false 3 (schar (ascii_of_nat 10)) = Some ([Done], 120).
Proof. vm_compute. reflexivity. Qed.

Lemma hex_char_plain c : hex_char c = true →
  (code c =? 32) = false ∧ between 9 (code c) 13 = false ∧ (code c =? 45) = false ∧ (code c =? 43) = false ∧
  (code c =? 120) = false ∧ (code c =? 88) = false.
Proof.
  intros Hc. pose proof (forall_ascii _ hex_plain c) as H. cbn beta in H. rewrite Hc in H. simpl in H.
  apply negb_true_iff in H. rewrite !orb_false_iff in H. tauto.
Qed.

Lemma strtol_digits_stop base acc hs c rest :
  forallb (λ c, bool_decide (is_Some (digit_value base c))) hs = true → digit_value base c = None →
  strtol_digits base acc (hs ++ c :: rest) = strtol_digits base acc hs.
Proof.
  intros Hhs Hc. revert acc. induction hs as [|h hs IH]; intros acc; simpl; [by rewrite Hc|].
  simpl in Hhs. apply andb_true_iff in Hhs as [[v ->]%bool_decide_eq_true_1 ?]. by apply IH.
Qed.

Lemma strtol_hex hs rest :
  hs ≠ [] → forallb hex_char hs = true → 0 <= hex_value hs < 2 ^ 63 →
  strtol 16 (hs ++ crlf ++ rest) = hex_value hs.
Proof.
  intros Hne Hhs Hv. unfold crlf. cbn [app].
  destruct hs as [|c hs]; [done|]. pose proof Hhs as Hhs'. cbn [forallb] in Hhs.
  apply andb_true_iff in Hhs as [Hc Hhs]. destruct (hex_char_plain c Hc) as (H1 & H2 & H3 & H4 & _ & _).
  cbn [app strtol]. rewrite H1, H2, H3, H4. cbn [orb].
  assert (skip_0x 16 (c :: hs ++ ascii_of_nat 13 :: ascii_of_nat 10 :: rest) =
    (c :: hs) ++ ascii_of_nat 13 :: ascii_of_nat 10 :: rest) as ->.
  { destruct hs as [|x hs].
    { cbn [skip_0x app]. change ((code (ascii_of_nat 13) =? 120) || (code (ascii_of_nat 13) =? 88)) with false.
      by rewrite andb_false_r. }
    cbn [forallb] in Hhs. apply andb_true_iff in Hhs as [Hx _].
    destruct (hex_char_plain x Hx) as (_ & _ & _ & _ & H5 & H6). cbn [skip_0x app].
    rewrite H5, H6. cbn [orb]. rewrite andb_false_r. cbn [andb].
    by destruct (hs ++ _). }
  rewrite strtol_digits_stop by done. unfold clamp_long. fold (hex_value (c :: hs)). lia.
Qed.

(** [execute] on the header of a chunk, which starts the parser again. *)
Lemma chunk_header_parse p hs rest :
  hs ≠ [] → forallb hex_char hs = true → 0 <= hex_value hs < 2 ^ 31 →
  zlen (hs ++ crlf ++ rest) < 2 ^ 31 →
  ∃ ps, r_execute (hs ++ crlf ++ rest) true p = Ret (zlen hs + 2, rest, mkRParser ps (rp_data p) (rp_error p)) ∧
    rs_cs ps = 120 ∧ rs_content_len ps = hex_value hs ∧
    rs_chunks_done ps = (if hex_value hs <=? 0 then 1 else 0).
Proof.
  intros Hne Hhs Hv Hlen. set (buffer := hs ++ crlf ++ rest) in *.
  set (ps0 := http_response_parser_init (rp_parser p)). set (d := (rp_data p, rp_error p)).
  set (ps1 := rs_set_content_len (hex_value hs) (rs_set_mark 0 ps0)).
  set (ps2 := rs_set_chunk 1 (if hex_value hs <=? 0 then 1 else 0) ps1).
  set (ps3 := rs_set_body_start (zlen hs + 2) ps2).
  assert (zlen buffer = zlen hs + zlen rest + 2) as Hz.
  { unfold buffer. rewrite !zlen_app. change (zlen crlf) with 2. lia. }
  pose proof (zlen_nonneg rest). pose proof (zlen_nonneg hs).
  assert (strtol 16 (r_ptr buffer 0) = hex_value hs) as Hstr.
  { unfold r_ptr, buffer. change (zdrop 0 ?b) with b. apply strtol_hex; [done|done|lia]. }
  assert (run response_machine false (response_act on_response buffer) response_breaks buffer 1 0 (ps0, d) =
    Ret (120, zlen hs + 2, (ps3, d))) as Hrun.
  { destruct hs as [|c hs]; [done|]. cbn [forallb] in Hhs. apply andb_true_iff in Hhs as [Hc Hhs'].
    pose proof (forall_ascii _ hex_first c) as Hf. cbn beta in Hf. rewrite Hc in Hf. cbn [negb orb] in Hf.
    apply bool_decide_eq_true_1 in Hf. unfold buffer at 2. cbn [app].
    eapply eq_trans; [apply (run_step _ _ _ _ _ _ _ _ _ _ _ (rs_set_mark 0 ps0, d) Hf); [done|reflexivity]|].
    cbn [existsb response_breaks orb].
    destruct (walk_closed _ _ _ hs 2 hex_states Hhs') as (n & Hw & Hn); [by left|].
    apply list_elem_of_singleton in Hn as ->.
    eapply eq_trans; [exact (run_walk _ _ _ _ _ _ _ _ _ _ Hw)|]. unfold crlf. cbn [app].
    eapply eq_trans; [apply (run_step _ _ _ _ _ _ _ _ _ _ _ (ps2, d) chunk_cr); [done|]|].
    { cbn [actions response_act]. change (rs_mark (rs_set_mark 0 ps0)) with 0.
      rewrite Hstr, s32_small by lia. fold ps1. unfold r_called, on_response. cbn [fst snd].
      by destruct (negb _). }
    cbn [existsb response_breaks orb].
    eapply eq_trans; [apply (run_step _ _ _ _ _ _ _ _ _ _ _ (ps3, d) chunk_lf); [done|]|].
    { cbn [actions response_act]. unfold r_called, on_response. cbn [fst snd d].
      unfold ps3. rewrite (zlen_cons c hs). replace (0 + 1 + zlen hs + 1 + 1) with (1 + zlen hs + 2) by lia.
      reflexivity. }
    cbn [existsb response_breaks orb]. rewrite zlen_cons. do 3 f_equal. lia. }
  exists (rs_set_nread (zlen hs + 2) (rs_set_cs 120 ps3)). split; [|done].
  unfold r_execute, http_response_parser_execute. fold ps0 d.
  rewrite (proj2 (Z.leb_le 0 _)) by lia. cbn [check]. rewrite ret_bind.
  rewrite (s32_small (zlen buffer)), (s32_small 0), Z.eqb_refl by lia. cbn [check]. rewrite ret_bind.
  change (zdrop 0 buffer) with buffer. change (rs_cs ps0) with 1. rewrite Hrun, ret_bind. cbn [fst snd].
  rewrite response_leave_ok; [|reflexivity|lia|lia| | | |];
    [|change (zlen hs + 2 <= zlen buffer); lia|change (0 < zlen buffer); lia
     |change (0 <= zlen buffer); lia|change (0 < zlen buffer); lia].
  rewrite !ret_bind, (proj2 (Z.ltb_ge _ 0)) by lia.
  do 2 f_equal. unfold buffer. f_equal.
  replace (zlen hs + 2) with (zlen (hs ++ crlf)) by (rewrite zlen_app; done).
  rewrite app_assoc, zdrop_app_r, Z.sub_diag by lia. done.
Qed.

(** ** What the stream delivers *)

(** A chunk: the digits of its length, and its data. *)
Definition chunk : Type := txt * txt.
Definition chunk_ok (c : chunk) : Prop :=
  fst c ≠ [] ∧ forallb hex_char (fst c) = true ∧ hex_value (fst c) = zlen (snd c) ∧
  zlen (snd c) + 2 < 2 ^ 31.

Section delivery.
Context (bufsize : Z) {S : Type} `{StreamOps S}.

(** Reads that give [left] bytes, [d]. *)
Inductive reads : Z → S → txt → S → Prop :=
| reads_nil s : reads 0 s [] s
| reads_cons left s d s1 d' s2 :
    0 < left → 0 < zlen d <= Z.min left bufsize →
    s_read (Z.min left bufsize) s = Ret (zlen d, bytes_of d, s1) →
    reads (left - zlen d) s1 d' s2 → reads left s (d ++ d') s2.

(** The buffer before the header of a chunk: when it is empty, a read. *)
Inductive filled : txt → S → txt → S → Prop :=
| filled_kept pending s : pending ≠ [] → filled pending s pending s
| filled_read s d s1 :
    0 < zlen d → s_read bufsize s = Ret (zlen d, bytes_of d, s1) → filled [] s d s1.

(** A chunk in the buffer, or its beginning, and the rest from the stream;
    then what is left in the buffer. *)
Inductive chunk_at : txt → S → chunk → txt → S → Prop :=
| chunk_whole hs data rest s :
    chunk_ok (hs, data) → zlen (hs ++ crlf ++ data ++ crlf ++ rest) <= bufsize →
    chunk_at (hs ++ crlf ++ data ++ crlf ++ rest) s (hs, data) rest s
| chunk_split hs data d1 d2 s s1 :
    chunk_ok (hs, data) → data ++ crlf = d1 ++ d2 → d2 ≠ [] → zlen (hs ++ crlf ++ d1) <= bufsize →
    reads (zlen d2) s d2 s1 → chunk_at (hs ++ crlf ++ d1) s (hs, data) [] s1.

(** Chunks up to the empty one. *)
Inductive delivered : txt → S → list chunk → S → Prop :=
| delivered_end pending s p1 s1 c p2 s2 :
    filled pending s p1 s1 → chunk_at p1 s1 c p2 s2 → snd c = [] → delivered pending s [c] s2
| delivered_more pending s p1 s1 c p2 s2 cs s3 :
    filled pending s p1 s1 → chunk_at p1 s1 c p2 s2 → snd c ≠ [] → delivered p2 s2 cs s3 →
    delivered pending s (c :: cs) s3.

Context (s_close : S → res S).
Hypothesis bufsize_int : 0 < bufsize < 2 ^ 31.
Local Notation chunk_left := (chunk_left bufsize s_close).
Local Notation chunk_header := (chunk_header bufsize s_close).
Local Notation chunk_loop := (chunk_loop bufsize s_close).

Lemma reads_zlen left s d s' : reads left s d s' → zlen d = left.
Proof. induction 1; [done|]. rewrite zlen_app. lia. Qed.

Lemma chunk_left_reads left s d s' :
  reads left s d s' → left < 2 ^ 31 →
  ∃ n, ∀ fuel body, (n <= fuel)%nat → chunk_left fuel left body s = Ret (Some (body ++ d), s').
Proof.
  induction 1 as [s|left s d s1 d' s2 Hl Hd Hr _ IH]; intros Hleft.
  - exists 1%nat. intros [|fuel] body Hf; [lia|]. simpl. by rewrite app_nil_r.
  - destruct IH as [n IH]; [lia|]. exists (Datatypes.S n). intros [|fuel] body Hf; [lia|].
    cbn [HttpConnection.chunk_left]. rewrite (proj2 (Z.leb_gt left 0)), Hr, ret_bind by lia.
    rewrite (s32_small (zlen d)), (proj2 (Z.ltb_ge _ 0)), s32_small by lia.
    rewrite IH by lia. by rewrite ascii_of_bytes, app_assoc.
Qed.

(** The header of a chunk at the front of the buffer. *)
Lemma chunk_header_ok p pending s hs rest s1 :
  filled pending s (hs ++ crlf ++ rest) s1 → hs ≠ [] → forallb hex_char hs = true →
  0 <= hex_value hs < 2 ^ 31 → zlen (hs ++ crlf ++ rest) <= bufsize → rp_error p = 0 →
  ∃ ps, (∀ fuel, chunk_header (Datatypes.S fuel) true p pending s =
    Ret (Some (mkRParser ps (rp_data p) 0, rest), s1)) ∧
    rs_content_len ps = hex_value hs ∧ rs_chunks_done ps = (if hex_value hs <=? 0 then 1 else 0).
Proof.
  intros Hfill Hne Hhs Hv Hz He.
  destruct (chunk_header_parse p hs rest Hne Hhs Hv) as (ps & E & Hcs & Hlen & Hdone); [lia|].
  exists ps. split; [|done]. intros fuel. rewrite He in E. cbn [HttpConnection.chunk_header negb orb].
  assert ((if zlen pending =? 0
           then '(rt, d, s) ← s_read (bufsize - zlen pending) s; Ret (s32 rt, pending ++ ascii_of d, s)
           else Ret (1, pending, s)) =
    Ret (if zlen pending =? 0 then zlen (hs ++ crlf ++ rest) else 1, hs ++ crlf ++ rest, s1)) as ->.
  { inversion Hfill as [q s0 Hq|s0 d s0' Hd Hr]; subst.
    - rewrite (proj2 (Z.eqb_neq _ 0)); [done|]. rewrite zlen_app. destruct hs; [done|]. rewrite zlen_cons.
      pose proof (zlen_nonneg hs). pose proof (zlen_nonneg (crlf ++ rest)). lia.
    - change (zlen (@nil ascii)) with 0. cbn [Z.eqb]. rewrite Z.sub_0_r, Hr, ret_bind, ascii_of_bytes.
      rewrite s32_small by lia. done. }
  rewrite ret_bind. pose proof (zlen_nonneg rest). assert (0 < zlen hs) as Hpos.
  { destruct hs; [done|]. rewrite zlen_cons. pose proof (zlen_nonneg hs). lia. }
  rewrite !zlen_app in *. change (zlen crlf) with 2 in *.
  rewrite (proj2 (Z.leb_gt _ 0)) by (destruct (zlen pending =? 0); lia).
  rewrite E, ret_bind. unfold r_hasError, r_isFinished, http_response_parser_has_error,
    http_response_parser_is_finished. cbn [rp_error rp_parser]. rewrite Hcs.
  rewrite (proj2 (Z.eqb_neq _ bufsize)) by lia. done.
Qed.

(** One turn of the loop. *)
Lemma chunk_turn p pending s p1 s1 c p2 s2 :
  filled pending s p1 s1 → chunk_at p1 s1 c p2 s2 → rp_error p = 0 →
  ∃ n ps, ∀ fuel body, (n <= fuel)%nat →
    chunk_loop (Datatypes.S fuel) p pending body s =
      if is_empty (snd c) then Ret (Some (mkRParser ps (rp_data p) 0, body ++ snd c), s2)
      else chunk_loop fuel (mkRParser ps (rp_data p) 0) p2 (body ++ snd c) s2.
Proof.
  intros Hfill Hat He. inversion Hat as [hs data rest s0 Hok Hz|hs data d1 d2 s0 s0' Hok Hd Hne Hz Hr]; subst.
  - destruct Hok as (Hn & Hhs & Hv & Hlt). cbn [fst snd] in *.
    pose proof (zlen_nonneg data). pose proof (zlen_nonneg p2).
    destruct (chunk_header_ok p pending s hs (data ++ crlf ++ p2) s2) as (ps & E & Hlen & Hdone);
      [done|done|done|lia|done|done|].
    exists 1%nat, ps. intros [|fuel] body Hf; [lia|]. cbn [HttpConnection.chunk_loop].
    rewrite E, ret_bind. cbn [rp_parser]. rewrite Hlen, Hdone, Hv.
    rewrite (proj2 (Z.leb_gt (2 ^ 31) _)) by lia.
    rewrite (proj2 (Z.leb_le (zlen data + 2) _)) by (rewrite !zlen_app; change (zlen crlf) with 2; lia).
    rewrite (proj2 (Z.ltb_ge _ 0)), ret_bind by lia.
    rewrite ztake_app_l, ztake_all by lia.
    replace (zdrop (zlen data + 2) (data ++ crlf ++ p2)) with p2.
    2:{ rewrite app_assoc, zdrop_app_r by (rewrite zlen_app; change (zlen crlf) with 2; lia).
        rewrite zlen_app. change (zlen crlf) with 2. by rewrite Z.sub_diag. }
    by destruct data.
  - destruct Hok as (Hn & Hhs & Hv & Hlt). cbn [fst snd] in *.
    pose proof (zlen_nonneg data). pose proof (zlen_nonneg d1).
    assert (0 < zlen d2) as Hd2.
    { destruct d2; [done|]. rewrite zlen_cons. pose proof (zlen_nonneg d2). lia. }
    assert (zlen data + 2 = zlen d1 + zlen d2) as Hzd.
    { rewrite <- zlen_app, <- Hd, zlen_app. done. }
    destruct (chunk_header_ok p pending s hs d1 s1) as (ps & E & Hlen & Hdone);
      [done|done|done|lia|done|done|].
    destruct (chunk_left_reads _ _ _ _ Hr) as [n Hn']; [lia|].
    exists (Datatypes.S n), ps. intros [|fuel] body Hf; [lia|]. cbn [HttpConnection.chunk_loop].
    rewrite E, ret_bind. cbn [rp_parser]. rewrite Hlen, Hdone, Hv.
    rewrite (proj2 (Z.leb_gt (2 ^ 31) _)), (proj2 (Z.leb_gt (zlen data + 2) _)) by lia.
    replace (zlen data - zlen d1 + 2) with (zlen d2) by lia.
    rewrite Hn', ret_bind by lia. rewrite <- app_assoc, <- Hd, app_assoc.
    pose proof (zlen_nonneg body).
    assert (zlen ((body ++ data) ++ crlf) = zlen (body ++ data) + 2) as Hzb by (by rewrite zlen_app).
    rewrite Hzb, zlen_app, (proj2 (Z.ltb_ge _ 2)), ret_bind by lia.
    replace (ztake _ ((body ++ data) ++ crlf)) with (body ++ data).
    2:{ rewrite ztake_app_l by (rewrite zlen_app; lia). rewrite ztake_ge; [done|]. rewrite zlen_app. lia. }
    by destruct data.
Qed.

Lemma chunk_loop_spec pending s cs s' p :
  delivered pending s cs s' → rp_error p = 0 →
  ∃ n ps, ∀ fuel body, (n <= fuel)%nat →
    chunk_loop fuel p pending body s =
      Ret (Some (mkRParser ps (rp_data p) 0, body ++ concat (snd <$> cs)), s').
Proof.
  intros Hd. revert p. induction Hd as [pending s p1 s1 c p2 s2 Hf Hc Hz|pending s p1 s1 c p2 s2 cs s3 Hf Hc Hz _ IH];
    intros p He; destruct (chunk_turn p _ _ _ _ _ _ _ Hf Hc He) as (n & ps & E).
  - exists (Datatypes.S n), ps. intros [|fuel] body Hle; [lia|]. rewrite E by lia. rewrite Hz.
    cbn. by rewrite Hz.
  - destruct (IH (mkRParser ps (rp_data p) 0) eq_refl) as (n' & ps' & E').
    exists (Datatypes.S (n `max` n')), ps'. intros [|fuel] body Hle; [lia|]. rewrite E by lia.
    destruct (snd c) as [|x d] eqn:Hsc; [done|]. cbn [is_empty]. rewrite E' by lia.
    cbn [fmap list_fmap concat]. by rewrite Hsc, app_assoc.
Qed.
End delivery.

(** C17: chunked bodies.  When the header that [recvResponse] reads announces
    chunks and the stream delivers chunks up to an empty one, each chunk's
    header in one piece at the front of the buffer and its data in any pieces,
    [recvResponse] returns the response of the header with the data of the
    chunks as its body (with no body when there are none), and leaves the
    stream where the last of these reads has left it.  What that read brought
    beyond the empty chunk is dropped. *)
Theorem recvResponse_chunked {S} `{StreamOps S} junk cast bufsize can_alloc (s_close : S → res S)
    n0 (s s1 s' : S) p pending cs :
  0 < bufsize < 2 ^ 31 →
  (∀ fuel, (n0 <= fuel)%nat →
     r_header_loop bufsize s_close fuel (HttpResponseParser_new junk) [] s = Ret (Some (p, pending), s1)) →
  rs_chunked (rp_parser p) ≠ 0 → rp_error p = 0 → delivered bufsize pending s1 cs s' →
  ∃ n, ∀ fuel, (n <= fuel)%nat →
    recvResponse junk cast bufsize can_alloc s_close fuel s =
      Ret (Some (if is_empty (concat (snd <$> cs)) then rp_data p
                 else r_setBody (concat (snd <$> cs)) (rp_data p)), s').
Proof.
  intros Hb Hh Hc He Hd. destruct (chunk_loop_spec bufsize s_close Hb _ _ _ _ p Hd He) as (n & ps & E).
  exists (n0 `max` n)%nat. intros fuel Hf. unfold recvResponse. rewrite Hh, ret_bind by lia.
  rewrite (proj2 (Z.eqb_neq _ 0)) by done. cbn [negb]. rewrite E, !ret_bind by lia. done.
Qed.

Definition chunked_stream : SocketStream script :=
  mkSocketStream (Some (mkScript
    [bytes_of (chars "HTTP/1.1 200 OK" ++ crlf ++ chars "Transfer-Encoding: chunked" ++ crlf ++ crlf);
     bytes_of (chars "5" ++ crlf ++ chars "hel"); bytes_of (chars "lo" ++ crlf);
     bytes_of (chars "0" ++ crlf ++ crlf ++ chars "next")] [])) true.
Definition zero_response_parser : http_response_parser := mkRespP 0 0 0 0 0 0 0 0 0 0 0.

Example recvResponse_chunked_witness :
  ∃ n s' r, ∀ fuel, (n <= fuel)%nat →
    recvResponse zero_response_parser (λ _, None) 4096 (λ _, true) Stream.close fuel chunked_stream =
      Ret (Some (r_setBody (chars "hello") r), s').
Proof.
  destruct (recvResponse_chunked zero_response_parser (λ _, None) 4096 (λ _, true) Stream.close 1
    chunked_stream
    (mkSocketStream (Some (mkScript [bytes_of (chars "5" ++ crlf ++ chars "hel"); bytes_of (chars "lo" ++ crlf);
       bytes_of (chars "0" ++ crlf ++ crlf ++ chars "next")] [])) true)
    (mkSocketStream (Some (mkScript [] [])) true)
    (match r_header_loop 4096 Stream.close 1 (HttpResponseParser_new zero_response_parser) [] chunked_stream with
     | Ret (Some (p, _), _) => p | _ => HttpResponseParser_new zero_response_parser end)
    [] [(chars "5", chars "hello"); (chars "0", [])]) as [n E].
  - split; reflexivity.
  - intros [|fuel] Hf; [inversion Hf|]. vm_compute. reflexivity.
  - vm_compute. discriminate.
  - reflexivity.
  - eapply delivered_more.
    + apply (filled_read _ _ (chars "5" ++ crlf ++ chars "hel")); [reflexivity|vm_compute; reflexivity].
    + apply (chunk_split _ (chars "5") (chars "hello") (chars "hel") (chars "lo" ++ crlf)).
      * split; [discriminate|]. split; [reflexivity|]. split; [reflexivity|]. reflexivity.
      * reflexivity.
      * discriminate.
      * discriminate.
      * eapply (reads_cons _ 4 _ (chars "lo" ++ crlf)); [reflexivity|split; [reflexivity|discriminate]| |].
        -- vm_compute. reflexivity.
        -- apply reads_nil.
    + discriminate.
    + eapply delivered_end.
      * apply (filled_read _ _ (chars "0" ++ crlf ++ crlf ++ chars "next")); [reflexivity|vm_compute; reflexivity].
      * apply (chunk_whole _ (chars "0") [] (chars "next")); [|discriminate].
        split; [discriminate|]. split; [reflexivity|]. split; reflexivity.
      * reflexivity.
  - exists n, (mkSocketStream (Some (mkScript [] [])) true). eexists. exact E.
Defined.
