(* ===== verification/HttpConnectionProps.v ===== *)
(** * HTTP on the client side: theorems on HttpConnection.v *)

From Stdlib Require Import Ascii.
From S2P Require Import Prelude Util Http HttpProps Stream Uri HttpConnection.

(** ** Requests *)

Lemma add_headers_host headers hasHost req :
  h_wf (q_headers req) →
  (hasHost = true → q_hasHeader (chars "host") req = true) →
  let '(hasHost', req') := add_headers headers hasHost req in
  h_wf (q_headers req') ∧ (hasHost' = true → q_hasHeader (chars "host") req' = true) ∧
  (h_find (chars "connection") (q_headers req) = None →
   h_find (chars "connection") (q_headers req') = None).
Proof.
  revert hasHost req. induction headers as [|[k v] headers IH]; intros hasHost req Hw Hh;
    cbn [add_headers]; [done|].
  destruct (strcaseeq k (chars "connection")) eqn:Hc.
  - destruct (strcaseeq v _); [exact (IH hasHost (q_setClose false req) Hw Hh)|by apply IH].
  - specialize (IH (if negb hasHost && strcaseeq k (chars "host") then negb (is_empty v) else hasHost)
      (q_setHeader k v req)).
    destruct (add_headers _ _ _) as [hh rq]. destruct IH as (H1 & H2 & H3).
    + by apply h_wf_put.
    + intros Ht. unfold q_hasHeader, q_setHeader. cbn [q_headers q_setHeaders]. rewrite h_find_put.
      destruct (decide (folded (chars "host") = folded k)) as [Hk|Hk];
        [rewrite (bool_decide_eq_true_2 _ Hk); by apply bool_decide_eq_true_2|].
      rewrite (bool_decide_eq_false_2 _ Hk).
      assert (strcaseeq k (chars "host") = false) as Hk'.
      { apply bool_decide_eq_false_2. congruence. }
      rewrite Hk', andb_false_r in Ht. by apply Hh.
    + split_and!; try done. intros Hn. apply H3. unfold q_setHeader.
      cbn [q_headers q_setHeaders]. rewrite h_find_put.
      rewrite bool_decide_eq_false_2; [done|]. intros Hk. symmetry in Hk.
      apply bool_decide_eq_false_1 in Hc. by apply Hc.
Qed.

(** Every request that [Request] builds has a host header, and no
    connection header among the others: the connection header that is sent is
    the one of the close flag.  The body and the parts of the URI are those
    that were given. *)
Theorem built_request method uri headers body :
  let req := build_request method uri headers body in
  q_hasHeader (chars "host") req = true ∧ h_find (chars "connection") (q_headers req) = None ∧
  h_wf (q_headers req) ∧ q_method req = method ∧ q_body req = body ∧
  q_path req = Uri.getPath uri ∧ q_query req = m_query uri ∧ q_fragment req = m_fragment uri.
Proof.
  cbv zeta. unfold build_request. cbv zeta.
  set (req := q_setFragment _ _).
  assert (∀ hs b r, let '(_, r') := add_headers hs b r in
    q_method r' = q_method r ∧ q_path r' = q_path r ∧ q_query r' = q_query r ∧
    q_fragment r' = q_fragment r) as Hsame.
  { induction hs as [|[k v] hs IH]; intros b r; cbn [add_headers]; [done|].
    destruct (strcaseeq k _).
    - specialize (IH b (if strcaseeq v (chars "keep-alive") then q_setClose false r else r)).
      destruct (add_headers _ _ _). by destruct (strcaseeq v _).
    - specialize (IH (if negb b && strcaseeq k (chars "host") then negb (is_empty v) else b)
        (q_setHeader k v r)). by destruct (add_headers _ _ _). }
  specialize (Hsame headers false req).
  pose proof (add_headers_host headers false req) as H.
  destruct (add_headers headers false req) as [hasHost r].
  destruct H as (Hw & Hh & Hc); [done|done|]. destruct Hsame as (Hm & Hp & Hq & Hf).
  destruct hasHost; cbn [negb]; split_and!;
    try exact Hm; try exact Hp; try exact Hq; try exact Hf; try reflexivity; auto;
    unfold q_hasHeader; cbn [q_headers q_setBody q_setHeader q_setHeaders].
  - rewrite h_find_put. by apply bool_decide_eq_true_2.
  - rewrite h_find_put, bool_decide_eq_false_2; [auto|]. vm_compute. discriminate.
  - by apply h_wf_put.
Qed.

(** ** The pool *)

Lemma s32_add_l x k : s32 (s32 x + k) = s32 (x + k).
Proof.
  unfold s32, swrap. f_equal.
  replace ((x + 2 ^ (32 - 1)) mod 2 ^ 32 - 2 ^ (32 - 1) + k + 2 ^ (32 - 1))
    with ((x + 2 ^ (32 - 1)) mod 2 ^ 32 + k) by lia.
  rewrite Zplus_mod_idemp_l. f_equal. lia.
Qed.

Section pool.
Context {S : Type} (s_connected : S → bool).
Local Notation pool := (@HttpConnectionPool S).
Local Notation pick := (pick s_connected).
Local Notation getConnection := (getConnection s_connected).
Local Notation ReleasePtr := (ReleasePtr s_connected).

(** The idle connections and the ones handed out are the ones alive, each once. *)
Definition pool_inv (p : pool) (out : list Z) : Prop :=
  NoDup (m_conns p ++ out) ∧
  (∀ a, is_Some (p_heap p !! a) ↔ a ∈ m_conns p ++ out) ∧
  (∀ a, a ∈ m_conns p ++ out → a < p_fresh p) ∧
  m_total p = s32 (zlen (m_conns p ++ out)).

Definition usable (now : Z) (c : HttpConnection) (p : pool) : Prop :=
  s_connected (c_stream c) = true ∧ now <= alive_until c p.

Lemma pick_spec now p conns :
  (∀ a, a ∈ conns → is_Some (p_heap p !! a)) →
  ∃ ptr invalid rest, pick now p conns = Ret (ptr, invalid, rest) ∧
    conns = invalid ++ option_list ptr ++ rest ∧
    match ptr with
    | Some a => ∃ c, p_heap p !! a = Some c ∧ usable now c p
    | None => rest = []
    end.
Proof.
  induction conns as [|a conns IH]; intros Hin; simpl; [by exists None, [], []|].
  destruct (Hin a) as [c Hc]; [left|]. rewrite Hc. simpl.
  destruct (negb (s_connected (c_stream c)) || (alive_until c p <? now)) eqn:Hu.
  - destruct IH as (ptr & invalid & rest & -> & -> & H); [intros b Hb; apply Hin; by right|].
    by exists ptr, (a :: invalid), rest.
  - exists (Some a), [], conns. split; [done|]. split; [done|]. exists c. split; [done|].
    apply orb_false_iff in Hu as [?%negb_false_iff ?%Z.ltb_ge]. done.
Qed.

Lemma lookup_foldr_delete (m : gmap Z (@HttpConnection S)) l a :
  foldr delete m l !! a = if decide (a ∈ l) then None else m !! a.
Proof.
  induction l as [|b l IH]; simpl; [done|].
  destruct (decide (a = b)) as [->|Hne].
  - rewrite lookup_delete_eq, decide_True; [done|left].
  - rewrite lookup_delete_ne, IH by done. destruct (decide (a ∈ l)).
    + by rewrite decide_True; [|right].
    + rewrite decide_False; [done|]. rewrite elem_of_cons. tauto.
Qed.

(** What is left after the invalid connections are deleted. *)
Lemma pool_inv_picked p out invalid l fresh total :
  pool_inv p out → m_conns p = invalid ++ l → total = s32 (m_total p - zlen invalid) →
  p_fresh p <= fresh →
  NoDup (l ++ out) ∧
  (∀ a, is_Some (foldr delete (p_heap p) invalid !! a) ↔ a ∈ l ++ out) ∧
  (∀ a, a ∈ l ++ out → a < fresh) ∧ total = s32 (zlen (l ++ out)).
Proof.
  intros (Hn & Hd & Hf & Ht) Hc -> Hfr. rewrite Hc, <- app_assoc in *.
  apply NoDup_app in Hn as (Hn1 & Hdis & Hn2). split_and!; [done|..].
  - intros a. rewrite lookup_foldr_delete. destruct (decide (a ∈ invalid)) as [Ha|Ha].
    + split; [by intros []|]. intros Hb. by destruct (Hdis a Ha).
    + rewrite Hd, elem_of_app. tauto.
  - intros a Ha. assert (a < p_fresh p) by (apply Hf, elem_of_app; by right). lia.
  - rewrite Ht, <- Z.add_opp_r, s32_add_l. f_equal. rewrite !zlen_app. lia.
Qed.

Lemma getConnection_inv now opened p out :
  pool_inv p out →
  ∃ r p', getConnection now opened p = Ret (r, p') ∧
    match r with
    | Some a => pool_inv p' (a :: out) ∧ ∃ c, p_heap p' !! a = Some c ∧
        (usable now c p ∨ (opened = Some (c_stream c) ∧ m_createTime c = now ∧ m_request c = 0))
    | None => pool_inv p' out ∧ opened = None
    end.
Proof.
  intros Hinv. unfold HttpConnection.getConnection.
  destruct (pick_spec now p (m_conns p)) as (ptr & invalid & rest & -> & Hc & Hptr).
  { intros a Ha. apply Hinv, elem_of_app. by left. }
  cbn [mbind res_bind]. destruct ptr as [a|].
  - destruct Hptr as (c & Hcl & Hu). eexists _, _. split; [done|].
    destruct (pool_inv_picked p out invalid ([a] ++ rest) (p_fresh p) _ Hinv Hc eq_refl) as (H1 & H2 & H3 & H4);
      [lia|].
    assert (([a] ++ rest) ++ out ≡ₚ rest ++ a :: out) as Hperm.
    { simpl. by rewrite Permutation_middle. }
    split.
    + unfold pool_inv. simpl. split_and!.
      * by rewrite <- Hperm.
      * intros b. rewrite H2. by rewrite Hperm.
      * intros b Hb. apply H3. by rewrite Hperm.
      * rewrite H4. unfold zlen. by rewrite (Permutation_length Hperm).
    + exists c. split; [|by left]. simpl. rewrite lookup_foldr_delete, decide_False; [done|].
      destruct Hinv as (Hn & _). rewrite Hc, <- app_assoc in Hn.
      apply NoDup_app in Hn as (_ & Hdis & _). intros Ha. apply (Hdis a Ha). simpl. left.
  - subst rest. change (option_list None ++ []) with (@nil Z) in Hc.
    destruct opened as [s|].
    + eexists _, _. split; [done|].
      destruct (pool_inv_picked p out invalid [] (p_fresh p) _ Hinv Hc eq_refl) as (H1 & H2 & H3 & H4);
        [lia|]. simpl in H1, H2, H3, H4.
      split; [|exists (mkConn s now 0); simpl; rewrite lookup_insert_eq; split; [done|by right]].
      unfold pool_inv. simpl. split_and!.
      * constructor; [|done]. intros Ha%H3. lia.
      * intros b. rewrite elem_of_cons, <- H2. destruct (decide (p_fresh p = b)) as [<-|Hne].
        -- rewrite lookup_insert_eq. split; [by left|eauto].
        -- rewrite lookup_insert_ne by done. naive_solver.
      * intros b [->|Hb%H3]%elem_of_cons; lia.
      * rewrite H4, s32_add_l, zlen_cons. f_equal. lia.
    + eexists _, _. split; [done|]. split; [|done].
      destruct (pool_inv_picked p out invalid [] (p_fresh p) _ Hinv Hc eq_refl) as (H1 & H2 & H3 & H4);
        [lia|]. done.
Qed.

Lemma ReleasePtr_inv now a p out :
  pool_inv p (a :: out) → ∃ p', ReleasePtr now a p = Ret p' ∧ pool_inv p' out.
Proof.
  intros (Hn & Hd & Hf & Ht). unfold HttpConnection.ReleasePtr.
  destruct (proj2 (Hd a)) as [c Hc]; [apply elem_of_app; right; left|]. rewrite Hc.
  cbn [deref mbind res_bind].
  assert (m_conns p ++ a :: out ≡ₚ a :: m_conns p ++ out) as Hperm by (by rewrite Permutation_middle).
  case_match; eexists; (split; [done|]); unfold pool_inv; simpl.
  - rewrite Hperm in Hn. apply NoDup_cons in Hn as [Hna Hn]. split_and!; [done|..].
    + intros b. destruct (decide (a = b)) as [<-|Hne].
      * rewrite lookup_delete_eq. split; [by intros []|done].
      * rewrite lookup_delete_ne, lookup_insert_ne by done. rewrite Hd, Hperm, elem_of_cons. naive_solver.
    + intros b Hb. apply Hf. rewrite Hperm. by right.
    + rewrite Ht, <- Z.add_opp_r, s32_add_l. f_equal. unfold zlen. rewrite (Permutation_length Hperm).
      simpl. lia.
  - assert ((m_conns p ++ [a]) ++ out = m_conns p ++ a :: out) as Heq by (by rewrite <- app_assoc).
    rewrite Heq. split_and!; [done| |done|done].
    intros b. rewrite <- Hd. destruct (decide (a = b)) as [<-|Hne].
    + rewrite lookup_insert_eq, Hc. split; eauto.
    + by rewrite lookup_insert_ne.
Qed.

(** The life of a pool: connections are taken, used and released. *)
Inductive pool_reach (p0 : pool) : pool → list Z → Prop :=
| reach_new : pool_reach p0 p0 []
| reach_get p out now opened r p' :
    pool_reach p0 p out → getConnection now opened p = Ret (r, p') →
    pool_reach p0 p' (option_list r ++ out)
| reach_use p out a c s :
    pool_reach p0 p out → a ∈ out → p_heap p !! a = Some c →
    pool_reach p0 (with_pool (m_conns p) (m_total p)
      (<[a := mkConn s (m_createTime c) (m_request c)]> (p_heap p)) (p_fresh p) p) out
| reach_release p out out' a now p' :
    pool_reach p0 p out → out ≡ₚ a :: out' → ReleasePtr now a p = Ret p' →
    pool_reach p0 p' out'.

Lemma pool_inv_perm p out out' : out ≡ₚ out' → pool_inv p out → pool_inv p out'.
Proof.
  intros Hp (Hn & Hd & Hf & Ht). assert (m_conns p ++ out ≡ₚ m_conns p ++ out') as Hperm by (by rewrite Hp).
  split_and!.
  - by rewrite <- Hperm.
  - intros a. by rewrite Hd, Hperm.
  - intros a Ha. apply Hf. by rewrite Hperm.
  - rewrite Ht. unfold zlen. by rewrite (Permutation_length Hperm).
Qed.

Lemma pool_reach_inv p0 p out : pool_inv p0 [] → pool_reach p0 p out → pool_inv p out.
Proof.
  intros H0. induction 1 as [|p out now opened r p' _ IH E|p out a c s _ IH Ha Hc|p out out' a now p' _ IH Hp E].
  - done.
  - destruct (getConnection_inv now opened p out IH) as (r' & p'' & E' & H).
    rewrite E in E'. injection E' as <- <-. destruct r; by destruct H as [H _].
  - destruct IH as (Hn & Hd & Hf & Ht). split_and!; simpl; try done.
    intros b. rewrite <- Hd. destruct (decide (a = b)) as [<-|Hne].
    + rewrite lookup_insert_eq, Hc. split; eauto.
    + by rewrite lookup_insert_ne.
  - apply (pool_inv_perm _ _ _ Hp) in IH. destruct (ReleasePtr_inv now a p out' IH) as (p'' & E' & H).
    rewrite E in E'. by injection E' as <-.
Qed.
End pool.

(** C36: the connection pool keeps its accounts, when each call of
    [getConnection] and each release is taken as one step (the source gives up
    the lock within them).  In every reachable state
    [m_total] is the number of connections alive (as an [int32_t]), which are
    the idle ones and those handed out, each once; so [getConnection] never
    touches a deleted connection, never hands out one that is in use, and
    gives either an idle one that is connected and not expired or a newly
    opened one; and releasing a handed-out connection always succeeds. *)
Theorem pool_accounts {S} (s_connected : S → bool) host vhost https port size alive reqs p out :
  pool_reach s_connected (HttpConnectionPool_new host vhost https port size alive reqs) p out →
  (∃ l, NoDup l ∧ l = m_conns p ++ out ∧ m_total p = s32 (zlen l) ∧
     ∀ a, is_Some (p_heap p !! a) ↔ a ∈ l) ∧
  (∀ now opened, ∃ r p', getConnection s_connected now opened p = Ret (r, p') ∧
     (r = None → opened = None) ∧
     ∀ a, r = Some a → a ∉ out ∧ ∃ c, p_heap p' !! a = Some c ∧
       ((s_connected (c_stream c) = true ∧ now <= alive_until c p) ∨
        (opened = Some (c_stream c) ∧ m_createTime c = now ∧ m_request c = 0))) ∧
  (∀ now a, a ∈ out → ∃ p', ReleasePtr s_connected now a p = Ret p').
Proof.
  intros Hr. assert (pool_inv p out) as Hinv.
  { eapply pool_reach_inv; [|exact Hr]. split_and!; simpl; try done; [constructor| |].
    - intros a. rewrite lookup_empty. split; [by intros []|by intros ?%elem_of_nil].
    - by intros a ?%elem_of_nil. }
  split_and!.
  - destruct Hinv as (Hn & Hd & _ & Ht). by exists (m_conns p ++ out).
  - intros now opened. destruct (getConnection_inv s_connected now opened p out Hinv) as (r & p' & E & H).
    exists r, p'. split; [done|]. split; [by intros ->; destruct H|].
    intros a ->. destruct H as [(Hn & _) Hc]. split; [|done].
    apply NoDup_app in Hn as (_ & _ & Hn). by apply NoDup_cons in Hn as [? _].
  - intros now a Ha. apply elem_of_Permutation in Ha as [out' Hp].
    destruct (ReleasePtr_inv s_connected now a p out') as (p' & E & _); [|eauto].
    by eapply pool_inv_perm.
Qed.

(** The size of the pool is not enforced.  When no idle connection is
    left, [getConnection] opens one more whatever [m_maxSize] is, so a program
    that takes connections without releasing them has as many as it takes. *)
Theorem pool_size_unenforced {S} (s_connected : S → bool) host vhost https port size alive reqs
    (now : Z) (s : S) n :
  ∃ p out, pool_reach s_connected (HttpConnectionPool_new host vhost https port size alive reqs) p out ∧
    m_maxSize p = size ∧ length out = n ∧ m_conns p = [] ∧ m_total p = s32 (Z.of_nat n).
Proof.
  induction n as [|n (p & out & Hr & Hs & Hl & Hc & Ht)].
  - eexists _, []. split; [constructor|]. done.
  - destruct p as [h v i po ms ma mr cs tot heap fr]. simpl in *. subst.
    eexists _, _. split; [eapply reach_get with (now := now) (opened := Some s); [exact Hr|reflexivity]|].
    simpl. split_and!; try done. rewrite Z.sub_0_r.
    replace (s32 (s32 (Z.of_nat (length out)))) with (s32 (Z.of_nat (length out))).
    + rewrite s32_add_l. f_equal. lia.
    + pose proof (s32_add_l (Z.of_nat (length out)) 0) as H. by rewrite !Z.add_0_r in H.
Qed.

Example pool_accounts_witness :
  let p0 := HttpConnectionPool_new (S := bool) [] [] false 80 1 1000 10 in
  ∃ p out, pool_reach id p0 p out ∧ out = [0] ∧
  (∃ l, NoDup l ∧ l = m_conns p ++ out ∧ m_total p = s32 (zlen l) ∧
     ∀ a, is_Some (p_heap p !! a) ↔ a ∈ l) ∧
  (∀ now opened, ∃ r p', getConnection id now opened p = Ret (r, p') ∧
     (r = None → opened = None) ∧
     ∀ a, r = Some a → a ∉ out ∧ ∃ c, p_heap p' !! a = Some c ∧
       ((id (c_stream c) = true ∧ now <= alive_until c p) ∨
        (opened = Some (c_stream c) ∧ m_createTime c = now ∧ m_request c = 0))) ∧
  (∀ now a, a ∈ out → ∃ p', ReleasePtr id now a p = Ret p').
Proof.
  cbv zeta. set (p0 := HttpConnectionPool_new [] [] false 80 1 1000 10).
  assert (∃ p, getConnection id 5 (Some true) p0 = Ret (Some 0, p)) as [p E] by (eexists; reflexivity).
  exists p, [0].
  assert (pool_reach id p0 p [0]) as Hr.
  { change [0] with (option_list (Some 0) ++ []). eapply reach_get; [constructor|exact E]. }
  split; [exact Hr|]. split; [reflexivity|].
  apply (pool_accounts id [] [] false 80 1 1000 10 p [0]). exact Hr.
Defined.
