(* ===== verification/HttpUrlProps.v ===== *)
(** * From a URL to the server's request

    The client of HttpConnection.v and the server of HttpSession.v, put
    together: what [HttpConnection::Request] makes of a URL, and what
    [HttpSession::recvRequest] makes of the text that it sends. *)

From Stdlib Require Import Ascii.
From S2P Require Import Prelude Endian RequestRoundtrip Util Http HttpProps Stream StreamProps Ragel RequestParser RequestParserProps HttpSession HttpSessionProps Explore Regex Uri UriParser UriParserProps HttpConnection HttpConnectionProps.

(** ** Characters *)

Lemma escaped_mono (ok ok' : ascii → bool) t :
  (∀ c, ok c = true → ok' c = true) → escaped ok t = true → escaped ok' t = true.
Proof.
  intros Hok. assert (∀ n t, (length t <= n)%nat → escaped ok t = true → escaped ok' t = true) as H;
    [|by apply (H (length t))].
  induction n as [|n IH]; intros [|c u] Hn; try done; [simpl in Hn; lia|]. cbn [escaped].
  destruct (code c =? 37).
  - destruct u as [|a [|b u]]; [done..|]. rewrite !andb_true_iff. intros [[Ha Hb] Hu].
    split_and!; [done..|]. apply IH; [simpl in Hn; lia|done].
  - rewrite !andb_true_iff. intros [Hc Hu]. split; [by apply Hok|]. apply IH; [simpl in Hn; lia|done].
Qed.

Lemma server_chars :
  (∀ c, RequestRoundtrip.path_char c = true → UriParserProps.path_char c = true) ∧
  (∀ c, RequestRoundtrip.query_char c = true → UriParserProps.query_char c = true) ∧
  (∀ c, host_char c = true → value_char c && negb (blank_char c) = true).
Proof.
  assert (∀ p q : ascii → bool, forallb (λ c, negb (p c) || q c) all_ascii = true →
    ∀ c, p c = true → q c = true) as H.
  { intros p q Hpq c Hp. pose proof (forall_ascii _ Hpq c) as H. cbn beta in H. by rewrite Hp in H. }
  split_and!; apply H; vm_compute; reflexivity.
Qed.

(** ** The headers of the caller *)

Definition given_close (headers : list (txt * txt)) : bool :=
  forallb (λ '(k, v), negb (strcaseeq k (chars "connection") && strcaseeq v (chars "keep-alive"))) headers.

Lemma add_headers_find headers hasHost req k :
  folded k ≠ folded (chars "connection") →
  h_find k (q_headers (add_headers headers hasHost req).2) =
    match last_value k headers with Some v => Some v | None => h_find k (q_headers req) end.
Proof.
  intros Hk. revert hasHost req. induction headers as [|[n v] headers IH]; intros hasHost req;
    cbn [add_headers]; [done|]. rewrite last_value_cons. cbn [fst snd].
  destruct (strcaseeq n (chars "connection")) eqn:Hc.
  - apply bool_decide_eq_true_1 in Hc. rewrite IH, (bool_decide_eq_false_2 (folded k = folded n)) by congruence.
    destruct (last_value k headers); [done|]. by destruct (strcaseeq v _).
  - rewrite IH. destruct (last_value k headers); [done|].
    unfold q_setHeader. cbn [q_headers q_setHeaders]. rewrite h_find_put. by case_bool_decide.
Qed.
Lemma put_lines k v m : Forall line_ok m → line_ok (k, v) → Forall line_ok (h_put true k v m).
Proof.
  intros Hm [Hk Hv]. induction Hm as [|[n w] m [Hn Hw] Hm IH]; cbn [h_put];
    [by constructor; [split|constructor]|].
  destruct (CaseInsensitiveLess n k); [by constructor|]. destruct (CaseInsensitiveLess k n).
  - constructor; [by split|by constructor; [split|]].
  - by constructor; [split|].
Qed.
Lemma host_value host : host_ok host → value_ok host.
Proof.
  intros [Hne Hh]. rewrite forallb_forall in Hh.
  assert (∀ c, In c host → value_char c = true ∧ blank_char c = false) as H.
  { intros c Hc. apply Hh, (proj2 (proj2 server_chars)) in Hc. by rewrite andb_true_iff, negb_true_iff in Hc. }
  split; [apply forallb_forall; intros c Hc; by apply H|]. destruct host as [|c host]; [done|]. apply H. by left.
Qed.
Lemma add_headers_lines headers hasHost req :
  Forall line_ok headers → Forall line_ok (q_headers req) →
  Forall line_ok (q_headers (add_headers headers hasHost req).2).
Proof.
  intros Hl. revert hasHost req. induction Hl as [|[n v] headers Hl _ IH]; intros hasHost req Hr;
    cbn [add_headers]; [done|]. destruct (strcaseeq n _); apply IH; [by destruct (strcaseeq v _)|].
  by apply put_lines.
Qed.
Lemma add_headers_rest headers hasHost req :
  let q := (add_headers headers hasHost req).2 in
  q_close q = q_close req && given_close headers ∧ q_websocket q = q_websocket req ∧
  q_cookies q = q_cookies req ∧ q_version q = q_version req.
Proof.
  revert hasHost req. induction headers as [|[n v] headers IH]; intros hasHost req; cbn [add_headers].
  - cbn. by rewrite andb_true_r.
  - cbn [given_close forallb]. fold (given_close headers). destruct (strcaseeq n _) eqn:Hn.
    + destruct (IH hasHost (if strcaseeq v (chars "keep-alive") then q_setClose false req else req))
        as (-> & -> & -> & ->). destruct (strcaseeq v _); cbn; by rewrite ?andb_false_r.
    + by destruct (IH (if negb hasHost && strcaseeq n (chars "host") then negb (is_empty v) else hasHost)
        (q_setHeader n v req)) as (-> & -> & -> & ->).
Qed.

(** What the caller's headers may be: lines of a message, none that says the
    length of the body. *)
Definition caller_ok (e : txt * txt) : Prop :=
  line_ok e ∧ folded (fst e) ≠ folded (chars "content-length").
(** The host that the server is told: that of the caller's headers when one of
    them says a host that is not empty (the last of them then counts), else the
    host of the URL. *)
Definition given_host (headers : list (txt * txt)) : bool :=
  existsb (λ '(k, v), strcaseeq k (chars "host") && negb (is_empty v)) headers.
Definition sent_host (headers : list (txt * txt)) (host : txt) : txt :=
  if given_host headers then default host (last_value (chars "host") headers) else host.

Lemma last_value_none k l : Forall (λ e, folded (fst e) ≠ folded k) l → last_value k l = None.
Proof.
  induction 1 as [|e l He _ IH]; [done|]. rewrite last_value_cons, IH.
  by rewrite bool_decide_eq_false_2 by congruence.
Qed.
Lemma last_value_folded k k' l : folded k = folded k' → last_value k l = last_value k' l.
Proof.
  intros Hk. induction l as [|e l IH]; [done|]. by rewrite !last_value_cons, IH, Hk.
Qed.
Lemma given_host_value headers :
  given_host headers = true → is_Some (last_value (chars "host") headers).
Proof.
  induction headers as [|[k v] headers IH]; [done|]. unfold given_host. cbn [existsb].
  intros [H|H]%orb_true_iff; rewrite last_value_cons.
  - apply andb_true_iff in H as [Hk%bool_decide_eq_true_1 _]. destruct (last_value _ headers); [by eexists|].
    cbn [fst snd]. rewrite bool_decide_eq_true_2 by done. by eexists.
  - destruct (IH H) as [w ->]. by eexists.
Qed.
Lemma add_headers_told headers hasHost req :
  (add_headers headers hasHost req).1 = hasHost || given_host headers.
Proof.
  revert hasHost req. induction headers as [|[k v] headers IH]; intros hasHost req; cbn [add_headers].
  { by rewrite orb_false_r. }
  unfold given_host. cbn [existsb]. fold (given_host headers).
  destruct (strcaseeq k (chars "connection")) eqn:Hc.
  - rewrite IH. apply bool_decide_eq_true_1 in Hc.
    assert (strcaseeq k (chars "host") = false) as ->; [|done].
    apply bool_decide_eq_false_2. rewrite Hc. by vm_compute.
  - rewrite IH. by destruct hasHost, (strcaseeq k (chars "host")), (is_empty v).
Qed.

Section built.
Context (method : HttpMethod) (uri : Uri) (headers : list (txt * txt)) (body : txt).
Context (caller : Forall caller_ok headers).
Local Notation req := (build_request method uri headers body).
Local Notation bare :=
  (q_setFragment (m_fragment uri) (q_setQuery (m_query uri) (q_setPath (Uri.getPath uri)
    (q_setMethod method (HttpRequest_new 17 true))))).

Lemma built_eq :
  req = q_setBody body (if given_host headers then (add_headers headers false bare).2
                        else q_setHeader (chars "Host") (m_host uri) (add_headers headers false bare).2).
Proof.
  unfold build_request. pose proof (add_headers_told headers false bare) as H.
  destruct (add_headers headers false bare) as [b q]. simpl in H. subst b.
  by destruct (given_host headers).
Qed.
Lemma built_find k :
  folded k ≠ folded (chars "connection") →
  h_find k (q_headers req) =
    if bool_decide (folded k = folded (chars "host")) then Some (sent_host headers (m_host uri))
    else last_value k headers.
Proof.
  intros Hk. rewrite built_eq. unfold sent_host. destruct (given_host headers) eqn:Hg.
  - cbn [q_headers q_setBody]. rewrite add_headers_find by done. case_bool_decide as Hh.
    + destruct (given_host_value headers Hg) as [v Hv]. by rewrite (last_value_folded k _ headers Hh), Hv.
    + by destruct (last_value k headers).
  - unfold q_setHeader. cbn [q_headers q_setBody q_setHeaders].
    rewrite h_find_put. change (folded (chars "Host")) with (folded (chars "host")).
    case_bool_decide; [done|]. rewrite add_headers_find by done. by destruct (last_value k headers).
Qed.
Lemma built_rest :
  q_close req = given_close headers ∧ q_websocket req = false ∧ q_cookies req = [] ∧ q_version req = 17.
Proof.
  rewrite built_eq. destruct (add_headers_rest headers false bare) as (Hc & Hw & Hk & Hv).
  destruct (given_host headers);
    cbn [q_close q_websocket q_cookies q_version q_setBody q_setHeader q_setHeaders] in *; by rewrite Hc.
Qed.

Lemma built_renderable :
  (∃ i m, s_method_string !! i = Some m ∧ m ≠ "M - SEARCH"%string ∧ method = Z.of_nat i) →
  host_ok (m_host uri) → RequestRoundtrip.path_ok (Uri.getPath uri) → query_ok (m_query uri) →
  query_ok (m_fragment uri) → renderable req.
Proof.
  intros Hm [Hne Hh] Hp Hq Hf.
  destruct (built_request method uri headers body) as (_ & _ & Hwf & Em & _ & Ep & Eq & Ef).
  destruct built_rest as (_ & Hw & Hc & Hv). split.
  - by rewrite Em.
  - by right.
  - done.
  - by rewrite Ep.
  - by rewrite Eq.
  - by rewrite Ef.
  - done.
  - assert (Forall line_ok (q_headers (add_headers headers false bare).2)).
    { apply add_headers_lines; [|constructor]. by apply (Forall_impl _ _ _ caller); intros e (He & _). }
    rewrite built_eq. destruct (given_host headers); [done|]. apply put_lines; [done|].
    split; [by apply name_ok_chars|]. apply host_value; done.
  - rewrite built_find by (by vm_compute). rewrite bool_decide_eq_false_2 by (by vm_compute).
    apply last_value_none. by apply (Forall_impl _ _ _ caller); intros e (_ & He).
  - done.
Qed.
End built.

(** ** The whole way *)

Definition url_uri (scheme : txt) (userinfo : option txt) (host : txt) (port : option txt) (path : txt)
    (query fragment : option txt) : Uri :=
  mkUri scheme (given userinfo) host (from_option (digits 0) 0 port) path (given query) (given fragment).
(** The parts of a URL whose path, query and fragment are what the server's
    grammar takes: the characters of RFC 3986 with percent escapes. *)
Record url_ok (scheme : txt) (userinfo : option txt) (host : txt) (port : option txt) (path : txt)
    (query fragment : option txt) : Prop := {
  url_scheme : scheme_ok scheme;
  url_userinfo : userinfo_ok userinfo;
  url_host : host_ok host;
  url_port : port_ok port;
  url_path : path = [] ∨ RequestRoundtrip.path_ok path;
  url_query : query_ok (given query);
  url_fragment : query_ok (given fragment)
}.

Lemma url_parsed scheme userinfo host port path query fragment :
  url_ok scheme userinfo host port path query fragment →
  UriParser.Create (absolute scheme userinfo host port path query fragment) =
    Ret (Some (url_uri scheme userinfo host port path query fragment)).
Proof.
  intros []. destruct server_chars as (Hp & Hq & _). apply absolute_parsed; [done..| |].
  - destruct url_path0 as [->|(t & -> & Ht & _)]; [by left|right]. exists t. split; [done|].
    by apply (escaped_mono RequestRoundtrip.path_char).
  - split; intros t ->; by apply (escaped_mono RequestRoundtrip.query_char).
Qed.

(** C3: what a client asks for is what the server is asked.  For a URL with
    the parts of [url_ok], [Uri::Create] gives these parts, and the request
    that [HttpConnection::Request] builds for it, with a body, any method of the
    table but the misspelt M-SEARCH, and headers of the caller that are lines
    of a message and none of which says the content-length, has a text.  When
    one read of a server's session gives that text, [recvRequest] returns a
    request with this method, the path of the URL (a slash if it has none), its
    query and fragment, the body, and the caller's headers, the last of those
    with the same name.  Its host header is the host of the URL, unless the
    caller's headers say a host that is not empty: then it is the caller's.  The
    connection is kept exactly if the caller asked for it. *)
Theorem url_reaches_server {S} `{StreamOps S} junk cast bufsize can_alloc (s_close : S → res S) fuel
    scheme userinfo host port path query fragment i m headers body :
  url_ok scheme userinfo host port path query fragment →
  s_method_string !! i = Some m → m ≠ "M - SEARCH"%string → Forall caller_ok headers →
  (body ≠ [] → cast (dec (zlen body)) = Some (zlen body) ∧ can_alloc (zlen body) = true) →
  let uri := url_uri scheme userinfo host port path query fragment in
  UriParser.Create (absolute scheme userinfo host port path query fragment) = Ret (Some uri) ∧
  ∃ text, q_dump (build_request (Z.of_nat i) uri headers body) = Ret text ∧
    ∀ s s', zlen text <= bufsize < 2 ^ 31 → s_read bufsize s = Ret (zlen text, bytes_of text, s') →
    ∃ q, recvRequest junk cast bufsize can_alloc s_close (Datatypes.S fuel) s = Ret (Some q, s') ∧
      q_method q = Z.of_nat i ∧ q_path q = (if is_empty path then chars "/" else path) ∧
      q_query q = given query ∧ q_fragment q = given fragment ∧ q_body q = body ∧
      q_close q = given_close headers ∧ h_find (chars "host") (q_headers q) = Some (sent_host headers host) ∧
      ∀ k, folded k ≠ folded (chars "connection") → folded k ≠ folded (chars "content-length") →
        folded k ≠ folded (chars "host") → h_find k (q_headers q) = last_value k headers.
Proof.
  intros Hu Hi Hne Hl Hc uri. split; [by apply url_parsed|].
  set (req := build_request (Z.of_nat i) uri headers body).
  assert (renderable req) as Hr.
  { destruct Hu. apply built_renderable; try done; [by exists i, m|].
    unfold Uri.getPath. simpl. destruct url_path0 as [-> | Hp]; [by exists []|].
    destruct Hp as (t & -> & Hp). simpl. by exists t. }
  destruct (built_request (Z.of_nat i) uri headers body) as (_ & _ & _ & Hm & Hb & Hp & Hq & Hf).
  destruct (built_rest (Z.of_nat i) uri headers body) as (Hcl & _). fold req in Hm, Hb, Hp, Hq, Hf, Hcl.
  exists (header_text m req ++ q_body req). pose proof (q_dump_text req i m Hr Hi Hm) as Hd.
  split; [done|]. intros s s' Hz Hs.
  destruct (request_parsed_back junk cast bufsize can_alloc s_close fuel s s' req _ Hr Hd Hz Hs)
    as (q & E & (Em & _ & Ep & Eq & Ef & Eb & Ec) & Hfind); [by rewrite Hb|].
  exists q. split; [done|]. split_and!; try congruence.
  - by rewrite Ep, Hp.
  - by rewrite Eq, Hq.
  - by rewrite Ef, Hf.
  - rewrite Hfind, !bool_decide_eq_false_2 by (by vm_compute). cbn [andb].
    unfold req. rewrite built_find by (done || by vm_compute). by rewrite bool_decide_eq_true_2.
  - intros k H1 H2 H3. rewrite Hfind, !bool_decide_eq_false_2 by done. cbn [andb].
    unfold req. rewrite built_find by done. by rewrite bool_decide_eq_false_2.
Qed.

Definition sent_text : txt :=
  chars "POST /a/%41?x=1 HTTP/1.1" ++ crlf ++ chars "connection: close" ++ crlf ++
  chars "Accept: */*" ++ crlf ++ chars "Host: www.a.org" ++ crlf ++
  chars "content-length: 2" ++ crlf ++ crlf ++ chars "ab".
Definition sent_stream : SocketStream script :=
  mkSocketStream (Some (mkScript [bytes_of sent_text] [])) true.
Definition demo_headers : list (txt * txt) := [(chars "Accept", chars "*/*")].

Lemma demo_url_ok :
  url_ok (chars "http") None (chars "www.a.org") (Some (chars "8080")) (chars "/a/%41") (Some (chars "x=1")) None.
Proof.
  split.
  - by eexists _, _.
  - intros w [=].
  - done.
  - by intros d [= <-].
  - right. by exists (chars "a/%41").
  - reflexivity.
  - reflexivity.
Qed.

Lemma url_reaches_server_witness :
  ∃ q, recvRequest zero_request_parser cast_2 4096 (λ n, n <? 100) Stream.close 1
         sent_stream = Ret (Some q, sample_stream') ∧
    q_path q = chars "/a/%41" ∧ h_find (chars "host") (q_headers q) = Some (chars "www.a.org") ∧
    h_find (chars "accept") (q_headers q) = Some (chars "*/*") ∧ q_close q = true.
Proof.
  destruct (url_reaches_server zero_request_parser cast_2 4096 (λ n, n <? 100) Stream.close 0
    (chars "http") None (chars "www.a.org") (Some (chars "8080")) (chars "/a/%41") (Some (chars "x=1")) None
    3 "POST" demo_headers (chars "ab")) as (_ & text & E & H).
  - exact demo_url_ok.
  - reflexivity.
  - discriminate.
  - constructor; [|constructor]. repeat split; by vm_compute.
  - intros _. split; reflexivity.
  - assert (text = sent_text) as ->
      by (vm_compute in E; injection E as <-; vm_compute; reflexivity).
    destruct (H sent_stream sample_stream')
      as (q & Eq & _ & Hp & _ & _ & _ & Hc & Hh & Hk).
    + vm_compute. split; [discriminate|reflexivity].
    + vm_compute. reflexivity.
    + exists q. split; [exact Eq|]. split; [exact Hp|]. split; [exact Hh|]. split; [|exact Hc].
      rewrite (Hk (chars "accept")); vm_compute; [reflexivity|discriminate..].
Defined.
